(* ===== verification/_CoqProject ===== *)
-Q . S2P
Prelude.v
Words.v
Hash.v
PackedData.v
LudoSlot.v
LruCache.v
ServerRdma.v
ServerInv.v
ServerProps.v
OthelloMem.v
Forest.v
UnionFind.v
LudoTable.v
LudoInv.v
LudoProps.v
LudoGrow.v
LudoCuckoo.v
LudoInsert.v
LudoLoad.v
LudoDP.v
OthelloCP.v
OthelloInv.v
OthelloBuild.v
OthelloOps.v
OthelloRemove.v
OthelloLocator.v
OthelloProps.v
OthelloSync.v
NumaTable.v
NumaTransport.v
ServerNuma.v
Replay.v
Resize.v
ResizeInv.v
ResizeProps.v
ClientNuma.v
ClientProps.v
ServerSetup.v
Rpc.v
ClientRdma.v
RdmaCall.v
RdmaProps.v
RdmaSystem.v
RdmaSetup.v
AtomicRW.v
