(* ===== verification/Prelude.v ===== *)
(** * Outback over CXL/NUMA shared memory: a verification development

    Outback is a key-value store with a decoupled index.  Clients hold the
    lookup structure (a Ludo data plane: an Othello locator and one seed byte
    per bucket), which maps a key to a row and a slot; the memory server holds
    the index cells (four per row), the entry array, and, on the NUMA variant,
    the lock bytes, all in a shared region that clients map.  A background
    orchestrator on the server replaces the region by one of twice the size.

    ** The files

    Each file opens with what it holds and the source it follows.

    - Prelude: faults and the error monad [res], reads and writes of vectors,
      list lemmas, the tactics and hint databases of the development.
    - Words: machine words as [Z] with the wrap-around written out, bit fields,
      [align_up].
    - Hash: lookup3 and [FastHasher64] (deps/ludo/hashutils/hashutil.cc, hash.h).
    - PackedData, LudoSlot, LruCache: the entry array, the index cells and the
      LRU cache (outback/packed_data.hh, ludo_slot.hh, cache.hh).
    - ServerRdma, ServerInv, ServerProps: the RPC callbacks of the RDMA server
      (outback/outback_server.hh), the invariant of its table, its properties.
    - OthelloMem: the packed value array, farmhash of an 8-byte key and the
      Othello data plane (deps/ludo/tables/othello_cp_dp.h).
    - LudoTable, LudoInv, LudoProps, LudoGrow: the Ludo control plane, a (2,4)
      cuckoo table with a seed per bucket (deps/ludo/ludo_cp_dp.h), over the
      interface [Locator] of its Othello with the laws [LocatorOk].
      LudoCuckoo: its breadth-first search for a cuckoo path.  LudoInsert: the
      moves along a path.  LudoLoad: insertion in full, and loading.
    - LudoDP: the Ludo data plane and its construction from the control plane.
    - Forest, UnionFind: acyclic graphs with the depth-first traversal that five
      functions of the Othello share, and the disjoint set
      (deps/ludo/tables/disjointset.h).
    - OthelloCP, OthelloInv, OthelloBuild, OthelloOps, OthelloRemove: the Othello
      control plane (deps/ludo/tables/othello_cp_dp.h), its invariant, building,
      lookups and insertion, removal.  OthelloLocator: it keeps the laws
      [LocatorOk].  OthelloProps, OthelloSync: its properties, and data planes
      kept in step with it.
    - NumaTable: the index and entry array as the NUMA side uses them, a map
      from cells to items.
    - NumaTransport: names of shared-memory objects, the registry, regions and
      byte locks (xcomm/src/transport/numa_transport.hh).
    - ServerNuma: the direct operations of the NUMA server
      (outback/outback_server_numa.hh), over the interface [Intercept] of the
      orchestrator.
    - Replay, Resize, ResizeInv, ResizeProps: the resize orchestrator
      (outback/outback_resize.hh).
    - ClientNuma, ClientProps: a client thread of the NUMA variant
      (outback/outback_client_numa.hh).
    - ServerSetup: start and stop of the NUMA server
      (benchs/outback/server_numa.cc).
    - Rpc: marshalling, messages, the reply station and the RPC core
      (xutils/marshal.hh, xcomm/src/rpc, xcomm/src/transport/rdma_ud_t.hh).
    - ClientRdma, RdmaCall, RdmaProps: the RDMA client (outback/outback_client.hh),
      the server's side of its messages, and its calls with nothing else under
      way.  RdmaSystem: its coroutines interleaved.
    - RdmaSetup: how the RDMA server and its client start
      (benchs/outback/server.cc, client.cc).
    - AtomicRW: versioned objects and their consistent reads
      (xcomm/src/atomic_rw).

    ** How the model corresponds to the code

    Data are as in the code: a [uint8_t], [uint32_t] or [uint64_t] is a [Z] with
    [u8], [u32], [u64] written where the code wraps; a [std::vector] or array is
    a list that [rd] and [wr] access, which fault with [OutOfBounds] where C++ is
    undefined; a struct is a record with the source's field names.  A function
    of the code is one definition; what it throws, asserts or exits with is an
    [Err] of the matching fault.  Memory that several wrappers or processes
    share (entry arrays, index arrays, registry, regions) is a value of its own
    that operations take and return, and a pointer into a region is the version
    it was mapped for, or dangling, so that aliasing is explicit.

    Concurrency is modelled where a claim depends on it: the reads of
    [lookUp] and [lookup_slot] may see different states and the writer makes one
    shared access at a time (OthelloMem); byte locks are a step relation
    (NumaTransport); the coroutines of an RDMA client, its messages on their way
    and the scheduler are one too (RdmaSystem); a writer of a versioned object
    makes one store at a time between the loads of a reader (AtomicRW); the
    steps of the orchestrator, the server's deferrals and the clients' registry
    accesses interleave in any order (ResizeInv).
    A copy is two steps: the first ends with the state COPYING, the second does
    the rest of [do_copy], and deferrals and the clients' accesses to the registry
    may come in between; the stores of the second one are not
    interleaved with others.  A handler that holds a mutex over its whole body
    is one step; so is [set_state] with its three stores, [drain_old], and an
    operation of the servers, though the counter of the entry array is shared
    by rows with different mutexes.  What one-sided clients write into the old
    region during the copy is not modelled.

    Bounds: [OutOfFuel] is the model's, not the program's.  Loops over arrays,
    lists and slots are structural.  [CuckooInsert]'s search and
    [updateSeed]'s loop have the bounds the code gives them.  The mutual
    recursion [insert], [resizeCapacity], [build] of the Ludo control plane, which
    the code repeats until a seed works, takes a fuel; the theorems about it
    cover free slots, cuckoo paths and growth by a power of two, not a rebuild
    with a new hash seed, which [rand_pos], the number of drawn seeds, shows;
    one unit of fuel is enough for an insertion with room.  The Othello's traversals take as many rounds
    as it has cells, which is enough on every well-formed state
    ([half_tree_exact]); its [build] draws seeds from the list [rands] until one
    works, and runs out of fuel exactly when the list is used up.  Readings of the clock are arguments
    ([clk i] is the [i]-th in a handler), as are [rand()] (a stream), what the
    operating system answers ([os_env]), and the contents [junk] of the
    uninitialised struct of [PackedData]'s constructor.  The doubles of load
    factors and of the Othello's sizes are modelled exactly; the two thresholds of a resize, products of
    doubles from flags, are arguments.

    ** What the theorems show

    - RDMA server: any completed sequence of requests of in-sync clients runs
      like a finite map with overflow ([requests_refine_map]); each callback on
      every branch ([put_correct], [update_correct], [remove_correct]); the only
      failures of a PUT ([put_only_exits], [put_existing_exits]).
    - RDMA client and RPC: messages round trip ([message_roundtrip]); calls
      through the whole path are a run of a map that keeps the client's seeds
      equal to the server's ([remote_calls_refine_map],
      [remote_put_then_search]); with any interleaving of coroutines nothing is
      lost, nothing faults but by [exit], and the seeds converge
      ([seeds_converge]); what goes wrong: a search that overlaps a reseeding
      (one run of it: [overlapping_search_wrong]), every remove ([remote_remove_fails]), a
      request that overtakes its Connect ([request_before_connect]).
    - Versioned objects: a consistent ordered copy is a state the object had,
      whatever stores overlap it ([ordered_read_atomic]); the retries have no
      limit ([atomic_read_never_gives_up]) and a version wraps to the invalid
      one ([version_wraps]).
    - Data structures: the LRU cache implements an association list and its
      limit ([cache_insert_correct]); cells and packed arrays round trip
      ([cell_roundtrip], [packed_array_correct]); the alignment paths of lookup3
      agree ([BobHash_alignment]).
    - Lookup structures: exactness of the control plane's lookup, removal,
      change and insertion ([cp_lookUp_correct], [remove_exact],
      [changeValue_exact]); the search for a cuckoo path ends within its queue
      and an insertion along it stores exactly its pair ([insert_exact],
      [insert_with_room]); growing keeps the contents ([powerSize_correct]);
      a loaded table that was not rebuilt holds exactly what was inserted
      ([load_exact]); the data plane and the cells built from it lead
      every key to its value ([bulk_load_agrees]); version bytes make lookups
      atomic ([lookup_linearizable]); lookups stay in bounds
      ([lookup_slot_total]).
    - Othello: any run of operations is a run of a map ([othello_ops_refine]);
      removal ([othello_remove_exact]); traversals end and visit exactly the
      half tree ([half_tree_exact]); the cells an update reports bring a copy up
      to date ([reported_update_exact]); with it as the locator the data plane
      of a Ludo table serves every key ([bulk_load_othello]); and what [clear]
      leaves ([clear_then_insert_loops]).
    - Transport: names determine what they name, locks exclude
      ([numa_region_name_inj], [make_numa_server_name_safe],
      [byte_lock_exclusion]).
    - NUMA server: direct operations ([put_direct_effect],
      [located_ops_effect]), and their deferral ([mutations_deferred]).
    - Resize: the invariant and the transitions for every interleaving
      ([resize_invariant], [resize_transitions]), the layout of regions
      ([region_layout_sound]), what the copy leaves and loses
      ([do_copy_effect]), the replay ([replay_insert_effect],
      [replay_delete_exact], [drain_complete]), that a resize ends
      ([resize_completes]) and that the next one follows at once
      ([resize_retriggers]).
    - NUMA client: lanes never give an index twice ([alloc_disjoint]); search
      and put ([numa_search_exact], [numa_put_effect], [put_then_search]); all
      client operations preserve the orchestrator's invariant
      ([client_ops_refine]).
    - Start: after it every loaded key is found and the orchestrator's
      invariant holds ([setup_serves]); RDMA server and client that load the
      same keys have the same seeds, and every search through the RPC path
      finds its key ([rdma_start_serves]).

    Some theorems state what the code does where that is not what a comment or
    the plan says: [do_copy_effect] (the copied entries are overwritten),
    [second_put_is_lost], [failed_remap_dangles], [cleanup_leaves_region],
    [resize_retriggers].

    ** Not modelled

    - The hash functions the index does not use (farmhash for other lengths,
      xxhash, MurmurHash, SuperFastHash, Crc8).
    - Under the RPC layer: queue pairs, completions and memory regions (deps/rlib,
      deps/r2), the ring transport, and the RDMA operations of
      xcomm/src/atomic_rw and batch_rw_op.hh, which only post verbs.  Sending is
      assumed to succeed; both directions of a connection keep the order.
    - The seed array of outback/ludo_seed.hh and the cuckoo table of
      deps/ludo/tables/cuckoo_ht.h, which nothing instantiates.
    - Printing, signal handling, threads' creation, [munmap] and [close] as
      system calls; the flags, threads and measurements of the drivers under
      benchs/.
    - The baselines the paper compares with (race, mica, drtmr, rolex) and the
      vendored libraries under deps, among them ALEX and the B-tree in drtmr. *)

From stdpp Require Import base list gmap numbers.
From Stdlib Require Import ZArith Lia.


Declare Scope outback_scope.
Delimit Scope outback_scope with outback.

(** ** Faults and the error monad

    A C++ expression of the program either yields a value or leaves the
    behaviour the model describes: an out-of-range memory access (undefined
    behaviour), a call of [exit], a failed [ASSERT]/[assert], a thrown
    exception, or a dereference of a null pointer.  [OutOfFuel] is not an
    outcome of the program: a recursion of the model reached its bound. *)

Inductive fault : Type :=
  | OutOfBounds
  | ProcessExit
  | AssertFailed
  | Thrown
  | NullDeref
  | OutOfFuel.

#[export] Instance fault_eq_dec : EqDecision fault.
Proof. solve_decision. Defined.

Inductive res (A : Type) : Type :=
  | Ok (a : A)
  | Err (e : fault).
Arguments Ok {A} a.
Arguments Err {A} e.

#[export] Instance res_ret : MRet res := fun A a => Ok a.
#[export] Instance res_bind : MBind res :=
  fun A B f m => match m with Ok a => f a | Err e => Err e end.
#[export] Instance res_fmap : FMap res :=
  fun A B f m => match m with Ok a => Ok (f a) | Err e => Err e end.
#[export] Instance res_eq_dec {A} `{EqDecision A} : EqDecision (res A).
Proof. solve_decision. Defined.

(** [guard_ok b e] continues when [b] holds and faults with [e] otherwise. *)
Definition guard_ok (b : bool) (e : fault) : res unit :=
  if b then Ok tt else Err e.

Definition is_ok {A} (m : res A) : bool :=
  match m with Ok _ => true | Err _ => false end.

(** Used instead of [injection], which normalises its result. *)
Lemma Ok_inj {A} (a b : A) : Ok a = Ok b -> a = b.
Proof. congruence. Qed.

Lemma bind_Ok {A B} (f : A -> res B) (m : res A) (b : B) :
  m ≫= f = Ok b <-> exists a, m = Ok a /\ f a = Ok b.
Proof. destruct m; split; naive_solver. Qed.

Lemma bind_Ok_l {A B} (f : A -> res B) (a : A) : Ok a ≫= f = f a.
Proof. reflexivity. Qed.

Lemma mapM_Ok {A B} (f : A -> res B) (l : list A) (k : list B) :
  mapM f l = Ok k <-> Forall2 (fun x y => f x = Ok y) l k.
Proof.
  revert k. induction l as [|x l IH]; intros k; simpl.
  - split; [intros [= <-]; constructor|by inversion_clear 1].
  - rewrite bind_Ok. setoid_rewrite bind_Ok. split.
    + intros (y & Hy & k' & Hk' & [= <-]). constructor; [done|by apply IH].
    + inversion_clear 1. eexists; split; [done|]. eexists; split; [by apply IH|done].
Qed.

Lemma list_bind_fmap {A B C} (f : A -> list B) (g : B -> C) (l : list A) :
  g <$> (l ≫= f) = l ≫= (fun x => g <$> f x).
Proof.
  induction l as [|x l IH]; [done|]. cbn. rewrite fmap_app. f_equal. exact IH.
Qed.

(** A [for] loop over the elements of [l] with state [a]. *)
Fixpoint foldM {A B} (f : A -> B -> res A) (l : list B) (a : A) : res A :=
  match l with [] => Ok a | x :: l => a' ← f a x; foldM f l a' end.

Lemma foldM_app {A B} (f : A -> B -> res A) l1 l2 a :
  foldM f (l1 ++ l2) a = (a' ← foldM f l1 a; foldM f l2 a').
Proof.
  revert a. induction l1 as [|x l1 IH]; intros a; simpl; [done|].
  destruct (f a x); simpl; [apply IH|done].
Qed.

(** A loop invariant indexed by the elements already done. *)
Lemma foldM_inv {A B} (I : list B -> A -> Prop) (f : A -> B -> res A) l a :
  I [] a ->
  (forall pre x post a, l = pre ++ x :: post -> I pre a ->
     exists a', f a x = Ok a' /\ I (pre ++ [x]) a') ->
  exists a', foldM f l a = Ok a' /\ I l a'.
Proof.
  intros H0 Hstep. cut (forall pre post a, l = pre ++ post -> I pre a ->
    exists a', foldM f post a = Ok a' /\ I l a').
  { intros H. by apply (H [] l a). }
  clear a H0. intros pre post. revert pre.
  induction post as [|x post IH]; intros pre a Hl Ha; simpl.
  - rewrite app_nil_r in Hl. subst. eauto.
  - destruct (Hstep pre x post a Hl Ha) as (a1 & -> & Ha1). cbn [mbind res_bind].
    apply (IH (pre ++ [x])); [|done]. by rewrite <-(assoc_L (++)).
Qed.

Lemma guard_ok_Ok b e u : guard_ok b e = Ok u <-> b = true.
Proof. destruct b, u; simpl; naive_solver. Qed.

(** ** Indexing with a machine integer

    [rd l i] is [l[i]], [wr l i v] is [l[i] = v]; an index outside the
    list is undefined behaviour in the source and [OutOfBounds] here. *)

Definition in_range {A} (l : list A) (i : Z) : bool :=
  ((0 <=? i) && (i <? Z.of_nat (length l)))%Z.

Definition rd {A} (l : list A) (i : Z) : res A :=
  if in_range l i
  then match l !! Z.to_nat i with Some x => Ok x | None => Err OutOfBounds end
  else Err OutOfBounds.

Definition wr {A} (l : list A) (i : Z) (v : A) : res (list A) :=
  if in_range l i then Ok (<[Z.to_nat i := v]> l) else Err OutOfBounds.

#[local] Open Scope Z_scope.

Section indexing.
Context {A : Type}.
Implicit Types (l : list A) (i j : Z) (x v : A).

Lemma in_range_spec l i :
  in_range l i = true <-> 0 <= i < Z.of_nat (length l).
Proof. unfold in_range. rewrite andb_true_iff, Z.leb_le, Z.ltb_lt. lia. Qed.

Lemma rd_Ok l i x :
  rd l i = Ok x <-> 0 <= i /\ l !! Z.to_nat i = Some x.
Proof.
  unfold rd. destruct (in_range l i) eqn:E.
  - apply in_range_spec in E. destruct (l !! Z.to_nat i); naive_solver lia.
  - split; [done|]. intros [H1 H2]. apply lookup_lt_Some in H2.
    assert (in_range l i = true) by (apply in_range_spec; lia). congruence.
Qed.

Lemma wr_Ok l i v l' :
  wr l i v = Ok l' <->
  0 <= i < Z.of_nat (length l) /\ l' = <[Z.to_nat i := v]> l.
Proof.
  unfold wr. destruct (in_range l i) eqn:E.
  - apply in_range_spec in E. naive_solver.
  - split; [done|]. intros [H1 H2]. apply in_range_spec in H1. congruence.
Qed.

Lemma rd_in_range l i : 0 <= i < Z.of_nat (length l) -> exists x, rd l i = Ok x.
Proof.
  intros H. destruct (lookup_lt_is_Some_2 l (Z.to_nat i)) as [x Hx]; [lia|].
  exists x. apply rd_Ok. split; [lia|done].
Qed.

Lemma wr_in_range l i v : 0 <= i < Z.of_nat (length l) ->
  wr l i v = Ok (<[Z.to_nat i := v]> l).
Proof. intros H. by apply wr_Ok. Qed.

Lemma rd_range l i x : rd l i = Ok x -> 0 <= i < Z.of_nat (length l).
Proof. intros [H1 H2]%rd_Ok. apply lookup_lt_Some in H2. lia. Qed.

Lemma rd_wr_eq l i v l' : wr l i v = Ok l' -> rd l' i = Ok v.
Proof.
  intros [H ->]%wr_Ok. apply rd_Ok. split; [lia|].
  apply list_lookup_insert_eq. lia.
Qed.

Lemma rd_wr_ne l i j v l' : wr l i v = Ok l' -> i <> j -> rd l' j = rd l j.
Proof.
  intros [H ->]%wr_Ok Hne. unfold rd, in_range. rewrite length_insert.
  destruct (_ && _) eqn:E; [|done].
  apply andb_true_iff in E as [E1 E2]. apply Z.leb_le in E1.
  rewrite list_lookup_insert_ne by lia. done.
Qed.

Lemma wr_length l i v l' : wr l i v = Ok l' -> length l' = length l.
Proof. intros [H ->]%wr_Ok. apply length_insert. Qed.

(** A write never faults where a read does not, and conversely. *)
Lemma wr_is_ok_rd l i v : is_ok (wr l i v) = is_ok (rd l i).
Proof.
  unfold wr, rd. destruct (in_range l i) eqn:E; [|done].
  apply in_range_spec in E.
  destruct (lookup_lt_is_Some_2 l (Z.to_nat i)) as [x ->]; [lia|done].
Qed.
End indexing.

Arguments rd : simpl never.
Arguments wr : simpl never.

(** ** Automation

    [res_inv] takes apart every hypothesis that says that a monadic
    computation returned: binds, guards, and tests on booleans.  [bool_prop]
    turns boolean comparisons into propositions for [lia]. *)

Create HintDb outback discriminated.
#[export] Hint Rewrite @wr_Ok @rd_Ok @guard_ok_Ok : outback.

Ltac bool_prop :=
  repeat match goal with
  | H : (_ && _)%bool = true |- _ => apply andb_true_iff in H as [? ?]
  | H : (_ && _)%bool = false |- _ => apply andb_false_iff in H
  | H : (_ || _)%bool = true |- _ => apply orb_true_iff in H
  | H : (_ || _)%bool = false |- _ => apply orb_false_iff in H as [? ?]
  | H : negb _ = true |- _ => apply negb_true_iff in H
  | H : negb _ = false |- _ => apply negb_false_iff in H
  | H : (_ =? _)%Z = true |- _ => apply Z.eqb_eq in H
  | H : (_ =? _)%Z = false |- _ => apply Z.eqb_neq in H
  | H : (_ <? _)%Z = true |- _ => apply Z.ltb_lt in H
  | H : (_ <? _)%Z = false |- _ => apply Z.ltb_ge in H
  | H : (_ <=? _)%Z = true |- _ => apply Z.leb_le in H
  | H : (_ <=? _)%Z = false |- _ => apply Z.leb_gt in H
  end.

Ltac res_inv :=
  repeat match goal with
  | H : Ok _ = Ok _ |- _ => apply Ok_inj in H; try subst
  | H : (_, _) = (_, _) |- _ =>
      let H1 := fresh "H" in apply pair_equal_spec in H as [H H1]; try subst
  | H : Err _ = Ok _ |- _ => discriminate H
  | H : Ok _ = Err _ |- _ => discriminate H
  | H : mret _ = Ok _ |- _ => apply Ok_inj in H; try subst
  | H : _ ≫= _ = Ok _ |- _ =>
      apply bind_Ok in H;
      let a := fresh "a" in let H1 := fresh "H" in destruct H as (a & H1 & H);
      cbn beta in H
  | H : guard_ok _ _ = Ok ?u |- _ => apply guard_ok_Ok in H; try clear u
  end.

(** [const_tests] evaluates comparisons of numerals in the goal. *)
Ltac is_zconst x := lazymatch x with Z0 => idtac | Zpos _ => idtac | Zneg _ => idtac end.

(** [const_arith] evaluates sums and products of numerals in the goal. *)
Ltac const_arith :=
  repeat match goal with
  | |- context [(?a + ?b)%Z] => is_zconst a; is_zconst b;
      let r := eval compute in (a + b)%Z in change (a + b)%Z with r
  | |- context [(?a * ?b)%Z] => is_zconst a; is_zconst b;
      let r := eval compute in (a * b)%Z in change (a * b)%Z with r
  end.

Ltac const_tests :=
  repeat match goal with
  | |- context [(?a <? ?b)%Z] => is_zconst a; is_zconst b;
      let r := eval compute in (a <? b)%Z in change (a <? b)%Z with r
  | |- context [(?a <=? ?b)%Z] => is_zconst a; is_zconst b;
      let r := eval compute in (a <=? b)%Z in change (a <=? b)%Z with r
  | |- context [(?a =? ?b)%Z] => is_zconst a; is_zconst b;
      let r := eval compute in (a =? b)%Z in change (a =? b)%Z with r
  end; cbv iota.

(** [a ← m; b] for the monad is stdpp's; [wr2 l i j v] is [l[i][j] = v]. *)
Definition rd2 {A} (l : list (list A)) (i j : Z) : res A :=
  r ← rd l i; rd r j.

Definition wr2 {A} (l : list (list A)) (i j : Z) (v : A) : res (list (list A)) :=
  r ← rd l i; r' ← wr r j v; wr l i r'.

Section indexing2.
Context {A : Type}.
Implicit Types (l : list (list A)).

Lemma rd2_wr2_eq l i j v l' : wr2 l i j v = Ok l' -> rd2 l' i j = Ok v.
Proof.
  unfold wr2, rd2. intros H. res_inv. rewrite (rd_wr_eq _ _ _ _ H). simpl.
  eapply rd_wr_eq. eassumption.
Qed.

Lemma rd2_wr2_ne l i j v l' i' j' : wr2 l i j v = Ok l' ->
  (i, j) <> (i', j') -> rd2 l' i' j' = rd2 l i' j'.
Proof.
  unfold wr2, rd2. intros H Hne. res_inv. destruct (decide (i = i')) as [<-|Hi].
  - rewrite (rd_wr_eq _ _ _ _ H), H0. simpl.
    eapply rd_wr_ne; [eassumption|congruence].
  - by rewrite (rd_wr_ne _ _ _ _ _ H Hi).
Qed.

Lemma wr2_rows (P : list A -> Prop) l i j v l' : wr2 l i j v = Ok l' ->
  (forall r r', wr r j v = Ok r' -> P r -> P r') ->
  Forall P l -> Forall P l'.
Proof.
  unfold wr2. intros H Hstep Hl. res_inv. apply wr_Ok in H as [Hi ->].
  apply Forall_insert; [done|]. apply (Hstep a); [done|].
  apply rd_Ok in H0 as [_ H0]. by eapply Forall_lookup_1.
Qed.

Lemma wr2_length l i j v l' : wr2 l i j v = Ok l' -> length l' = length l.
Proof. unfold wr2. intros H. res_inv. by apply wr_length in H. Qed.
End indexing2.

(** Rows of a fixed width [n]: reads and writes in range do not fault. *)
Lemma rd2_in_range {A} (l : list (list A)) n i j :
  Forall (fun r => length r = n) l ->
  0 <= i < Z.of_nat (length l) -> 0 <= j < Z.of_nat n -> exists x, rd2 l i j = Ok x.
Proof.
  intros Hl Hi Hj. destruct (rd_in_range l i Hi) as [r Hr]. unfold rd2.
  rewrite Hr. simpl. apply rd_in_range. apply rd_Ok in Hr as [_ Hr].
  eapply Forall_lookup_1 in Hl; [|done]. simpl in Hl. lia.
Qed.

Lemma wr2_in_range {A} (l : list (list A)) n i j v :
  Forall (fun r => length r = n) l ->
  0 <= i < Z.of_nat (length l) -> 0 <= j < Z.of_nat n -> exists l', wr2 l i j v = Ok l'.
Proof.
  intros Hl Hi Hj. destruct (rd_in_range l i Hi) as [r Hr]. unfold wr2.
  rewrite Hr. simpl. rewrite wr_in_range; simpl.
  - eexists. by apply wr_in_range.
  - apply rd_Ok in Hr as [_ Hr]. eapply Forall_lookup_1 in Hl; [|done]. simpl in Hl. lia.
Qed.

Ltac const_tests_in H :=
  repeat match type of H with
  | context [(?a <? ?b)%Z] => is_zconst a; is_zconst b;
      let r := eval compute in (a <? b)%Z in change (a <? b)%Z with r in H
  | context [(?a <=? ?b)%Z] => is_zconst a; is_zconst b;
      let r := eval compute in (a <=? b)%Z in change (a <=? b)%Z with r in H
  | context [(?a =? ?b)%Z] => is_zconst a; is_zconst b;
      let r := eval compute in (a =? b)%Z in change (a =? b)%Z with r in H
  end; cbv iota in H.
