(* ===== verification/Words.v ===== *)
(** * Machine words

    Unsigned integers of a fixed width as [Z] with the wrap-around written
    out, bit fields, and [align_up] of xcomm/src/transport/numa_transport.hh. *)

From stdpp Require Import base list numbers.
From Stdlib Require Import ZArith Lia.
From S2P Require Import Prelude.

#[local] Open Scope Z_scope.

(** [wrap w x] is the value of [x] after a conversion to a [w]-bit unsigned
    integer. *)
Definition wrap (w x : Z) : Z := x mod 2 ^ w.

Notation u8 := (wrap 8).
Notation u16 := (wrap 16).
Notation u32 := (wrap 32).
Notation u64 := (wrap 64).

Definition is_word (w x : Z) : Prop := 0 <= x < 2 ^ w.

(** [ones w] is [(1 << w) - 1]. *)
Definition mask (w : Z) : Z := Z.ones w.

Lemma wrap_is_word w x : 0 <= w -> is_word w (wrap w x).
Proof. intros. apply Z.mod_pos_bound. lia. Qed.

Lemma wrap_id w x : is_word w x -> wrap w x = x.
Proof. intros. by apply Z.mod_small. Qed.

Lemma wrap_wrap w x : 0 <= w -> wrap w (wrap w x) = wrap w x.
Proof. intros. by apply wrap_id, wrap_is_word. Qed.

Lemma wrap_land w x : 0 <= w -> wrap w x = Z.land x (mask w).
Proof. intros. unfold wrap, mask. by rewrite Z.land_ones. Qed.

Lemma wrap_testbit w x i : 0 <= w ->
  Z.testbit (wrap w x) i = (i <? w) && Z.testbit x i.
Proof.
  intros. destruct (Z.ltb_spec i w); simpl.
  - by apply Z.mod_pow2_bits_low.
  - apply Z.mod_pow2_bits_high. lia.
Qed.

Lemma mask_testbit w i : 0 <= w -> 0 <= i ->
  Z.testbit (mask w) i = (i <? w).
Proof.
  intros. unfold mask. destruct (Z.ltb_spec i w).
  - apply Z.ones_spec_low; lia.
  - apply Z.ones_spec_high; lia.
Qed.

(** A value is a [w]-bit word exactly when it has no bit from [w] on. *)
Lemma is_word_testbit w x : 0 <= w -> 0 <= x ->
  (is_word w x <-> forall i, w <= i -> Z.testbit x i = false).
Proof.
  intros Hw Hx. split.
  - intros H i Hi. rewrite <-(wrap_id w x H), wrap_testbit by lia.
    destruct (Z.ltb_spec i w); [lia|done].
  - intros H. unfold is_word. split; [lia|].
    assert (x = wrap w x) as ->; [|by apply wrap_is_word].
    apply Z.bits_inj'. intros n Hn. rewrite wrap_testbit by lia.
    destruct (Z.ltb_spec n w); [done|]. by rewrite H.
Qed.

Lemma is_word_bit_high w x i : is_word w x -> w <= i -> Z.testbit x i = false.
Proof.
  intros H Hi. destruct (Z.ltb_spec w 0) as [Hw|Hw].
  - unfold is_word in H. rewrite Z.pow_neg_r in H by done. lia.
  - apply (is_word_testbit w x); [done|unfold is_word in H; lia|done|done].
Qed.

(** [wbits] proves an equation between words bit by bit. *)
Ltac bit_rewrite :=
  repeat first
    [ rewrite Z.land_spec | rewrite Z.lor_spec | rewrite Z.lxor_spec
    | rewrite Z.shiftr_spec by lia | rewrite Z.shiftl_spec by lia
    | rewrite wrap_testbit by lia | rewrite mask_testbit by lia
    | rewrite Z.lnot_spec by lia ].

Ltac bit_high :=
  repeat match goal with
  | H : is_word ?w ?x |- context [Z.testbit ?x ?i] =>
      rewrite (is_word_bit_high w x i H) by lia
  end.

Ltac bit_cases :=
  repeat match goal with
  | |- context [?a <? ?b] => destruct (Z.ltb_spec a b); try lia
  | |- context [?a <=? ?b] => destruct (Z.leb_spec a b); try lia
  | |- context [?a =? ?b] => destruct (Z.eqb_spec a b); try lia
  end.

Lemma shiftr_is_word w x n : 0 <= n <= w -> is_word w x ->
  is_word (w - n) (Z.shiftr x n).
Proof.
  intros Hn [H1 H2]. unfold is_word. rewrite Z.shiftr_div_pow2 by lia. split.
  - apply Z.div_pos; lia.
  - apply Z.div_lt_upper_bound; [lia|]. rewrite <-Z.pow_add_r by lia.
    by replace (n + (w - n)) with w by lia.
Qed.

Lemma land_is_word w x y : 0 <= w -> 0 <= x -> is_word w y -> is_word w (Z.land x y).
Proof.
  intros Hw Hx Hy.
  apply is_word_testbit; [done|apply Z.land_nonneg; lia|].
  intros i Hi. rewrite Z.land_spec, (is_word_bit_high w y) by done.
  apply andb_false_r.
Qed.

Lemma lor_is_word w x y : 0 <= w -> is_word w x -> is_word w y -> is_word w (Z.lor x y).
Proof.
  intros Hw Hx Hy. apply is_word_testbit; [done| |].
  - apply Z.lor_nonneg. unfold is_word in *. lia.
  - intros i Hi. by rewrite Z.lor_spec, !(is_word_bit_high w) by done.
Qed.

Lemma lxor_is_word w x y : 0 <= w -> is_word w x -> is_word w y -> is_word w (Z.lxor x y).
Proof.
  intros Hw Hx Hy. apply is_word_testbit; [done| |].
  - apply Z.lxor_nonneg. unfold is_word in *. lia.
  - intros i Hi. by rewrite Z.lxor_spec, !(is_word_bit_high w) by done.
Qed.

Lemma mask_is_word w : 0 <= w -> is_word w (mask w).
Proof.
  intros. unfold is_word, mask. rewrite Z.ones_equiv.
  pose proof (Z.pow_pos_nonneg 2 w). lia.
Qed.

Lemma is_word_mono w w' x : 0 <= w <= w' -> is_word w x -> is_word w' x.
Proof.
  intros Hw [H1 H2]. split; [done|].
  pose proof (Z.pow_le_mono_r 2 w w'). lia.
Qed.

(** A sum of words with disjoint bits is their bitwise or. *)
Lemma add_disjoint_lor x y : Z.land x y = 0 -> x + y = Z.lor x y.
Proof. intros. by rewrite <-Z.lxor_lor, Z.add_nocarry_lxor. Qed.

#[export] Hint Resolve wrap_is_word lor_is_word lxor_is_word mask_is_word : outback.

Arguments wrap : simpl never.
Arguments mask : simpl never.
Arguments is_word : simpl never.

(** ** Wrapping sums *)

Lemma wrap_add_l w x y : wrap w (wrap w x + y) = wrap w (x + y).
Proof. apply Zplus_mod_idemp_l. Qed.

Lemma wrap_add_r w x y : wrap w (x + wrap w y) = wrap w (x + y).
Proof. apply Zplus_mod_idemp_r. Qed.

Lemma wrap_sub_l w x y : wrap w (wrap w x - y) = wrap w (x - y).
Proof. apply Zminus_mod_idemp_l. Qed.

Lemma mask_mod w x : 0 <= w -> Z.land x (mask w) = x mod 2 ^ w.
Proof. intros. unfold mask. by rewrite Z.land_ones. Qed.

Lemma wrap_lo_hi x : is_word 64 x -> u32 x + Z.shiftl (u32 (Z.shiftr x 32)) 32 = x.
Proof.
  intros H. rewrite Z.shiftl_mul_pow2, Z.shiftr_div_pow2 by lia.
  rewrite (wrap_id 32 (x / 2 ^ 32)).
  - unfold wrap. pose proof (Z.div_mod x (2 ^ 32)). lia.
  - unfold is_word in *. split; [apply Z.div_pos; lia|].
    apply Z.div_lt_upper_bound; lia.
Qed.

(** Push every inner wrap of a sum to the outside, right-associated. *)
Ltac wrap_sums :=
  repeat first [ progress rewrite ?wrap_add_l, ?wrap_add_r, ?wrap_sub_l
               | progress rewrite <-?Z.add_assoc ].
