(* ===== verification/Hash.v ===== *)
(** * Hash functions

    deps/ludo/hashutils/hashutil.cc: Bob Jenkins' lookup3 in its two variants,
    with the three code paths chosen by the alignment of the buffer; and
    [FastHasher64] of deps/ludo/hashutils/hash.h, the hash every index of the
    program is built on.

    A buffer is a function from byte offsets to bytes, so that the reads
    beyond the end of the buffer that the word-wise path makes are part of
    the model: the theorems say that their value does not matter. *)

From stdpp Require Import base list numbers.
From Stdlib Require Import ZArith Lia.
From S2P Require Import Prelude Words.

#[local] Open Scope Z_scope.

(** ** Little-endian reads *)

Definition buffer := Z -> Z.

Definition get8 (m : buffer) (off : Z) : Z := m off.
Definition get16 (m : buffer) (off : Z) : Z :=
  m off + Z.shiftl (m (off + 1)) 8.
Definition get32 (m : buffer) (off : Z) : Z :=
  m off + Z.shiftl (m (off + 1)) 8 + Z.shiftl (m (off + 2)) 16
  + Z.shiftl (m (off + 3)) 24.

Definition is_buffer (m : buffer) : Prop := forall i, is_word 8 (m i).

(** ** The mixing steps of lookup3 *)

Definition rot (x k : Z) : Z :=
  Z.lor (u32 (Z.shiftl x k)) (Z.shiftr x (32 - k)).

Definition abc : Type := Z * Z * Z.

Definition mix (s : abc) : abc :=
  let '(a, b, c) := s in
  let a := u32 (a - c) in let a := Z.lxor a (rot c 4) in let c := u32 (c + b) in
  let b := u32 (b - a) in let b := Z.lxor b (rot a 6) in let a := u32 (a + c) in
  let c := u32 (c - b) in let c := Z.lxor c (rot b 8) in let b := u32 (b + a) in
  let a := u32 (a - c) in let a := Z.lxor a (rot c 16) in let c := u32 (c + b) in
  let b := u32 (b - a) in let b := Z.lxor b (rot a 19) in let a := u32 (a + c) in
  let c := u32 (c - b) in let c := Z.lxor c (rot b 4) in let b := u32 (b + a) in
  (a, b, c).

Definition final (s : abc) : abc :=
  let '(a, b, c) := s in
  let c := Z.lxor c b in let c := u32 (c - rot b 14) in
  let a := Z.lxor a c in let a := u32 (a - rot c 11) in
  let b := Z.lxor b a in let b := u32 (b - rot a 25) in
  let c := Z.lxor c b in let c := u32 (c - rot b 16) in
  let a := Z.lxor a c in let a := u32 (a - rot c 4) in
  let b := Z.lxor b a in let b := u32 (b - rot a 14) in
  let c := Z.lxor c b in let c := u32 (c - rot b 24) in
  (a, b, c).

Definition add3 (s : abc) (x y z : Z) : abc :=
  let '(a, b, c) := s in (u32 (a + x), u32 (b + y), u32 (c + z)).

(** ** The three paths: whole blocks *)

(** [a += k[0]; b += k[1]; c += k[2];] on 32-bit chunks. *)
Definition block4 (m : buffer) (off : Z) (s : abc) : abc :=
  add3 s (get32 m off) (get32 m (off + 4)) (get32 m (off + 8)).

(** One 32-bit value from two 16-bit chunks. *)
Definition two16 (m : buffer) (off : Z) : Z :=
  get16 m off + u32 (Z.shiftl (get16 m (off + 2)) 16).

Definition block2 (m : buffer) (off : Z) (s : abc) : abc :=
  add3 s (two16 m off) (two16 m (off + 4)) (two16 m (off + 8)).

(** [a += k[0]; a += k[1] << 8; a += k[2] << 16; a += k[3] << 24;] *)
Definition addbytes (m : buffer) (off x : Z) : Z :=
  let x := u32 (x + m off) in
  let x := u32 (x + Z.shiftl (m (off + 1)) 8) in
  let x := u32 (x + Z.shiftl (m (off + 2)) 16) in
  u32 (x + Z.shiftl (m (off + 3)) 24).

Definition block1 (m : buffer) (off : Z) (s : abc) : abc :=
  let '(a, b, c) := s in
  (addbytes m off a, addbytes m (off + 4) b, addbytes m (off + 8) c).

(** [while (length > 12) { ...; mix(a, b, c); length -= 12; k += 12 bytes; }]:
    the remaining length, the offset reached and the state. *)
Fixpoint blocks (fuel : nat) (block : Z -> abc -> abc) (len off : Z) (s : abc)
    : Z * Z * abc :=
  match fuel with
  | O => (len, off, s)
  | S fuel =>
      if 12 <? len
      then blocks fuel block (len - 12) (off + 12) (mix (block off s))
      else (len, off, s)
  end.

(** ** The three paths: the last block

    The boolean is [true] when the path returns at [case 0], before
    [final]. *)

Definition tail4 (m : buffer) (len off : Z) (s : abc) : abc * bool :=
  let k i := get32 m (off + 4 * i) in
  let low n x := Z.land x (mask n) in
  if len =? 12 then (add3 s (k 0) (k 1) (k 2), false)
  else if len =? 11 then (add3 s (k 0) (k 1) (low 24 (k 2)), false)
  else if len =? 10 then (add3 s (k 0) (k 1) (low 16 (k 2)), false)
  else if len =? 9 then (add3 s (k 0) (k 1) (low 8 (k 2)), false)
  else if len =? 8 then (add3 s (k 0) (k 1) 0, false)
  else if len =? 7 then (add3 s (k 0) (low 24 (k 1)) 0, false)
  else if len =? 6 then (add3 s (k 0) (low 16 (k 1)) 0, false)
  else if len =? 5 then (add3 s (k 0) (low 8 (k 1)) 0, false)
  else if len =? 4 then (add3 s (k 0) 0 0, false)
  else if len =? 3 then (add3 s (low 24 (k 0)) 0 0, false)
  else if len =? 2 then (add3 s (low 16 (k 0)) 0 0, false)
  else if len =? 1 then (add3 s (low 8 (k 0)) 0 0, false)
  else (s, len =? 0).

Definition tail2 (m : buffer) (len off : Z) (s : abc) : abc * bool :=
  let k8 i := m (off + i) in
  let k i := get16 m (off + 2 * i) in
  let w i := two16 m (off + 2 * i) in
  if len =? 12 then (add3 s (w 0) (w 2) (w 4), false)
  else if len =? 11 then
    (add3 (add3 s 0 0 (Z.shiftl (k8 10) 16)) (w 0) (w 2) (k 4), false)
  else if len =? 10 then (add3 s (w 0) (w 2) (k 4), false)
  else if len =? 9 then (add3 (add3 s 0 0 (k8 8)) (w 0) (w 2) 0, false)
  else if len =? 8 then (add3 s (w 0) (w 2) 0, false)
  else if len =? 7 then
    (add3 (add3 s 0 (Z.shiftl (k8 6) 16) 0) (w 0) (k 2) 0, false)
  else if len =? 6 then (add3 s (w 0) (k 2) 0, false)
  else if len =? 5 then (add3 (add3 s 0 (k8 4) 0) (w 0) 0 0, false)
  else if len =? 4 then (add3 s (w 0) 0 0, false)
  else if len =? 3 then
    (add3 (add3 s (Z.shiftl (k8 2) 16) 0 0) (k 0) 0 0, false)
  else if len =? 2 then (add3 s (k 0) 0 0, false)
  else if len =? 1 then (add3 s (k8 0) 0 0, false)
  else (s, len =? 0).

(** All the cases fall through: [case j] is executed when [j <= length]. *)
Definition tail1 (m : buffer) (len off : Z) (s : abc) : abc * bool :=
  let k i := m (off + i) in
  let case j x y z s := if j <=? len then add3 s x y z else s in
  let s := case 12 0 0 (Z.shiftl (k 11) 24) s in
  let s := case 11 0 0 (Z.shiftl (k 10) 16) s in
  let s := case 10 0 0 (Z.shiftl (k 9) 8) s in
  let s := case 9 0 0 (k 8) s in
  let s := case 8 0 (Z.shiftl (k 7) 24) 0 s in
  let s := case 7 0 (Z.shiftl (k 6) 16) 0 s in
  let s := case 6 0 (Z.shiftl (k 5) 8) 0 s in
  let s := case 5 0 (k 4) 0 s in
  let s := case 4 (Z.shiftl (k 3) 24) 0 0 s in
  let s := case 3 (Z.shiftl (k 2) 16) 0 0 s in
  let s := case 2 (Z.shiftl (k 1) 8) 0 0 s in
  let s := case 1 (k 0) 0 0 s in
  (s, len =? 0).

Definition bob_path (block : buffer -> Z -> abc -> abc)
    (tail : buffer -> Z -> Z -> abc -> abc * bool)
    (m : buffer) (len : Z) (s : abc) : abc :=
  let '(len, off, s) := blocks (Z.to_nat len) (block m) len 0 s in
  let '(s, early) := tail m len off s in
  if early : bool then s else final s.

(** The choice of the path from the address [u.i] of the buffer. *)
Definition bob_body (ptr : Z) (m : buffer) (len : Z) (s : abc) : abc :=
  if Z.land ptr 3 =? 0 then bob_path block4 tail4 m len s
  else if Z.land ptr 1 =? 0 then bob_path block2 tail2 m len s
  else bob_path block1 tail1 m len s.

(** [uint32_t HashUtil::BobHash(const void*, size_t, uint32_t seed)] *)
Definition BobHash (ptr : Z) (m : buffer) (len seed : Z) : Z :=
  let v := u32 (u32 (0xdeadbeef + u32 len) + seed) in
  let '(_, _, c) := bob_body ptr m len (v, v, v) in c.

(** [void HashUtil::BobHash(const void*, size_t, uint32_t* idx1, uint32_t* idx2)]:
    the values left in [*idx1] and [*idx2]. *)
Definition BobHash2 (ptr : Z) (m : buffer) (len idx1 idx2 : Z) : Z * Z :=
  let v := u32 (u32 (0xdeadbeef + u32 len) + idx1) in
  let '(_, b, c) := bob_body ptr m len (v, v, u32 (v + idx2)) in (c, b).

(** The bytes of a 64-bit key in memory. *)
Definition key_bytes (k : Z) : buffer :=
  fun i => if (0 <=? i) && (i <? 8) then u8 (Z.shiftr k (8 * i)) else 0.

(** [FastHasher64<uint64_t>] with seed [s].  The key is a [uint64_t], whose
    address is a multiple of eight. *)
Definition FastHasher64 (s k : Z) : Z :=
  let '(h0, h1) :=
    BobHash2 0 (key_bytes k) 8 (u32 s) (u32 (Z.shiftr s 32)) in
  h0 + Z.shiftl h1 32.

(** ** Reads of bytes *)

Lemma is_word8_bounds x : is_word 8 x -> 0 <= x < 256.
Proof. done. Qed.

Ltac bytes Hm :=
  repeat match goal with
  | |- context [?m ?i] =>
      lazymatch type of Hm with
      | is_buffer m =>
          lazymatch goal with
          | _ : 0 <= m i < 256 |- _ => fail
          | _ => pose proof (is_word8_bounds _ (Hm i))
          end
      end
  end.

Lemma key_bytes_buffer k : is_buffer (key_bytes k).
Proof.
  intros i. unfold key_bytes. destruct (_ && _); [by apply wrap_is_word|done].
Qed.

Section reads.
Context (m : buffer) (Hm : is_buffer m).

Lemma get32_word off : is_word 32 (get32 m off).
Proof.
  unfold get32, is_word. rewrite !Z.shiftl_mul_pow2 by lia.
  pose proof (Hm off). pose proof (Hm (off + 1)). pose proof (Hm (off + 2)).
  pose proof (Hm (off + 3)). unfold is_word in *. lia.
Qed.

Lemma get32_low n off (Hn : n = 8 \/ n = 16 \/ n = 24) :
  Z.land (get32 m off) (mask n) =
  m off + (if 8 <? n then Z.shiftl (m (off + 1)) 8 else 0)
  + (if 16 <? n then Z.shiftl (m (off + 2)) 16 else 0).
Proof.
  rewrite mask_mod by lia. unfold get32. rewrite !Z.shiftl_mul_pow2 by lia.
  pose proof (Hm off). pose proof (Hm (off + 1)). pose proof (Hm (off + 2)).
  pose proof (Hm (off + 3)). unfold is_word in *.
  destruct Hn as [->|[->| ->]]; const_tests; symmetry.
  - apply (Z.mod_unique_pos _ _
      (m (off + 1) + m (off + 2) * 2 ^ 8 + m (off + 3) * 2 ^ 16)); lia.
  - apply (Z.mod_unique_pos _ _ (m (off + 2) + m (off + 3) * 2 ^ 8)); lia.
  - apply (Z.mod_unique_pos _ _ (m (off + 3))); lia.
Qed.

Lemma two16_get32 off : two16 m off = get32 m off.
Proof.
  unfold two16, get32, get16.
  replace (off + 2 + 1) with (off + 3) by lia.
  pose proof (Hm (off + 2)). pose proof (Hm (off + 3)). unfold is_word in *.
  rewrite !Z.shiftl_mul_pow2 by lia. rewrite wrap_id; [lia|].
  unfold is_word. lia.
Qed.

Lemma addbytes_get32 off x : addbytes m off x = u32 (x + get32 m off).
Proof.
  unfold addbytes, get32. cbv zeta. wrap_sums. done.
Qed.

Lemma block2_block4 off s : block2 m off s = block4 m off s.
Proof. unfold block2, block4. by rewrite !two16_get32. Qed.

Lemma block1_block4 off s : block1 m off s = block4 m off s.
Proof. destruct s as [[a b] c]. simpl. by rewrite !addbytes_get32. Qed.
End reads.

(** ** The last block, on every path *)

Definition words3 (s : abc) : Prop :=
  let '(a, b, c) := s in is_word 32 a /\ is_word 32 b /\ is_word 32 c.

(** The byte at [off + i] if it belongs to the [len] bytes left, else zero. *)
Definition rest (m : buffer) (len off i : Z) : Z :=
  if i <? len then m (off + i) else 0.

Definition rest32 (m : buffer) (len off i : Z) : Z :=
  rest m len off i + rest m len off (i + 1) * 2 ^ 8
  + rest m len off (i + 2) * 2 ^ 16 + rest m len off (i + 3) * 2 ^ 24.

(** What each path adds: the remaining bytes, zero-padded to three words. *)
Definition tail_ref (m : buffer) (len off : Z) (s : abc) : abc * bool :=
  (add3 s (rest32 m len off 0) (rest32 m len off 4) (rest32 m len off 8),
   len =? 0).

Lemma add3_words s x y z : words3 (add3 s x y z).
Proof. destruct s as [[a b] c]. by repeat split; apply wrap_is_word. Qed.

Lemma add3_0 s : words3 s -> add3 s 0 0 0 = s.
Proof.
  destruct s as [[a b] c]. intros (?&?&?). simpl. by rewrite !Z.add_0_r, !wrap_id.
Qed.

Lemma add3_add3 s x y z x' y' z' :
  add3 (add3 s x y z) x' y' z' = add3 s (x + x') (y + y') (z + z').
Proof.
  destruct s as [[a b] c]. simpl. by wrap_sums.
Qed.

Lemma tail_cases (len : Z) (P : Z -> Prop) : 0 <= len <= 12 ->
  P 0 -> P 1 -> P 2 -> P 3 -> P 4 -> P 5 -> P 6 -> P 7 -> P 8 -> P 9 -> P 10 ->
  P 11 -> P 12 -> P len.
Proof.
  intros H. intros.
  assert (len = 0 \/ len = 1 \/ len = 2 \/ len = 3 \/ len = 4 \/ len = 5 \/ len = 6
    \/ len = 7 \/ len = 8 \/ len = 9 \/ len = 10 \/ len = 11 \/ len = 12) as E by lia.
  by repeat destruct E as [->|E]; subst.
Qed.

Section tails.
Context (m : buffer) (Hm : is_buffer m) (off : Z).
Context (s : abc) (Hs : words3 s).

Lemma add3_eq x y z x' y' z' (e e' : bool) :
  x = x' -> y = y' -> z = z' -> e = e' ->
  (add3 s x y z, e) = (add3 s x' y' z', e').
Proof. by intros -> -> -> ->. Qed.

(** Evaluate the tests on the literal length, merge the additions, and
    compare the three sums. *)
Ltac tail_solve :=
  unfold tail4, tail2, tail1, tail_ref, rest32, rest; cbv zeta beta;
  const_arith; const_tests; rewrite ?add3_add3;
  try match goal with
  | |- (?t, _) = _ => constr_eq t s; rewrite <-(add3_0 s Hs) at 1
  end;
  apply add3_eq; try done;
  rewrite ?(two16_get32 m Hm), ?(get32_low m Hm) by auto;
  const_tests; unfold get16, get32;
  rewrite ?Z.shiftl_mul_pow2 by lia;
  rewrite <-?Z.add_assoc; const_arith; rewrite ?Z.add_0_r; lia.

Lemma tail4_ref len : 0 <= len <= 12 -> tail4 m len off s = tail_ref m len off s.
Proof.
  intros Hlen.
  apply (tail_cases len (fun len => tail4 m len off s = tail_ref m len off s));
    [done|tail_solve..].
Qed.

Lemma tail2_ref len : 0 <= len <= 12 -> tail2 m len off s = tail_ref m len off s.
Proof.
  intros Hlen.
  apply (tail_cases len (fun len => tail2 m len off s = tail_ref m len off s));
    [done|tail_solve..].
Qed.

Lemma tail1_ref len : 0 <= len <= 12 -> tail1 m len off s = tail_ref m len off s.
Proof.
  intros Hlen.
  apply (tail_cases len (fun len => tail1 m len off s = tail_ref m len off s));
    [done|tail_solve..].
Qed.
End tails.

(** ** The paths compute the same function *)

Lemma rot_word x k : 0 <= k <= 32 -> is_word 32 x -> is_word 32 (rot x k).
Proof.
  intros Hk Hx. unfold rot. apply lor_is_word; [lia|by apply wrap_is_word|].
  apply (is_word_mono (32 - (32 - k))); [lia|]. apply shiftr_is_word; [lia|done].
Qed.

Lemma mix_words s : words3 s -> words3 (mix s).
Proof.
  destruct s as [[a b] c]. intros (?&?&?). unfold mix. cbv zeta. refine (conj _ (conj _ _)).
  all: repeat first [ apply wrap_is_word; lia | apply lxor_is_word | apply rot_word
                    | assumption | lia ].
Qed.

Lemma final_words s : words3 s -> words3 (final s).
Proof.
  destruct s as [[a b] c]. intros (?&?&?). unfold final. cbv zeta. refine (conj _ (conj _ _)).
  all: by apply wrap_is_word.
Qed.

Lemma block4_words m off s : words3 (block4 m off s).
Proof. apply add3_words. Qed.

Lemma blocks_ext fuel f g len off s :
  (forall off s, f off s = g off s) ->
  blocks fuel f len off s = blocks fuel g len off s.
Proof.
  intros Hfg. revert len off s. induction fuel as [|fuel IH]; intros; [done|].
  simpl. by rewrite Hfg, IH.
Qed.

(** With fuel [length], the loop stops with at most twelve bytes left. *)
Lemma blocks_spec fuel f len off s len' off' s' :
  (forall off s, words3 (f off s)) ->
  blocks fuel f len off s = (len', off', s') -> 0 <= len <= Z.of_nat fuel ->
  0 <= len' <= 12 /\ off' + len' = off + len /\ off <= off' /\
  (words3 s -> words3 s').
Proof.
  intros Hf. revert len off s. induction fuel as [|fuel IH]; intros len off s; simpl.
  - intros [= -> -> ->] ?. repeat split; [lia..|done].
  - destruct (Z.ltb_spec 12 len).
    + intros Hb Hl. apply IH in Hb; [|lia]. destruct Hb as (?&?&?&Hw).
      repeat split; [lia..|]. intros _. apply Hw, mix_words, Hf.
    + intros [= -> -> ->] ?. repeat split; [lia..|done].
Qed.

(** The blocks read bytes below the length only. *)
Lemma blocks_local fuel m m' len off s :
  (forall i, off <= i < off + len -> m i = m' i) ->
  blocks fuel (block4 m) len off s = blocks fuel (block4 m') len off s.
Proof.
  revert len off s. induction fuel as [|fuel IH]; intros len off s Hag; [done|].
  simpl. destruct (Z.ltb_spec 12 len); [|done].
  rewrite IH by (intros; apply Hag; lia).
  f_equal. f_equal. unfold block4, get32. by rewrite !Hag by lia.
Qed.

Lemma tail_ref_local m m' len off s :
  (forall i, off <= i < off + len -> m i = m' i) ->
  tail_ref m len off s = tail_ref m' len off s.
Proof.
  intros Hag. unfold tail_ref, rest32.
  assert (forall i, 0 <= i -> rest m len off i = rest m' len off i) as E.
  { intros i Hi. unfold rest. destruct (Z.ltb_spec i len); [|done].
    apply Hag. lia. }
  by rewrite !E by lia.
Qed.

Section paths.
Context (m : buffer) (Hm : is_buffer m) (len : Z) (Hlen : 0 <= len).
Context (s : abc) (Hs : words3 s).

Lemma bob_path_eq block tail :
  (forall off s, block m off s = block4 m off s) ->
  (forall len off s, words3 s -> 0 <= len <= 12 ->
    tail m len off s = tail_ref m len off s) ->
  bob_path block tail m len s = bob_path block4 tail_ref m len s.
Proof.
  intros Hb Ht. unfold bob_path. rewrite (blocks_ext _ _ _ _ _ _ Hb).
  destruct (blocks _ _ _ _ _) as [[len' off'] s'] eqn:E.
  apply blocks_spec in E as (?&?&?&Hw); [|apply block4_words|lia].
  rewrite Ht; [done|by apply Hw|done].
Qed.

(** Whatever the alignment, lookup3 is its zero-padded reference. *)
Lemma bob_body_ref ptr : bob_body ptr m len s = bob_path block4 tail_ref m len s.
Proof.
  unfold bob_body. destruct (_ =? 0); [|destruct (_ =? 0)].
  - apply bob_path_eq; intros; [done|by apply tail4_ref].
  - apply bob_path_eq; intros; [by apply block2_block4|by apply tail2_ref].
  - apply bob_path_eq; intros; [by apply block1_block4|by apply tail1_ref].
Qed.

Lemma bob_ref_words : words3 (bob_path block4 tail_ref m len s).
Proof.
  unfold bob_path. destruct (blocks _ _ _ _ _) as [[len' off'] s'] eqn:E.
  apply blocks_spec in E as (?&?&?&Hw); [|apply block4_words|lia]. unfold tail_ref.
  destruct (len' =? 0); [|apply final_words]; apply add3_words.
Qed.
End paths.

Lemma bob_ref_local m m' len s : 0 <= len ->
  (forall i, 0 <= i < len -> m i = m' i) ->
  bob_path block4 tail_ref m len s = bob_path block4 tail_ref m' len s.
Proof.
  intros Hlen Hag. unfold bob_path. rewrite (blocks_local _ m m') by (intros; apply Hag; lia).
  destruct (blocks _ _ _ _ _) as [[len' off'] s'] eqn:E.
  apply blocks_spec in E as (?&?&?&_); [|apply block4_words|lia].
  by rewrite (tail_ref_local m m') by (intros; apply Hag; lia).
Qed.

Lemma words3_seed v w : words3 (u32 v, u32 v, u32 w).
Proof. repeat split; by apply wrap_is_word. Qed.

Lemma bob_body_agree ptr ptr' m m' len s : is_buffer m -> is_buffer m' ->
  0 <= len -> (forall i, 0 <= i < len -> m i = m' i) -> words3 s ->
  bob_body ptr m len s = bob_body ptr' m' len s.
Proof. intros. rewrite !bob_body_ref by done. by apply bob_ref_local. Qed.

(** The two-output variant with a zero second seed is the one-output variant
    in its first output. *)
Lemma BobHash2_fst ptr m len seed : BobHash2 ptr m len seed 0 =
  (BobHash ptr m len seed, snd (BobHash2 ptr m len seed 0)).
Proof.
  unfold BobHash2, BobHash. rewrite Z.add_0_r.
  rewrite (wrap_wrap 32 _) by lia.
  by destruct (bob_body _ _ _ _) as [[??]?].
Qed.

Lemma BobHash2_words ptr m len i j : is_buffer m -> 0 <= len ->
  is_word 32 (fst (BobHash2 ptr m len i j)) /\ is_word 32 (snd (BobHash2 ptr m len i j)).
Proof.
  intros. unfold BobHash2. rewrite bob_body_ref; [|done..|apply words3_seed].
  match goal with |- context [bob_path ?b ?t ?m ?l ?s] =>
    pose proof (bob_ref_words m l ltac:(done) s) as Hw;
    destruct (bob_path b t m l s) as [[??]?] end.
  destruct Hw as (?&?&?). done.
Qed.

Lemma FastHasher64_word s k : is_word 64 (FastHasher64 s k).
Proof.
  unfold FastHasher64. destruct (BobHash2 _ _ _ _ _) as [h0 h1] eqn:E.
  destruct (BobHash2_words 0 (key_bytes k) 8 (u32 s) (u32 (Z.shiftr s 32)))
    as [H0 H1]; [apply key_bytes_buffer|lia|].
  rewrite E in H0, H1. simpl in *. unfold is_word in *.
  rewrite Z.shiftl_mul_pow2 by lia. lia.
Qed.

Lemma FastHasher64_slot s k : 0 <= Z.shiftr (FastHasher64 s k) 62 < 4.
Proof.
  pose proof (shiftr_is_word 64 _ 62 ltac:(lia) (FastHasher64_word s k)) as H.
  unfold is_word in H. by simpl in H.
Qed.

(** Proofs use the hash through its range only; [vm_compute] still runs it. *)
#[global] Opaque FastHasher64.

#[export] Hint Resolve FastHasher64_word key_bytes_buffer : outback.

(** C37: lookup3 of a buffer is the same for every alignment of the buffer
    (the 32-bit, 16-bit and byte-wise paths agree) and is determined by the
    bytes below the length, although the aligned path reads beyond them. *)
Theorem BobHash_alignment ptr ptr' m m' len seed :
  is_buffer m -> is_buffer m' -> 0 <= len ->
  (forall i, 0 <= i < len -> m i = m' i) ->
  BobHash ptr m len seed = BobHash ptr' m' len seed.
Proof.
  intros. unfold BobHash.
  by rewrite (bob_body_agree ptr ptr' m m') by (done || apply words3_seed).
Qed.

(** The same 8 bytes, aligned and not, with different bytes after them. *)
Definition padded (k pad : Z) : buffer := fun i => if i <? 8 then key_bytes k i else u8 pad.

Lemma padded_buffer k pad : is_buffer (padded k pad).
Proof.
  intros i. unfold padded. destruct (i <? 8); [apply key_bytes_buffer|by apply wrap_is_word].
Qed.

Lemma BobHash_alignment_witness :
  BobHash 0 (padded 77 0) 7 5 = BobHash 3 (padded 77 255) 7 5.
Proof.
  apply (BobHash_alignment 0 3 (padded 77 0) (padded 77 255) 7 5
    (padded_buffer 77 0) (padded_buffer 77 255)); [lia|].
  intros i Hi. unfold padded. destruct (Z.ltb_spec i 8); [reflexivity|lia].
Defined.
