(* ===== verification/PackedData.v ===== *)
(** * The entry array (outback/packed_data.hh)

    [PackedStruct] is one stored entry; [PackedData] is a wrapper object
    around an array of entries.  The array may live in memory that several
    wrappers (and several processes) share, so the region is a value of its
    own and every operation takes the wrapper and the region. *)

From stdpp Require Import base list numbers.
From Stdlib Require Import ZArith Lia.
From S2P Require Import Prelude Words.

#[local] Open Scope Z_scope.

Record packed_struct := PackedStruct {
  pkey : Z;           (* key *)
  data_length : Z;    (* uint32_t data_length *)
  data : Z;           (* data *)
}.

#[export] Instance packed_struct_eq_dec : EqDecision packed_struct.
Proof. solve_decision. Defined.

(** [rawArray] *)
Notation region := (list packed_struct).

Record packed_data := PackedData {
  num : Z;            (* std::atomic<size_t> num *)
  numElements : Z;    (* const size_t numElements *)
}.

(** The struct is declared [packed]: 8 + 4 + 8 bytes. *)
Definition sizeof_packed_struct : Z := 20.

Definition zero_struct : packed_struct := PackedStruct 0 0 0.

(** [PackedData(size_t)]: [junk] is the indeterminate content of the entries
    [new] returns. *)
Definition new_packed_data (junk : packed_struct) (n : nat) : region * packed_data :=
  (replicate n junk, PackedData 0 (Z.of_nat n)).

(** [for (uint64_t i = 0; i < numElements; i++) memcpy(reg_mem + i*20, &packed_struct, 20)],
    from index [i], [fuel] iterations. *)
Fixpoint overwrite_from (fuel : nat) (junk : packed_struct) (i : Z) (mem : region)
    : res region :=
  match fuel with
  | O => Ok mem
  | S fuel => mem' ← wr mem i junk; overwrite_from fuel junk (i + 1) mem'
  end.

(** [PackedData(char* reg_mem, size_t)]: the constructor over existing memory
    copies the uninitialised local [packed_struct], [junk], over every entry. *)
Definition attach_packed_data (junk : packed_struct) (mem : region) (n : nat)
    : res (region * packed_data) :=
  mem' ← overwrite_from n junk 0 mem; Ok (mem', PackedData 0 (Z.of_nat n)).

Definition read_key (mem : region) (i : Z) : res Z :=
  e ← rd mem i; Ok (pkey e).

(** The returned length and the value stored in [val]. *)
Definition read_data (mem : region) (i : Z) : res (Z * Z) :=
  e ← rd mem i; Ok (data_length e, data e).

Definition read_data_with_key_check (mem : region) (i k : Z) : res (Z * Z) :=
  e ← rd mem i;
  if negb (pkey e =? k) then Ok (0, data e) else Ok (data_length e, data e).

Definition remove_data_with_key_check (mem : region) (i k : Z) : res (region * bool) :=
  e ← rd mem i;
  if negb (pkey e =? k) then Ok (mem, false)
  else mem' ← wr mem i zero_struct; Ok (mem', true).

(** [exit(0)] when the array is full; else the entry is written at [num],
    and the old [num] is returned as a [uint32_t]. *)
Definition bulk_load_data (w : packed_data) (mem : region) (k len v : Z)
    : res (packed_data * region * Z) :=
  if numElements w <=? num w then Err ProcessExit
  else
    mem' ← wr mem (num w) (PackedStruct k len v);
    Ok (PackedData (u64 (num w + 1)) (numElements w), mem', u32 (num w)).

(** The loop of [read_batch_keys], with its [uint8_t] index [ik]. *)
Fixpoint read_batch_loop (mem : region) (addrs : list Z) (ik : Z) (keys : list Z)
    : res (list Z) :=
  match addrs with
  | [] => Ok keys
  | addr :: addrs =>
      e ← rd mem (Z.land addr (mask 40));
      keys' ← wr keys ik (pkey e);
      read_batch_loop mem addrs (u8 (ik + 1)) keys'
  end.

Definition read_batch_keys (mem : region) (addrs : list Z) : res (list Z) :=
  read_batch_loop mem addrs 0 (replicate (length addrs) 0).

Definition update_data (mem : region) (i k len v : Z) : res (region * Z) :=
  mem' ← wr mem i (PackedStruct k len v); Ok (mem', len).

Definition remove_data (mem : region) (i : Z) : res region :=
  e ← rd mem i; wr mem i (PackedStruct (pkey e) 0 (data e)).

Definition remote_addr (i : Z) : Z := u64 (i * sizeof_packed_struct).

(** ** Laws *)

Lemma overwrite_from_spec fuel junk i (mem mem' : region) :
  0 <= i -> overwrite_from fuel junk i mem = Ok mem' ->
  length mem' = length mem /\
  forall j, 0 <= j -> rd mem' j =
    if (i <=? j) && (j <? i + Z.of_nat fuel) then Ok junk else rd mem j.
Proof.
  revert i mem. induction fuel as [|fuel IH]; intros i mem Hi H; simpl in H.
  - injection H as <-. split; [done|]. intros j Hj. bit_cases; done.
  - res_inv. pose proof (wr_length _ _ _ _ H0) as Hl.
    apply IH in H as [Hlen Hrd]; [|lia]. split; [congruence|].
    intros j Hj. rewrite Hrd by done.
    destruct (decide (j = i)) as [->|Hne].
    + rewrite (rd_wr_eq _ _ _ _ H0).
      bit_cases; done.
    + rewrite (rd_wr_ne _ _ _ _ _ H0) by done.
      bit_cases; done.
Qed.

Lemma overwrite_from_total fuel junk i (mem : region) :
  0 <= i -> i + Z.of_nat fuel <= Z.of_nat (length mem) ->
  exists mem', overwrite_from fuel junk i mem = Ok mem'.
Proof.
  revert i mem. induction fuel as [|fuel IH]; intros i mem Hi Hl; simpl; [eauto|].
  rewrite wr_in_range by lia. simpl. apply IH; [lia|].
  rewrite length_insert. lia.
Qed.

Lemma read_batch_loop_spec (mem : region) addrs pre keys :
  (length pre + length addrs <= 256)%nat ->
  mapM (fun a => read_key mem (Z.land a (mask 40))) addrs = Ok keys ->
  forall post, length post = length addrs ->
  read_batch_loop mem addrs (u8 (Z.of_nat (length pre))) (pre ++ post) = Ok (pre ++ keys).
Proof.
  revert pre keys. induction addrs as [|a addrs IH]; intros pre keys Hlen Hk post Hpost.
  - destruct post; [|done]. simpl in Hk. by res_inv.
  - destruct post as [|p post]; [done|]. simpl in *.
    unfold mbind in Hk. fold (@mbind res _) in Hk.
    unfold read_key in Hk. res_inv. rewrite H1. simpl.
    rewrite (wrap_id 8 (Z.of_nat (length pre))) by (unfold is_word; lia).
    rewrite wr_in_range by (rewrite length_app; simpl; lia). simpl.
    rewrite Nat2Z.id, insert_app_r_alt, Nat.sub_diag by lia. simpl.
    assert (Hl1 : (length (pre ++ [pkey a2]) + length addrs <= 256)%nat)
      by (rewrite length_app; simpl; lia).
    specialize (IH (pre ++ [pkey a2]) a1 Hl1 H0 post ltac:(congruence)).
    rewrite length_app, <-!app_assoc in IH. simpl in IH.
    by replace (Z.of_nat (length pre + 1)) with (Z.of_nat (length pre) + 1) in IH by lia.
Qed.

(** [read_batch_keys] returns the keys in the order of the addresses, as long
    as its [uint8_t] index does not wrap. *)
Lemma read_batch_keys_spec (mem : region) addrs keys :
  (length addrs <= 256)%nat ->
  mapM (fun a => read_key mem (Z.land a (mask 40))) addrs = Ok keys ->
  read_batch_keys mem addrs = Ok keys.
Proof.
  intros Hl Hk.
  apply (read_batch_loop_spec mem addrs [] keys Hl Hk). apply length_replicate.
Qed.

(** [bulk_load_data] on every branch. *)
Lemma bulk_load_data_Ok w mem k len v w' mem' a :
  bulk_load_data w mem k len v = Ok (w', mem', a) <->
  num w < numElements w /\ 0 <= num w < Z.of_nat (length mem) /\
  mem' = <[Z.to_nat (num w) := PackedStruct k len v]> mem /\
  w' = PackedData (u64 (num w + 1)) (numElements w) /\ a = u32 (num w).
Proof.
  unfold bulk_load_data. destruct (Z.leb_spec (numElements w) (num w)).
  - split; [done|]. intros (?&?). lia.
  - rewrite bind_Ok. setoid_rewrite wr_Ok. naive_solver.
Qed.
