(* ===== verification/LudoSlot.v ===== *)
(** * Index cells and buckets (outback/ludo_slot.hh)

    A cell is a 64-bit word: flag (1 bit), fingerprint (7), length (16),
    address (40).  A bucket has four cells; [LudoBuckets] is the array of
    buckets, which may live in memory shared with other processes. *)

From stdpp Require Import base list numbers.
From Stdlib Require Import ZArith Lia.
From S2P Require Import Prelude Words Hash.

#[local] Open Scope Z_scope.

Definition SLOTS_NUM_BUCKET : Z := 4.

(** [LudoBucket::slots] *)
Notation ludo_bucket := (list Z).

Definition combine (finger length addr : Z) : Z :=
  u64 (Z.shiftl 1 63 + Z.shiftl (Z.land finger 0x7F) 56
       + Z.shiftl (Z.land length 0xFFFF) 40 + Z.land addr (mask 40)).

Definition toCachebit (n : Z) : Z := u8 (Z.land (Z.shiftr n 63) 0x01).
Definition toFinger (n : Z) : Z := u8 (Z.land (Z.shiftr n 56) 0x7F).
Definition toLength (n : Z) : Z := u16 (Z.land (Z.shiftr n 40) 0xFFFF).
Definition toAddr (n : Z) : Z := Z.land n (mask 40).

(** The seed of the fingerprint hash [hp]. *)
Definition hp_seed : Z := 0x93ea45.

Definition fingerprint (k : Z) : Z := u8 (Z.land (FastHasher64 hp_seed k) 0x7F).

(** [ludo_bucket slots = {0}], [numElements] of them. *)
Definition new_buckets (n : nat) : list ludo_bucket := replicate n (replicate 4 0).

(** The [for] of [check_slots] from [idx], [fuel] iterations. *)
Fixpoint empty_from (fuel : nat) (b : list ludo_bucket) (row idx : Z) : res bool :=
  match fuel with
  | O => Ok false
  | S fuel =>
      c ← rd2 b row idx;
      if toLength c =? 0 then Ok true else empty_from fuel b row (idx + 1)
  end.

Definition check_slots (b : list ludo_bucket) (k row slot : Z) : res Z :=
  c ← rd2 b row slot;
  if toLength c =? 0 then Ok 0
  else
    c' ← rd2 b row slot;
    if toFinger c' =? fingerprint k then Ok 1
    else
      e ← empty_from 4 b row 0;
      Ok (if e : bool then 2 else 3).

Definition read_addr (b : list ludo_bucket) (row slot : Z) : res Z :=
  c ← rd2 b row slot; Ok (toAddr c).

Definition remove_addr (b : list ludo_bucket) (row slot : Z) : res (list ludo_bucket) :=
  wr2 b row slot 0.

Definition read_cachebit (b : list ludo_bucket) (row slot : Z) : res bool :=
  c ← rd2 b row slot; Ok (negb (toCachebit c =? 0)).

Definition set_cachebit (b : list ludo_bucket) (row slot : Z) : res (list ludo_bucket) :=
  c ← rd2 b row slot; wr2 b row slot (Z.lor c (Z.shiftl 1 63)).

(** The loop of [read_bucket_addrs]; the whole cells are pushed. *)
Fixpoint addrs_from (fuel : nat) (b : list ludo_bucket) (row slot : Z) (acc : list Z)
    : res (list Z) :=
  match fuel with
  | O => Ok acc
  | S fuel =>
      c ← rd2 b row slot;
      acc' ← (if negb (toLength c =? 0)
              then c' ← rd2 b row slot; Ok (acc ++ [c']) else Ok acc);
      addrs_from fuel b row (slot + 1) acc'
  end.

Definition read_bucket_addrs (b : list ludo_bucket) (row : Z) : res (list Z) :=
  addrs_from 4 b row 0 [].

(** [length] has the default argument 64. *)
Definition write_addr (b : list ludo_bucket) (k row slot addr : Z) (length : Z)
    : res (list ludo_bucket) :=
  wr2 b row slot (combine (fingerprint k) length addr).

Fixpoint empty_loop (fuel : nat) (b : list ludo_bucket) (row slot : Z)
    : res (list ludo_bucket) :=
  match fuel with
  | O => Ok b
  | S fuel => b' ← wr2 b row slot 0; empty_loop fuel b' row (slot + 1)
  end.

Definition empty_bucket (b : list ludo_bucket) (row : Z) : res (list ludo_bucket) :=
  empty_loop 4 b row 0.

Definition write_cell (b : list ludo_bucket) (row slot v : Z) : res (list ludo_bucket) :=
  wr2 b row slot v.

(** [uint32_t size()] of a [size_t]. *)
Definition buckets_size (n : Z) : Z := u32 n.

Arguments combine : simpl never.
Arguments toLength : simpl never.
Arguments toFinger : simpl never.
Arguments toAddr : simpl never.
Arguments toCachebit : simpl never.
Arguments fingerprint : simpl never.

(** ** The cell format *)

Lemma mod_land_ones n x : 0 <= n -> Z.land x (Z.ones n) = x mod 2 ^ n.
Proof. intros. by apply Z.land_ones. Qed.

Lemma toAddr_mod n : toAddr n = n mod 2 ^ 40.
Proof. unfold toAddr. by apply mask_mod. Qed.

Lemma toLength_mod n : toLength n = (n / 2 ^ 40) mod 2 ^ 16.
Proof.
  unfold toLength. rewrite Z.shiftr_div_pow2 by lia.
  change 0xFFFF with (Z.ones 16). rewrite mod_land_ones by lia.
  apply wrap_id, wrap_is_word. lia.
Qed.

Lemma toFinger_mod n : toFinger n = (n / 2 ^ 56) mod 2 ^ 7.
Proof.
  unfold toFinger. rewrite Z.shiftr_div_pow2 by lia.
  change 0x7F with (Z.ones 7). rewrite mod_land_ones by lia.
  apply wrap_id. apply (is_word_mono 7); [lia|]. by apply wrap_is_word.
Qed.

Lemma toCachebit_mod n : toCachebit n = (n / 2 ^ 63) mod 2.
Proof.
  unfold toCachebit. rewrite Z.shiftr_div_pow2 by lia.
  change 0x01 with (Z.ones 1). rewrite mod_land_ones by lia.
  apply wrap_id. apply (is_word_mono 1); [lia|]. by apply wrap_is_word.
Qed.

(** The value of [combine]: no carry between the fields. *)
Lemma combine_eq f l a :
  combine f l a =
    2 ^ 63 + f mod 2 ^ 7 * 2 ^ 56 + l mod 2 ^ 16 * 2 ^ 40 + a mod 2 ^ 40.
Proof.
  unfold combine. rewrite !Z.shiftl_mul_pow2 by lia.
  change 0x7F with (Z.ones 7). change 0xFFFF with (Z.ones 16).
  rewrite mask_mod, !mod_land_ones by lia.
  pose proof (Z.mod_pos_bound f (2 ^ 7)). pose proof (Z.mod_pos_bound l (2 ^ 16)).
  pose proof (Z.mod_pos_bound a (2 ^ 40)). apply wrap_id. unfold is_word. lia.
Qed.

Ltac fields :=
  rewrite ?combine_eq, ?toAddr_mod, ?toLength_mod, ?toFinger_mod, ?toCachebit_mod;
  repeat match goal with
  | |- context [?x mod ?y] =>
      lazymatch goal with
      | _ : 0 <= x mod y < y |- _ => fail
      | _ => pose proof (Z.mod_pos_bound x y ltac:(lia))
      end
  end.

Lemma combine_word f l a : is_word 64 (combine f l a).
Proof. fields. unfold is_word. lia. Qed.

(** Decoding an encoded cell gives every field back. *)
Lemma combine_decode f l a :
  toCachebit (combine f l a) = 1 /\ toFinger (combine f l a) = f mod 2 ^ 7 /\
  toLength (combine f l a) = l mod 2 ^ 16 /\ toAddr (combine f l a) = a mod 2 ^ 40.
Proof.
  rewrite toAddr_mod, toLength_mod, toFinger_mod, toCachebit_mod, combine_eq.
  set (f' := f mod 2 ^ 7). set (l' := l mod 2 ^ 16). set (a' := a mod 2 ^ 40).
  assert (0 <= f' < 2 ^ 7) by (apply Z.mod_pos_bound; lia).
  assert (0 <= l' < 2 ^ 16) by (apply Z.mod_pos_bound; lia).
  assert (0 <= a' < 2 ^ 40) by (apply Z.mod_pos_bound; lia).
  clearbody f' l' a'. Z.to_euclidean_division_equations. lia.
Qed.

(** Encoding the decoded fields of a cell whose flag is set gives the cell. *)
Lemma decode_combine c : is_word 64 c -> toCachebit c = 1 ->
  combine (toFinger c) (toLength c) (toAddr c) = c.
Proof.
  rewrite combine_eq, toAddr_mod, toLength_mod, toFinger_mod, toCachebit_mod.
  rewrite !Z.mod_mod by lia. unfold is_word. intros ??.
  Z.to_euclidean_division_equations. lia.
Qed.

Lemma toLength_0 : toLength 0 = 0.
Proof. reflexivity. Qed.

Lemma toLength_range c : 0 <= toLength c < 2 ^ 16.
Proof. rewrite toLength_mod. apply Z.mod_pos_bound. lia. Qed.

Lemma toAddr_range c : 0 <= toAddr c < 2 ^ 40.
Proof. rewrite toAddr_mod. apply Z.mod_pos_bound. lia. Qed.

Lemma fingerprint_range k : 0 <= fingerprint k < 2 ^ 7.
Proof.
  unfold fingerprint. change 0x7F with (Z.ones 7). rewrite mod_land_ones by lia.
  pose proof (Z.mod_pos_bound (FastHasher64 hp_seed k) (2 ^ 7)).
  rewrite wrap_id; unfold is_word; lia.
Qed.

(** The cell written for a key: nonempty, with the key's fingerprint. *)
Lemma new_cell_fields k a : 0 <= a < 2 ^ 40 ->
  toLength (combine (fingerprint k) 64 a) = 64 /\
  toFinger (combine (fingerprint k) 64 a) = fingerprint k /\
  toAddr (combine (fingerprint k) 64 a) = a.
Proof.
  intros Ha. destruct (combine_decode (fingerprint k) 64 a) as (_&->&->&->).
  rewrite !Z.mod_small by (pose proof (fingerprint_range k); lia). done.
Qed.

(** Setting the flag changes no other field. *)
Lemma set_flag_fields c : 
  toLength (Z.lor c (Z.shiftl 1 63)) = toLength c /\
  toFinger (Z.lor c (Z.shiftl 1 63)) = toFinger c /\
  toAddr (Z.lor c (Z.shiftl 1 63)) = toAddr c /\
  toCachebit (Z.lor c (Z.shiftl 1 63)) = 1.
Proof.
  change (Z.shiftl 1 63) with (2 ^ 63).
  assert (forall i n, 0 <= i -> 0 <= n -> i + n <= 63 ->
    Z.land (Z.shiftr (Z.lor c (2 ^ 63)) i) (Z.ones n) = Z.land (Z.shiftr c i) (Z.ones n)) as E.
  { intros i n Hi Hn Hin. apply Z.bits_inj'. intros j Hj.
    rewrite !Z.land_spec, !Z.shiftr_spec, Z.lor_spec, Z.pow2_bits_eqb by lia.
    destruct (Z.ltb_spec j n).
    - destruct (Z.eqb_spec 63 (j + i)); [lia|]. by rewrite orb_false_r.
    - rewrite !Z.ones_spec_high by lia. by rewrite !andb_false_r. }
  repeat split.
  - unfold toLength. change 0xFFFF with (Z.ones 16). by rewrite E by lia.
  - unfold toFinger. change 0x7F with (Z.ones 7). by rewrite E by lia.
  - unfold toAddr, mask. specialize (E 0 40). rewrite !Z.shiftr_0_r in E. apply E; lia.
  - unfold toCachebit. change 0x01 with (Z.ones 1).
    assert (Z.land (Z.shiftr (Z.lor c (2 ^ 63)) 63) (Z.ones 1) = 1) as ->; [|done].
    apply Z.bits_inj'. intros j Hj.
    rewrite Z.land_spec, Z.shiftr_spec, Z.lor_spec, Z.pow2_bits_eqb by lia.
    destruct (Z.eqb_spec j 0) as [->|Hne].
    + by rewrite orb_true_r.
    + rewrite (Z.ones_spec_high 1 j), andb_false_r by lia.
      change 1 with (Z.ones 1). by rewrite Z.ones_spec_high by lia.
Qed.

(** ** Operations on a row *)

Definition wf_buckets (b : list ludo_bucket) : Prop :=
  Forall (fun r => length r = 4%nat) b.

Definition nonempty (c : Z) : Prop := toLength c <> 0.

#[export] Instance nonempty_dec c : Decision (nonempty c) := decide (toLength c <> 0).

Lemma wr_Forall {A} (P : A -> Prop) (l l' : list A) i v :
  wr l i v = Ok l' -> P v -> Forall P l -> Forall P l'.
Proof. intros [_ ->]%wr_Ok ??. by apply Forall_insert. Qed.

Lemma wf_buckets_wr2 (b b' : list ludo_bucket) i j v :
  wr2 b i j v = Ok b' -> wf_buckets b -> wf_buckets b'.
Proof.
  intros H. apply (wr2_rows _ _ _ _ _ _ H). intros r r' Hr%wr_length Hl. congruence.
Qed.

(** The cells of a row of four. *)
Lemma row_cells (b : list ludo_bucket) row r : wf_buckets b -> rd b row = Ok r ->
  exists c0 c1 c2 c3, r = [c0; c1; c2; c3].
Proof.
  intros Hb [_ Hr]%rd_Ok. eapply Forall_lookup_1 in Hb; [|done]. simpl in Hb.
  destruct r as [|c0 [|c1 [|c2 [|c3 [|]]]]]; try discriminate. by eauto.
Qed.

(** Reads of a literal row. *)
Lemma rd4 {A} (c0 c1 c2 c3 : A) :
  rd [c0; c1; c2; c3] 0 = Ok c0 /\ rd [c0; c1; c2; c3] 1 = Ok c1 /\
  rd [c0; c1; c2; c3] 2 = Ok c2 /\ rd [c0; c1; c2; c3] 3 = Ok c3.
Proof. done. Qed.

Ltac read4 :=
  const_arith;
  rewrite ?(proj1 (rd4 _ _ _ _)), ?(proj1 (proj2 (rd4 _ _ _ _))),
    ?(proj1 (proj2 (proj2 (rd4 _ _ _ _)))), ?(proj2 (proj2 (proj2 (rd4 _ _ _ _))));
  cbn [mbind res_bind].

Lemma rd_row (b : list ludo_bucket) row r : rd b row = Ok r ->
  forall s, rd2 b row s = rd r s.
Proof. intros H s. unfold rd2. by rewrite H. Qed.

Lemma wr2_row {A} (b : list (list A)) row r r' j v :
  rd b row = Ok r -> wr r j v = Ok r' -> wr2 b row j v = Ok (<[Z.to_nat row := r']> b).
Proof.
  intros Hr Hw. unfold wr2. rewrite Hr. cbn [mbind res_bind]. rewrite Hw.
  apply wr_in_range. by eapply rd_range.
Qed.

Lemma rd_insert_eq {A} (b : list A) row x : 0 <= row < Z.of_nat (length b) ->
  rd (<[Z.to_nat row := x]> b) row = Ok x.
Proof. intros H. by apply (rd_wr_eq b row x), wr_in_range. Qed.

Section rows.
Context (b : list ludo_bucket) (row : Z) (r : list Z).
Context (Hb : wf_buckets b) (Hr : rd b row = Ok r).

Lemma empty_from_spec :
  empty_from 4 b row 0 = Ok (existsb (fun c => toLength c =? 0) r).
Proof.
  destruct (row_cells b row r Hb Hr) as (c0&c1&c2&c3&->).
  cbn [empty_from existsb]. rewrite !(rd_row _ _ _ Hr). const_arith.
  repeat (read4; destruct (_ =? 0); [done|]). done.
Qed.

(** [check_slots], as its four answers are used. *)
Lemma check_slots_spec k slot st : check_slots b k row slot = Ok st ->
  exists c, rd r slot = Ok c /\
  st = if toLength c =? 0 then 0
       else if toFinger c =? fingerprint k then 1
       else if existsb (fun c => toLength c =? 0) r then 2 else 3.
Proof.
  unfold check_slots. rewrite !(rd_row _ _ _ Hr), empty_from_spec.
  destruct (rd r slot) as [c|]; [|discriminate]. cbn [mbind res_bind].
  intros H. exists c. split; [reflexivity|].
  destruct (toLength c =? 0); [by apply Ok_inj in H|].
  destruct (toFinger c =? fingerprint k); by apply Ok_inj in H.
Qed.

Lemma check_slots_total k slot : 0 <= slot < 4 -> exists st, check_slots b k row slot = Ok st.
Proof.
  intros Hs. unfold check_slots. rewrite !(rd_row _ _ _ Hr), empty_from_spec.
  destruct (rd_in_range r slot) as [c ->].
  { destruct (row_cells b row r Hb Hr) as (?&?&?&?&->). done. }
  cbn [mbind res_bind]. destruct (_ =? 0); [eauto|]. destruct (_ =? _); eauto.
Qed.

(** [read_bucket_addrs] returns the nonempty cells in slot order. *)
Lemma read_bucket_addrs_spec : read_bucket_addrs b row = Ok (filter nonempty r).
Proof.
  destruct (row_cells b row r Hb Hr) as (c0&c1&c2&c3&->).
  unfold read_bucket_addrs. cbn [addrs_from]. rewrite !(rd_row _ _ _ Hr).
  read4. rewrite !filter_cons, filter_nil. unfold nonempty.
  repeat match goal with
  | |- context [toLength ?c =? 0] =>
      destruct (Z.eqb_spec (toLength c) 0);
      [rewrite (decide_False (P := toLength c <> 0)) by auto
      |rewrite (decide_True (P := toLength c <> 0)) by auto];
      cbn [negb mbind res_bind app]
  end; done.
Qed.

Lemma empty_bucket_spec :
  exists b', empty_bucket b row = Ok b' /\ wf_buckets b' /\
    rd b' row = Ok [0; 0; 0; 0] /\ length b' = length b /\
    forall row', row <> row' -> rd b' row' = rd b row'.
Proof.
  assert (Hw : wr b row [0; 0; 0; 0] = Ok (<[Z.to_nat row := [0; 0; 0; 0]]> b))
    by (apply wr_in_range; by eapply rd_range).
  exists (<[Z.to_nat row := [0; 0; 0; 0]]> b). split.
  - destruct (row_cells b row r Hb Hr) as (c0&c1&c2&c3&->).
    unfold empty_bucket. cbn [empty_loop]. const_arith.
    erewrite wr2_row; [|done..]. cbn [mbind res_bind].
    do 3 (erewrite wr2_row; [|eapply rd_insert_eq; rewrite ?length_insert; by eapply rd_range|done];
      cbn [mbind res_bind]; rewrite list_insert_insert_eq).
    done.
  - split; [by eapply wr_Forall|].
    split; [by eapply rd_wr_eq|]. split; [by eapply wr_length|].
    intros row' Hne. by eapply rd_wr_ne.
Qed.
End rows.

(** The cell format is a bijection between flagged 64-bit words and
    fingerprints of 7, lengths of 16 and addresses of 40 bits: decoding an
    encoded cell gives the fields, encoding the fields of a cell gives the
    cell, and the flag of an encoded cell is always set. *)
Theorem cell_roundtrip f l a c :
  is_word 7 f -> is_word 16 l -> is_word 40 a -> is_word 64 c -> toCachebit c = 1 ->
  (toCachebit (combine f l a) = 1 /\ toFinger (combine f l a) = f /\
   toLength (combine f l a) = l /\ toAddr (combine f l a) = a) /\
  combine (toFinger c) (toLength c) (toAddr c) = c.
Proof.
  intros Hf Hl Ha Hc Hb. split; [|by apply decode_combine].
  destruct (combine_decode f l a) as (-> & -> & -> & ->).
  unfold is_word in *. by rewrite !Z.mod_small.
Qed.

Lemma cell_roundtrip_witness :
  (toCachebit (combine 0x55 64 1234) = 1 /\ toFinger (combine 0x55 64 1234) = 0x55 /\
   toLength (combine 0x55 64 1234) = 64 /\ toAddr (combine 0x55 64 1234) = 1234) /\
  combine (toFinger (2 ^ 63 + 7)) (toLength (2 ^ 63 + 7)) (toAddr (2 ^ 63 + 7)) = 2 ^ 63 + 7.
Proof.
  apply (cell_roundtrip 0x55 64 1234 (2 ^ 63 + 7)); try reflexivity;
    (split; [discriminate|reflexivity]).
Defined.

(** [set_flag c] is the cell [set_cachebit] writes. *)
Definition set_flag (c : Z) : Z := Z.lor c (Z.shiftl 1 63).

Lemma set_flag_nonempty c : nonempty (set_flag c) <-> nonempty c.
Proof. unfold nonempty, set_flag. by rewrite (proj1 (set_flag_fields c)). Qed.

Lemma set_flag_addr c : toAddr (set_flag c) = toAddr c.
Proof. apply (set_flag_fields c). Qed.

Lemma set_flag_toFinger c : toFinger (set_flag c) = toFinger c.
Proof. apply (set_flag_fields c). Qed.

Lemma set_cachebit_eq b row slot c : rd2 b row slot = Ok c ->
  set_cachebit b row slot = wr2 b row slot (set_flag c).
Proof. intros H. unfold set_cachebit. by rewrite H. Qed.

Lemma toAddr_eq c : toAddr c = Z.land c (mask 40).
Proof. done. Qed.

(** Later files use the fields through the lemmas above. *)
#[global] Opaque combine toAddr toLength toFinger toCachebit fingerprint set_flag.
