(* ===== verification/LruCache.v ===== *)
(** * The LRU cache (outback/cache.hh)

    [Cache] keeps a [std::list] of nodes, most recently used first, and an
    [unordered_map] from keys to list iterators.  The model keeps the node
    identities: [nodes] is the heap of list nodes, [keys_] the list as the
    sequence of its node identities, [cache_] the map from keys to iterators.
    The abstract cache is an association list; the theorems say that the
    operations implement it. *)

From Stdlib Require Import ZArith Lia.
From stdpp Require Import base numbers gmap list.
From S2P Require Import Prelude Words.

#[local] Open Scope Z_scope.

Record Cache := MkCache {
  nodes : gmap nat (Z * Z);      (* KeyValuePair nodes *)
  keys_ : list nat;              (* list_type keys_ *)
  cache_ : gmap Z nat;           (* Map cache_ *)
  next_node : nat;               (* the next fresh node *)
  maxSize_ : Z;
  elasticity_ : Z;
}.

Definition new_cache (maxSize elasticity : Z) : Cache :=
  MkCache ∅ [] ∅ 0 maxSize elasticity.

Definition set_nodes (c : Cache) (n : gmap nat (Z * Z)) (l : list nat) (m : gmap Z nat)
    (i : nat) : Cache :=
  MkCache n l m i (maxSize_ c) (elasticity_ c).

(** [std::unordered_map::size], [size()], [empty()], [clear()], [contains()] *)
Definition cache_size (c : Cache) : Z := Z.of_nat (size (cache_ c)).

Definition cache_empty (c : Cache) : bool := cache_size c =? 0.

Definition cache_clear (c : Cache) : Cache :=
  set_nodes c ∅ [] ∅ (next_node c).

Definition cache_contains (c : Cache) (k : Z) : bool :=
  match cache_ c !! k with Some _ => true | None => false end.

(** [keys_.splice(keys_.begin(), keys_, it)] *)
Definition splice_front (l : list nat) (it : nat) : list nat :=
  it :: filter (fun i => i <> it) l.

(** [while (cache_.size() > maxSize_)]; [keys_.back()] of an empty list is
    undefined.  Each round shortens [keys_], so [fuel] above its length is
    enough; the returned [count] is the number of rounds. *)
Fixpoint prune_loop (fuel : nat) (c : Cache) (count : Z) : res (Cache * Z) :=
  match fuel with
  | O => Ok (c, count)
  | S fuel =>
      if maxSize_ c <? cache_size c then
        match last (keys_ c) with
        | None => Err OutOfBounds
        | Some it =>
            match nodes c !! it with
            | None => Err OutOfBounds
            | Some (k, _) =>
                prune_loop fuel
                  (set_nodes c (delete it (nodes c)) (removelast (keys_ c))
                     (delete k (cache_ c)) (next_node c)) (count + 1)
            end
        end
      else Ok (c, count)
  end.

Definition prune (c : Cache) : res (Cache * Z) :=
  let maxAllowed := u64 (maxSize_ c + elasticity_ c) in
  if (maxSize_ c =? 0) || (cache_size c <? maxAllowed) then Ok (c, 0)
  else prune_loop (S (length (keys_ c))) c 0.

Definition cache_insert (c : Cache) (k v : Z) : res Cache :=
  match cache_ c !! k with
  | Some it =>
      match nodes c !! it with
      | None => Err OutOfBounds
      | Some (k', _) =>
          Ok (set_nodes c (<[it := (k', v)]> (nodes c)) (splice_front (keys_ c) it)
                (cache_ c) (next_node c))
      end
  | None =>
      let it := next_node c in
      r ← prune (set_nodes c (<[it := (k, v)]> (nodes c)) (it :: keys_ c)
                   (<[k := it]> (cache_ c)) (S it));
      Ok (fst r)
  end.

(** [get_nolock]: throws [KeyNotFound] when the key is absent. *)
Definition get_nolock (c : Cache) (k : Z) : res (Cache * Z) :=
  match cache_ c !! k with
  | None => Err Thrown
  | Some it =>
      match nodes c !! it with
      | None => Err OutOfBounds
      | Some (_, v) =>
          Ok (set_nodes c (nodes c) (splice_front (keys_ c) it) (cache_ c) (next_node c), v)
      end
  end.

(** [tryGetRef_nolock]: [None] for [false], else the value left in [vOut]. *)
Definition tryGetRef_nolock (c : Cache) (k : Z) : res (Cache * option Z) :=
  match cache_ c !! k with
  | None => Ok (c, None)
  | Some it =>
      match nodes c !! it with
      | None => Err OutOfBounds
      | Some (_, v) =>
          Ok (set_nodes c (nodes c) (splice_front (keys_ c) it) (cache_ c) (next_node c),
              Some v)
      end
  end.

Definition cache_remove (c : Cache) (k : Z) : Cache * bool :=
  match cache_ c !! k with
  | None => (c, false)
  | Some it =>
      (set_nodes c (delete it (nodes c)) (filter (fun i => i <> it) (keys_ c))
         (delete k (cache_ c)) (next_node c), true)
  end.

(** ** The abstract cache: an association list, most recent first *)

Notation alist := (list (Z * Z)).

Fixpoint spec_get (l : alist) (k : Z) : option Z :=
  match l with
  | [] => None
  | (k', v) :: l => if decide (k' = k) then Some v else spec_get l k
  end.

Definition spec_del (l : alist) (k : Z) : alist := filter (fun p => fst p <> k) l.

Definition spec_touch (l : alist) (k v : Z) : alist := (k, v) :: spec_del l k.

(** Insertion: an existing key moves to the front; a new one may evict the
    least recently used entries, down to [maxSize]. *)
Definition spec_insert (maxSize elasticity : Z) (l : alist) (k v : Z) : alist :=
  match spec_get l k with
  | Some _ => spec_touch l k v
  | None =>
      let l' := (k, v) :: l in
      if (maxSize =? 0) || (Z.of_nat (length l') <? u64 (maxSize + elasticity))
      then l' else take (Z.to_nat maxSize) l'
  end.

(** ** Representation *)

(** The entries in list order. *)
Definition absr (c : Cache) : alist := omap (fun it => nodes c !! it) (keys_ c).

Record cache_inv (c : Cache) : Prop := {
  inv_nodup : NoDup (keys_ c);
  inv_dom : forall it, it ∈ keys_ c <-> is_Some (nodes c !! it);
  inv_map : forall k it, cache_ c !! k = Some it <-> exists v, nodes c !! it = Some (k, v);
  inv_fresh : forall it, is_Some (nodes c !! it) -> (it < next_node c)%nat;
  inv_max : 0 <= maxSize_ c;
}.

Lemma absr_keys c : cache_inv c ->
  Forall2 (fun it p => nodes c !! it = Some p) (keys_ c) (absr c).
Proof.
  intros Hi. unfold absr.
  assert (forall l, Forall (fun it => is_Some (nodes c !! it)) l ->
    Forall2 (fun it p => nodes c !! it = Some p) l (omap (fun it => nodes c !! it) l)) as H.
  { induction 1 as [|it l [p Hp] _ IH]; csimpl; [done|]. rewrite Hp. by constructor. }
  apply H, Forall_forall. intros it Hit. by apply (inv_dom c Hi).
Qed.

Lemma absr_length c : cache_inv c -> length (absr c) = length (keys_ c).
Proof. intros Hi%absr_keys. by rewrite (Forall2_length _ _ _ Hi). Qed.

Lemma elem_of_absr c k v : cache_inv c ->
  (k, v) ∈ absr c <-> exists it, cache_ c !! k = Some it /\ nodes c !! it = Some (k, v).
Proof.
  intros Hi. unfold absr. rewrite list_elem_of_omap. split.
  - intros (it & Hit & Hn). exists it. split; [|done].
    apply (inv_map c Hi). by exists v.
  - intros (it & _ & Hn). exists it. split; [|done]. by apply (inv_dom c Hi).
Qed.

Lemma cache_fst_inj c it it' k v v' : cache_inv c ->
  nodes c !! it = Some (k, v) -> nodes c !! it' = Some (k, v') -> it = it'.
Proof.
  intros Hi H1 H2.
  assert (cache_ c !! k = Some it) by (apply (inv_map c Hi); eauto).
  assert (cache_ c !! k = Some it') by (apply (inv_map c Hi); eauto).
  congruence.
Qed.

(** The keys of the abstract list are pairwise different. *)
Lemma absr_nodup c : cache_inv c -> NoDup (fst <$> absr c).
Proof.
  intros Hi. pose proof (inv_nodup c Hi) as Hnd.
  pose proof (absr_keys c Hi) as H.
  induction H as [|it [k v] l ps Hp H IH]; csimpl; [constructor|].
  apply NoDup_cons in Hnd as [Hnin Hnd]. constructor; [|by apply IH].
  intros ([k' v'] & -> & Hin)%list_elem_of_fmap.
  apply list_elem_of_lookup in Hin as [i Hi'].
  destruct (Forall2_lookup_r _ _ _ _ _ H Hi') as (it' & Hit' & Hn').
  apply Hnin. rewrite (cache_fst_inj c it it' k' v v'); [|done..].
  by eapply list_elem_of_lookup_2.
Qed.

Lemma spec_get_elem l k v : NoDup (fst <$> l) ->
  spec_get l k = Some v <-> (k, v) ∈ l.
Proof.
  induction l as [|[k' v'] l IH]; csimpl; intros Hnd.
  - split; [done|]. by intros ?%elem_of_nil.
  - apply NoDup_cons in Hnd as [Hnin Hnd]. rewrite elem_of_cons.
    destruct (decide (k' = k)) as [->|Hne].
    + split; [naive_solver|]. intros [?|Hin]; [naive_solver|].
      exfalso. apply Hnin, list_elem_of_fmap. by exists (k, v).
    + rewrite IH by done. naive_solver.
Qed.

(** Looking a key up in the map and its node is looking it up in the list. *)
Lemma lookup_absr c k : cache_inv c ->
  spec_get (absr c) k =
    match cache_ c !! k with Some it => snd <$> nodes c !! it | None => None end.
Proof.
  intros Hi. apply option_eq. intros v.
  rewrite spec_get_elem by (by apply absr_nodup). rewrite elem_of_absr by done.
  destruct (cache_ c !! k) as [it|] eqn:E; [|naive_solver].
  pose proof (proj1 (inv_map c Hi k it) E) as [v' Hv']. rewrite Hv'. simpl.
  split; [|naive_solver]. intros (it' & [= <-] & ?). naive_solver.
Qed.

(** [cache_.size()] is the length of the list. *)
Lemma cache_size_absr c : cache_inv c -> cache_size c = Z.of_nat (length (keys_ c)).
Proof.
  intros Hi. unfold cache_size. f_equal.
  assert (dom (cache_ c) = list_to_set (fst <$> absr c)) as Hd.
  { apply set_eq. intros k. rewrite elem_of_dom, elem_of_list_to_set, list_elem_of_fmap.
    split.
    - intros [it Hit]. pose proof (proj1 (inv_map c Hi k it) Hit) as [v Hv].
      exists (k, v). split; [done|]. apply elem_of_absr; [done|]. eauto.
    - intros ([k' v] & -> & Hin). apply elem_of_absr in Hin as (it & Hit & _); [|done].
      simpl. by exists it. }
  rewrite <-size_dom, Hd, size_list_to_set by (by apply absr_nodup).
  by rewrite length_fmap, absr_length.
Qed.

(** ** The operations implement the abstract ones *)

Lemma new_cache_inv m e : 0 <= m -> cache_inv (new_cache m e).
Proof.
  intros Hm. split; simpl; [constructor|..|done].
  - intros it. rewrite lookup_empty. split; [by intros ?%elem_of_nil|by intros [??]].
  - intros k it. rewrite lookup_empty. setoid_rewrite lookup_empty. naive_solver.
  - intros it. rewrite lookup_empty. by intros [??].
Qed.

Lemma omap_cons {A B} (f : A -> option B) x (l : list A) :
  omap f (x :: l) = match f x with Some y => y :: omap f l | None => omap f l end.
Proof. done. Qed.

Lemma omap_ext_elem {A B} (f g : A -> option B) (l : list A) :
  (forall x, x ∈ l -> f x = g x) -> omap f l = omap g l.
Proof.
  induction l as [|x l IH]; intros H; [done|].
  rewrite !omap_cons, H, IH by set_solver. done.
Qed.

(** Removing a node from the order removes its key from the list. *)
Lemma absr_filter c it k v : cache_inv c -> nodes c !! it = Some (k, v) ->
  omap (fun i => nodes c !! i) (filter (fun i => i <> it) (keys_ c)) = spec_del (absr c) k.
Proof.
  intros Hi Hit. unfold absr, spec_del.
  assert (forall i k' v', nodes c !! i = Some (k', v') -> (i <> it <-> k' <> k)) as Hk.
  { intros i k' v' Hn. split; [|naive_solver]. intros Hne ->.
    by apply Hne, (cache_fst_inj c i it k v' v). }
  induction (keys_ c) as [|i l IH]; [done|]. rewrite filter_cons.
  rewrite omap_cons.
  destruct (nodes c !! i) as [[k' v']|] eqn:E.
  - cbv iota. rewrite filter_cons. cbn [fst]. specialize (Hk _ _ _ E).
    destruct (decide (i <> it)), (decide (k' <> k)); try tauto.
    rewrite omap_cons, E. f_equal. apply IH.
  - rewrite decide_True by congruence. rewrite omap_cons, E. apply IH.
Qed.

Lemma splice_front_elem l it i : it ∈ l -> i ∈ splice_front l it <-> i ∈ l.
Proof.
  intros Hit. unfold splice_front. rewrite elem_of_cons, list_elem_of_filter.
  destruct (decide (i = it)); naive_solver.
Qed.

Lemma splice_front_NoDup l it : NoDup l -> NoDup (splice_front l it).
Proof.
  intros Hnd. constructor; [rewrite list_elem_of_filter; naive_solver|].
  by apply NoDup_filter.
Qed.

(** Moving a node to the front and giving it a value. *)
Lemma touch_inv c it k v v' : cache_inv c -> nodes c !! it = Some (k, v) ->
  let c' := set_nodes c (<[it := (k, v')]> (nodes c)) (splice_front (keys_ c) it)
              (cache_ c) (next_node c) in
  cache_inv c' /\ absr c' = spec_touch (absr c) k v'.
Proof.
  intros Hi Hit c'. assert (it ∈ keys_ c) as Hin by (apply (inv_dom c Hi); eauto).
  split.
  - split; simpl.
    + by apply splice_front_NoDup, (inv_nodup c Hi).
    + intros i. rewrite splice_front_elem by done. rewrite (inv_dom c Hi).
      destruct (decide (i = it)) as [->|]; simplify_map_eq; naive_solver.
    + intros k' i. rewrite (inv_map c Hi).
      destruct (decide (i = it)) as [->|]; simplify_map_eq; naive_solver.
    + intros i. destruct (decide (i = it)) as [->|]; simplify_map_eq; intros.
      * apply (inv_fresh c Hi). eauto.
      * by apply (inv_fresh c Hi).
    + apply (inv_max c Hi).
  - unfold spec_touch. rewrite <-(absr_filter c it k v Hi Hit).
    unfold absr, c', splice_front. cbn [nodes keys_ set_nodes].
    rewrite omap_cons, lookup_insert_eq. f_equal. apply omap_ext_elem. intros i [Hne _]%list_elem_of_filter.
    by rewrite lookup_insert_ne.
Qed.

(** Dropping one node. *)
Lemma drop_inv c it k v l : cache_inv c -> nodes c !! it = Some (k, v) ->
  NoDup l -> (forall i, i ∈ l <-> i ∈ keys_ c /\ i <> it) ->
  cache_inv (set_nodes c (delete it (nodes c)) l (delete k (cache_ c)) (next_node c)).
Proof.
  intros Hi Hit Hnd Hl. split; simpl.
  - done.
  - intros i. rewrite Hl, (inv_dom c Hi).
    destruct (decide (i = it)) as [->|]; simplify_map_eq; [|naive_solver].
    split; [naive_solver|by intros []].
  - intros k' i. destruct (decide (k' = k)) as [->|Hk].
    + rewrite lookup_delete_eq. split; [done|]. intros [v' Hv'].
      destruct (decide (i = it)) as [->|]; simplify_map_eq.
      by destruct (cache_fst_inj c i it k v' v).
    + rewrite lookup_delete_ne, (inv_map c Hi) by done.
      destruct (decide (i = it)) as [->|]; simplify_map_eq; naive_solver.
  - intros i. destruct (decide (i = it)) as [->|]; simplify_map_eq; [by intros []|].
    apply (inv_fresh c Hi).
  - apply (inv_max c Hi).
Qed.

Lemma omap_delete_notin (n : gmap nat (Z * Z)) it (l : list nat) : it ∉ l ->
  omap (fun i => delete it n !! i) l = omap (fun i => n !! i) l.
Proof.
  intros Hn. apply omap_ext_elem. intros i Hi.
  rewrite lookup_delete_ne; [done|naive_solver].
Qed.

Lemma removelast_snoc {A} (l : list A) x : removelast (l ++ [x]) = l.
Proof. apply removelast_last. Qed.

(** The pruning loop keeps the [maxSize] most recent entries. *)
Lemma prune_loop_spec fuel c n : cache_inv c -> (length (keys_ c) < fuel)%nat ->
  exists c' n', prune_loop fuel c n = Ok (c', n') /\ cache_inv c' /\
    absr c' = take (Z.to_nat (maxSize_ c)) (absr c) /\
    n' = n + Z.of_nat (length (keys_ c) - length (keys_ c')) /\
    maxSize_ c' = maxSize_ c /\ elasticity_ c' = elasticity_ c.
Proof.
  revert c n. induction fuel as [|fuel IH]; intros c n Hi Hf; [lia|]. simpl.
  pose proof (inv_max c Hi) as Hmax. rewrite cache_size_absr by done.
  destruct (Z.ltb_spec (maxSize_ c) (Z.of_nat (length (keys_ c)))).
  2:{ exists c, n. split; [done|]. split; [done|]. split; [|split; [lia|done]].
      rewrite take_ge; [done|]. rewrite absr_length by done. lia. }
  destruct (keys_ c) as [|it l] eqn:Ek using rev_ind; [simpl in *; lia|].
  rewrite last_snoc, removelast_snoc. rewrite length_app in *. simpl in *.
  destruct (proj1 (inv_dom c Hi it)) as [[k v] Hit]; [rewrite Ek; set_solver|].
  rewrite Hit. pose proof (inv_nodup c Hi) as Hnd. rewrite Ek in Hnd.
  apply NoDup_app in Hnd as (Hnd & Hdis & _).
  assert (it ∉ l) by (intros ?; eapply Hdis; [done|set_solver]).
  edestruct (IH (set_nodes c (delete it (nodes c)) l (delete k (cache_ c)) (next_node c)))
    as (c' & n' & -> & Hi' & Ha & Hn & Hm & He).
  - apply (drop_inv c it k v); [done..|]. intros i. rewrite Ek. set_solver.
  - simpl. lia.
  - exists c', n'. split; [done|]. split; [done|]. simpl in *. split; [|split; [|done]].
    + rewrite Ha. unfold absr. simpl. rewrite omap_delete_notin by done.
      rewrite Ek, omap_app. csimpl. rewrite Hit.
      rewrite take_app_le; [done|].
      pose proof (absr_length c Hi) as Hl. unfold absr in Hl.
      rewrite Ek, omap_app, !length_app in Hl. csimpl in Hl. rewrite Hit in Hl.
      simpl in Hl. lia.
    + assert (length (keys_ c') <= length l)%nat; [|lia].
      rewrite <-absr_length, Ha, length_take by done.
      rewrite absr_length; [simpl; lia|].
      apply (drop_inv c it k v); [done..|]. intros i. rewrite Ek. set_solver.
Qed.

Lemma prune_spec c : cache_inv c ->
  exists c' n', prune c = Ok (c', n') /\ cache_inv c' /\
    absr c' = (if (maxSize_ c =? 0) ||
                  (Z.of_nat (length (absr c)) <? u64 (maxSize_ c + elasticity_ c))
               then absr c else take (Z.to_nat (maxSize_ c)) (absr c)) /\
    maxSize_ c' = maxSize_ c /\ elasticity_ c' = elasticity_ c.
Proof.
  intros Hi. unfold prune. rewrite cache_size_absr, absr_length by done.
  destruct (_ || _); [by exists c, 0|].
  destruct (prune_loop_spec (S (length (keys_ c))) c 0 Hi ltac:(lia))
    as (c' & n' & -> & ? & ? & _ & ? & ?). by exists c', n'.
Qed.

Lemma insert_fresh_inv c k v : cache_inv c -> cache_ c !! k = None ->
  let it := next_node c in
  let c' := set_nodes c (<[it := (k, v)]> (nodes c)) (it :: keys_ c)
              (<[k := it]> (cache_ c)) (S it) in
  cache_inv c' /\ absr c' = (k, v) :: absr c.
Proof.
  intros Hi Hk it c'.
  assert (nodes c !! it = None) as Hit.
  { apply eq_None_not_Some. intros H. apply (inv_fresh c Hi) in H. unfold it in H. lia. }
  assert (it ∉ keys_ c) as Hnin.
  { rewrite (inv_dom c Hi), Hit. by intros []. }
  split.
  - split; simpl.
    + constructor; [done|apply (inv_nodup c Hi)].
    + intros i. rewrite elem_of_cons, (inv_dom c Hi).
      destruct (decide (i = it)) as [->|]; simplify_map_eq; naive_solver.
    + intros k' i. destruct (decide (k' = k)) as [->|Hne].
      * rewrite lookup_insert_eq. split; [intros [= <-]; exists v; by simplify_map_eq|].
        intros [v' Hv']. destruct (decide (i = it)) as [->|]; [done|].
        simplify_map_eq. exfalso.
        assert (cache_ c !! k = Some i) by (apply (inv_map c Hi); eauto). congruence.
      * rewrite lookup_insert_ne, (inv_map c Hi) by done.
        destruct (decide (i = it)) as [->|]; simplify_map_eq; naive_solver.
    + intros i. destruct (decide (i = it)) as [->|]; simplify_map_eq; intros; [lia|].
      apply (inv_fresh c Hi) in H. unfold it. lia.
    + apply (inv_max c Hi).
  - unfold absr, c'. cbn [nodes keys_ set_nodes].
    rewrite omap_cons, lookup_insert_eq. f_equal. apply omap_ext_elem. intros i Hin.
    rewrite lookup_insert_ne; [done|]. by intros ->.
Qed.

Lemma node_of_key c k it : cache_inv c -> cache_ c !! k = Some it ->
  exists v, nodes c !! it = Some (k, v).
Proof. intros Hi. apply (inv_map c Hi). Qed.

(** [insert] never faults and implements [spec_insert]. *)
Lemma cache_insert_spec c k v : cache_inv c ->
  exists c', cache_insert c k v = Ok c' /\ cache_inv c' /\
    absr c' = spec_insert (maxSize_ c) (elasticity_ c) (absr c) k v /\
    maxSize_ c' = maxSize_ c /\ elasticity_ c' = elasticity_ c.
Proof.
  intros Hi. unfold cache_insert, spec_insert. rewrite lookup_absr by done.
  destruct (cache_ c !! k) as [it|] eqn:E.
  - destruct (node_of_key c k it Hi E) as [v0 Hn]. rewrite Hn. cbn [fmap option_fmap option_map snd].
    destruct (touch_inv c it k v0 v Hi Hn) as [??]. eauto 10.
  - destruct (insert_fresh_inv c k v Hi E) as [Hi' Ha].
    destruct (prune_spec _ Hi') as (c' & n' & -> & ? & Ha' & ? & ?).
    exists c'. split; [done|]. split; [done|]. split; [|done].
    rewrite Ha', Ha. done.
Qed.

(** [get]: the value, moved to the front; [KeyNotFound] when absent. *)
Lemma get_nolock_spec c k : cache_inv c ->
  match spec_get (absr c) k with
  | Some v => exists c', get_nolock c k = Ok (c', v) /\ cache_inv c' /\
                absr c' = spec_touch (absr c) k v
  | None => get_nolock c k = Err Thrown
  end.
Proof.
  intros Hi. unfold get_nolock. rewrite lookup_absr by done.
  destruct (cache_ c !! k) as [it|] eqn:E; [|done].
  destruct (node_of_key c k it Hi E) as [v Hn]. rewrite Hn. simpl.
  destruct (touch_inv c it k v v Hi Hn) as [??].
  rewrite insert_id in * by done. eauto.
Qed.

Lemma tryGetRef_spec c k : cache_inv c ->
  exists c', tryGetRef_nolock c k = Ok (c', spec_get (absr c) k) /\ cache_inv c' /\
    absr c' = match spec_get (absr c) k with
              | Some v => spec_touch (absr c) k v | None => absr c end.
Proof.
  intros Hi. unfold tryGetRef_nolock. rewrite lookup_absr by done.
  destruct (cache_ c !! k) as [it|] eqn:E; [|eauto].
  destruct (node_of_key c k it Hi E) as [v Hn]. rewrite Hn. simpl.
  destruct (touch_inv c it k v v Hi Hn) as [??].
  rewrite insert_id in * by done. eauto.
Qed.

Lemma cache_remove_spec c k : cache_inv c ->
  cache_inv (fst (cache_remove c k)) /\
  absr (fst (cache_remove c k)) = spec_del (absr c) k /\
  snd (cache_remove c k) = match spec_get (absr c) k with Some _ => true | None => false end.
Proof.
  intros Hi. unfold cache_remove. rewrite lookup_absr by done.
  destruct (cache_ c !! k) as [it|] eqn:E.
  - destruct (node_of_key c k it Hi E) as [v Hn]. rewrite Hn. simpl. split; [|split; [|done]].
    + apply (drop_inv c it k v); [done..|apply NoDup_filter, (inv_nodup c Hi)|].
      intros i. rewrite list_elem_of_filter. tauto.
    + rewrite <-(absr_filter c it k v Hi Hn). unfold absr. simpl.
      apply omap_delete_notin. rewrite list_elem_of_filter. naive_solver.
  - simpl. split; [done|]. split; [|done]. unfold spec_del. symmetry.
    assert (Forall (fun p => fst p <> k) (absr c)) as HF.
    { apply Forall_forall. intros [k' v'] Hin. simpl. intros ->.
      apply elem_of_absr in Hin as (it & ? & _); congruence. }
    induction HF as [|p l Hp _ IH]; [done|].
    rewrite filter_cons_True by done. by rewrite IH.
Qed.

(** *** The properties of the cache *)

(** The cache never grows beyond its hard limit. *)
Definition within_bound (c : Cache) : Prop :=
  maxSize_ c = 0 \/
  cache_size c <= Z.max (maxSize_ c) (maxSize_ c + elasticity_ c - 1).

Lemma spec_insert_length m e l k v : 0 < m -> 0 <= e -> is_word 64 (m + e) ->
  NoDup (fst <$> l) ->
  Z.of_nat (length l) <= Z.max m (m + e - 1) ->
  Z.of_nat (length (spec_insert m e l k v)) <= Z.max m (m + e - 1).
Proof.
  intros Hm He Hw Hnd Hl. unfold spec_insert. destruct (spec_get l k) as [v0|] eqn:E.
  - apply spec_get_elem in E; [|done]. unfold spec_touch, spec_del. cbn [length].
    assert (length (filter (fun p => fst p <> k) l) < length l)%nat; [|lia].
    apply length_filter_lt with (k, v0); naive_solver.
  - rewrite (wrap_id 64) by done. cbn [length].
    destruct (Z.eqb_spec m 0); [lia|]. simpl.
    destruct (Z.ltb_spec (Z.of_nat (S (length l))) (m + e)); [simpl; lia|].
    pose proof (length_take ((k, v) :: l) (Z.to_nat m)). lia.
Qed.

(** C36: Inserting into a reachable cache never faults, keeps the list and the
    map in agreement, and leaves at most [max(maxSize, maxSize + elasticity - 1)]
    entries, the inserted one among them, the most recent first. *)
Theorem cache_insert_correct c k v : cache_inv c -> 0 < maxSize_ c -> 0 <= elasticity_ c ->
  is_word 64 (maxSize_ c + elasticity_ c) -> within_bound c ->
  exists c', cache_insert c k v = Ok c' /\ cache_inv c' /\ within_bound c' /\
    absr c' = spec_insert (maxSize_ c) (elasticity_ c) (absr c) k v /\
    spec_get (absr c') k = Some v /\ head (absr c') = Some (k, v).
Proof.
  intros Hi Hm He Hw Hb.
  destruct (cache_insert_spec c k v Hi) as (c' & Hc & Hi' & Ha & Em & Ee).
  exists c'. split; [done|]. split; [done|].
  assert (head (absr c') = Some (k, v)) as Hh.
  { rewrite Ha. unfold spec_insert. destruct (spec_get _ _); [done|].
    destruct (_ || _); [done|]. by destruct (Z.to_nat (maxSize_ c)) eqn:E; [lia|]. }
  split; [|split; [done|split; [|done]]].
  - right. rewrite cache_size_absr, <-absr_length, Ha, Em, Ee by done.
    apply spec_insert_length; [done..|by apply absr_nodup|].
    destruct Hb as [?|Hb]; [lia|].
    by rewrite cache_size_absr, <-absr_length in Hb.
  - destruct (absr c') as [|p l]; [done|]. injection Hh as ->. simpl.
    by rewrite decide_True.
Qed.

Lemma cache_insert_correct_witness :
  exists c', cache_insert (new_cache 2 1) 7 70 = Ok c' /\ cache_inv c' /\ within_bound c' /\
    absr c' = spec_insert 2 1 (absr (new_cache 2 1)) 7 70 /\
    spec_get (absr c') 7 = Some 70 /\ head (absr c') = Some (7, 70).
Proof.
  apply (cache_insert_correct (new_cache 2 1) 7 70); simpl;
    [apply new_cache_inv; lia|lia|lia| |].
  - split; [discriminate|reflexivity].
  - right. vm_compute. discriminate.
Defined.
