(* ===== verification/ServerRdma.v ===== *)
(** * The RDMA server (outback/outback_server.hh)

    The state is the program's globals: the seeds ([ludo_lookup_unit]), the
    buckets ([ludo_buckets]), the entry array with its wrapper
    ([packed_data]) and the LRU cache.  One definition per RPC callback; a
    callback takes the decoded words of its argument block and returns the
    reply.  The row lock is held over the whole body of a callback that
    writes, so a callback is one step. *)

From Stdlib Require Import ZArith Lia.
From stdpp Require Import base numbers gmap list.
From S2P Require Import Prelude Words Hash PackedData LudoSlot LruCache.

#[local] Open Scope Z_scope.

Record ReplyValue := MkReply { status : bool; val : Z }.

#[export] Instance ReplyValue_eq_dec : EqDecision ReplyValue.
Proof. solve_decision. Defined.

Record server := MkServer {
  seeds : list Z;               (* ludo_lookup_unit->buckets[].seed *)
  bks : list ludo_bucket;       (* ludo_buckets->bucketsArray *)
  mem : region;                 (* packed_data->rawArray *)
  pd : packed_data;             (* the wrapper: num, numElements *)
  lru : Cache;                  (* lru_cache *)
}.

Definition set_seeds s x := MkServer x (bks s) (mem s) (pd s) (lru s).
Definition set_bks s x := MkServer (seeds s) x (mem s) (pd s) (lru s).
Definition set_mem s x := MkServer (seeds s) (bks s) x (pd s) (lru s).
Definition set_lru s x := MkServer (seeds s) (bks s) (mem s) (pd s) x.

(** [packed_data->bulk_load_data(key, len, val)] on the state. *)
Definition load_entry (s : server) (k len v : Z) : res (server * Z) :=
  '(w, m, a) ← bulk_load_data (pd s) (mem s) k len v;
  Ok (MkServer (seeds s) (bks s) m w (lru s), a).

Definition lru_insert (s : server) (k v : Z) : res server :=
  c ← cache_insert (lru s) k v; Ok (set_lru s c).

(** [uint8_t(h(key) >> 62)] with [h.setSeed(seed)]. *)
Definition slot_of (seed k : Z) : Z := u8 (Z.shiftr (FastHasher64 seed k) 62).

Definition sizeof_ValType : Z := 8.

(** An argument block of 64-bit words; [ASSERT(args.sz == bytes)] and
    [*args.interpret_as<uint64_t>(8 * i)]. *)
Definition args_size (args : list Z) : Z := 8 * Z.of_nat (length args).

Definition get_callback (s : server) (args : list Z) : res ReplyValue :=
  _ ← guard_ok (args_size args =? 16) AssertFailed;
  loc ← rd args 0;
  addr ← read_addr (bks s) (loc / SLOTS_NUM_BUCKET) (loc mod SLOTS_NUM_BUCKET);
  e ← rd (mem s) addr;
  Ok (MkReply true (data e)).

(** The inner loop of the seed search: are the slots of [keys] under a seed
    pairwise different, starting from the slots already [occupied]?  [h] is the
    slot function of that seed. *)
Fixpoint try_seed (h : Z -> Z) (occupied : list bool) (keys : list Z) : res bool :=
  match keys with
  | [] => Ok true
  | k :: keys =>
      let i := h k in
      o ← rd occupied i;
      if o : bool then Ok false
      else occupied' ← wr occupied i true; try_seed h occupied' keys
  end.

(** [for (; seed < 255; ++seed)]; [None] when no seed succeeds. *)
Fixpoint find_seed (fuel : nat) (seed : Z) (keys : list Z) : res (option Z) :=
  match fuel with
  | O => Ok None
  | S fuel =>
      if seed <? 255 then
        success ← try_seed (slot_of seed) [false; false; false; false] keys;
        if success : bool then Ok (Some seed) else find_seed fuel (u8 (seed + 1)) keys
      else Ok None
  end.

(** [write_cell] of every cell at its key's slot. *)
Fixpoint place_cells (h : Z -> Z) (b : list ludo_bucket) (row : Z) (keys cells : list Z)
    : res (list ludo_bucket) :=
  match keys, cells with
  | k :: keys, c :: cells =>
      b' ← write_cell b row (h k) c; place_cells h b' row keys cells
  | [], _ => Ok b
  | _ :: _, [] => Err OutOfBounds
  end.

(** Case 2 of [outback_put_callback]: the bucket is reseeded. *)
Definition put_reseed (s : server) (row k v : Z) : res (server * ReplyValue) :=
  bucket_addrs ← read_bucket_addrs (bks s) row;
  bucket_keys ← read_batch_keys (mem s) bucket_addrs;
  '(s1, addr) ← load_entry s k sizeof_ValType v;
  let bucket_keys := bucket_keys ++ [k] in
  let bucket_addrs := bucket_addrs ++ [combine (fingerprint k) 64 addr] in
  _ ← guard_ok (Z.of_nat (length bucket_keys) <=? 4) AssertFailed;
  found ← find_seed 256 0 bucket_keys;
  match found with
  | None => Err ProcessExit
  | Some seed =>
      sd ← wr (seeds s1) row seed;
      b ← empty_bucket (bks s1) row;
      b' ← place_cells (slot_of seed) b row bucket_keys bucket_addrs;
      Ok (set_bks (set_seeds s1 sd) b', MkReply true (Z.shiftl 1 8 + seed))
  end.

Definition put_callback (s : server) (args : list Z) : res (server * ReplyValue) :=
  _ ← guard_ok (args_size args =? 24) AssertFailed;
  loc ← rd args 0; k ← rd args 1; v ← rd args 2;
  let row := loc / SLOTS_NUM_BUCKET in
  seed ← rd (seeds s) row;
  let slot := slot_of seed k in
  st ← check_slots (bks s) k row slot;
  if st =? 0 then
    '(s1, addr) ← load_entry s k sizeof_ValType v;
    b ← write_addr (bks s1) k row slot addr 64;
    Ok (set_bks s1 b, MkReply true 0)
  else if st =? 1 then
    addr ← read_addr (bks s) row slot;
    k' ← read_key (mem s) addr;
    if k' =? k then
      '(m, _) ← update_data (mem s) addr k 64 v;
      Ok (set_mem s m, MkReply true 1)
    else
      s1 ← lru_insert s k v;
      '(s2, _) ← load_entry s1 k sizeof_ValType v;
      Ok (s2, MkReply true 1)
  else if st =? 2 then put_reseed s row k v
  else if st =? 3 then
    s1 ← lru_insert s k v;
    '(s2, _) ← load_entry s1 k sizeof_ValType v;
    b ← set_cachebit (bks s2) row (loc mod SLOTS_NUM_BUCKET);
    Ok (set_bks s2 b, MkReply true 3)
  else Err ProcessExit.

Definition update_callback (s : server) (args : list Z) : res (server * ReplyValue) :=
  _ ← guard_ok (args_size args =? 24) AssertFailed;
  loc ← rd args 0; k ← rd args 1; v ← rd args 2;
  let row := loc / SLOTS_NUM_BUCKET in
  addr ← read_addr (bks s) row (loc mod SLOTS_NUM_BUCKET);
  k' ← read_key (mem s) addr;
  if k' =? k then
    '(m, _) ← update_data (mem s) addr k 64 v;
    Ok (set_mem s m, MkReply true 1)
  else
    s1 ← lru_insert s k v;
    '(s2, _) ← load_entry s1 k sizeof_ValType v;
    Ok (s2, MkReply true 2).

Definition remove_callback (s : server) (args : list Z) : res (server * ReplyValue) :=
  _ ← guard_ok (args_size args =? 16) AssertFailed;
  loc ← rd args 0; k ← rd args 1;
  let row := loc / SLOTS_NUM_BUCKET in
  addr ← read_addr (bks s) row (loc mod SLOTS_NUM_BUCKET);
  '(m, ok) ← remove_data_with_key_check (mem s) addr k;
  b ← (if ok : bool then remove_addr (bks s) row (loc mod SLOTS_NUM_BUCKET)
       else Ok (bks s));
  Ok (set_bks (set_mem s m) b, MkReply true 0).

(** The reply of a scan is the local [ReplyValue], which is never assigned:
    [junk] is its indeterminate content. *)
Definition scan_callback (s : server) (args : list Z) (junk : ReplyValue) : res ReplyValue :=
  _ ← guard_ok (args_size args =? 16) AssertFailed;
  k ← rd args 0; n ← rd args 1;
  Ok junk.
