(* ===== verification/ServerInv.v ===== *)
(** * The invariant of the server's table

    Well-formed states of the server of ServerRdma.v, the contents they store,
    and what each building block of the callbacks (loading an entry, linking
    it, overwriting it, reseeding a row) does to both. *)

From Stdlib Require Import ZArith Lia.
From stdpp Require Import base numbers gmap list.
From S2P Require Import Prelude Words Hash PackedData LudoSlot LruCache ServerRdma.

#[local] Open Scope Z_scope.

(** ** Well-formed states and what they store *)

Lemma slot_of_range seed k : 0 <= slot_of seed k < 4.
Proof.
  unfold slot_of. pose proof (FastHasher64_slot seed k) as H.
  rewrite wrap_id; [done|]. unfold is_word. lia.
Qed.

Arguments slot_of : simpl never.
#[global] Opaque slot_of.

(** [home k] is the row of key [k]: what the clients compute with the shared
    index and send as [loc / 4]. *)
Section server_spec.
Context (home : Z -> Z).

(** A cell's entry: allocated, in the cell's row, at the slot its key has
    under the row's seed. *)
Definition good_cell (s : server) (row seed slot c : Z) : Prop :=
  toAddr c < num (pd s) /\
  exists e, rd (mem s) (toAddr c) = Ok e /\ slot = slot_of seed (pkey e) /\
    home (pkey e) = row.

Record wf (s : server) : Prop := {
  wf_len : length (seeds s) = length (bks s);
  wf_rows : wf_buckets (bks s);
  wf_num : 0 <= num (pd s) <= numElements (pd s);
  wf_mem : numElements (pd s) = Z.of_nat (length (mem s));
  wf_cap : numElements (pd s) <= 2 ^ 32;
  wf_cell : forall row seed slot c, rd (seeds s) row = Ok seed ->
    rd2 (bks s) row slot = Ok c -> nonempty c -> good_cell s row seed slot c;
  wf_lru : cache_inv (lru s);
}.

(** The entries reachable from a row of cells, and from the whole table. *)
Definition in_row (m : region) (r : list Z) (k v : Z) : Prop :=
  exists slot c e, rd r slot = Ok c /\ nonempty c /\ rd m (toAddr c) = Ok e /\
    pkey e = k /\ data e = v.

Definition stored (s : server) (k v : Z) : Prop :=
  exists row r, rd (bks s) row = Ok r /\ in_row (mem s) r k v.

(** The value of [k] as an in-sync client finds it. *)
Definition lookup (s : server) (k : Z) : res (option Z) :=
  seed ← rd (seeds s) (home k);
  c ← rd2 (bks s) (home k) (slot_of seed k);
  if toLength c =? 0 then Ok None
  else
    e ← rd (mem s) (toAddr c);
    Ok (if pkey e =? k then Some (data e) else None).

Lemma seeds_bks s row : wf s -> (exists x, rd (seeds s) row = Ok x) <-> exists r, rd (bks s) row = Ok r.
Proof.
  intros Hwf. pose proof (wf_len s Hwf) as Hl. split; intros [x Hx%rd_range]; apply rd_in_range; lia.
Qed.

Lemma rd2_rd s row slot c : rd2 (bks s) row slot = Ok c <->
  exists r, rd (bks s) row = Ok r /\ rd r slot = Ok c.
Proof. unfold rd2. by rewrite bind_Ok. Qed.

(** A stored key is in its home row at its slot. *)
Lemma stored_at s seed k v : wf s -> rd (seeds s) (home k) = Ok seed ->
  stored s k v <-> exists c e, rd2 (bks s) (home k) (slot_of seed k) = Ok c /\
    nonempty c /\ rd (mem s) (toAddr c) = Ok e /\ pkey e = k /\ data e = v.
Proof.
  intros Hwf Hs. split.
  - intros (row & r & Hr & slot & c & e & Hc & Hne & He & Hk & Hv).
    assert (Hrc : rd2 (bks s) row slot = Ok c) by (apply rd2_rd; eauto).
    destruct (proj2 (seeds_bks s row Hwf) (ex_intro _ r Hr)) as [sd Hsd].
    destruct (wf_cell s Hwf _ _ _ _ Hsd Hrc Hne) as (_ & e' & He' & -> & Hh).
    assert (e' = e) as -> by congruence. subst k.
    assert (sd = seed) as -> by congruence. subst row. eauto 10.
  - intros (c & e & Hc & Hne & He & Hk & Hv). apply rd2_rd in Hc as (r & Hr & Hc).
    exists (home k), r. split; [done|]. by exists (slot_of seed k), c, e.
Qed.

Lemma stored_fun s k v v' : wf s -> stored s k v -> stored s k v' -> v = v'.
Proof.
  intros Hwf Hv Hv'. pose proof Hv as (row & r & Hr & slot & c & e & Hc & Hne & He & Hk & _).
  destruct (proj2 (seeds_bks s row Hwf) (ex_intro _ r Hr)) as [sd Hsd].
  assert (Hrc : rd2 (bks s) row slot = Ok c) by (apply rd2_rd; eauto).
  destruct (wf_cell s Hwf _ _ _ _ Hsd Hrc Hne) as (_ & e' & He' & _ & Hh).
  assert (e' = e) as -> by congruence. rewrite Hk in Hh. subst row.
  rewrite (stored_at s sd) in Hv, Hv' by done.
  destruct Hv as (c1 & e1 & ? & ? & ? & ? & ?), Hv' as (c2 & e2 & ? & ? & ? & ? & ?).
  congruence.
Qed.

(** [lookup] decides [stored]. *)
Lemma lookup_stored s k v : wf s -> lookup s k = Ok (Some v) <-> 
  stored s k v /\ exists seed, rd (seeds s) (home k) = Ok seed.
Proof.
  intros Hwf. unfold lookup. split.
  - intros H. res_inv. destruct (Z.eqb_spec (toLength a0) 0); [done|]. res_inv.
    destruct (Z.eqb_spec (pkey a1) k); [|done]. injection H as H.
    split; [|eauto]. rewrite (stored_at s a) by done. exists a0, a1. eauto 10.
  - intros [Hst [seed Hs]]. rewrite (stored_at s seed) in Hst by done.
    destruct Hst as (c & e & Hc & Hne & He & Hk & Hv).
    rewrite Hs. cbn [mbind res_bind]. rewrite Hc. cbn [mbind res_bind].
    destruct (Z.eqb_spec (toLength c) 0); [done|]. rewrite He. cbn [mbind res_bind].
    by rewrite (proj2 (Z.eqb_eq _ _) Hk), Hv.
Qed.
End server_spec.

(** ** How the building blocks change the stored contents *)

Section steps.
Context (home : Z -> Z).

(** [stored] after an operation: [k] maps to [v], the other keys are as
    they were. *)
Definition updated (s s' : server) (k v : Z) : Prop :=
  forall k' v', stored s' k' v' <->
    (k' = k /\ v' = v) \/ (k' <> k /\ stored s k' v').

Lemma load_entry_spec s k len v s' a : wf home s -> load_entry s k len v = Ok (s', a) ->
  wf home s' /\ a = num (pd s) /\ 0 <= a < num (pd s') /\ num (pd s) < numElements (pd s) /\
  rd (mem s') a = Ok (PackedStruct k len v) /\
  (forall i, i <> a -> rd (mem s') i = rd (mem s) i) /\
  bks s' = bks s /\ seeds s' = seeds s /\ lru s' = lru s /\
  num (pd s') = num (pd s) + 1 /\ numElements (pd s') = numElements (pd s).
Proof.
  intros Hwf H. unfold load_entry in H. apply bind_Ok in H as ([[w m] a'] & Hb & H).
  res_inv. apply bulk_load_data_Ok in Hb as (H1 & H2 & -> & -> & ->).
  pose proof (wf_num _ s Hwf). pose proof (wf_cap _ s Hwf). pose proof (wf_mem _ s Hwf).
  rewrite !wrap_id in * by (unfold is_word; lia). simpl.
  assert (Hw := wr_in_range (mem s) (num (pd s)) (PackedStruct k len v) H2).
  split.
  - split; simpl; try apply Hwf; [lia|by rewrite length_insert|].
    intros row seed slot c Hs Hc Hne.
    destruct (wf_cell _ s Hwf row seed slot c Hs Hc Hne) as (Ha & e & He & ? & ?).
    split; simpl; [lia|]. exists e. rewrite (rd_wr_ne _ _ _ _ _ Hw) by lia. done.
  - repeat split; try lia.
    + by eapply rd_wr_eq.
    + intros i Hi. by eapply rd_wr_ne.
Qed.

(** Memory the live cells do not use does not matter. *)
Lemma stored_mem s s' : wf home s -> bks s' = bks s ->
  (forall i, i < num (pd s) -> rd (mem s') i = rd (mem s) i) ->
  forall k v, stored s' k v <-> stored s k v.
Proof.
  intros Hwf Hb Hm k v. unfold stored, in_row. rewrite Hb.
  split; intros (row & r & Hr & slot & c & e & Hc & Hne & He & Hkv);
    exists row, r; (split; [done|]); exists slot, c, e; repeat split; try done;
    try apply Hkv.
  all: destruct (proj2 (seeds_bks home s row Hwf) (ex_intro _ r Hr)) as [sd Hsd];
    destruct (wf_cell _ s Hwf row sd slot c Hsd) as [Ha _];
      [apply rd2_rd; eauto|done|].
  - by rewrite <-Hm.
  - by rewrite Hm.
Qed.

(** A write of one row and its seed. *)
Definition row_write (s : server) (row seed : Z) (r : list Z) (s' : server) : Prop :=
  rd (seeds s') row = Ok seed /\ rd (bks s') row = Ok r /\
  (forall i, row <> i -> rd (seeds s') i = rd (seeds s) i /\ rd (bks s') i = rd (bks s) i) /\
  length (seeds s') = length (seeds s) /\ length (bks s') = length (bks s) /\
  mem s' = mem s /\ pd s' = pd s /\ lru s' = lru s.

Lemma row_write_wf s row seed r s' : wf home s -> row_write s row seed r s' ->
  length r = 4%nat ->
  (forall slot c, rd r slot = Ok c -> nonempty c -> good_cell home s row seed slot c) ->
  wf home s'.
Proof.
  intros Hwf (Hsd & Hr & Hoth & Hls & Hlb & Hm & Hp & Hl) H4 Hgood.
  split; rewrite ?Hm, ?Hp, ?Hl; try apply Hwf.
  - rewrite Hls, Hlb. apply Hwf.
  - apply Forall_lookup_2. intros i x Hx.
    destruct (decide (row = Z.of_nat i)) as [->|Hne].
    + apply rd_Ok in Hr as [_ Hr]. rewrite Nat2Z.id in Hr. congruence.
    + assert (Hx' : rd (bks s') (Z.of_nat i) = Ok x)
        by (apply rd_Ok; rewrite Nat2Z.id; split; [lia|done]).
      rewrite (proj2 (Hoth _ Hne)) in Hx'. apply rd_Ok in Hx' as [_ Hx'].
      apply (Forall_lookup_1 _ _ _ _ (wf_rows _ s Hwf) Hx').
  - intros row' seed' slot c Hs Hc Hne.
    unfold good_cell. rewrite Hm, Hp.
    destruct (decide (row = row')) as [<-|Hrow].
    + apply rd2_rd in Hc as (r' & Hr' & Hc).
      assert (r' = r) as -> by congruence. assert (seed' = seed) as -> by congruence.
      by apply Hgood.
    + apply (wf_cell _ s Hwf); [by rewrite <-(proj1 (Hoth _ Hrow))| |done].
      apply rd2_rd in Hc as (r' & Hr' & Hc). apply rd2_rd. exists r'.
      by rewrite <-(proj2 (Hoth _ Hrow)).
Qed.

Lemma row_write_stored s row seed r s' : wf home s -> row_write s row seed r s' ->
  length r = 4%nat ->
  (forall slot c, rd r slot = Ok c -> nonempty c -> good_cell home s row seed slot c) ->
  forall k v, stored s' k v <->
    (home k = row /\ in_row (mem s) r k v) \/ (home k <> row /\ stored s k v).
Proof.
  intros Hwf Hw H4 Hgood k v. pose proof (row_write_wf _ _ _ _ _ Hwf Hw H4 Hgood) as Hwf'.
  destruct Hw as (Hsd & Hr & Hoth & Hls & Hlb & Hm & Hp & Hl).
  assert (forall s0 row' r' slot c e, wf home s0 -> rd (bks s0) row' = Ok r' ->
    rd r' slot = Ok c -> nonempty c -> rd (mem s0) (toAddr c) = Ok e ->
    home (pkey e) = row') as Hhome.
  { intros s0 row' r' slot c e Hwf0 Hr' Hc Hne He.
    destruct (proj2 (seeds_bks home s0 row' Hwf0) (ex_intro _ r' Hr')) as [sd Hsd'].
    destruct (wf_cell _ s0 Hwf0 row' sd slot c Hsd') as (_ & e' & He' & _ & Hh);
      [apply rd2_rd; eauto|done|]. congruence. }
  split.
  - intros (row' & r' & Hr' & slot & c & e & Hc & Hne & He & <- & Hv).
    pose proof (Hhome s' _ _ _ _ _ Hwf' Hr' Hc Hne He) as Hh. rewrite Hm in He.
    destruct (decide (row = row')) as [<-|Hrow].
    + left. split; [done|]. assert (r' = r) as -> by congruence. by exists slot, c, e.
    + right. split; [congruence|]. exists row', r'.
      rewrite <-(proj2 (Hoth _ Hrow)). split; [done|]. by exists slot, c, e.
  - intros [[Hh Hin]|[Hh (row' & r' & Hr' & slot & c & e & Hc & Hne & He & <- & Hv)]].
    + exists row, r. by rewrite Hm.
    + pose proof (Hhome s _ _ _ _ _ Hwf Hr' Hc Hne He) as Hh'.
      exists row', r'. rewrite Hm, (proj2 (Hoth row' ltac:(congruence))).
      split; [done|]. by exists slot, c, e.
Qed.

(** From the contents of one row to the contents of the table. *)
Lemma row_write_updated s row seed r r' s' k v : wf home s ->
  rd (bks s) row = Ok r -> row_write s row seed r' s' -> length r' = 4%nat ->
  (forall slot c, rd r' slot = Ok c -> nonempty c -> good_cell home s row seed slot c) ->
  home k = row ->
  (forall k' v', in_row (mem s) r' k' v' <->
    (k' = k /\ v' = v) \/ (k' <> k /\ in_row (mem s) r k' v')) ->
  updated s s' k v.
Proof.
  intros Hwf Hr Hw H4 Hgood Hk Hin k' v'.
  rewrite (row_write_stored _ _ _ _ _ Hwf Hw H4 Hgood), Hin.
  assert (home k' = row -> stored s k' v' <-> in_row (mem s) r k' v') as Hrow.
  { intros Hk'. split; [|by exists row, r].
    destruct (proj2 (seeds_bks home s row Hwf) (ex_intro _ r Hr)) as [sd Hsd].
    rewrite (stored_at home s sd) by (done || congruence).
    intros (c & e & (r1 & Hr1 & Hc)%rd2_rd & ?). 
    assert (r1 = r) as -> by congruence. by exists (slot_of sd k'), c, e. }
  destruct (decide (k' = k)) as [->|Hne]; [naive_solver|].
  destruct (decide (home k' = row)) as [Hk'|]; [|naive_solver].
  rewrite (Hrow Hk'). naive_solver.
Qed.
End steps.

(** ** The cases of PUT *)

Section cases.
Context (home : Z -> Z).
Implicit Types (s : server).

Definition live (c : Z) : Prop := nonempty c.

(** Writing one cell of a row. *)
Lemma write_cell_row s row seed r slot c b' : wf home s ->
  rd (seeds s) row = Ok seed -> rd (bks s) row = Ok r ->
  wr2 (bks s) row slot c = Ok b' ->
  exists r', wr r slot c = Ok r' /\ row_write s row seed r' (set_bks s b').
Proof.
  intros Hwf Hs Hr Hb. pose proof Hb as Hb0. unfold wr2 in Hb.
  rewrite Hr in Hb. cbn [mbind res_bind] in Hb. apply bind_Ok in Hb as (r' & Hr' & Hb).
  exists r'. split; [done|]. split; [done|]. split; [by eapply rd_wr_eq|].
  split; [|simpl; by rewrite (wr_length _ _ _ _ Hb)].
  intros i Hi. split; [done|]. by eapply rd_wr_ne.
Qed.

Lemma row_length s row r : wf home s -> rd (bks s) row = Ok r -> length r = 4%nat.
Proof.
  intros Hwf [_ Hr]%rd_Ok. apply (Forall_lookup_1 _ _ _ _ (wf_rows _ s Hwf) Hr).
Qed.

Lemma row_cell_good s row seed r slot c : wf home s ->
  rd (seeds s) row = Ok seed -> rd (bks s) row = Ok r -> rd r slot = Ok c ->
  nonempty c -> good_cell home s row seed slot c.
Proof.
  intros Hwf Hs Hr Hc. apply (wf_cell _ s Hwf); [done|]. apply rd2_rd. eauto.
Qed.

(** A key of an occupied slot of its row is the key stored there. *)
Lemma in_row_slot s row seed r k v : wf home s ->
  rd (seeds s) row = Ok seed -> rd (bks s) row = Ok r ->
  in_row (mem s) r k v <->
  exists c e, rd r (slot_of seed k) = Ok c /\ nonempty c /\
    rd (mem s) (toAddr c) = Ok e /\ pkey e = k /\ data e = v.
Proof.
  intros Hwf Hs Hr. split.
  - intros (slot & c & e & Hc & Hne & He & <- & Hv).
    destruct (row_cell_good s row seed r slot c Hwf Hs Hr Hc Hne) as (_ & e' & He' & -> & _).
    assert (e' = e) as -> by congruence. by exists c, e.
  - intros (c & e & ?). by exists (slot_of seed k), c, e.
Qed.

(** Case 0: the entry [a] of [k] is linked from the empty slot of [k]. *)
Lemma link_cell s row seed r k a e c0 b' : wf home s ->
  rd (seeds s) row = Ok seed -> rd (bks s) row = Ok r -> home k = row ->
  rd r (slot_of seed k) = Ok c0 -> toLength c0 = 0 ->
  0 <= a < num (pd s) -> rd (mem s) a = Ok e -> pkey e = k ->
  write_addr (bks s) k row (slot_of seed k) a 64 = Ok b' ->
  wf home (set_bks s b') /\ updated s (set_bks s b') k (data e).
Proof.
  intros Hwf Hs Hr Hk Hc0 Hemp Ha He Hke Hb. unfold write_addr in Hb.
  pose proof (wf_num _ s Hwf). pose proof (wf_cap _ s Hwf).
  destruct (new_cell_fields k a) as (Hl & Hf & Hta); [lia|].
  revert Hb Hl Hf Hta. generalize (combine (fingerprint k) 64 a) as nc.
  intros nc Hb Hl _ Hta.
  assert (Hnn : nonempty nc) by (unfold nonempty; lia). clear Hl.
  destruct (write_cell_row s row seed r _ _ b' Hwf Hs Hr Hb) as (r' & Hr' & Hrw).
  pose proof (row_length _ _ _ Hwf Hr) as H4.
  assert (H4' : length r' = 4%nat) by (by rewrite (wr_length _ _ _ _ Hr')).
  assert (Hgood : forall slot c, rd r' slot = Ok c -> nonempty c ->
    good_cell home s row seed slot c).
  { intros slot c Hc Hne. destruct (decide (slot_of seed k = slot)) as [<-|Hsl].
    - rewrite (rd_wr_eq _ _ _ _ Hr') in Hc. apply Ok_inj in Hc as <-.
      split; rewrite Hta; [lia|]. exists e. by rewrite Hke.
    - rewrite (rd_wr_ne _ _ _ _ _ Hr' Hsl) in Hc. by apply (row_cell_good s row seed r). }
  split; [by eapply row_write_wf|].
  eapply row_write_updated; [done..|]. intros k' v'. split.
  - intros (slot & c & e' & Hc & Hne & He' & <- & <-).
    destruct (decide (slot_of seed k = slot)) as [<-|Hsl].
    + rewrite (rd_wr_eq _ _ _ _ Hr') in Hc. apply Ok_inj in Hc as <-.
      rewrite Hta in He'. left. split; congruence.
    + right. destruct (Hgood _ _ Hc Hne) as (_ & e1 & He1 & Hs1 & _).
      split; [congruence|]. rewrite (rd_wr_ne _ _ _ _ _ Hr' Hsl) in Hc.
      by exists slot, c, e'.
  - intros [[-> ->]|[Hne Hin]].
    + exists (slot_of seed k), nc, e.
      rewrite (rd_wr_eq _ _ _ _ Hr'). by rewrite Hta.
    + destruct Hin as (slot & c & e' & Hc & Hnc & He' & <- & <-).
      exists slot, c, e'. split; [|done].
      rewrite (rd_wr_ne _ _ _ _ _ Hr'); [done|]. intros <-.
      assert (c = c0) as -> by congruence. done.
Qed.

(** Case 1, and UPDATE: the entry of a stored key is overwritten. *)
Lemma overwrite_entry s row seed slot c e k len v m' : wf home s ->
  rd (seeds s) row = Ok seed -> rd2 (bks s) row slot = Ok c -> nonempty c ->
  rd (mem s) (toAddr c) = Ok e -> pkey e = k ->
  wr (mem s) (toAddr c) (PackedStruct k len v) = Ok m' ->
  wf home (set_mem s m') /\ updated s (set_mem s m') k v.
Proof.
  intros Hwf Hs Hc Hne He Hk Hw.
  assert (Hkeys : forall i x, rd (mem s) i = Ok x ->
    exists x', rd m' i = Ok x' /\ pkey x' = pkey x /\ (i <> toAddr c -> x' = x)).
  { intros i x Hx. destruct (decide (toAddr c = i)) as [<-|Hi].
    - exists (PackedStruct k len v). rewrite (rd_wr_eq _ _ _ _ Hw).
      assert (x = e) as -> by congruence. done.
    - exists x. by rewrite (rd_wr_ne _ _ _ _ _ Hw Hi). }
  assert (Hwf' : wf home (set_mem s m')).
  { split; simpl; try apply Hwf.
    - by rewrite (wr_length _ _ _ _ Hw); apply Hwf.
    - intros row' seed' slot' c' Hs' Hc' Hne'.
      destruct (wf_cell _ s Hwf _ _ _ _ Hs' Hc' Hne') as (Ha & x & Hx & Hsl & Hh).
      destruct (Hkeys _ _ Hx) as (x' & Hx' & Hkx & _).
      split; [done|]. exists x'. by rewrite Hkx. }
  assert (Hrk : home k = row /\ slot = slot_of seed k).
  { destruct (wf_cell _ s Hwf _ _ _ _ Hs Hc Hne) as (_ & x & Hx & Hsl & Hh).
    assert (x = e) as -> by congruence. subst k. done. }
  destruct Hrk as [<- ->]. split; [done|]. intros k' v'.
  destruct (decide (k' = k)) as [->|Hk'].
  - rewrite (stored_at _ _ seed) by done. simpl. split.
    + intros (c1 & e1 & Hc1 & Hne1 & He1 & Hk1 & Hv1).
      assert (c1 = c) as -> by congruence. rewrite (rd_wr_eq _ _ _ _ Hw) in He1.
      apply Ok_inj in He1 as <-. by left.
    + intros [[_ ->]|[? _]]; [|done]. exists c, (PackedStruct k len v).
      by rewrite (rd_wr_eq _ _ _ _ Hw).
  - assert (Hsame : forall row' r' slot' c' x, rd (bks s) row' = Ok r' ->
      rd r' slot' = Ok c' -> nonempty c' -> rd (mem s) (toAddr c') = Ok x ->
      pkey x = k' -> rd m' (toAddr c') = Ok x).
    { intros row' r' slot' c' x Hr' Hc' Hne' Hx Hkx.
      destruct (Hkeys _ _ Hx) as (x' & Hx' & Hk2 & Heq).
      destruct (decide (toAddr c' = toAddr c)) as [E|]; [|by rewrite <-Heq].
      rewrite E in Hx. congruence. }
    split.
    + intros (row' & r' & Hr' & slot' & c' & x & Hc' & Hne' & Hx & Hkx & Hv).
      right. split; [done|]. exists row', r'. split; [done|]. simpl in *.
      destruct (decide (toAddr c = toAddr c')) as [E|E].
      * rewrite <-E, (rd_wr_eq _ _ _ _ Hw) in Hx. apply Ok_inj in Hx as <-. naive_solver.
      * rewrite (rd_wr_ne _ _ _ _ _ Hw E) in Hx. by exists slot', c', x.
    + intros [[? _]|[_ (row' & r' & Hr' & slot' & c' & x & Hc' & Hne' & Hx & Hkx & Hv)]]; [done|].
      exists row', r'. split; [done|]. exists slot', c', x. simpl. eauto 10.
Qed.
End cases.

(** ** The seed search *)

Section search.
Context (h : Z -> Z) (Hh : forall k, 0 <= h k < 4).

(** [try_seed] accepts exactly the key lists whose slots are pairwise
    different and not occupied yet. *)
Lemma try_seed_spec keys occ : length occ = 4%nat ->
  exists b, try_seed h occ keys = Ok b /\
    (b = true <-> NoDup (h <$> keys) /\ Forall (fun k => rd occ (h k) = Ok false) keys).
Proof.
  revert occ. induction keys as [|k keys IH]; intros occ Hl; cbn [try_seed].
  { exists true. repeat split; constructor. }
  destruct (rd_in_range occ (h k)) as [o Ho]; [specialize (Hh k); lia|].
  rewrite Ho. cbn [mbind res_bind]. destruct o.
  { exists false. split; [done|]. split; [done|]. intros [_ HF].
    apply Forall_cons in HF as [HF _]. congruence. }
  rewrite wr_in_range by (specialize (Hh k); lia). cbn [mbind res_bind].
  assert (Hw := wr_in_range occ (h k) true ltac:(specialize (Hh k); lia)).
  destruct (IH (<[Z.to_nat (h k) := true]> occ)) as (b & -> & Hb);
    [by rewrite length_insert|].
  exists b. split; [done|]. rewrite Hb, Forall_cons, fmap_cons, NoDup_cons.
  rewrite !Forall_forall. split.
  - intros [Hnd HF]. assert (h k ∉ h <$> keys) as Hni.
    { intros (k' & Hk' & Hin)%list_elem_of_fmap. specialize (HF k' Hin).
      rewrite <-Hk', (rd_wr_eq _ _ _ _ Hw) in HF. discriminate HF. }
    repeat split; [done..|]. intros k' Hin. rewrite <-(HF k' Hin).
    symmetry. apply (rd_wr_ne _ _ _ _ _ Hw). intros E. apply Hni.
    rewrite E. by apply list_elem_of_fmap_2.
  - intros [[Hni Hnd] [_ HF]]. split; [done|]. intros k' Hin.
    rewrite (rd_wr_ne _ _ _ _ _ Hw); [by apply HF|]. intros E. apply Hni.
    rewrite E. by apply list_elem_of_fmap_2.
Qed.

Lemma place_cells_spec row keys cells b r :
  wf_buckets b -> rd b row = Ok r -> NoDup (h <$> keys) -> length cells = length keys ->
  exists b' r', place_cells h b row keys cells = Ok b' /\ rd b' row = Ok r' /\
    wf_buckets b' /\ length b' = length b /\
    (forall row', row <> row' -> rd b' row' = rd b row') /\
    Forall2 (fun k c => rd r' (h k) = Ok c) keys cells /\
    (forall slot, slot ∉ h <$> keys -> rd r' slot = rd r slot).
Proof.
  revert cells b r. induction keys as [|k keys IH]; intros [|c cells] b r Hb Hr Hnd Hl;
    try discriminate.
  { exists b, r. do 5 (split; [done|]). split; [constructor|done]. }
  cbn [place_cells]. apply NoDup_cons in Hnd as [Hni Hnd].
  assert (Hwr : wr r (h k) c = Ok (<[Z.to_nat (h k) := c]> r)).
  { apply wr_in_range. destruct (row_cells b row r Hb Hr) as (?&?&?&?&->).
    specialize (Hh k). simpl. lia. }
  unfold write_cell. rewrite (wr2_row b row r _ _ _ Hr Hwr). cbn [mbind res_bind].
  pose proof (rd_range _ _ _ Hr) as Hrow.
  assert (Hwb := wr_in_range b row (<[Z.to_nat (h k) := c]> r) Hrow).
  destruct (IH cells (<[Z.to_nat row := <[Z.to_nat (h k) := c]> r]> b) (<[Z.to_nat (h k) := c]> r))
    as (b' & r' & Hp & Hr' & Hb' & Hlb & Hoth & HF & Hrest).
  - eapply wf_buckets_wr2; [by apply (wr2_row b row r)|done].
  - by apply rd_insert_eq.
  - done.
  - by injection Hl.
  - exists b', r'. split; [done|]. split; [done|]. split; [done|].
    split; [by rewrite Hlb, length_insert|]. split; [|split].
    + intros row' Hne. rewrite Hoth by done. by apply (rd_wr_ne _ _ _ _ _ Hwb).
    + constructor; [|done]. rewrite Hrest by done. by apply (rd_wr_eq _ _ _ _ Hwr).
    + intros slot Hs. rewrite fmap_cons, not_elem_of_cons in Hs. destruct Hs as [Hs1 Hs2].
      rewrite Hrest by done. by apply (rd_wr_ne _ _ _ _ _ Hwr).
Qed.
End search.

Lemma free_occupied k : 0 <= k < 4 -> rd [false; false; false; false] k = Ok false.
Proof.
  intros Hk. assert (k = 0 \/ k = 1 \/ k = 2 \/ k = 3) as [->|[->|[->| ->]]] by lia; done.
Qed.

Definition separates (seed : Z) (keys : list Z) : Prop := NoDup (slot_of seed <$> keys).

#[export] Instance separates_dec seed keys : Decision (separates seed keys).
Proof. unfold separates. apply _. Defined.

Lemma try_seed_separates seed keys :
  try_seed (slot_of seed) [false; false; false; false] keys = Ok (bool_decide (separates seed keys)).
Proof.
  destruct (try_seed_spec (slot_of seed) (slot_of_range seed) keys [false; false; false; false])
    as (b & -> & Hb); [done|].
  f_equal. destruct b; symmetry.
  - by apply bool_decide_true, Hb.
  - apply bool_decide_false. intros Hs. cut (false = true); [done|].
    apply Hb. split; [done|]. apply Forall_forall. intros k _. apply free_occupied, slot_of_range.
Qed.

(** The search returns the least seed below 255 that separates the keys. *)
Lemma find_seed_spec fuel seed keys : 0 <= seed <= 255 -> 256 <= seed + Z.of_nat fuel ->
  exists r, find_seed fuel seed keys = Ok r /\
  match r with
  | Some sd => seed <= sd < 255 /\ separates sd keys /\
      forall sd', seed <= sd' < sd -> ~ separates sd' keys
  | None => forall sd, seed <= sd < 255 -> ~ separates sd keys
  end.
Proof.
  revert seed. induction fuel as [|fuel IH]; intros seed Hs Hf; [lia|].
  cbn [find_seed]. destruct (Z.ltb_spec seed 255).
  2:{ exists None. split; [done|]. intros sd ?. lia. }
  rewrite try_seed_separates. cbn [mbind res_bind].
  case_bool_decide as Hsep.
  { exists (Some seed). split; [done|]. split; [lia|]. split; [done|]. intros. lia. }
  rewrite wrap_id by (unfold is_word; lia).
  destruct (IH (seed + 1)) as (r & -> & Hr); [lia..|]. exists r. split; [done|].
  destruct r as [sd|].
  - destruct Hr as (? & ? & Hmin). split; [lia|]. split; [done|]. intros sd' ?.
    destruct (decide (sd' = seed)) as [->|]; [done|]. apply Hmin. lia.
  - intros sd ?. destruct (decide (sd = seed)) as [->|]; [done|]. apply Hr. lia.
Qed.

(** ** Case 2 of PUT: the row is reseeded *)

Lemma Forall2_and_l {A B} (P : A -> B -> Prop) (Q : A -> Prop) l k :
  Forall2 P l k -> Forall Q l -> Forall2 (fun x y => P x y /\ Q x) l k.
Proof. induction 1; inversion_clear 1; constructor; auto. Qed.

Lemma Forall2_snoc {A B} (P : A -> B -> Prop) l k x y :
  Forall2 P l k -> P x y -> Forall2 P (l ++ [x]) (k ++ [y]).
Proof. intros. apply Forall2_app; [done|by constructor]. Qed.

Lemma rd_zeros slot : 0 <= slot < 4 -> rd [0; 0; 0; 0] slot = Ok 0.
Proof.
  intros Hk. assert (slot = 0 \/ slot = 1 \/ slot = 2 \/ slot = 3) as [->|[->|[->| ->]]] by lia;
    done.
Qed.

Section reseed.
Context (home : Z -> Z).

(** The row's keys, aligned with its nonempty cells. *)
Definition cell_keys (s : server) (cells keys : list Z) : Prop :=
  Forall2 (fun c k => read_key (mem s) (toAddr c) = Ok k) cells keys.

Lemma row_keys s row r : wf home s -> rd (bks s) row = Ok r ->
  exists keys, cell_keys s (filter nonempty r) keys /\
    read_bucket_addrs (bks s) row = Ok (filter nonempty r) /\
    read_batch_keys (mem s) (filter nonempty r) = Ok keys /\
    (length keys <= 4)%nat.
Proof.
  intros Hwf Hr. pose proof (row_length home _ _ _ Hwf Hr) as H4.
  assert (Hl : (length (filter nonempty r) <= 4)%nat)
    by (rewrite <-H4; apply length_filter).
  assert (exists keys, cell_keys s (filter nonempty r) keys) as [keys Hk].
  { destruct (proj2 (seeds_bks home s row Hwf) (ex_intro _ r Hr)) as [sd Hsd].
    assert (Forall (fun c => exists k, read_key (mem s) (toAddr c) = Ok k)
      (filter nonempty r)) as HF.
    { apply Forall_forall. intros c [Hne Hin]%list_elem_of_filter.
      apply list_elem_of_lookup in Hin as [i Hi].
      destruct (row_cell_good home s row sd r (Z.of_nat i) c) as (_ & e & He & _); try done.
      - apply rd_Ok. by rewrite Nat2Z.id; split; [lia|].
      - exists (pkey e). unfold read_key. by rewrite He. }
    clear Hl. induction HF as [|c l [k Hk] HF [keys IH]]; [exists []; apply Forall2_nil_2|].
    exists (k :: keys). by apply Forall2_cons_2. }
  exists keys. split; [done|]. split; [by apply read_bucket_addrs_spec; [apply (wf_rows _ s Hwf)|]|].
  pose proof (Forall2_length _ _ _ Hk) as Hlk.
  split; [|lia]. apply read_batch_keys_spec; [lia|]. apply mapM_Ok.
  eapply Forall2_impl; [apply Hk|]. intros c k H. rewrite <-toAddr_eq. exact H.
Qed.

Lemma cell_keys_rd s cells keys i c k : cell_keys s cells keys ->
  cells !! i = Some c -> keys !! i = Some k ->
  exists e, rd (mem s) (toAddr c) = Ok e /\ pkey e = k.
Proof.
  intros HF Hc Hk. pose proof (Forall2_lookup_lr _ _ _ _ _ _ HF Hc Hk) as H.
  unfold read_key in H. res_inv. eauto.
Qed.

(** What a row holds after its cells have been placed at their keys' slots
    under a seed that separates the keys. *)
Lemma placed_row s seed cells keys r' slot c :
  cell_keys s cells keys ->
  Forall2 (fun k c => rd r' (slot_of seed k) = Ok c) keys cells ->
  (forall slot, slot ∉ slot_of seed <$> keys -> rd r' slot = rd [0; 0; 0; 0] slot) ->
  rd r' slot = Ok c -> nonempty c ->
  exists i k e, cells !! i = Some c /\ keys !! i = Some k /\ slot = slot_of seed k /\
    rd (mem s) (toAddr c) = Ok e /\ pkey e = k.
Proof.
  intros HK HF Hrest Hc Hne.
  destruct (decide (slot ∈ slot_of seed <$> keys)) as [Hin|Hni].
  - apply list_elem_of_fmap in Hin as (k & -> & Hin).
    apply list_elem_of_lookup in Hin as [i Hi].
    destruct (Forall2_lookup_l _ _ _ _ _ HF Hi) as (c' & Hc' & Hrd).
    assert (c' = c) as -> by congruence.
    destruct (cell_keys_rd s cells keys i c k HK Hc' Hi) as (e & He & Hk).
    by exists i, k, e.
  - rewrite Hrest in Hc by done. exfalso. apply Hne.
    destruct (rd_range _ _ _ Hc) as [H1 H2]. simpl in H2.
    rewrite rd_zeros in Hc by lia. apply Ok_inj in Hc as <-. apply toLength_0.
Qed.

(** Rewriting a row: the cells of [cells], whose keys [keys] belong to the
    row and are separated by [sd], under the new seed [sd]. *)
Lemma reseed_row s row r sd cells keys seeds' b1 b' : wf home s ->
  rd (bks s) row = Ok r -> cell_keys s cells keys -> separates sd keys ->
  Forall (fun c => nonempty c /\ toAddr c < num (pd s)) cells ->
  Forall (fun k => home k = row) keys ->
  wr (seeds s) row sd = Ok seeds' -> empty_bucket (bks s) row = Ok b1 ->
  place_cells (slot_of sd) b1 row keys cells = Ok b' ->
  exists r', row_write s row sd r' (set_bks (set_seeds s seeds') b') /\ length r' = 4%nat /\
    (forall slot c, rd r' slot = Ok c -> nonempty c -> good_cell home s row sd slot c) /\
    forall k v, in_row (mem s) r' k v <->
      exists i c e, cells !! i = Some c /\ keys !! i = Some k /\
        rd (mem s) (toAddr c) = Ok e /\ pkey e = k /\ data e = v.
Proof.
  intros Hwf Hr HK Hsep Hcells Hhome Hsd He Hp.
  destruct (empty_bucket_spec (bks s) row r (wf_rows _ s Hwf) Hr)
    as (b1' & He' & Hwb1 & Hr1 & Hl1 & Ho1).
  assert (b1' = b1) as -> by congruence.
  destruct (place_cells_spec (slot_of sd) (slot_of_range sd) row keys cells b1 [0; 0; 0; 0])
    as (b2 & r' & Hp' & Hr' & Hwb' & Hlb & Ho & HF & Hrest); [done..|by apply (Forall2_length _ _ _ HK)|].
  assert (b2 = b') as -> by congruence. exists r'. split; [|split; [|split]].
  - split; [by apply (rd_wr_eq _ _ _ _ Hsd)|]. split; [done|]. split.
    + intros i Hi. split; [by apply (rd_wr_ne _ _ _ _ _ Hsd)|]. simpl. by rewrite Ho, Ho1.
    + split; [by apply (wr_length _ _ _ _ Hsd)|]. split; [|done]. simpl. congruence.
  - apply rd_Ok in Hr' as [_ Hr']. apply (Forall_lookup_1 _ _ _ _ Hwb' Hr').
  - intros slot c Hc Hne.
    destruct (placed_row s sd cells keys r' slot c HK HF Hrest Hc Hne)
      as (i & k & e & Hci & Hki & -> & Hre & Hpk).
    split; [by apply (Forall_lookup_1 _ _ _ _ Hcells Hci)|].
    exists e. rewrite Hpk. split; [done|]. split; [done|].
    apply (Forall_lookup_1 _ _ _ _ Hhome Hki).
  - intros k v. split.
    + intros (slot & c & e & Hc & Hne & Hre & Hpk & Hv).
      destruct (placed_row s sd cells keys r' slot c HK HF Hrest Hc Hne)
        as (i & k' & e' & Hci & Hki & -> & Hre' & Hpk').
      assert (e' = e) as -> by congruence. exists i, c, e. split; [done|].
      split; [congruence|done].
    + intros (i & c & e & Hci & Hki & Hre & Hpk & Hv).
      exists (slot_of sd k), c, e.
      split; [apply (Forall2_lookup_lr _ _ _ _ _ _ HF Hki Hci)|].
      split; [apply (Forall_lookup_1 _ _ _ _ Hcells Hci)|done].
Qed.
End reseed.

Section reseed_correct.
Context (home : Z -> Z).

(** The key of every nonempty cell of a row, and the row of that key. *)
Lemma row_keys_home s row r keys : wf home s -> rd (bks s) row = Ok r ->
  cell_keys s (filter nonempty r) keys ->
  Forall (fun c => nonempty c /\ toAddr c < num (pd s)) (filter nonempty r) /\
  Forall (fun k => home k = row) keys.
Proof.
  intros Hwf Hr HK.
  destruct (proj2 (seeds_bks home s row Hwf) (ex_intro _ r Hr)) as [sd Hsd].
  assert (HG : forall c, c ∈ filter nonempty r -> nonempty c /\ exists slot, good_cell home s row sd slot c).
  { intros c [Hne Hin]%list_elem_of_filter. split; [done|].
    apply list_elem_of_lookup in Hin as [i Hi]. exists (Z.of_nat i).
    apply (row_cell_good home s row sd r); try done. apply rd_Ok. by rewrite Nat2Z.id; split; [lia|]. }
  split; apply Forall_forall.
  - intros c Hin. destruct (HG c Hin) as (Hne & slot & Ha & _). done.
  - intros k Hin. apply list_elem_of_lookup in Hin as [i Hi].
    destruct (Forall2_lookup_r _ _ _ _ _ HK Hi) as (c & Hc & Hk).
    destruct (HG c) as (_ & slot & _ & e & He & _ & Hh); [by eapply list_elem_of_lookup_2|].
    unfold read_key in Hk. rewrite He in Hk. apply Ok_inj in Hk. congruence.
Qed.

(** A key stored in a row is among the keys read back from the row. *)
Lemma in_row_keys s row r keys k v : wf home s -> rd (bks s) row = Ok r ->
  cell_keys s (filter nonempty r) keys ->
  in_row (mem s) r k v <-> exists i c e, filter nonempty r !! i = Some c /\
    keys !! i = Some k /\ rd (mem s) (toAddr c) = Ok e /\ pkey e = k /\ data e = v.
Proof.
  intros Hwf Hr HK. split.
  - intros (slot & c & e & Hc & Hne & He & Hk & Hv).
    assert (c ∈ filter nonempty r) as Hin.
    { apply list_elem_of_filter. split; [done|]. apply rd_Ok in Hc as [_ Hc].
      by eapply list_elem_of_lookup_2. }
    apply list_elem_of_lookup in Hin as [i Hi].
    destruct (Forall2_lookup_l _ _ _ _ _ HK Hi) as (k' & Hk' & Hrk).
    exists i, c, e. split; [done|]. split; [|done].
    unfold read_key in Hrk. rewrite He in Hrk. apply Ok_inj in Hrk. congruence.
  - intros (i & c & e & Hc & Hk & He & Hpk & Hv).
    apply list_elem_of_lookup_2, list_elem_of_filter in Hc as [Hne Hin].
    apply list_elem_of_lookup in Hin as [j Hj]. exists (Z.of_nat j), c, e.
    split; [|done]. apply rd_Ok. by rewrite Nat2Z.id; split; [lia|].
Qed.

(** What [put_reseed] computes, step by step. *)
Lemma put_reseed_inv s row r k v s' rep : wf home s -> rd (bks s) row = Ok r ->
  put_reseed s row k v = Ok (s', rep) ->
  exists keys s1 a sd seeds' b1 b',
    cell_keys s (filter nonempty r) keys /\ load_entry s k sizeof_ValType v = Ok (s1, a) /\
    separates sd (keys ++ [k]) /\ 0 <= sd < 255 /\
    wr (seeds s1) row sd = Ok seeds' /\ empty_bucket (bks s1) row = Ok b1 /\
    place_cells (slot_of sd) b1 row (keys ++ [k])
      (filter nonempty r ++ [combine (fingerprint k) 64 a]) = Ok b' /\
    s' = set_bks (set_seeds s1 seeds') b' /\ rep = MkReply true (256 + sd).
Proof.
  intros Hwf Hr H. destruct (row_keys home s row r Hwf Hr) as (keys & HK & Hba & Hbk & _).
  unfold put_reseed in H. rewrite Hba in H. cbn [mbind res_bind] in H.
  rewrite Hbk in H. cbn [mbind res_bind] in H.
  apply bind_Ok in H as ([s1 a] & Hload & H).
  apply bind_Ok in H as (u & _ & H).
  destruct (find_seed_spec 256 0 (keys ++ [k])) as (found & Hf & Hfound); [lia..|].
  rewrite Hf in H. cbn [mbind res_bind] in H. destruct found as [sd|]; [|discriminate].
  apply bind_Ok in H as (seeds' & Hsd & H). apply bind_Ok in H as (b1 & Hb1 & H).
  apply bind_Ok in H as (b' & Hb' & H). apply Ok_inj, pair_equal_spec in H as [<- <-].
  destruct Hfound as (? & ? & _). by exists keys, s1, a, sd, seeds', b1, b'.
Qed.

(** Appending one fresh key and its cell to a row's keys and cells. *)
Lemma appended_row s row r keys k v nc len k' v' : wf home s -> rd (bks s) row = Ok r ->
  cell_keys s (filter nonempty r ++ [nc]) (keys ++ [k]) -> NoDup (keys ++ [k]) ->
  rd (mem s) (toAddr nc) = Ok (PackedStruct k len v) ->
  (exists i c e, (filter nonempty r ++ [nc]) !! i = Some c /\ (keys ++ [k]) !! i = Some k' /\
    rd (mem s) (toAddr c) = Ok e /\ pkey e = k' /\ data e = v') <->
  (k' = k /\ v' = v) \/ (k' <> k /\ in_row (mem s) r k' v').
Proof.
  intros Hwf Hr HK Hnd Hnc.
  pose proof (Forall2_length _ _ _ HK) as Hlen. rewrite !length_app in Hlen. simpl in Hlen.
  apply Forall2_app_inv in HK as [HK _]; [|lia].
  rewrite (in_row_keys s row r keys) by done.
  apply NoDup_app in Hnd as (_ & Hdis & _).
  split.
  - intros (i & c & e & Hc & Hki & He & Hpk & Hv).
    destruct (decide (i < length keys)%nat) as [Hi|Hi].
    + rewrite lookup_app_l in Hc by lia. rewrite lookup_app_l in Hki by lia.
      right. split; [|by exists i, c, e]. intros ->.
      apply (Hdis k); [by eapply list_elem_of_lookup_2|set_solver].
    + rewrite lookup_app_r in Hki by lia.
      apply list_lookup_singleton_Some in Hki as [Hi0 <-].
      rewrite lookup_app_r in Hc by lia. 
      apply list_lookup_singleton_Some in Hc as [_ <-].
      rewrite Hnc in He. apply Ok_inj in He as <-. by left.
  - intros [[-> ->]|[Hne (i & c & e & Hc & Hki & He)]].
    + exists (length keys), nc, (PackedStruct k len v).
      split; [by rewrite lookup_app_r, (proj2 (Nat.sub_0_le _ _)) by lia|].
      by rewrite lookup_app_r, Nat.sub_diag by lia.
    + exists i, c, e. by rewrite !lookup_app_l by (by eapply lookup_lt_Some).
Qed.

(** The keys and cells that are placed, after the new entry is loaded. *)
Lemma reseed_ready s row r k v s1 a keys : wf home s -> rd (bks s) row = Ok r ->
  home k = row -> cell_keys s (filter nonempty r) keys ->
  load_entry s k sizeof_ValType v = Ok (s1, a) ->
  exists nc, nc = combine (fingerprint k) 64 a /\ wf home s1 /\ rd (bks s1) row = Ok r /\
    cell_keys s1 (filter nonempty r ++ [nc]) (keys ++ [k]) /\
    Forall (fun c => nonempty c /\ toAddr c < num (pd s1)) (filter nonempty r ++ [nc]) /\
    Forall (fun k => home k = row) (keys ++ [k]) /\
    rd (mem s1) (toAddr nc) = Ok (PackedStruct k sizeof_ValType v) /\ 0 <= a < 2 ^ 40 /\
    toAddr nc = a /\ bks s1 = bks s /\ (forall i, i < num (pd s) -> rd (mem s1) i = rd (mem s) i).
Proof.
  intros Hwf Hr Hk HK Hload.
  destruct (load_entry_spec home s k _ v s1 a Hwf Hload)
    as (Hwf1 & -> & Ha & Hlt & Hea & Hmem & Hbks & Hseeds & Hlru & Hn & Hne).
  pose proof (wf_cap _ s Hwf). pose proof (wf_num _ s Hwf).
  exists (combine (fingerprint k) 64 (num (pd s))). split; [done|].
  destruct (new_cell_fields k (num (pd s))) as (Hl & _ & Hta); [lia|].
  revert Hl Hta. generalize (combine (fingerprint k) 64 (num (pd s))) as nc.
  intros nc Hl Hta. assert (Hnn : nonempty nc) by (unfold nonempty; lia). clear Hl.
  destruct (row_keys_home s row r keys Hwf Hr HK) as [HC HH].
  split; [done|]. split; [by rewrite Hbks|]. split; [|split; [|split; [|split; [|split; [|split]]]]].
  - apply Forall2_snoc.
    + eapply Forall2_impl; [apply (Forall2_and_l _ _ _ _ HK HC)|].
      intros c k' [Hrk [_ Hin]]. unfold read_key in *. rewrite Hmem; [done|lia].
    + unfold read_key. by rewrite Hta, Hea.
  - apply Forall_app. split; [|constructor; [|constructor]; rewrite Hta; by split; [|lia]].
    eapply Forall_impl; [exact HC|]. intros c [? ?]. split; [done|lia].
  - apply Forall_app. split; [done|by constructor].
  - by rewrite Hta.
  - lia.
  - done.
  - split; [done|]. intros i Hi. apply Hmem. lia.
Qed.

(** Reseeding keeps the state well formed and adds the key. *)
Lemma put_reseed_correct s row r k v s' rep : wf home s -> rd (bks s) row = Ok r ->
  home k = row -> put_reseed s row k v = Ok (s', rep) ->
  wf home s' /\ updated s s' k v /\
  exists sd, rep = MkReply true (256 + sd) /\ rd (seeds s') row = Ok sd /\ 0 <= sd < 255.
Proof.
  intros Hwf Hr Hk H.
  destruct (put_reseed_inv s row r k v s' rep Hwf Hr H)
    as (keys & s1 & a & sd & seeds' & b1 & b' & HK & Hload & Hsep & Hsd & Hws & Hb1 & Hb' & -> & ->).
  destruct (reseed_ready s row r k v s1 a keys Hwf Hr Hk HK Hload)
    as (nc & Enc & Hwf1 & Hr1 & HK1 & HC & HH & Hnc & _ & _ & Hbks & Hmem).
  rewrite <-Enc in Hb'.
  destruct (reseed_row home s1 row r sd _ _ seeds' b1 b' Hwf1 Hr1 HK1 Hsep HC HH Hws Hb1 Hb')
    as (r' & Hrw & H4 & Hgood & Hin).
  split; [by eapply row_write_wf|]. split.
  - assert (updated s1 (set_bks (set_seeds s1 seeds') b') k v) as Hu.
    { eapply (row_write_updated home s1 row sd r r'); [done..|].
      intros k' v'. rewrite Hin.
      apply (appended_row s1 row r keys k v nc sizeof_ValType); try done.
      by eapply NoDup_fmap_1. }
    intros k' v'. rewrite (Hu k' v'). by rewrite (stored_mem home s s1).
  - exists sd. split; [done|]. split; [apply Hrw|done].
Qed.
End reseed_correct.

