(* ===== verification/ServerProps.v ===== *)
(** * The correctness of the server's callbacks

    GET, PUT, UPDATE and REMOVE of ServerRdma.v on well-formed states, and the
    refinement of a finite map by sequences of requests. *)

From Stdlib Require Import ZArith Lia.
From stdpp Require Import base numbers gmap list.
From S2P Require Import Prelude Words Hash PackedData LudoSlot LruCache ServerRdma ServerInv.

#[local] Open Scope Z_scope.

(** ** The callbacks *)

Section callbacks.
Context (home : Z -> Z).
Implicit Types (s : server).

(** The table's contents are unchanged. *)
Definition unchanged (s s' : server) : Prop := forall k v, stored s' k v <-> stored s k v.

(** An overflow key: not in the table, in the LRU cache with its value. *)
Definition overflowed (s s' : server) (k v : Z) : Prop :=
  unchanged s s' /\ (forall v0, ~ stored s k v0) /\ spec_get (absr (lru s')) k = Some v.

Lemma spec_insert_head m e l k v : 0 <= m -> spec_get (spec_insert m e l k v) k = Some v.
Proof.
  intros Hm. unfold spec_insert, spec_touch.
  destruct (spec_get l k); [simpl; by rewrite decide_True|].
  destruct (Z.eqb_spec m 0); [simpl; by rewrite decide_True|]. simpl.
  destruct (_ <? _); [simpl; by rewrite decide_True|].
  destruct (Z.to_nat m) eqn:E; [lia|]. simpl. by rewrite decide_True.
Qed.

Lemma lru_insert_spec s k v : wf home s ->
  exists s', lru_insert s k v = Ok s' /\ wf home s' /\ seeds s' = seeds s /\
    bks s' = bks s /\ mem s' = mem s /\ pd s' = pd s /\
    spec_get (absr (lru s')) k = Some v.
Proof.
  intros Hwf. destruct (cache_insert_spec (lru s) k v (wf_lru _ s Hwf)) as (c & Hc & Hi & Ha & _).
  exists (set_lru s c). unfold lru_insert. rewrite Hc. split; [done|].
  split; [by split; simpl; try apply Hwf|]. do 4 (split; [done|]). simpl. rewrite Ha.
  apply spec_insert_head, (inv_max _ (wf_lru _ s Hwf)).
Qed.

(** The overflow path: LRU cache and an entry no cell points to. *)
Lemma overflow_spec s s2 k v a : wf home s ->
  (s1 ← lru_insert s k v; load_entry s1 k sizeof_ValType v) = Ok (s2, a) ->
  wf home s2 /\ unchanged s s2 /\ spec_get (absr (lru s2)) k = Some v /\
  seeds s2 = seeds s /\ bks s2 = bks s.
Proof.
  intros Hwf H. destruct (lru_insert_spec s k v Hwf) as (s1 & E & Hwf1 & ? & Hb & Hm & Hp & Hg).
  rewrite E in H. cbn [mbind res_bind] in H.
  destruct (load_entry_spec home s1 k _ v s2 a Hwf1 H)
    as (Hwf2 & -> & _ & _ & _ & Hmem & Hbks & Hseeds & Hlru & _).
  split; [done|]. split; [|split; [congruence|split; congruence]].
  intros k' v'. apply (stored_mem home); [done|congruence|].
  intros i Hi. rewrite Hmem; [congruence|]. rewrite Hp. lia.
Qed.

Lemma set_flag_spec s row seed r slot b' : wf home s -> rd (seeds s) row = Ok seed ->
  rd (bks s) row = Ok r -> set_cachebit (bks s) row slot = Ok b' ->
  wf home (set_bks s b') /\ unchanged s (set_bks s b').
Proof.
  intros Hwf Hs Hr Hb. assert (exists c, rd2 (bks s) row slot = Ok c) as [c Hc].
  { unfold set_cachebit in Hb. apply bind_Ok in Hb as (c & ? & _). eauto. }
  rewrite (set_cachebit_eq _ _ _ _ Hc) in Hb.
  destruct (write_cell_row home s row seed r slot (set_flag c) b' Hwf Hs Hr Hb) as (r' & Hr' & Hrw).
  assert (Hrc : rd r slot = Ok c) by (by rewrite (rd_row _ _ _ Hr) in Hc).
  assert (Hcell : forall i x, rd r' i = Ok x -> nonempty x ->
    exists x0, rd r i = Ok x0 /\ nonempty x0 /\ toAddr x0 = toAddr x).
  { intros i x Hx Hne. destruct (decide (slot = i)) as [<-|Hi].
    - rewrite (rd_wr_eq _ _ _ _ Hr') in Hx. apply Ok_inj in Hx as <-.
      exists c. by rewrite set_flag_nonempty in Hne; rewrite set_flag_addr.
    - exists x. by rewrite (rd_wr_ne _ _ _ _ _ Hr' Hi) in Hx. }
  assert (H4 : length r' = 4%nat)
    by (rewrite (wr_length _ _ _ _ Hr'); by eapply row_length).
  assert (Hgood : forall i x, rd r' i = Ok x -> nonempty x -> good_cell home s row seed i x).
  { intros i x Hx Hne. destruct (Hcell i x Hx Hne) as (x0 & Hx0 & Hne0 & E).
    unfold good_cell. rewrite <-E. by apply (row_cell_good home s row seed r). }
  split; [by eapply row_write_wf|]. intros k v.
  rewrite (row_write_stored home s row seed r' _ Hwf Hrw H4 Hgood).
  assert (home k = row -> stored s k v <-> in_row (mem s) r' k v) as E.
  { intros Hk. rewrite (stored_at home s seed) by (done || congruence). rewrite Hk. split.
    - intros (x & e & (r1 & Hr1 & Hx)%rd2_rd & Hne & He & Hpk & Hv).
      assert (r1 = r) as -> by congruence.
      destruct (decide (slot = slot_of seed k)) as [E|E].
      + assert (x = c) as -> by congruence.
        exists (slot_of seed k), (set_flag c), e. rewrite set_flag_nonempty, set_flag_addr.
        split; [|done]. rewrite <-E. by eapply rd_wr_eq.
      + exists (slot_of seed k), x, e. split; [|done]. by rewrite (rd_wr_ne _ _ _ _ _ Hr' E).
    - intros (i & x & e & Hx & Hne & He & Hpk & Hv).
      destruct (Hgood i x Hx Hne) as (_ & e' & He' & -> & _).
      destruct (Hcell _ x Hx Hne) as (x0 & Hx0 & Hne0 & Ex).
      assert (e' = e) as -> by congruence. rewrite Hpk in *.
      exists x0, e. rewrite Ex. split; [|done]. apply rd2_rd. eauto. }
  destruct (decide (home k = row)); naive_solver.
Qed.
End callbacks.

Section correct.
Context (home : Z -> Z).
Implicit Types (s : server).

Lemma unchanged_not_stored s s' k v0 : unchanged s s' -> stored s' k v0 -> stored s k v0.
Proof. intros H. apply H. Qed.

(** A key whose slot holds no cell, or another key's entry, is not stored. *)
Lemma not_stored_slot s seed c k : wf home s -> rd (seeds s) (home k) = Ok seed ->
  rd2 (bks s) (home k) (slot_of seed k) = Ok c ->
  (toLength c = 0 \/ exists k', read_key (mem s) (toAddr c) = Ok k' /\ k' <> k) ->
  forall v, ~ stored s k v.
Proof.
  intros Hwf Hs Hc Hor v Hst. rewrite (stored_at home s seed) in Hst by done.
  destruct Hst as (c' & e & Hc' & Hne & He & Hk & _).
  assert (c' = c) as -> by congruence. destruct Hor as [?|(k' & Hk' & Hne')]; [done|].
  unfold read_key in Hk'. rewrite He in Hk'. apply Ok_inj in Hk'. congruence.
Qed.

(** The overflow branches of PUT, given that the key is not in the table. *)
Lemma overflow_branch s s2 k v a : wf home s ->
  (s1 ← lru_insert s k v; load_entry s1 k sizeof_ValType v) = Ok (s2, a) ->
  (forall v0, ~ stored s k v0) -> wf home s2 /\ overflowed s s2 k v.
Proof.
  intros Hwf H Hns. destruct (overflow_spec home s s2 k v a Hwf H) as (? & ? & ? & _).
  by split.
Qed.

(** The four answers of [check_slots] on a well-formed row. *)
Lemma check_slots_cases s row r k slot st : wf home s -> rd (bks s) row = Ok r ->
  check_slots (bks s) k row slot = Ok st ->
  exists c, rd2 (bks s) row slot = Ok c /\
    ((st = 0 /\ toLength c = 0) \/
     (st = 1 /\ nonempty c /\ toFinger c = fingerprint k) \/
     (st = 2 /\ nonempty c /\ toFinger c <> fingerprint k /\
        Exists (fun c => toLength c = 0) r) \/
     (st = 3 /\ nonempty c /\ toFinger c <> fingerprint k /\ Forall nonempty r)).
Proof.
  intros Hwf Hr H.
  destruct (check_slots_spec (bks s) row r (wf_rows _ s Hwf) Hr k slot st H) as (c & Hc & ->).
  exists c. rewrite (rd_row _ _ _ Hr). split; [done|].
  destruct (Z.eqb_spec (toLength c) 0) as [|Hne]; [by left|]. right.
  destruct (Z.eqb_spec (toFinger c) (fingerprint k)); [by left|]. right.
  destruct (existsb _ r) eqn:E.
  - left. repeat split; [done..|]. apply Exists_exists.
    apply existsb_exists in E as (x & Hx & Hx0%Z.eqb_eq). exists x.
    split; [by apply list_elem_of_In|done].
  - right. repeat split; [done..|]. apply Forall_forall. intros x Hx Hx0.
    assert (existsb (fun c => toLength c =? 0) r = true); [|congruence].
    apply existsb_exists. exists x. split; [by apply list_elem_of_In|by apply Z.eqb_eq].
Qed.

Lemma updated_trans_l s s1 s' k v : unchanged s s1 -> updated s1 s' k v -> updated s s' k v.
Proof. intros H1 H2 k' v'. by rewrite (H2 k' v'), (H1 k' v'). Qed.

(** What a PUT that returns has done. *)
Definition put_outcome s s' (k v : Z) (rep : ReplyValue) : Prop :=
  status rep = true /\
  ((updated s s' k v /\
      (val rep = 0 \/ val rep = 1 \/ exists seed, val rep = 256 + seed /\ 0 <= seed < 255 /\
         rd (seeds s') (home k) = Ok seed)) \/
   (overflowed s s' k v /\ (val rep = 1 \/ val rep = 3))).

Lemma put_case0 s seed r k v s1 a b : wf home s ->
  rd (seeds s) (home k) = Ok seed -> rd (bks s) (home k) = Ok r ->
  (exists c, rd2 (bks s) (home k) (slot_of seed k) = Ok c /\ toLength c = 0) ->
  load_entry s k sizeof_ValType v = Ok (s1, a) ->
  write_addr (bks s1) k (home k) (slot_of seed k) a 64 = Ok b ->
  wf home (set_bks s1 b) /\ updated s (set_bks s1 b) k v.
Proof.
  intros Hwf Hs Hr (c & Hc & Hc0) Hload Hb.
  destruct (load_entry_spec home s k _ v s1 a Hwf Hload)
    as (Hwf1 & -> & Ha & _ & Hea & Hmem & Hbks & Hseeds & _ & _).
  destruct (link_cell home s1 (home k) seed r k (num (pd s)) (PackedStruct k sizeof_ValType v) c b)
    as [Hw Hu]; try done.
  - by rewrite Hseeds.
  - by rewrite Hbks.
  - by rewrite (rd_row _ _ _ Hr) in Hc.
  - split; [done|]. eapply updated_trans_l; [|exact Hu].
    intros k' v'. apply (stored_mem home); [done|done|]. intros i Hi. apply Hmem. lia.
Qed.
End correct.

(** ** Fingerprints

    The cells written by this server carry the fingerprint of their entry's
    key; [check_slots] relies on it.  It is a separate invariant because the
    cells of a bulk-loaded table do not have it. *)

Section fingers.
Context (home : Z -> Z).
Implicit Types (s : server).

Definition cell_finger (m : region) (c : Z) : Prop :=
  forall e, nonempty c -> rd m (toAddr c) = Ok e -> toFinger c = fingerprint (pkey e).

Definition fingers s : Prop :=
  forall row slot c, rd2 (bks s) row slot = Ok c -> cell_finger (mem s) c.

Lemma fingers_mem s s' : wf home s -> fingers s -> bks s' = bks s ->
  (forall i, i < num (pd s) -> rd (mem s') i = rd (mem s) i) -> fingers s'.
Proof.
  intros Hwf Hf Hb Hm row slot c Hc e Hne He. rewrite Hb in Hc.
  pose proof Hc as (r & Hr & Hcr)%rd2_rd.
  destruct (proj2 (seeds_bks home s row Hwf) (ex_intro _ r Hr)) as [sd Hsd].
  destruct (wf_cell _ s Hwf row sd slot c Hsd Hc Hne) as [Ha _].
  apply (Hf row slot c Hc e Hne). by rewrite <-Hm.
Qed.

Lemma row_write_fingers s row seed r s' : fingers s -> row_write s row seed r s' ->
  (forall slot c, rd r slot = Ok c -> cell_finger (mem s) c) -> fingers s'.
Proof.
  intros Hf (_ & Hr & Hoth & _ & _ & Hm & _) Hcells row' slot c Hc. rewrite Hm.
  apply rd2_rd in Hc as (r' & Hr' & Hc). destruct (decide (row = row')) as [<-|Hne].
  - assert (r' = r) as -> by congruence. by apply (Hcells slot).
  - apply (Hf row' slot). apply rd2_rd. exists r'. by rewrite <-(proj2 (Hoth _ Hne)).
Qed.

Lemma row_fingers s row r slot c : fingers s -> rd (bks s) row = Ok r ->
  rd r slot = Ok c -> cell_finger (mem s) c.
Proof. intros Hf Hr Hc. apply (Hf row slot). apply rd2_rd. eauto. Qed.

Lemma write_cell_fingers s row seed r slot c b' : wf home s -> fingers s ->
  rd (seeds s) row = Ok seed -> rd (bks s) row = Ok r ->
  wr2 (bks s) row slot c = Ok b' -> cell_finger (mem s) c -> fingers (set_bks s b').
Proof.
  intros Hwf Hf Hs Hr Hb Hc.
  destruct (write_cell_row home s row seed r slot c b' Hwf Hs Hr Hb) as (r' & Hr' & Hrw).
  apply (row_write_fingers s row seed r'); [done..|]. intros i x Hx.
  destruct (decide (slot = i)) as [<-|Hi].
  - rewrite (rd_wr_eq _ _ _ _ Hr') in Hx. by apply Ok_inj in Hx as <-.
  - rewrite (rd_wr_ne _ _ _ _ _ Hr' Hi) in Hx. by apply (row_fingers s row r i).
Qed.

Lemma overwrite_fingers s a e len v m' : fingers s -> rd (mem s) a = Ok e ->
  wr (mem s) a (PackedStruct (pkey e) len v) = Ok m' -> fingers (set_mem s m').
Proof.
  intros Hf He Hw row slot c Hc e' Hne He'. simpl in *.
  destruct (decide (a = toAddr c)) as [->|Hi].
  - rewrite (rd_wr_eq _ _ _ _ Hw) in He'. apply Ok_inj in He' as <-. simpl.
    by apply (Hf row slot c Hc e).
  - rewrite (rd_wr_ne _ _ _ _ _ Hw Hi) in He'. by apply (Hf row slot c Hc e').
Qed.

Lemma new_cell_finger m k a len v : 0 <= a < 2 ^ 40 ->
  rd m a = Ok (PackedStruct k len v) -> cell_finger m (combine (fingerprint k) 64 a).
Proof.
  intros Ha He e _ He'. destruct (new_cell_fields k a Ha) as (_ & -> & E).
  rewrite E, He in He'. by apply Ok_inj in He' as <-.
Qed.

Lemma set_flag_finger m c : cell_finger m c -> cell_finger m (set_flag c).
Proof.
  intros Hc e. rewrite set_flag_nonempty, set_flag_addr, set_flag_toFinger. apply Hc.
Qed.

(** A stored key is seen by [check_slots]. *)
Lemma stored_finger s seed k v c : wf home s -> fingers s ->
  rd (seeds s) (home k) = Ok seed -> rd2 (bks s) (home k) (slot_of seed k) = Ok c ->
  stored s k v -> nonempty c /\ toFinger c = fingerprint k.
Proof.
  intros Hwf Hf Hs Hc Hst. rewrite (stored_at home s seed) in Hst by done.
  destruct Hst as (c' & e & Hc' & Hne & He & Hk & _).
  assert (c' = c) as -> by congruence. split; [done|].
  rewrite (Hf _ _ _ Hc e Hne He). congruence.
Qed.

Lemma reseed_fingers s1 row r sd cells keys seeds' b1 b' : wf home s1 -> fingers s1 ->
  rd (bks s1) row = Ok r -> cell_keys s1 cells keys -> separates sd keys ->
  Forall (fun c => nonempty c /\ toAddr c < num (pd s1)) cells ->
  Forall (fun k => home k = row) keys ->
  Forall (cell_finger (mem s1)) cells ->
  wr (seeds s1) row sd = Ok seeds' -> empty_bucket (bks s1) row = Ok b1 ->
  place_cells (slot_of sd) b1 row keys cells = Ok b' ->
  fingers (set_bks (set_seeds s1 seeds') b').
Proof.
  intros Hwf Hf Hr HK Hsep HC HH HF Hsd Hb1 Hb'.
  destruct (empty_bucket_spec (bks s1) row r (wf_rows _ s1 Hwf) Hr)
    as (b1' & He' & Hwb1 & Hr1 & Hl1 & Ho1).
  assert (b1' = b1) as -> by congruence.
  destruct (place_cells_spec (slot_of sd) (slot_of_range sd) row keys cells b1 [0; 0; 0; 0])
    as (b2 & r' & Hp' & Hr' & Hwb' & Hlb & Ho & HF2 & Hrest);
    [done..|by apply (Forall2_length _ _ _ HK)|].
  assert (b2 = b') as -> by congruence.
  intros row' slot c Hc e Hne He.
  apply rd2_rd in Hc as (r0 & Hr0 & Hc). simpl in Hr0, He. destruct (decide (row = row')) as [<-|Hrow].
  - assert (r0 = r') as -> by congruence.
    destruct (placed_row s1 sd cells keys r' slot c HK HF2 Hrest Hc Hne) as (i & k & e' & Hci & _).
    by apply (Forall_lookup_1 _ _ _ _ HF Hci).
  - rewrite Ho, Ho1 in Hr0 by done. apply (Hf row' slot c); [|done..].
    apply rd2_rd. eauto.
Qed.

Lemma overflow_fingers s s2 k v a : wf home s -> fingers s ->
  (s1 ← lru_insert s k v; load_entry s1 k sizeof_ValType v) = Ok (s2, a) -> fingers s2.
Proof.
  intros Hwf Hf H. apply bind_Ok in H as (s1 & Hs1 & H).
  destruct (lru_insert_spec home s k v Hwf) as (s1' & E & Hwf1 & ? & Hb & Hm & Hp & Hg).
  assert (s1' = s1) as -> by congruence.
  destruct (load_entry_spec home s1 k _ v s2 a Hwf1 H) as (_ & -> & _ & _ & _ & Hmem & Hbks & _).
  apply (fingers_mem s); [done|done|congruence|]. intros i Hi. rewrite Hmem; [congruence|].
  rewrite Hp. lia.
Qed.

Lemma put_reseed_fingers s row r k v s' rep : wf home s -> fingers s ->
  rd (bks s) row = Ok r -> home k = row -> put_reseed s row k v = Ok (s', rep) -> fingers s'.
Proof.
  intros Hwf Hf Hr Hk H.
  destruct (put_reseed_inv home s row r k v s' rep Hwf Hr H)
    as (keys & s1 & a & sd & seeds' & b1 & b' & HK & Hload & Hsep & Hsd & Hws & Hb1 & Hb' & -> & ->).
  destruct (reseed_ready home s row r k v s1 a keys Hwf Hr Hk HK Hload)
    as (nc & Enc & Hwf1 & Hr1 & HK1 & HC & HH & Hnc & Ha & Hta & Hbks & Hmem).
  assert (Hf1 : fingers s1) by (by apply (fingers_mem s)).
  apply (reseed_fingers s1 row r sd _ _ seeds' b1 b' Hwf1 Hf1 Hr1 HK1 Hsep HC HH); [|by subst nc..].
  apply Forall_app. split.
  - apply Forall_forall. intros c [_ Hin]%list_elem_of_filter.
    apply list_elem_of_lookup in Hin as [i Hi]. apply (row_fingers s1 row r (Z.of_nat i)); [done..|].
    apply rd_Ok. by rewrite Nat2Z.id; split; [lia|].
  - constructor; [|constructor]. rewrite Hta in Hnc. subst nc. by eapply new_cell_finger.
Qed.
End fingers.

Section theorems.
Context (home : Z -> Z).
Implicit Types (s : server).

Lemma put_callback_eq s loc k v : put_callback s [loc; k; v] =
  let row := loc / SLOTS_NUM_BUCKET in
  seed ← rd (seeds s) row;
  st ← check_slots (bks s) k row (slot_of seed k);
  if st =? 0 then
    '(s1, addr) ← load_entry s k sizeof_ValType v;
    b ← write_addr (bks s1) k row (slot_of seed k) addr 64;
    Ok (set_bks s1 b, MkReply true 0)
  else if st =? 1 then
    addr ← read_addr (bks s) row (slot_of seed k);
    k' ← read_key (mem s) addr;
    if k' =? k then
      '(m, _) ← update_data (mem s) addr k 64 v;
      Ok (set_mem s m, MkReply true 1)
    else
      s1 ← lru_insert s k v;
      '(s2, _) ← load_entry s1 k sizeof_ValType v;
      Ok (s2, MkReply true 1)
  else if st =? 2 then put_reseed s row k v
  else if st =? 3 then
    s1 ← lru_insert s k v;
    '(s2, _) ← load_entry s1 k sizeof_ValType v;
    b ← set_cachebit (bks s2) row (loc mod SLOTS_NUM_BUCKET);
    Ok (set_bks s2 b, MkReply true 3)
  else Err ProcessExit.
Proof. reflexivity. Qed.

(** One lemma per branch: the state stays well formed and fingerprinted,
    and the branch has its outcome. *)
Definition put_branch s s' k v rep : Prop :=
  wf home s' /\ (fingers s -> fingers s' /\ put_outcome home s s' k v rep).

Lemma put_branch0 s seed r k v s1 a b : wf home s ->
  rd (seeds s) (home k) = Ok seed -> rd (bks s) (home k) = Ok r ->
  (exists c, rd2 (bks s) (home k) (slot_of seed k) = Ok c /\ toLength c = 0) ->
  load_entry s k sizeof_ValType v = Ok (s1, a) ->
  write_addr (bks s1) k (home k) (slot_of seed k) a 64 = Ok b ->
  put_branch s (set_bks s1 b) k v (MkReply true 0).
Proof.
  intros Hwf Hs Hr Hc Hload Hb.
  destruct (put_case0 home s seed r k v s1 a b) as [Hw Hu]; [done..|].
  destruct (load_entry_spec home s k _ v s1 a Hwf Hload)
    as (Hwf1 & -> & Ha & Hlt & Hea & Hmem & Hbks & Hseeds & _ & Hn & Hne).
  split; [done|]. intros Hf. split.
  - apply (write_cell_fingers home s1 (home k) seed r (slot_of seed k)
      (combine (fingerprint k) 64 (num (pd s))) b); try done.
    + apply (fingers_mem home s); [done..|]. intros i Hi. apply Hmem. lia.
    + by rewrite Hseeds.
    + by rewrite Hbks.
    + apply (new_cell_finger _ _ _ sizeof_ValType v); [|done].
      pose proof (wf_cap _ s Hwf). lia.
  - split; [done|]. left. split; [done|]. by left.
Qed.

Lemma put_branch1 s seed r k v c s' rep : wf home s ->
  rd (seeds s) (home k) = Ok seed -> rd (bks s) (home k) = Ok r ->
  rd2 (bks s) (home k) (slot_of seed k) = Ok c -> nonempty c ->
  (addr ← read_addr (bks s) (home k) (slot_of seed k);
   k' ← read_key (mem s) addr;
   if k' =? k then
     '(m, _) ← update_data (mem s) addr k 64 v; Ok (set_mem s m, MkReply true 1)
   else
     s1 ← lru_insert s k v;
     '(s2, _) ← load_entry s1 k sizeof_ValType v; Ok (s2, MkReply true 1)) = Ok (s', rep) ->
  put_branch s s' k v rep.
Proof.
  intros Hwf Hs Hr Hc Hne H. unfold read_addr in H. rewrite Hc in H.
  cbn [mbind res_bind] in H. apply bind_Ok in H as (k' & Hk' & H).
  destruct (Z.eqb_spec k' k) as [->|Hkk].
  - apply bind_Ok in H as ([m l] & Hu & H). apply Ok_inj, pair_equal_spec in H as [<- <-].
    unfold update_data in Hu. apply bind_Ok in Hu as (m' & Hm & Hu).
    apply Ok_inj, pair_equal_spec in Hu as [-> _].
    unfold read_key in Hk'. apply bind_Ok in Hk' as (e & He & Hk'). apply Ok_inj in Hk'.
    destruct (overwrite_entry home s (home k) seed (slot_of seed k) c e k 64 v m) as [Hw Hup]; [done..|].
    split; [done|]. intros Hf. split.
    + subst k. by apply (overwrite_fingers s (toAddr c) e 64 v).
    + split; [done|]. left. split; [done|]. by right; left.
  - apply bind_Ok in H as (s1 & Hs1 & H). apply bind_Ok in H as ([s2 a] & Hs2 & H).
    apply Ok_inj, pair_equal_spec in H as [<- <-].
    assert (HO : (s1 ← lru_insert s k v; load_entry s1 k sizeof_ValType v) = Ok (s2, a))
      by (by rewrite Hs1).
    destruct (overflow_branch home s s2 k v a Hwf HO) as [Hw Hov].
    { apply (not_stored_slot home s seed c); [done..|]. right. eauto. }
    split; [done|]. intros Hf. split; [|split; [done|right; split; [done|by left]]].
    by apply (overflow_fingers home s s2 k v a).
Qed.

Lemma put_branch3 s seed r k v c slot s' rep : wf home s ->
  rd (seeds s) (home k) = Ok seed -> rd (bks s) (home k) = Ok r ->
  rd2 (bks s) (home k) (slot_of seed k) = Ok c -> toFinger c <> fingerprint k ->
  (s1 ← lru_insert s k v;
   '(s2, _) ← load_entry s1 k sizeof_ValType v;
   b ← set_cachebit (bks s2) (home k) slot;
   Ok (set_bks s2 b, MkReply true 3)) = Ok (s', rep) ->
  put_branch s s' k v rep.
Proof.
  intros Hwf Hs Hr Hc Hfp H.
  apply bind_Ok in H as (s1 & Hs1 & H). apply bind_Ok in H as ([s2 a] & Hs2 & H).
  apply bind_Ok in H as (b & Hb & H). apply Ok_inj, pair_equal_spec in H as [<- <-].
  assert (HO : (s1 ← lru_insert s k v; load_entry s1 k sizeof_ValType v) = Ok (s2, a))
    by (by rewrite Hs1).
  destruct (overflow_spec home s s2 k v a Hwf HO) as (Hw2 & Hun & Hlru & Hseeds & Hbks).
  rewrite <-Hseeds in Hs. rewrite <-Hbks in Hr.
  destruct (set_flag_spec home s2 (home k) seed r slot b Hw2 Hs Hr Hb) as [Hw3 Hun3].
  split; [done|]. intros Hf. assert (Hf2 : fingers s2) by (by apply (overflow_fingers home s s2 k v a)).
  split.
  - destruct (rd2 (bks s2) (home k) slot) as [c0|] eqn:E.
    2:{ unfold set_cachebit in Hb. by rewrite E in Hb. }
    rewrite (set_cachebit_eq _ _ _ _ E) in Hb.
    apply (write_cell_fingers home s2 (home k) seed r slot (set_flag c0)); try done.
    apply set_flag_finger. by apply (Hf2 _ _ _ E).
  - split; [done|]. right. split; [|by right]. split; [|split; [|done]].
    + intros k' v'. by rewrite (Hun3 k' v').
    + intros v0 Hst. destruct (stored_finger home s seed k v0 c) as [_ ?]; try done.
      by rewrite <-Hseeds.
Qed.

Lemma put_main s loc k v s' rep : wf home s -> loc / SLOTS_NUM_BUCKET = home k ->
  put_callback s [loc; k; v] = Ok (s', rep) -> put_branch s s' k v rep.
Proof.
  intros Hwf Hloc H. rewrite put_callback_eq in H. cbv zeta in H. rewrite Hloc in H.
  apply bind_Ok in H as (seed & Hs & H). apply bind_Ok in H as (st & Hst & H).
  destruct (proj1 (seeds_bks home s (home k) Hwf) (ex_intro _ seed Hs)) as [r Hr].
  destruct (check_slots_cases home s (home k) r k _ st Hwf Hr Hst) as (c & Hc & Hcase).
  destruct Hcase as [[-> Hc0]|[(-> & Hne & Hfp)|[(-> & Hne & Hfp & Hex)|(-> & Hne & Hfp & Hall)]]];
    const_tests_in H.
  - apply bind_Ok in H as ([s1 a] & Hload & H). apply bind_Ok in H as (b & Hb & H).
    apply Ok_inj, pair_equal_spec in H as [<- <-]. eapply put_branch0; eauto.
  - by eapply put_branch1.
  - destruct (put_reseed_correct home s (home k) r k v s' rep Hwf Hr eq_refl H)
      as (Hw & Hu & sd & -> & Hsd & ?).
    split; [done|]. intros Hf. split; [by apply (put_reseed_fingers home s (home k) r k v s' (MkReply true (256 + sd)))|].
    split; [done|]. left. split; [done|]. right; right. by exists sd.
  - by eapply put_branch3.
Qed.
(** The keys the server reads back from a row. *)
Definition row_key_list s row : res (list Z) :=
  addrs ← read_bucket_addrs (bks s) row; read_batch_keys (mem s) addrs.

Lemma load_entry_total s k len v : wf home s -> num (pd s) < numElements (pd s) ->
  exists s1 a, load_entry s k len v = Ok (s1, a).
Proof.
  intros Hwf Hn. pose proof (wf_num _ s Hwf). pose proof (wf_mem _ s Hwf).
  unfold load_entry, bulk_load_data.
  destruct (Z.leb_spec (numElements (pd s)) (num (pd s))); [lia|].
  rewrite wr_in_range by lia. simpl. eauto.
Qed.

Lemma load_entry_full s k len v : numElements (pd s) <= num (pd s) ->
  load_entry s k len v = Err ProcessExit.
Proof.
  intros H. unfold load_entry, bulk_load_data.
  by rewrite (proj2 (Z.leb_le _ _) H).
Qed.

(** The reseed branch: it returns when a seed below 255 separates the keys,
    and calls [exit] when none does. *)
Lemma put_reseed_total s row r k v : wf home s -> rd (bks s) row = Ok r ->
  home k = row -> Exists (fun c => toLength c = 0) r ->
  num (pd s) < numElements (pd s) ->
  exists keys, row_key_list s row = Ok keys /\
    ((exists sd, 0 <= sd < 255 /\ separates sd (keys ++ [k])) ->
       exists s' rep, put_reseed s row k v = Ok (s', rep)) /\
    ((forall sd, 0 <= sd < 255 -> ~ separates sd (keys ++ [k])) ->
       put_reseed s row k v = Err ProcessExit).
Proof.
  intros Hwf Hr Hk Hex Hn.
  destruct (row_keys home s row r Hwf Hr) as (keys & HK & Hba & Hbk & _).
  exists keys. split; [unfold row_key_list; by rewrite Hba|].
  destruct (load_entry_total s k sizeof_ValType v Hwf Hn) as (s1 & a & Hload).
  destruct (reseed_ready home s row r k v s1 a keys Hwf Hr Hk HK Hload)
    as (nc & Enc & Hwf1 & Hr1 & HK1 & HC & HH & Hnc & Ha & Hta & Hbks & Hmem).
  assert (Hlen : (length (keys ++ [k]) <= 4)%nat).
  { rewrite length_app, <-(Forall2_length _ _ _ HK). simpl.
    assert (length (filter nonempty r) < length r)%nat.
    { apply Exists_exists in Hex as (c & Hin & Hc). apply length_filter_lt with c; [done|].
      unfold nonempty. tauto. }
    rewrite (row_length home s row r Hwf Hr) in *. lia. }
  assert (Heq : put_reseed s row k v =
    found ← find_seed 256 0 (keys ++ [k]);
    match found with
    | None => Err ProcessExit
    | Some seed =>
        sd ← wr (seeds s1) row seed;
        b ← empty_bucket (bks s1) row;
        b' ← place_cells (slot_of seed) b row (keys ++ [k]) (filter nonempty r ++ [nc]);
        Ok (set_bks (set_seeds s1 sd) b', MkReply true (Z.shiftl 1 8 + seed))
    end).
  { unfold put_reseed. rewrite Hba. cbn [mbind res_bind]. rewrite Hbk. cbn [mbind res_bind].
    rewrite Hload. cbn [mbind res_bind]. rewrite (proj2 (Z.leb_le _ 4)) by lia. by rewrite <-Enc. }
  rewrite Heq.
  destruct (find_seed_spec 256 0 (keys ++ [k])) as (found & -> & Hfound); [lia..|].
  cbn [mbind res_bind]. split; intros Hsep.
  - destruct found as [sd|]; [|destruct Hsep as (sd & ? & ?); exfalso; by apply (Hfound sd)].
    destruct Hfound as (_ & Hsd & _).
    assert (Hrow : 0 <= row < Z.of_nat (length (seeds s1))).
    { rewrite (wf_len _ s1 Hwf1). by eapply rd_range. }
    rewrite (wr_in_range (seeds s1)) by done. cbn [mbind res_bind].
    destruct (empty_bucket_spec (bks s1) row r (wf_rows _ s1 Hwf1) Hr1)
      as (b1 & -> & Hwb1 & Hrb1 & _). cbn [mbind res_bind].
    destruct (place_cells_spec (slot_of sd) (slot_of_range sd) row (keys ++ [k])
      (filter nonempty r ++ [nc]) b1 [0; 0; 0; 0]) as (b2 & r' & -> & _);
      [done..|by apply (Forall2_length _ _ _ HK1)|]. cbn [mbind res_bind]. eauto.
  - destruct found as [sd|]; [|done]. destruct Hfound as (? & ? & _).
    exfalso. apply (Hsep sd); [lia|done].
Qed.

(** PUT faults in one way only: [exit], when the entry array is full or
    when no seed below 255 separates the keys of the row. *)
Lemma put_faults s loc k v : wf home s -> loc / SLOTS_NUM_BUCKET = home k ->
  0 <= home k < Z.of_nat (length (bks s)) ->
  match put_callback s [loc; k; v] with
  | Ok _ => True
  | Err e => e = ProcessExit /\
      (num (pd s) = numElements (pd s) \/
       exists keys, row_key_list s (home k) = Ok keys /\
         forall sd, 0 <= sd < 255 -> ~ separates sd (keys ++ [k]))
  end.
Proof.
  intros Hwf Hloc Hrow. rewrite put_callback_eq. cbv zeta. rewrite Hloc.
  destruct (rd_in_range (seeds s) (home k)) as [seed Hs]; [by rewrite (wf_len _ s Hwf)|].
  destruct (rd_in_range (bks s) (home k) Hrow) as [r Hr].
  rewrite Hs. cbn [mbind res_bind].
  destruct (check_slots_total (bks s) (home k) r (wf_rows _ s Hwf) Hr k (slot_of seed k))
    as [st Hst]; [apply slot_of_range|].
  rewrite Hst. cbn [mbind res_bind].
  destruct (check_slots_cases home s (home k) r k _ st Hwf Hr Hst) as (c & Hc & Hcase).
  pose proof (wf_num _ s Hwf) as Hnum.
  assert (Hfull : num (pd s) < numElements (pd s) \/ numElements (pd s) <= num (pd s)) by lia.
  destruct (lru_insert_spec home s k v Hwf) as (s1 & Hlru & Hwf1 & _ & Hb1 & Hm1 & Hp1 & _).
  destruct Hcase as [[-> Hc0]|[(-> & Hne & Hfp)|[(-> & Hne & Hfp & Hex)|(-> & Hne & Hfp & Hall)]]];
    const_tests.
  - destruct Hfull as [Hn|Hn]; [|rewrite load_entry_full by done; split; [done|left; lia]].
    destruct (load_entry_total s k sizeof_ValType v Hwf Hn) as (s2 & a & Hl). rewrite Hl.
    cbn [mbind res_bind].
    destruct (load_entry_spec home s k _ v s2 a Hwf Hl) as (Hwf2 & _ & _ & _ & _ & _ & Hb & _).
    destruct (wr2_in_range (bks s2) 4 (home k) (slot_of seed k) (combine (fingerprint k) 64 a))
      as [b Hb'];
      [apply (wf_rows _ s2 Hwf2)|by rewrite Hb|pose proof (slot_of_range seed k); lia|].
    unfold write_addr. by rewrite Hb'.
  - unfold read_addr. rewrite Hc. cbn [mbind res_bind]. rewrite (rd_row _ _ _ Hr) in Hc.
    destruct (row_cell_good home s (home k) seed r _ c Hwf Hs Hr Hc Hne) as (_ & e & He & _).
    unfold read_key. rewrite He. cbn [mbind res_bind].
    destruct (_ =? _).
    + unfold update_data. by rewrite (wr_in_range _ _ _ (rd_range _ _ _ He)).
    + rewrite Hlru. cbn [mbind res_bind]. rewrite <-Hp1 in Hfull.
      destruct Hfull as [Hn|Hn]; [|rewrite load_entry_full by done; rewrite Hp1 in Hn; split; [done|left; lia]].
      destruct (load_entry_total s1 k sizeof_ValType v Hwf1 Hn) as (s2 & a & ->). done.
  - destruct Hfull as [Hn|Hn].
    + destruct (put_reseed_total s (home k) r k v Hwf Hr eq_refl Hex Hn) as (keys & Hkl & Hok & Hno).
      destruct (find_seed_spec 256 0 (keys ++ [k])) as (found & _ & Hfound); [lia..|].
      destruct found as [sd|].
      * destruct Hok as (s' & rep & ->); [|done]. exists sd. naive_solver.
      * rewrite Hno by done. split; [done|]. right. eauto.
    + destruct (row_keys home s (home k) r Hwf Hr) as (keys & HK & Hba & Hbk & _).
      unfold put_reseed. rewrite Hba. cbn [mbind res_bind]. rewrite Hbk. cbn [mbind res_bind].
      rewrite load_entry_full by done. split; [done|left; lia].
  - rewrite Hlru. cbn [mbind res_bind]. rewrite <-Hp1 in Hfull.
    destruct Hfull as [Hn|Hn]; [|rewrite load_entry_full by done; rewrite Hp1 in Hn; split; [done|left; lia]].
    destruct (load_entry_total s1 k sizeof_ValType v Hwf1 Hn) as (s2 & a & Hl). rewrite Hl.
    cbn [mbind res_bind].
    destruct (load_entry_spec home s1 k _ v s2 a Hwf1 Hl) as (Hwf2 & _ & _ & _ & _ & _ & Hb & _).
    assert (Hm4 : 0 <= loc mod SLOTS_NUM_BUCKET < 4) by (by apply Z.mod_pos_bound).
    destruct (rd2_in_range (bks s2) 4 (home k) (loc mod SLOTS_NUM_BUCKET)) as [c0 Hc0];
      [apply (wf_rows _ s2 Hwf2)|by rewrite Hb, Hb1|lia|].
    rewrite (set_cachebit_eq _ _ _ _ Hc0).
    destruct (wr2_in_range (bks s2) 4 (home k) (loc mod SLOTS_NUM_BUCKET) (set_flag c0)) as [b Hb'];
      [apply (wf_rows _ s2 Hwf2)|by rewrite Hb, Hb1|lia|]. by rewrite Hb'.
Qed.
End theorems.

(** ** The properties of the callbacks *)

Section properties.
Context (home : Z -> Z).
Implicit Types (s : server).

(** A key stored in a row whose cell does not carry the key's fingerprint
    cannot be written again while the row has an empty slot: the key is
    appended to the row's own keys, and no seed separates a key from itself. *)
Lemma put_duplicate s loc k v v0 seed c r : wf home s -> loc / SLOTS_NUM_BUCKET = home k ->
  rd (seeds s) (home k) = Ok seed -> rd (bks s) (home k) = Ok r ->
  rd r (slot_of seed k) = Ok c -> stored s k v0 -> toFinger c <> fingerprint k ->
  Exists (fun c => toLength c = 0) r -> put_callback s [loc; k; v] = Err ProcessExit.
Proof.
  intros Hwf Hloc Hs Hr Hc Hst Hfp Hex.
  pose proof Hst as Hst'. rewrite (stored_at home s seed) in Hst' by done.
  destruct Hst' as (c' & e & Hc' & Hne & He & Hk & Hv).
  rewrite (rd_row _ _ _ Hr) in Hc'. assert (c' = c) as -> by congruence.
  rewrite put_callback_eq. cbv zeta. rewrite Hloc, Hs. cbn [mbind res_bind].
  destruct (check_slots_total (bks s) (home k) r (wf_rows _ s Hwf) Hr k (slot_of seed k))
    as [st Hst2]; [apply slot_of_range|].
  rewrite Hst2. cbn [mbind res_bind].
  destruct (check_slots_cases home s (home k) r k _ st Hwf Hr Hst2) as (c1 & Hc1 & Hcase).
  rewrite (rd_row _ _ _ Hr) in Hc1. assert (c1 = c) as -> by congruence.
  destruct Hcase as [[-> Hc0]|[(-> & _ & Hf)|[(-> & _)|(-> & _ & _ & Hall)]]]; [done|done| |].
  - const_tests. destruct (decide (num (pd s) < numElements (pd s))) as [Hn|Hn].
    + destruct (put_reseed_total home s (home k) r k v Hwf Hr eq_refl Hex Hn)
        as (keys & Hkl & _ & Hno). apply Hno. intros sd _ Hsep.
      destruct (row_keys home s (home k) r Hwf Hr) as (keys' & HK & Hba & Hbk & _).
      unfold row_key_list in Hkl. rewrite Hba in Hkl. cbn [mbind res_bind] in Hkl.
      assert (keys' = keys) as -> by congruence.
      apply NoDup_fmap_1, NoDup_app in Hsep as (_ & Hdis & _).
      destruct (proj1 (in_row_keys home s (home k) r keys k v0 Hwf Hr HK))
        as (i & c2 & e2 & _ & Hi & _); [by exists (slot_of seed k), c, e|].
      apply (Hdis k); [by eapply list_elem_of_lookup_2|set_solver].
    + destruct (row_keys home s (home k) r Hwf Hr) as (keys & HK & Hba & Hbk & _).
      unfold put_reseed. rewrite Hba. cbn [mbind res_bind]. rewrite Hbk. cbn [mbind res_bind].
      by rewrite load_entry_full by lia.
  - exfalso. apply Exists_exists in Hex as (x & Hx & Hx0).
    by apply (proj1 (Forall_forall _ _) Hall x Hx).
Qed.

Lemma get_callback_eq s loc k : get_callback s [loc; k] =
  addr ← read_addr (bks s) (loc / SLOTS_NUM_BUCKET) (loc mod SLOTS_NUM_BUCKET);
  e ← rd (mem s) addr; Ok (MkReply true (data e)).
Proof. reflexivity. Qed.

(** GET at the location of a stored key. *)
Lemma get_stored s loc k v : wf home s -> stored s k v ->
  loc / SLOTS_NUM_BUCKET = home k ->
  rd (seeds s) (home k) ≫= (fun seed => Ok (slot_of seed k)) = Ok (loc mod SLOTS_NUM_BUCKET) ->
  get_callback s [loc; k] = Ok (MkReply true v).
Proof.
  intros Hwf Hst Hloc Hslot. res_inv. rewrite (stored_at home s a) in Hst by done.
  destruct Hst as (c & e & Hc & Hne & He & Hk & Hv).
  rewrite get_callback_eq, Hloc, <-Hslot. unfold read_addr. rewrite Hc. cbn [mbind res_bind].
  rewrite He. cbn [mbind res_bind]. by rewrite Hv.
Qed.

(** GET compares no key: whatever the requested key, the reply is the value
    of the entry the cell points to, with status true. *)
Lemma get_no_key_check s loc k k' : get_callback s [loc; k] = get_callback s [loc; k'].
Proof. by rewrite !get_callback_eq. Qed.

Lemma update_callback_eq s loc k v : update_callback s [loc; k; v] =
  addr ← read_addr (bks s) (loc / SLOTS_NUM_BUCKET) (loc mod SLOTS_NUM_BUCKET);
  k' ← read_key (mem s) addr;
  if k' =? k then
    '(m, _) ← update_data (mem s) addr k 64 v; Ok (set_mem s m, MkReply true 1)
  else
    s1 ← lru_insert s k v;
    '(s2, _) ← load_entry s1 k sizeof_ValType v; Ok (s2, MkReply true 2).
Proof. reflexivity. Qed.

(** UPDATE at an occupied location in the key's home row, sent with the
    current seed: the stored key gets the value, reply 1; a key that is not
    stored goes to the LRU cache, reply 2. *)
Definition update_outcome s s' k v rep : Prop :=
  (updated s s' k v /\ (exists v0, stored s k v0) /\ rep = MkReply true 1) \/
  (overflowed s s' k v /\ rep = MkReply true 2).

Lemma update_main s loc k v seed c s' rep : wf home s ->
  loc / SLOTS_NUM_BUCKET = home k -> rd (seeds s) (home k) = Ok seed ->
  loc mod SLOTS_NUM_BUCKET = slot_of seed k ->
  rd2 (bks s) (home k) (slot_of seed k) = Ok c -> nonempty c ->
  update_callback s [loc; k; v] = Ok (s', rep) ->
  wf home s' /\ (fingers s -> fingers s') /\ update_outcome s s' k v rep.
Proof.
  intros Hwf Hloc Hs Hsl Hc Hne H. rewrite update_callback_eq, Hloc, Hsl in H.
  unfold read_addr in H. rewrite Hc in H. cbn [mbind res_bind] in H.
  apply bind_Ok in H as (k' & Hk' & H). destruct (Z.eqb_spec k' k) as [->|Hkk].
  - apply bind_Ok in H as ([m l] & Hu & H). apply Ok_inj, pair_equal_spec in H as [<- <-].
    unfold update_data in Hu. apply bind_Ok in Hu as (m' & Hm & Hu).
    apply Ok_inj, pair_equal_spec in Hu as [-> _].
    unfold read_key in Hk'. apply bind_Ok in Hk' as (e & He & Hk'). apply Ok_inj in Hk'.
    destruct (overwrite_entry home s (home k) seed (slot_of seed k) c e k 64 v m)
      as [Hw Hup]; [done..|].
    split; [done|]. split; [subst k; intros; by apply (overwrite_fingers s (toAddr c) e 64 v)|].
    left. split; [done|]. split; [|done]. exists (data e).
    apply (stored_at home s seed); [done..|]. exists c, e. done.
  - apply bind_Ok in H as (s1 & Hs1 & H). apply bind_Ok in H as ([s2 a] & Hs2 & H).
    apply Ok_inj, pair_equal_spec in H as [<- <-].
    assert (HO : (s1 ← lru_insert s k v; load_entry s1 k sizeof_ValType v) = Ok (s2, a))
      by (by rewrite Hs1).
    destruct (overflow_branch home s s2 k v a Hwf HO) as [Hw Hov].
    { apply (not_stored_slot home s seed c); [done..|]. right. eauto. }
    split; [done|]. split; [|by right]. intros. by apply (overflow_fingers home s s2 k v a).
Qed.

Lemma remove_callback_eq s loc k : remove_callback s [loc; k] =
  addr ← read_addr (bks s) (loc / SLOTS_NUM_BUCKET) (loc mod SLOTS_NUM_BUCKET);
  '(m, ok) ← remove_data_with_key_check (mem s) addr k;
  b ← (if ok : bool
       then remove_addr (bks s) (loc / SLOTS_NUM_BUCKET) (loc mod SLOTS_NUM_BUCKET)
       else Ok (bks s));
  Ok (set_bks (set_mem s m) b, MkReply true 0).
Proof. reflexivity. Qed.

(** [removed]: [k] is gone, the other keys are as they were. *)
Definition removed s s' k : Prop :=
  forall k' v', stored s' k' v' <-> k' <> k /\ stored s k' v'.

(** A write to an entry that no live cell points to. *)
Lemma dead_entry_write s a x m : wf home s -> wr (mem s) a x = Ok m ->
  (forall row slot c, rd2 (bks s) row slot = Ok c -> nonempty c -> toAddr c <> a) ->
  wf home (set_mem s m) /\ unchanged s (set_mem s m) /\ (fingers s -> fingers (set_mem s m)).
Proof.
  intros Hwf Hw Hdead.
  assert (Hrd : forall row slot c, rd2 (bks s) row slot = Ok c -> nonempty c ->
    rd m (toAddr c) = rd (mem s) (toAddr c)).
  { intros row slot c Hc Hne. apply (rd_wr_ne _ _ _ _ _ Hw). intros E.
    by apply (Hdead row slot c). }
  split; [|split].
  - split; simpl; try apply Hwf; [by rewrite (wr_length _ _ _ _ Hw); apply Hwf|].
    intros row sd slot c Hs Hc Hne. destruct (wf_cell _ s Hwf row sd slot c Hs Hc Hne) as [Ha He].
    split; [done|]. simpl. by rewrite (Hrd row slot).
  - intros k v. unfold stored, in_row. simpl.
    split; intros (row & r & Hr & slot & c & e & Hc & Hne & He);
      exists row, r; (split; [done|]); exists slot, c, e;
      assert (Hrc : rd2 (bks s) row slot = Ok c) by (apply rd2_rd; eauto);
      by rewrite (Hrd row slot) in *.
  - intros Hf row slot c Hc e Hne He. simpl in He. rewrite (Hrd row slot) in He by done.
    by apply (Hf row slot c).
Qed.

(** Clearing the cell at the slot of [k]. *)
Lemma clear_cell s seed r k b : wf home s -> rd (seeds s) (home k) = Ok seed ->
  rd (bks s) (home k) = Ok r -> wr2 (bks s) (home k) (slot_of seed k) 0 = Ok b ->
  (forall c e, rd r (slot_of seed k) = Ok c -> nonempty c ->
     rd (mem s) (toAddr c) = Ok e -> pkey e = k) ->
  wf home (set_bks s b) /\ removed s (set_bks s b) k /\
  (fingers s -> fingers (set_bks s b)) /\
  forall row slot c e, rd2 b row slot = Ok c -> nonempty c -> rd (mem s) (toAddr c) = Ok e ->
    pkey e <> k.
Proof.
  intros Hwf Hs Hr Hb Hown.
  destruct (write_cell_row home s (home k) seed r _ 0 b Hwf Hs Hr Hb) as (r' & Hr' & Hrw).
  pose proof (row_length home s _ _ Hwf Hr) as H4.
  assert (H4' : length r' = 4%nat) by (by rewrite (wr_length _ _ _ _ Hr')).
  assert (Hcell : forall i x, rd r' i = Ok x -> nonempty x -> i <> slot_of seed k /\ rd r i = Ok x).
  { intros i x Hx Hne. destruct (decide (slot_of seed k = i)) as [<-|Hi].
    - rewrite (rd_wr_eq _ _ _ _ Hr') in Hx. apply Ok_inj in Hx as <-.
      exfalso. apply Hne, toLength_0.
    - by rewrite (rd_wr_ne _ _ _ _ _ Hr' Hi) in Hx. }
  assert (Hgood : forall i x, rd r' i = Ok x -> nonempty x -> good_cell home s (home k) seed i x).
  { intros i x Hx Hne. destruct (Hcell i x Hx Hne) as [_ Hx0].
    by apply (row_cell_good home s (home k) seed r). }
  assert (Hnk : forall i x e, rd r' i = Ok x -> nonempty x -> rd (mem s) (toAddr x) = Ok e -> pkey e <> k).
  { intros i x e Hx Hne He Hk. destruct (Hcell i x Hx Hne) as [Hi _]. apply Hi.
    destruct (Hgood i x Hx Hne) as (_ & e' & He' & -> & _). congruence. }
  split; [by eapply row_write_wf|]. split; [|split].
  - intros k' v'. rewrite (row_write_stored home s (home k) seed r' _ Hwf Hrw H4' Hgood).
    assert (home k' = home k -> in_row (mem s) r' k' v' <-> k' <> k /\ stored s k' v') as E.
    { intros Hk'. rewrite (stored_at home s seed) by (done || congruence). split.
      - intros (i & x & e & Hx & Hne & He & <- & Hv). split; [by eapply Hnk|].
        destruct (Hcell i x Hx Hne) as [_ Hx0].
        destruct (Hgood i x Hx Hne) as (_ & e' & He' & -> & _).
        assert (e' = e) as -> by congruence. exists x, e. split; [|done].
        rewrite Hk'. apply rd2_rd. eauto.
      - intros (Hne' & x & e & Hx & Hne & He & Hpk & Hv). rewrite Hk' in Hx.
        rewrite (rd_row _ _ _ Hr) in Hx. exists (slot_of seed k'), x, e. split; [|done].
        rewrite (rd_wr_ne _ _ _ _ _ Hr'); [done|]. intros E. apply Hne'.
        rewrite <-Hpk. apply (Hown x); [by rewrite E|done..]. }
    destruct (decide (home k' = home k)); naive_solver.
  - intros Hf. apply (write_cell_fingers home s (home k) seed r (slot_of seed k) 0); try done.
    intros e Hne. exfalso. apply Hne, toLength_0.
  - intros row slot c e Hc Hne He Hk.
    pose proof (row_write_wf _ _ _ _ _ _ Hwf Hrw H4' Hgood) as Hwf'.
    destruct (proj1 (rd2_rd (set_bks s b) row slot c) Hc) as (r1 & Hr1 & Hc1).
    destruct (proj2 (seeds_bks home _ row Hwf') (ex_intro _ r1 Hr1)) as [sd Hsd].
    destruct (wf_cell _ _ Hwf' row sd slot c Hsd Hc Hne) as (_ & e' & He' & -> & Hh).
    simpl in He', Hsd. assert (e' = e) as -> by congruence. rewrite Hk in *. subst row.
    assert (sd = seed) as -> by congruence.
    rewrite (rd2_wr2_eq _ _ _ _ _ Hb) in Hc. apply Ok_inj in Hc as <-.
    by apply Hne, toLength_0.
Qed.

(** REMOVE sent with the current seed. *)
Lemma remove_main s loc k seed s' rep : wf home s ->
  loc / SLOTS_NUM_BUCKET = home k -> rd (seeds s) (home k) = Ok seed ->
  loc mod SLOTS_NUM_BUCKET = slot_of seed k ->
  remove_callback s [loc; k] = Ok (s', rep) ->
  wf home s' /\ (fingers s -> fingers s') /\ removed s s' k /\ rep = MkReply true 0.
Proof.
  intros Hwf Hloc Hs Hsl H. rewrite remove_callback_eq, Hloc, Hsl in H.
  destruct (proj1 (seeds_bks home s (home k) Hwf) (ex_intro _ seed Hs)) as [r Hr].
  apply bind_Ok in H as (a & Ha & H). apply bind_Ok in H as ([m ok] & Hm & H).
  apply bind_Ok in H as (b & Hb & H). apply Ok_inj, pair_equal_spec in H as [<- <-].
  unfold read_addr in Ha. apply bind_Ok in Ha as (c & Hc & Ha). apply Ok_inj in Ha as <-.
  pose proof Hc as Hcr. rewrite (rd_row _ _ _ Hr) in Hcr.
  unfold remove_data_with_key_check in Hm. apply bind_Ok in Hm as (e & He & Hm).
  destruct (Z.eqb_spec (pkey e) k) as [Hk|Hk]; simpl in Hm.
  - apply bind_Ok in Hm as (m' & Hw & Hm). apply Ok_inj, pair_equal_spec in Hm as [-> <-].
    destruct (clear_cell s seed r k b Hwf Hs Hr Hb) as (Hwf1 & Hrm & Hf1 & Hdead).
    { intros c' e' Hc' _ He'. congruence. }
    destruct (dead_entry_write (set_bks s b) (toAddr c) zero_struct m) as (Hwf2 & Hun & Hf2);
      [done|done| |].
    { intros row slot c' Hc' Hne E. apply (Hdead row slot c' e Hc' Hne); [|done].
      by rewrite E. }
    split; [done|]. split; [auto|]. split; [|done].
    intros k' v'. rewrite <-(Hrm k' v'). apply Hun.
  - apply Ok_inj, pair_equal_spec in Hm as [<- <-]. apply Ok_inj in Hb as <-.
    destruct s; cbn in *. split; [done|]. split; [done|]. split; [|done]. intros k' v'.
    split; [|naive_solver]. intros Hst. split; [|done]. intros ->.
    eapply (not_stored_slot home _ seed c k Hwf Hs Hc); [|exact Hst].
    right. exists (pkey e). split; [|done]. unfold read_key. simpl. by rewrite He.
Qed.
End properties.

(** ** Sequences of requests refine a finite map *)

Section refinement.
Context (home : Z -> Z).
Implicit Types (s : server) (m : gmap Z Z).

(** The location an in-sync client computes for a key. *)
Definition location s k : res Z :=
  seed ← rd (seeds s) (home k); Ok (home k * SLOTS_NUM_BUCKET + slot_of seed k).

Inductive request :=
  | Get (k : Z)
  | Put (k v : Z)
  | Remove (k : Z).

Definition serve s (q : request) : res (server * ReplyValue) :=
  match q with
  | Get k => loc ← location s k; r ← get_callback s [loc; k]; Ok (s, r)
  | Put k v => loc ← location s k; put_callback s [loc; k; v]
  | Remove k => loc ← location s k; remove_callback s [loc; k]
  end.

Fixpoint serve_all s (qs : list request) : res (server * list ReplyValue) :=
  match qs with
  | [] => Ok (s, [])
  | q :: qs =>
      '(s1, r) ← serve s q; '(s2, rs) ← serve_all s1 qs; Ok (s2, r :: rs)
  end.

(** The abstract table: a PUT stores the pair, except that a new key may be
    turned away to the LRU cache (replies 1 and 3); a GET of a stored key
    returns its value, a GET of any other key returns anything. *)
Inductive spec_step m : request -> ReplyValue -> gmap Z Z -> Prop :=
  | SpecGet k r : (forall v, m !! k = Some v -> r = MkReply true v) ->
      spec_step m (Get k) r m
  | SpecPut k v r : status r = true -> spec_step m (Put k v) r (<[k := v]> m)
  | SpecOverflow k v r : status r = true -> m !! k = None -> val r = 1 \/ val r = 3 ->
      spec_step m (Put k v) r m
  | SpecRemove k : spec_step m (Remove k) (MkReply true 0) (delete k m).

Inductive spec_run : gmap Z Z -> list request -> list ReplyValue -> gmap Z Z -> Prop :=
  | SpecNil m : spec_run m [] [] m
  | SpecCons m q r m1 qs rs m2 : spec_step m q r m1 -> spec_run m1 qs rs m2 ->
      spec_run m (q :: qs) (r :: rs) m2.

Definition represents s m : Prop := forall k v, stored s k v <-> m !! k = Some v.

Definition ok_state s : Prop := wf home s /\ fingers s.

Lemma location_spec s k loc : location s k = Ok loc ->
  loc / SLOTS_NUM_BUCKET = home k /\
  exists seed, rd (seeds s) (home k) = Ok seed /\ loc mod SLOTS_NUM_BUCKET = slot_of seed k.
Proof.
  unfold location. intros H. res_inv. pose proof (slot_of_range a k). unfold SLOTS_NUM_BUCKET.
  rewrite Z.add_comm, Z.div_add, Z.mod_add, Z.div_small, Z.mod_small by lia.
  split; [lia|eauto].
Qed.

Lemma represents_absent s m k : represents s m -> (forall v, ~ stored s k v) -> m !! k = None.
Proof. intros HR Hn. apply eq_None_not_Some. intros [v Hv]. by apply (Hn v), HR. Qed.

(** One request is one step of the abstract table. *)
Lemma serve_step s m q s' r : ok_state s -> represents s m -> serve s q = Ok (s', r) ->
  ok_state s' /\ exists m', spec_step m q r m' /\ represents s' m'.
Proof.
  intros [Hwf Hf] HR. destruct q as [k|k v|k]; simpl; intros H;
    apply bind_Ok in H as (loc & Hloc & H);
    destruct (location_spec s k loc Hloc) as (Hrow & seed & Hs & Hsl).
  - apply bind_Ok in H as (r' & Hg & H). apply Ok_inj, pair_equal_spec in H as [<- <-].
    split; [done|]. exists m. split; [|done]. constructor. intros v Hv. apply HR in Hv.
    assert (get_callback s [loc; k] = Ok (MkReply true v)) as E; [|congruence].
    apply (get_stored home); [done..|]. rewrite Hs. simpl. congruence.
  - destruct (put_main home s loc k v s' r Hwf Hrow H) as [Hwf' Hb].
    destruct (Hb Hf) as [Hf' [Hst [[Hu _]|[(Hun & Hns & _) Hval]]]].
    + split; [done|]. exists (<[k := v]> m). split; [by constructor|]. intros k' v'.
      rewrite (Hu k' v'), (HR k' v'), lookup_insert_Some. naive_solver.
    + split; [done|]. exists m. split.
      * apply SpecOverflow; [done| |done]. by eapply represents_absent.
      * intros k' v'. by rewrite (Hun k' v').
  - destruct (remove_main home s loc k seed s' r Hwf Hrow Hs Hsl H) as (Hwf' & Hf' & Hrm & ->).
    split; [split; [done|auto]|]. exists (delete k m). split; [constructor|]. intros k' v'.
    rewrite (Hrm k' v'), (HR k' v'), lookup_delete_Some. naive_solver.
Qed.

Lemma serve_all_run qs s m s' rs : ok_state s -> represents s m ->
  serve_all s qs = Ok (s', rs) ->
  ok_state s' /\ exists m', spec_run m qs rs m' /\ represents s' m'.
Proof.
  revert s m rs. induction qs as [|q qs IH]; intros s m rs Hok HR H; simpl in H.
  - apply Ok_inj, pair_equal_spec in H as [<- <-]. split; [done|]. exists m. by split; [constructor|].
  - apply bind_Ok in H as ([s1 r] & H1 & H). apply bind_Ok in H as ([s2 rs'] & H2 & H).
    apply Ok_inj, pair_equal_spec in H as [<- <-].
    destruct (serve_step s m q s1 r Hok HR H1) as (Hok1 & m1 & Hst & HR1).
    destruct (IH s1 m1 rs' Hok1 HR1 H2) as (Hok2 & m2 & Hrun & HR2).
    split; [done|]. exists m2. split; [by econstructor|done].
Qed.
End refinement.

(** ** A fresh table *)

(** [rows] empty buckets with seed 0 over [n] entries with arbitrary content. *)
Definition fresh_server (rows n : nat) (junk : packed_struct) : server :=
  let '(m, w) := new_packed_data junk n in
  MkServer (replicate rows 0) (new_buckets rows) m w (new_cache 2048 10).

Lemma fresh_cell rows n junk row slot c :
  rd2 (bks (fresh_server rows n junk)) row slot = Ok c -> ~ nonempty c.
Proof.
  intros (r & Hr & Hc)%rd2_rd. apply rd_Ok in Hr as [_ Hr].
  apply lookup_replicate in Hr as [-> _]. apply rd_Ok in Hc as [_ Hc].
  apply (lookup_replicate_1 4 0) in Hc as [-> _]. intros H. apply H, toLength_0.
Qed.

Lemma fresh_ok home rows n junk : Z.of_nat n <= 2 ^ 32 -> ok_state home (fresh_server rows n junk).
Proof.
  intros Hn. split.
  - split; simpl.
    + unfold new_buckets. by rewrite !length_replicate.
    + by apply Forall_replicate.
    + lia.
    + by rewrite length_replicate.
    + done.
    + intros row seed slot c _ Hc Hne. by apply fresh_cell in Hc.
    + by apply new_cache_inv.
  - intros row slot c Hc e Hne. by apply fresh_cell in Hc.
Qed.

Lemma fresh_represents rows n junk : represents (fresh_server rows n junk) ∅.
Proof.
  intros k v. rewrite lookup_empty. split; [|done].
  intros (row & r & Hr & slot & c & e & Hc & Hne & _). exfalso.
  apply (fresh_cell rows n junk row slot c); [|done]. apply rd2_rd. eauto.
Qed.

(** ** The properties *)

(** C3: Requests from in-sync clients refine a finite map.  From a fresh
    table, any sequence of GET, PUT and REMOVE requests that the server
    completes is a run of the abstract table: a PUT stores its pair or, for a
    new key, turns it away to the LRU cache; a GET of a stored key returns its
    value; a REMOVE deletes the key; and the final contents of buckets and
    entries are exactly the final abstract map. *)
Theorem requests_refine_map (home : Z -> Z) rows n junk qs s rs :
  Z.of_nat n <= 2 ^ 32 -> serve_all home (fresh_server rows n junk) qs = Ok (s, rs) ->
  exists m, spec_run ∅ qs rs m /\ represents s m /\ ok_state home s.
Proof.
  intros Hn H.
  destruct (serve_all_run home qs (fresh_server rows n junk) ∅ s rs) as (Hok & m & ? & ?);
    [by apply fresh_ok|apply fresh_represents|done|]. eauto.
Qed.

Section final.
Context (home : Z -> Z).
Implicit Types (s : server).

(** C7: PUT, every branch.  On a well-formed, fingerprinted table a PUT that
    returns replies true and keeps the invariant; either the key now maps to
    the value and every other key is as before (replies 0, 1, or 256 plus the
    row's new seed), or the key was not in the table, the table is as before
    and the pair is in the LRU cache (replies 1 and 3). *)
Theorem put_correct s loc k v s' rep : ok_state home s ->
  loc / SLOTS_NUM_BUCKET = home k ->
  put_callback s [loc; k; v] = Ok (s', rep) ->
  ok_state home s' /\ put_outcome home s s' k v rep.
Proof.
  intros [Hwf Hf] Hloc H.
  destruct (put_main home s loc k v s' rep Hwf Hloc H) as [Hwf' Hb].
  destruct (Hb Hf) as [Hf' Ho]. split; [split|]; done.
Qed.

(** PUT never reads or writes out of bounds, fails an assertion or
    throws: on a well-formed table it either returns or calls [exit], and it
    calls [exit] only when the entry array is full or when no seed below 255
    separates the keys of the row. *)
Theorem put_only_exits s loc k v e : wf home s ->
  loc / SLOTS_NUM_BUCKET = home k -> 0 <= home k < Z.of_nat (length (bks s)) ->
  put_callback s [loc; k; v] = Err e ->
  e = ProcessExit /\
  (num (pd s) = numElements (pd s) \/
   exists keys, row_key_list s (home k) = Ok keys /\
     forall sd, 0 <= sd < 255 -> ~ separates sd (keys ++ [k])).
Proof.
  intros Hwf Hloc Hrow He. pose proof (put_faults home s loc k v Hwf Hloc Hrow) as H.
  by rewrite He in H.
Qed.

(** REMOVE sent with the row's current seed deletes exactly its key and
    keeps the invariant. *)
Theorem remove_correct s loc k seed s' rep : ok_state home s ->
  loc / SLOTS_NUM_BUCKET = home k -> rd (seeds s) (home k) = Ok seed ->
  loc mod SLOTS_NUM_BUCKET = slot_of seed k ->
  remove_callback s [loc; k] = Ok (s', rep) ->
  ok_state home s' /\ removed s s' k /\ rep = MkReply true 0.
Proof.
  intros [Hwf Hf] Hloc Hs Hsl H.
  destruct (remove_main home s loc k seed s' rep Hwf Hloc Hs Hsl H) as (?&?&?&?).
  split; [split|]; auto.
Qed.

(** UPDATE at an occupied location, sent with the current seed: a stored
    key gets the value (reply 1); a key that is not stored leaves the table
    as it is and goes to the LRU cache (reply 2). *)
Theorem update_correct s loc k v seed c s' rep : ok_state home s ->
  loc / SLOTS_NUM_BUCKET = home k -> rd (seeds s) (home k) = Ok seed ->
  loc mod SLOTS_NUM_BUCKET = slot_of seed k ->
  rd2 (bks s) (home k) (slot_of seed k) = Ok c -> nonempty c ->
  update_callback s [loc; k; v] = Ok (s', rep) ->
  ok_state home s' /\ update_outcome s s' k v rep.
Proof.
  intros [Hwf Hf] Hloc Hs Hsl Hc Hne H.
  destruct (update_main home s loc k v seed c s' rep Hwf Hloc Hs Hsl Hc Hne H) as (?&?&?).
  split; [split|]; auto.
Qed.

(** A stored key whose cell does not carry the key's fingerprint (the
    cells of a bulk-loaded table, LudoDP.v) cannot be overwritten while its
    row has an empty slot: the PUT ends the process. *)
Theorem put_existing_exits s loc k v v0 seed c r : wf home s ->
  loc / SLOTS_NUM_BUCKET = home k -> rd (seeds s) (home k) = Ok seed ->
  rd (bks s) (home k) = Ok r -> rd r (slot_of seed k) = Ok c -> stored s k v0 ->
  toFinger c <> fingerprint k -> Exists (fun c => toLength c = 0) r ->
  put_callback s [loc; k; v] = Err ProcessExit.
Proof. apply put_duplicate. Qed.
End final.

(** ** Witnesses: one row of four slots, eight entries *)

Definition one_row : Z -> Z := fun _ => 0.
Definition demo : server := fresh_server 1 8 (PackedStruct 0 0 0).

Definition demo_requests : list request :=
  [Put 1 10; Put 2 20; Put 3 30; Put 4 40; Put 5 50; Get 2; Remove 2].

Lemma requests_refine_map_witness :
  exists s rs, serve_all one_row demo demo_requests = Ok (s, rs) /\
    exists m, spec_run ∅ demo_requests rs m /\ represents s m /\ ok_state one_row s.
Proof.
  destruct (serve_all one_row demo demo_requests) as [[s rs]|] eqn:E;
    [|vm_compute in E; discriminate].
  exists s, rs. split; [reflexivity|].
  exact (requests_refine_map one_row 1 8 (PackedStruct 0 0 0) demo_requests s rs
    ltac:(vm_compute; discriminate) E).
Defined.

Definition demo_state (qs : list request) : server :=
  match serve_all one_row demo qs with Ok (s, _) => s | Err _ => demo end.

Lemma demo_state_ok qs : ok_state one_row (demo_state qs).
Proof.
  assert (Hd : ok_state one_row demo) by (by apply fresh_ok).
  unfold demo_state. destruct (serve_all one_row demo qs) as [[s rs]|] eqn:E; [|done].
  eapply serve_all_run; [exact Hd|apply fresh_represents|exact E].
Qed.

Lemma put_correct_witness :
  exists s' rep, put_callback (demo_state [Put 1 10]) [0; 2; 20] = Ok (s', rep) /\
    ok_state one_row s' /\ put_outcome one_row (demo_state [Put 1 10]) s' 2 20 rep.
Proof.
  destruct (put_callback (demo_state [Put 1 10]) [0; 2; 20]) as [[s' rep]|] eqn:E;
    [|vm_compute in E; discriminate].
  exists s', rep. split; [reflexivity|].
  exact (put_correct one_row _ 0 2 20 s' rep (demo_state_ok [Put 1 10]) eq_refl E).
Defined.

(** The array of a one-entry server is full after one PUT. *)
Definition tiny : server := fresh_server 1 1 (PackedStruct 0 0 0).

Lemma put_only_exits_witness : exists s, wf one_row s /\
  put_callback s [0; 2; 20] = Err ProcessExit /\
  (num (pd s) = numElements (pd s) \/
   exists keys, row_key_list s 0 = Ok keys /\
     forall sd, 0 <= sd < 255 -> ~ separates sd (keys ++ [2])).
Proof.
  assert (Hd : ok_state one_row tiny) by (by apply fresh_ok).
  destruct (serve_all one_row tiny [Put 1 10]) as [[s rs]|] eqn:E;
    [|vm_compute in E; discriminate].
  pose proof (serve_all_run one_row _ _ _ _ _ Hd (fresh_represents _ _ _) E) as [[Hwf _] _].
  assert (Hx : put_callback s [0; 2; 20] = Err ProcessExit).
  { vm_compute in E. injection E as <- <-. vm_compute. reflexivity. }
  exists s. split; [exact Hwf|]. split; [exact Hx|].
  apply (put_only_exits one_row s 0 2 20 ProcessExit Hwf eq_refl); [|exact Hx].
  vm_compute in E. injection E as <- <-. vm_compute. split; [discriminate|reflexivity].
Defined.

Lemma remove_correct_witness : exists loc seed s' rep,
  remove_callback (demo_state [Put 1 10; Put 2 20]) [loc; 2] = Ok (s', rep) /\
  rd (seeds (demo_state [Put 1 10; Put 2 20])) 0 = Ok seed /\
  ok_state one_row s' /\ removed (demo_state [Put 1 10; Put 2 20]) s' 2 /\
  rep = MkReply true 0.
Proof.
  destruct (rd (seeds (demo_state [Put 1 10; Put 2 20])) 0) as [seed|] eqn:Es;
    [|vm_compute in Es; discriminate].
  destruct (remove_callback (demo_state [Put 1 10; Put 2 20]) [slot_of seed 2; 2])
    as [[s' rep]|] eqn:E.
  - exists (slot_of seed 2), seed, s', rep. split; [exact E|]. split; [reflexivity|].
    apply (remove_correct one_row _ (slot_of seed 2) 2 seed s' rep (demo_state_ok _));
      [|exact Es| |exact E]; vm_compute in Es; injection Es as <-; vm_compute; reflexivity.
  - vm_compute in Es. injection Es as <-. vm_compute in E. discriminate.
Defined.

Lemma update_correct_witness : exists loc s' rep,
  update_callback (demo_state [Put 1 10; Put 2 20]) [loc; 2; 21] = Ok (s', rep) /\
  ok_state one_row s' /\ update_outcome (demo_state [Put 1 10; Put 2 20]) s' 2 21 rep.
Proof.
  destruct (rd (seeds (demo_state [Put 1 10; Put 2 20])) 0) as [seed|] eqn:Es;
    [|vm_compute in Es; discriminate].
  destruct (rd2 (bks (demo_state [Put 1 10; Put 2 20])) 0 (slot_of seed 2)) as [c|] eqn:Ec.
  2:{ vm_compute in Es. injection Es as <-. vm_compute in Ec. discriminate. }
  destruct (update_callback (demo_state [Put 1 10; Put 2 20]) [slot_of seed 2; 2; 21])
    as [[s' rep]|] eqn:E.
  - exists (slot_of seed 2), s', rep. split; [exact E|].
    apply (update_correct one_row _ (slot_of seed 2) 2 21 seed c s' rep (demo_state_ok _));
      [|exact Es| |exact Ec| |exact E]; vm_compute in Es; injection Es as <-.
    + vm_compute. reflexivity.
    + vm_compute. reflexivity.
    + vm_compute in Ec. injection Ec as <-. vm_compute. discriminate.
  - vm_compute in Es. injection Es as <-. vm_compute in E. discriminate.
Defined.

(** A table with one bulk-loaded key, 7: the cell is the address plus
    [64UL << 48], as the bulk-loading constructor writes it. *)
Definition bulk_row : list Z := <[Z.to_nat (slot_of 0 7) := Z.shiftl 64 48]> [0; 0; 0; 0].

Definition bulk_demo : server :=
  MkServer [0] [bulk_row] [PackedStruct 7 8 70; zero_struct] (PackedData 1 2)
    (new_cache 2048 10).

Lemma bulk_row_cell slot c : rd bulk_row slot = Ok c -> nonempty c ->
  slot = slot_of 0 7 /\ c = Z.shiftl 64 48.
Proof.
  intros Hc Hne. pose proof (slot_of_range 0 7) as Hr.
  assert (Hw : wr [0; 0; 0; 0] (slot_of 0 7) (Z.shiftl 64 48) = Ok bulk_row)
    by (by apply wr_in_range).
  destruct (decide (slot_of 0 7 = slot)) as [<-|Hs].
  - rewrite (rd_wr_eq _ _ _ _ Hw) in Hc. apply Ok_inj in Hc as <-. split; reflexivity.
  - rewrite (rd_wr_ne _ _ _ _ _ Hw Hs) in Hc. pose proof (rd_range _ _ _ Hc) as Hsl.
    rewrite rd_zeros in Hc by (simpl in Hsl; lia). apply Ok_inj in Hc as <-.
    exfalso. apply Hne, toLength_0.
Qed.

Lemma bulk_demo_wf : wf one_row bulk_demo.
Proof.
  split; simpl; [reflexivity|by repeat constructor|lia|reflexivity|lia| |by apply new_cache_inv].
  intros row seed slot c Hs Hc Hne. pose proof (rd_range _ _ _ Hs) as Hr. simpl in Hr.
  assert (row = 0) as -> by lia. apply Ok_inj in Hs as <-.
  change (rd2 [bulk_row] 0 slot) with (rd bulk_row slot) in Hc.
  destruct (bulk_row_cell slot c Hc Hne) as [-> ->].
  split; [vm_compute; reflexivity|]. exists (PackedStruct 7 8 70).
  split; [vm_compute; reflexivity|]. split; reflexivity.
Qed.

Lemma put_existing_exits_witness :
  stored bulk_demo 7 70 /\ put_callback bulk_demo [0; 7; 71] = Err ProcessExit.
Proof.
  assert (Hst : stored bulk_demo 7 70).
  { exists 0, bulk_row. split; [reflexivity|].
    exists (slot_of 0 7), (Z.shiftl 64 48), (PackedStruct 7 8 70).
    split; [vm_compute; reflexivity|]. split; [vm_compute; discriminate|].
    split; [vm_compute; reflexivity|]. split; reflexivity. }
  split; [exact Hst|].
  apply (put_existing_exits one_row bulk_demo 0 7 71 70 0 (Z.shiftl 64 48) bulk_row bulk_demo_wf);
    [vm_compute; reflexivity..|exact Hst|vm_compute; discriminate|].
  apply Exists_exists. exists 0. split; [|vm_compute; reflexivity].
  by apply list_elem_of_lookup_2 with 3%nat.
Defined.
