(* ===== verification/OthelloMem.v ===== *)
(** * Packed arrays of small values, and the Othello data plane

    deps/ludo/tables/othello_cp_dp.h: [OthelloCommon] stores [ma + mb] values
    of [VDL = L + DL] bits back to back in 64-bit words; a value may straddle
    two words.  [DataPlaneOthello::lookUp] xors one value of array A with one
    of array B.  Also the farmhash variant for 8-byte keys that [hab] uses
    (deps/ludo/hashutils/farmhash.cc). *)

From Stdlib Require Import ZArith Lia.
From stdpp Require Import base numbers list.
From S2P Require Import Prelude Words Hash.

#[local] Open Scope Z_scope.

(** ** Bit fields in an array of 64-bit words *)

(** [~x] on [uint64_t]. *)
Definition not64 (x : Z) : Z := Z.lxor x (mask 64).

(** The body shared by [memSet] and [memValueSet]: write the low [w] bits of
    [value] at bit position [i].  [left] is a signed [char]. *)
Definition set_field (w i value : Z) (mem : list Z) : res (list Z) :=
  let v := Z.land value (mask w) in
  let start := u32 (i / 64) in
  let offset := u8 (i mod 64) in
  let left := offset + w - 64 in
  let m := not64 (u64 (Z.shiftl (mask w) offset)) in
  c ← rd mem start;
  mem1 ← wr mem start (Z.lor (Z.land c m) (u64 (Z.shiftl v offset)));
  if 0 <? left then
    let m := u64 (Z.shiftl (mask 64) left) in
    c ← rd mem1 (u32 (start + 1));
    wr mem1 (u32 (start + 1)) (Z.lor (Z.land c m) (Z.shiftr v (w - left)))
  else Ok mem1.

(** The body shared by [memGet] and [memValueGet]. *)
Definition get_field (w i : Z) (mem : list Z) : res Z :=
  let start := u32 (i / 64) in
  let offset := u8 (i mod 64) in
  let left := offset + w - 64 in
  let left := if left <? 0 then 0 else left in
  let m := not64 (u64 (Z.shiftl (mask 64) (w - left))) in
  c ← rd mem start;
  let result := Z.land (Z.shiftr c offset) m in
  if 0 <? left then
    let m := not64 (u64 (Z.shiftl (mask 64) left)) in
    c ← rd mem (u32 (start + 1));
    Ok (Z.lor result (u64 (Z.shiftl (Z.land c m) (w - left))))
  else Ok result.

(** [memSet], [memGet]: the whole cell of [L + DL] bits. *)
Definition memSet (L DL index value : Z) (mem : list Z) : res (list Z) :=
  if L + DL =? 0 then Ok mem else set_field (L + DL) (index * (L + DL)) value mem.

Definition memGet (L DL index : Z) (mem : list Z) : res Z :=
  if L + DL =? 0 then Ok 0 else get_field (L + DL) (index * (L + DL)) mem.

(** [memValueSet], [memValueGet]: the value bits above the digest bits. *)
Definition memValueSet (L DL index value : Z) (mem : list Z) : res (list Z) :=
  if L =? 0 then Ok mem else set_field L (index * (L + DL) + DL) value mem.

Definition memValueGet (L DL index : Z) (mem : list Z) : res Z :=
  if L =? 0 then Ok 0 else get_field L (index * (L + DL) + DL) mem.

(** [isEmpty]: the last digest bit is clear. *)
Definition isEmpty (L DL index : Z) (mem : list Z) : res bool :=
  x ← memGet L DL index mem; Ok (Z.land x 1 =? 0).

(** *** Bits of the array *)

Definition words64 (mem : list Z) : Prop := Forall (is_word 64) mem.

(** Bit [p] of the array. *)
Definition membit (mem : list Z) (p : Z) : bool :=
  match rd mem (p / 64) with Ok c => Z.testbit c (p mod 64) | Err _ => false end.

Lemma not64_testbit x i : 0 <= i < 64 -> Z.testbit (not64 x) i = negb (Z.testbit x i).
Proof.
  intros. unfold not64. bit_rewrite. rewrite (proj2 (Z.ltb_lt i 64)) by lia.
  by destruct (Z.testbit x i).
Qed.

Lemma not64_word x : is_word 64 x -> is_word 64 (not64 x).
Proof. intros. apply lxor_is_word; [lia|done|by apply mask_is_word]. Qed.

Lemma words64_rd mem i c : words64 mem -> rd mem i = Ok c -> is_word 64 c.
Proof. intros H [_ Hc]%rd_Ok. apply (Forall_lookup_1 _ _ _ _ H Hc). Qed.

Lemma words64_wr mem i v mem' : words64 mem -> is_word 64 v -> wr mem i v = Ok mem' ->
  words64 mem'.
Proof. intros H Hv [_ ->]%wr_Ok. by apply Forall_insert. Qed.

Section fields.
Context (w i : Z) (Hw : 0 < w <= 60) (Hi : 0 <= i < 2 ^ 38 - 64).

Let start := i / 64.
Let offset := i mod 64.

Lemma field_split : i = 64 * start + offset /\ 0 <= offset < 64 /\ 0 <= start < 2 ^ 32 - 1.
Proof.
  unfold start, offset. pose proof (Z.div_mod i 64). pose proof (Z.mod_pos_bound i 64).
  assert (0 <= i / 64) by (apply Z.div_pos; lia).
  assert (i / 64 < 2 ^ 32 - 1) by (apply Z.div_lt_upper_bound; lia). lia.
Qed.

(** The low word after a write. *)
Lemma low_word_bit c v q : is_word 64 c -> is_word w v -> 0 <= q < 64 ->
  Z.testbit (Z.lor (Z.land c (not64 (u64 (Z.shiftl (mask w) offset)))) (u64 (Z.shiftl v offset))) q =
  if (offset <=? q) && (q <? offset + w) then Z.testbit v (q - offset) else Z.testbit c q.
Proof.
  intros Hc Hv Hq. destruct field_split as (_ & Ho & _).
  rewrite Z.lor_spec, Z.land_spec, not64_testbit by lia.
  rewrite !wrap_testbit, !Z.shiftl_spec by lia. rewrite (proj2 (Z.ltb_lt q 64)) by lia.
  rewrite !andb_true_l. destruct (Z.leb_spec offset q); simpl.
  - rewrite mask_testbit by lia. destruct (Z.ltb_spec q (offset + w)).
    + rewrite (proj2 (Z.ltb_lt (q - offset) w)) by lia. simpl. by rewrite andb_false_r.
    + rewrite (proj2 (Z.ltb_ge (q - offset) w)) by lia.
      rewrite (is_word_bit_high w v (q - offset)) by (done || lia). simpl.
      by rewrite andb_true_r, orb_false_r.
  - rewrite (Z.testbit_neg_r (mask w)), (Z.testbit_neg_r v) by lia.
    simpl. by rewrite andb_true_r, orb_false_r.
Qed.

(** The high word after a write that straddles. *)
Lemma high_word_bit c v q left : left = offset + w - 64 -> 0 < left -> is_word w v -> 0 <= q < 64 ->
  Z.testbit (Z.lor (Z.land c (u64 (Z.shiftl (mask 64) left))) (Z.shiftr v (w - left))) q =
  if q <? left then Z.testbit v (q + (w - left)) else Z.testbit c q.
Proof.
  intros -> Hl Hv Hq. destruct field_split as (_ & Ho & _).
  rewrite Z.lor_spec, Z.land_spec, wrap_testbit, Z.shiftl_spec, Z.shiftr_spec by lia.
  rewrite (proj2 (Z.ltb_lt q 64)) by lia. simpl. destruct (Z.ltb_spec q (offset + w - 64)).
  - rewrite (Z.testbit_neg_r (mask 64)) by lia. by rewrite andb_false_r.
  - rewrite mask_testbit by lia. rewrite (proj2 (Z.ltb_lt _ 64)) by lia.
    rewrite (is_word_bit_high w v) by (done || lia). by rewrite andb_true_r, orb_false_r.
Qed.

Context (mem : list Z) (Hm : words64 mem) (Hfit : i + w <= 64 * Z.of_nat (length mem)).

(** A field write succeeds, and changes exactly the bits of the field. *)
Lemma set_field_spec value : exists mem', set_field w i value mem = Ok mem' /\
  words64 mem' /\ length mem' = length mem /\
  forall p, 0 <= p < 64 * Z.of_nat (length mem) -> membit mem' p =
    if (i <=? p) && (p <? i + w) then Z.testbit value (p - i) else membit mem p.
Proof.
  destruct field_split as (Hsplit & Ho & Hs). unfold set_field.
  fold start offset. rewrite (wrap_id 32 start) by (unfold is_word; lia).
  rewrite (wrap_id 8 offset) by (unfold is_word; lia).
  set (v := Z.land value (mask w)).
  assert (Hv : is_word w v).
  { unfold v. rewrite mask_mod by lia. apply Z.mod_pos_bound. lia. }
  assert (Hvb : forall j, 0 <= j < w -> Z.testbit v j = Z.testbit value j).
  { intros j Hj. unfold v. bit_rewrite. rewrite (proj2 (Z.ltb_lt j w)) by lia. apply andb_true_r. }
  assert (Hst : 0 <= start < Z.of_nat (length mem)) by lia.
  destruct (rd_in_range mem start Hst) as [c Hc]. rewrite Hc. cbn [mbind res_bind].
  pose proof (words64_rd _ _ _ Hm Hc) as Hcw.
  set (c1 := Z.lor _ _).
  assert (Hc1 : is_word 64 c1).
  { apply lor_is_word; [lia| |by apply wrap_is_word]. apply land_is_word; [lia|apply Hcw|].
    apply not64_word. by apply wrap_is_word. }
  rewrite wr_in_range by done. cbn [mbind res_bind].
  assert (Hw1 := wr_in_range mem start c1 Hst).
  set (mem1 := <[Z.to_nat start := c1]> mem) in *.
  assert (Hm1 : words64 mem1) by (by eapply words64_wr).
  assert (Hl1 : length mem1 = length mem) by apply length_insert.
  assert (Hbit : forall p, 0 <= p -> p = 64 * (p / 64) + p mod 64 /\ 0 <= p mod 64 < 64).
  { intros p Hp. pose proof (Z.div_mod p 64). pose proof (Z.mod_pos_bound p 64). lia. }
  assert (H1 : forall p, 0 <= p -> membit mem1 p =
    if p / 64 =? start then
      if (offset <=? p mod 64) && (p mod 64 <? offset + w)
      then Z.testbit v (p mod 64 - offset) else membit mem p
    else membit mem p).
  { intros p Hp. destruct (Hbit p Hp) as [Hp1 Hp2]. unfold membit.
    destruct (Z.eqb_spec (p / 64) start) as [E|E].
    - rewrite E, (rd_wr_eq _ _ _ _ Hw1), Hc. unfold c1. by rewrite low_word_bit.
    - rewrite (rd_wr_ne _ _ _ _ _ Hw1); [done|congruence]. }
  destruct (Z.ltb_spec 0 (offset + w - 64)) as [Hl|Hl].
  - rewrite (wrap_id 32) by (unfold is_word; lia).
    assert (Hst2 : 0 <= start + 1 < Z.of_nat (length mem1)) by lia.
    destruct (rd_in_range mem1 (start + 1) Hst2) as [d Hd]. rewrite Hd. cbn [mbind res_bind].
    pose proof (words64_rd _ _ _ Hm1 Hd) as Hdw.
    set (d1 := Z.lor _ _).
    assert (Hw2 := wr_in_range mem1 (start + 1) d1 Hst2).
    exists (<[Z.to_nat (start + 1) := d1]> mem1). split; [done|]. split; [|split].
    + eapply words64_wr; [exact Hm1| |exact Hw2]. apply lor_is_word; [lia| |].
      * apply land_is_word; [lia|apply Hdw|by apply wrap_is_word].
      * apply (is_word_mono (w - (w - (offset + w - 64)))); [lia|].
        apply shiftr_is_word; [lia|done].
    + by rewrite length_insert.
    + intros p Hp. destruct (Hbit p) as [Hp1 Hp2]; [lia|].
      unfold membit at 1. destruct (decide (start + 1 = p / 64)) as [E|E].
      * rewrite <-E, (rd_wr_eq _ _ _ _ Hw2). unfold d1. rewrite (high_word_bit d v) by (done || lia).
        destruct (Z.ltb_spec (p mod 64) (offset + w - 64)).
        -- rewrite (proj2 (Z.leb_le i p)), (proj2 (Z.ltb_lt p (i + w))) by lia. simpl.
           rewrite Hvb by lia. f_equal. lia.
        -- rewrite (proj2 (Z.ltb_ge p (i + w))) by lia. rewrite andb_false_r.
           unfold membit. rewrite <-E. rewrite (rd_wr_ne _ _ _ _ _ Hw1) in Hd by lia. by rewrite Hd.
      * rewrite (rd_wr_ne _ _ _ _ _ Hw2 E). fold (membit mem1 p). rewrite H1 by lia.
        bit_cases; simpl; try done; try lia; rewrite Hvb by lia; f_equal; lia.
  - exists mem1. do 3 (split; [done|]). intros p Hp. destruct (Hbit p) as [Hp1 Hp2]; [lia|].
    rewrite H1 by lia. bit_cases; simpl; try done; try lia; rewrite Hvb by lia; f_equal; lia.
Qed.

(** A field read returns the bits of the field. *)
Lemma get_field_spec : exists x, get_field w i mem = Ok x /\ is_word w x /\
  forall j, 0 <= j < w -> Z.testbit x j = membit mem (i + j).
Proof.
  destruct field_split as (Hsplit & Ho & Hs). unfold get_field.
  fold start offset. rewrite (wrap_id 32 start) by (unfold is_word; lia).
  rewrite (wrap_id 8 offset) by (unfold is_word; lia).
  assert (Hst : 0 <= start < Z.of_nat (length mem)) by lia.
  destruct (rd_in_range mem start Hst) as [c Hc]. rewrite Hc. cbn [mbind res_bind].
  pose proof (words64_rd _ _ _ Hm Hc) as Hcw.
  assert (Hpos : forall j, 0 <= j < w ->
    (offset + j < 64 -> (i + j) / 64 = start /\ (i + j) mod 64 = offset + j) /\
    (64 <= offset + j -> (i + j) / 64 = start + 1 /\ (i + j) mod 64 = offset + j - 64)).
  { intros j Hj. split; intros.
    - split; [symmetry; apply (Z.div_unique_pos _ _ _ (offset + j)); lia|].
      symmetry; apply (Z.mod_unique_pos _ _ start); lia.
    - split; [symmetry; apply (Z.div_unique_pos _ _ _ (offset + j - 64)); lia|].
      symmetry; apply (Z.mod_unique_pos _ _ (start + 1)); lia. }
  assert (Hmask : forall n j, 0 <= n <= 64 -> 0 <= j < 64 ->
    Z.testbit (not64 (u64 (Z.shiftl (mask 64) n))) j = (j <? n)).
  { intros n j Hn Hj. rewrite not64_testbit, wrap_testbit, Z.shiftl_spec by lia.
    rewrite (proj2 (Z.ltb_lt j 64)) by lia. simpl.
    destruct (Z.ltb_spec j n); [by rewrite Z.testbit_neg_r by lia|].
    rewrite mask_testbit by lia. by rewrite (proj2 (Z.ltb_lt _ 64)) by lia. }
  assert (Hlow : forall n j, 0 <= n <= 60 -> 0 <= j ->
    Z.testbit (Z.land (Z.shiftr c offset) (not64 (u64 (Z.shiftl (mask 64) n)))) j =
    (j <? n) && Z.testbit c (j + offset)).
  { intros n j Hn Hj. rewrite Z.land_spec, Z.shiftr_spec by lia.
    destruct (decide (j < 64)); [by rewrite Hmask, andb_comm by lia|].
    rewrite (is_word_bit_high 64 c) by (done || lia). by rewrite andb_false_r. }
  assert (Hnn : forall n, 0 <= Z.land (Z.shiftr c offset) (not64 (u64 (Z.shiftl (mask 64) n)))).
  { intros n. apply Z.land_nonneg. left. apply Z.shiftr_nonneg. unfold is_word in Hcw. lia. }
  destruct (Z.ltb_spec (offset + w - 64) 0) as [Hl|Hl]; const_tests; [|
  destruct (Z.ltb_spec 0 (offset + w - 64)) as [Hl2|Hl2]].
  - eexists. split; [reflexivity|]. rewrite Z.sub_0_r. split.
    + apply is_word_testbit; [lia|apply Hnn|]. intros j Hj. rewrite Hlow by lia.
      by rewrite (proj2 (Z.ltb_ge j w)) by lia.
    + intros j Hj. rewrite Hlow, (proj2 (Z.ltb_lt j w)) by lia. simpl. unfold membit.
      destruct (proj1 (Hpos j Hj)) as [-> ->]; [lia|]. rewrite Hc. f_equal. lia.
  - rewrite (wrap_id 32) by (unfold is_word; lia).
    destruct (rd_in_range mem (start + 1)) as [d Hd]; [lia|]. rewrite Hd. cbn [mbind res_bind].
    pose proof (words64_rd _ _ _ Hm Hd) as Hdw.
    eexists. split; [reflexivity|].
    assert (Hhigh : forall j, 0 <= j -> Z.testbit (u64 (Z.shiftl (Z.land d
        (not64 (u64 (Z.shiftl (mask 64) (offset + w - 64))))) (w - (offset + w - 64)))) j =
      (64 - offset <=? j) && (j <? w) && Z.testbit d (j - (64 - offset))).
    { intros j Hj. replace (w - (offset + w - 64)) with (64 - offset) by lia.
      rewrite wrap_testbit, Z.shiftl_spec, Z.land_spec by lia.
      destruct (Z.leb_spec (64 - offset) j) as [Hj1|Hj1]; simpl.
      - destruct (decide (j - (64 - offset) < 64)).
        + rewrite Hmask by lia. bit_cases; simpl; by rewrite ?andb_true_r, ?andb_false_r.
        + rewrite (is_word_bit_high 64 d (j - (64 - offset))) by (done || lia).
          by rewrite !andb_false_r.
      - rewrite (Z.testbit_neg_r d) by lia. simpl. by rewrite andb_false_r. }
    split.
    + apply is_word_testbit; [lia| |].
      * apply Z.lor_nonneg. split; [apply Hnn|]. apply (wrap_is_word 64). lia.
      * intros j Hj. rewrite Z.lor_spec, Hlow, Hhigh by lia.
        rewrite (proj2 (Z.ltb_ge j w)), (proj2 (Z.ltb_ge j _)) by lia.
        simpl. by rewrite andb_false_r.
    + intros j Hj. rewrite Z.lor_spec, Hlow, Hhigh by lia. unfold membit.
      destruct (decide (offset + j < 64)) as [E|E].
      * destruct (proj1 (Hpos j Hj) E) as [-> ->]. rewrite Hc.
        rewrite (proj2 (Z.ltb_lt j _)), (proj2 (Z.leb_gt _ j)) by lia. simpl.
        rewrite orb_false_r. f_equal. lia.
      * destruct (proj2 (Hpos j Hj)) as [-> ->]; [lia|]. rewrite Hd.
        rewrite (proj2 (Z.ltb_ge j _)), (proj2 (Z.leb_le _ j)), (proj2 (Z.ltb_lt j w)) by lia.
        simpl. f_equal. lia.
  - eexists. split; [reflexivity|]. replace (w - (offset + w - 64)) with w by lia. split.
    + apply is_word_testbit; [lia|apply Hnn|]. intros j Hj. rewrite Hlow by lia.
      by rewrite (proj2 (Z.ltb_ge j w)) by lia.
    + intros j Hj. rewrite Hlow, (proj2 (Z.ltb_lt j w)) by lia. simpl. unfold membit.
      destruct (proj1 (Hpos j Hj)) as [-> ->]; [lia|]. rewrite Hc. f_equal. lia.
Qed.
End fields.

(** *** The array as a map from indices to values *)

Lemma get_field_eq w i mem mem' : 0 < w <= 60 -> 0 <= i < 2 ^ 38 - 64 ->
  words64 mem -> words64 mem' -> length mem' = length mem ->
  i + w <= 64 * Z.of_nat (length mem) ->
  (forall p, i <= p < i + w -> membit mem' p = membit mem p) ->
  get_field w i mem' = get_field w i mem.
Proof.
  intros Hw Hi Hm Hm' Hl Hfit Heq.
  destruct (get_field_spec w i Hw Hi mem Hm Hfit) as (x & -> & Hx & Hbx).
  destruct (get_field_spec w i Hw Hi mem' Hm') as (y & -> & Hy & Hby); [by rewrite Hl|].
  f_equal. apply Z.bits_inj'. intros j Hj. destruct (decide (j < w)).
  - rewrite Hby, Hbx by lia. apply Heq. lia.
  - by rewrite (is_word_bit_high w y), (is_word_bit_high w x) by (done || lia).
Qed.

Lemma get_set_field w i mem mem' v : 0 < w <= 60 -> 0 <= i < 2 ^ 38 - 64 ->
  words64 mem -> i + w <= 64 * Z.of_nat (length mem) ->
  set_field w i v mem = Ok mem' -> get_field w i mem' = Ok (v mod 2 ^ w).
Proof.
  intros Hw Hi Hm Hfit Hset.
  destruct (set_field_spec w i Hw Hi mem Hm Hfit v) as (mem1 & E & Hm1 & Hl1 & Hb).
  assert (mem1 = mem') as -> by congruence.
  destruct (get_field_spec w i Hw Hi mem' Hm1) as (y & -> & Hy & Hby); [by rewrite Hl1|].
  f_equal. apply Z.bits_inj'. intros j Hj. fold (wrap w v). rewrite wrap_testbit by lia.
  destruct (Z.ltb_spec j w); simpl.
  - rewrite Hby, Hb by lia. rewrite (proj2 (Z.leb_le _ _)), (proj2 (Z.ltb_lt _ _)) by lia.
    simpl. f_equal. lia.
  - by rewrite (is_word_bit_high w y) by (done || lia).
Qed.

Lemma get_other_field w i w' j mem mem' v : 0 < w <= 60 -> 0 <= i < 2 ^ 38 - 64 ->
  0 < w' <= 60 -> 0 <= j < 2 ^ 38 - 64 -> words64 mem ->
  i + w <= 64 * Z.of_nat (length mem) -> j + w' <= 64 * Z.of_nat (length mem) ->
  (j + w' <= i \/ i + w <= j) ->
  set_field w i v mem = Ok mem' -> get_field w' j mem' = get_field w' j mem.
Proof.
  intros Hw Hi Hw' Hj Hm Hfit Hfit' Hdis Hset.
  destruct (set_field_spec w i Hw Hi mem Hm Hfit v) as (mem1 & E & Hm1 & Hl1 & Hb).
  assert (mem1 = mem') as -> by congruence.
  apply get_field_eq; [done..|]. intros p Hp. rewrite Hb by lia.
  bit_cases; simpl; done.
Qed.

(** A cell index that fits the array. *)
Definition in_array (L DL : Z) (mem : list Z) (index : Z) : Prop :=
  0 <= index < 2 ^ 32 /\ (index + 1) * (L + DL) <= 64 * Z.of_nat (length mem).

Lemma cell_position L DL mem index : 0 <= L -> 0 <= DL -> L + DL <= 60 -> in_array L DL mem index ->
  0 <= index * (L + DL) /\ index * (L + DL) + (L + DL) < 2 ^ 38 - 64 /\
  index * (L + DL) + (L + DL) <= 64 * Z.of_nat (length mem).
Proof. unfold in_array. nia. Qed.

(** Different cells do not overlap. *)
Lemma cells_disjoint w a b : 0 < w -> a <> b -> b * w + w <= a * w \/ a * w + w <= b * w.
Proof. intros. destruct (Z.lt_ge_cases a b); nia. Qed.

(** C38: The packed array of OthelloCommon is an array.  For every value
    width of 1 to 60 bits, writing a cell with [memSet] succeeds; reading it
    back gives the value truncated to the width; every other cell reads as
    before, also where cells straddle two words; and a [memValueSet] leaves
    the digest bits of its own cell and every other cell as they were. *)
Theorem packed_array_correct L DL a v mem : 0 < L -> 0 <= DL -> L + DL <= 60 ->
  words64 mem -> in_array L DL mem a ->
  (exists mem', memSet L DL a v mem = Ok mem' /\
     memGet L DL a mem' = Ok (v mod 2 ^ (L + DL)) /\
     forall b, b <> a -> in_array L DL mem b -> memGet L DL b mem' = memGet L DL b mem) /\
  (exists mem', memValueSet L DL a v mem = Ok mem' /\
     memValueGet L DL a mem' = Ok (v mod 2 ^ L) /\
     (0 < DL -> get_field DL (a * (L + DL)) mem' = get_field DL (a * (L + DL)) mem) /\
     forall b, b <> a -> in_array L DL mem b -> memGet L DL b mem' = memGet L DL b mem).
Proof.
  intros HL HDL Hw Hm Ha.
  destruct (cell_position L DL mem a) as (H1 & H2 & H3); [lia..|done|].
  unfold memSet, memGet, memValueSet, memValueGet.
  destruct (Z.eqb_spec (L + DL) 0); [lia|]. destruct (Z.eqb_spec L 0); [lia|]. split.
  - destruct (set_field_spec (L + DL) (a * (L + DL)) ltac:(lia) ltac:(lia) mem Hm ltac:(lia) v)
      as (mem' & E & _). exists mem'. split; [done|]. split.
    + eapply get_set_field; [..|exact E]; lia || done.
    + intros b Hb Hin. destruct (cell_position L DL mem b) as (?&?&?); [lia..|done|].
      eapply get_other_field; [..|exact E]; try lia; try done.
      destruct (cells_disjoint (L + DL) a b); lia.
  - destruct (set_field_spec L (a * (L + DL) + DL) ltac:(lia) ltac:(lia) mem Hm ltac:(lia) v)
      as (mem' & E & _). exists mem'. split; [done|]. split; [|split].
    + eapply get_set_field; [..|exact E]; lia || done.
    + intros HD. eapply get_other_field; [..|exact E]; lia || done.
    + intros b Hb Hin. destruct (cell_position L DL mem b) as (?&?&?); [lia..|done|].
      eapply get_other_field; [..|exact E]; try lia; try done.
      destruct (cells_disjoint (L + DL) a b); lia.
Qed.

Lemma packed_array_correct_witness :
  (exists mem', memSet 5 2 9 77 [0; 0; 0] = Ok mem' /\ memGet 5 2 9 mem' = Ok (77 mod 2 ^ 7) /\
     forall b, b <> 9 -> in_array 5 2 [0; 0; 0] b -> memGet 5 2 b mem' = memGet 5 2 b [0; 0; 0]) /\
  (exists mem', memValueSet 5 2 9 77 [0; 0; 0] = Ok mem' /\
     memValueGet 5 2 9 mem' = Ok (77 mod 2 ^ 5) /\
     (0 < 2 -> get_field 2 (9 * 7) mem' = get_field 2 (9 * 7) [0; 0; 0]) /\
     forall b, b <> 9 -> in_array 5 2 [0; 0; 0] b -> memGet 5 2 b mem' = memGet 5 2 b [0; 0; 0]).
Proof.
  apply (packed_array_correct 5 2 9 77 [0; 0; 0]); try lia.
  - repeat constructor; unfold is_word; lia.
  - unfold in_array. simpl. lia.
Defined.

(** ** farmhash for an 8-byte key

    [util::Hash64WithSeed] is [DebugTweak(farmhashna::Hash64WithSeed(s, 8, seed))];
    the build files do not define NDEBUG, so [debug_mode] is on. *)

Definition farm_k1 : Z := 0xb492b66fbe98f273.
Definition farm_k2 : Z := 0x9ae16a3b2f90404f.

Definition BasicRotate64 (val shift : Z) : Z :=
  if shift =? 0 then val
  else Z.lor (Z.shiftr val shift) (u64 (Z.shiftl val (64 - shift))).

(** [HashLen16(u, v, mul)]; [Hash128to64] is the instance with [kMul]. *)
Definition HashLen16 (u v mul : Z) : Z :=
  let a := u64 (Z.lxor u v * mul) in
  let a := Z.lxor a (Z.shiftr a 47) in
  let b := u64 (Z.lxor v a * mul) in
  let b := Z.lxor b (Z.shiftr b 47) in
  u64 (b * mul).

Definition kMul : Z := 0x9ddfea08eb382d69.
Definition Hash128to64 (lo hi : Z) : Z := HashLen16 lo hi kMul.

(** [HashLen0to16(s, 8)]: both fetches read the key. *)
Definition HashLen8 (key : Z) : Z :=
  let mul := u64 (farm_k2 + 8 * 2) in
  let a := u64 (key + farm_k2) in
  let b := key in
  let c := u64 (BasicRotate64 b 37 * mul + a) in
  let d := u64 ((BasicRotate64 a 25 + b) * mul) in
  HashLen16 c d mul.

Definition Bswap64 (x : Z) : Z :=
  fold_left (fun acc i => Z.lor acc (Z.shiftl (u8 (Z.shiftr x (8 * i))) (56 - 8 * i)))
    [0; 1; 2; 3; 4; 5; 6; 7] 0.

Definition debug_mode : bool := true.

Definition DebugTweak (x : Z) : Z :=
  if debug_mode then not64 (Bswap64 (u64 (x * farm_k1))) else x.

Definition Hash64WithSeed (key seed : Z) : Z :=
  DebugTweak (Hash128to64 (u64 (HashLen8 key - farm_k2)) seed).

(** ** The Othello data plane

    The program's only instance has one value bit and no digest bits:
    [DataPlaneOthello<K, uint8_t, 1>]. *)

Record DataPlaneOthello := MkDPO {
  o_mem : list Z;      (* mem *)
  ma : Z;
  mb : Z;
  hab : Z;             (* the seed of hab *)
  o_lock : list Z;     (* lock, 8192 version bytes *)
}.

Definition multiply_high_u32 (x y : Z) : Z := u32 (Z.shiftr (u64 (x * y)) 32).

(** [getIndices]: the index into A and, offset by [ma], into B. *)
Definition getIndices (o : DataPlaneOthello) (k : Z) : Z * Z :=
  let hash := Hash64WithSeed k (hab o) in
  let bInd := u32 (multiply_high_u32 (u32 (Z.shiftr hash 32)) (mb o) + ma o) in
  let aInd := multiply_high_u32 (u32 hash) (ma o) in
  (aInd, bInd).

(** One round of the loop of [lookUp].  Its six reads happen at different
    moments: [r i] is the structure as the [i]-th read finds it; [None]:
    another round. *)
Definition lookUp_round (r : nat -> DataPlaneOthello) (ha hb : Z) : res (option Z) :=
  va1 ← rd (o_lock (r 0%nat)) (Z.land ha 8191);
  vb1 ← rd (o_lock (r 1%nat)) (Z.land hb 8191);
  if (va1 mod 2 =? 1) || (vb1 mod 2 =? 1) then Ok None
  else
    aa ← memGet 1 0 ha (o_mem (r 2%nat));
    bb ← memGet 1 0 hb (o_mem (r 3%nat));
    va2 ← rd (o_lock (r 4%nat)) (Z.land ha 8191);
    vb2 ← rd (o_lock (r 5%nat)) (Z.land hb 8191);
    if negb (va1 =? va2) || negb (vb1 =? vb2) then Ok None
    else Ok (Some (u8 (Z.shiftr (Z.lxor aa bb) 0))).

(** [lookUp] with no concurrent writer: one round, or it spins. *)
Definition othello_lookUp (o : DataPlaneOthello) (k : Z) : res (option Z) :=
  let '(ha, hb) := getIndices o k in lookUp_round (fun _ => o) ha hb.

(** The data plane's [memSet]: the version byte is odd while the cell is
    written.  The three states a reader can see in between. *)
Definition bump_lock (o : DataPlaneOthello) (index : Z) : res DataPlaneOthello :=
  v ← rd (o_lock o) (Z.land index 8191);
  l ← wr (o_lock o) (Z.land index 8191) (u8 (v + 1));
  Ok (MkDPO (o_mem o) (ma o) (mb o) (hab o) l).

Definition dp_memSet (o : DataPlaneOthello) (index value : Z) : res DataPlaneOthello :=
  o1 ← bump_lock o index;
  m ← memSet 1 0 index value (o_mem o1);
  bump_lock (MkDPO m (ma o1) (mb o1) (hab o1) (o_lock o1)) index.

Definition dp_memValueSet (o : DataPlaneOthello) (index value : Z) : res DataPlaneOthello :=
  o1 ← bump_lock o index;
  m ← memValueSet 1 0 index value (o_mem o1);
  bump_lock (MkDPO m (ma o1) (mb o1) (hab o1) (o_lock o1)) index.

(** [fillSingle<keepDigest>]; [setTaken] and [setEmpty] do nothing without a
    digest. *)
Definition dp_fillSingle (keepDigest : bool) (o : DataPlaneOthello) (valueToFill nodeToFill : Z)
    : res DataPlaneOthello :=
  if keepDigest then dp_memValueSet o nodeToFill valueToFill else dp_memSet o nodeToFill valueToFill.

(** [fixSingle<false>] *)
Definition dp_fixSingle (o : DataPlaneOthello) (node x : Z) : res DataPlaneOthello :=
  v ← memGet 1 0 node (o_mem o); dp_memSet o node (Z.lxor x v).

(** [fixSingle<true>] *)
Definition dp_fixSingle_value (o : DataPlaneOthello) (node x : Z) : res DataPlaneOthello :=
  v ← memValueGet 1 0 node (o_mem o); dp_memValueSet o node (Z.lxor x v).

(** The cells that an update of the control plane reports. *)
Definition fixHalfTreeByConnectedComponent (o : DataPlaneOthello) (indices : list Z) (xorTemplate : Z)
    : res DataPlaneOthello :=
  foldM (fun o index => dp_fixSingle_value o index xorTemplate) indices o.

(** *** Laws *)

Definition wf_othello (o : DataPlaneOthello) : Prop :=
  words64 (o_mem o) /\ length (o_lock o) = Z.to_nat 8192 /\ 0 < ma o /\ 0 < mb o /\
  ma o + mb o < 2 ^ 32 /\ ma o + mb o <= 64 * Z.of_nat (length (o_mem o)).

Lemma multiply_high_range x y : is_word 32 x -> 0 < y < 2 ^ 32 ->
  0 <= multiply_high_u32 x y < y.
Proof.
  intros Hx Hy. unfold is_word in Hx. unfold multiply_high_u32.
  assert (0 <= x * y < 2 ^ 64) by nia.
  rewrite (wrap_id 64) by done. rewrite Z.shiftr_div_pow2 by lia.
  assert (0 <= x * y / 2 ^ 32) by (apply Z.div_pos; lia).
  assert (x * y / 2 ^ 32 < y) by (apply Z.div_lt_upper_bound; nia).
  rewrite wrap_id; unfold is_word; lia.
Qed.

(** The two indices of a key are cells of A and of B. *)
Lemma getIndices_range o k : wf_othello o ->
  0 <= fst (getIndices o k) < ma o /\ ma o <= snd (getIndices o k) < ma o + mb o.
Proof.
  intros (_ & _ & Ha & Hb & Hab & _). unfold getIndices. simpl.
  pose proof (multiply_high_range (u32 (Hash64WithSeed k (hab o))) (ma o)
    ltac:(by apply wrap_is_word) ltac:(lia)).
  pose proof (multiply_high_range (u32 (Z.shiftr (Hash64WithSeed k (hab o)) 32)) (mb o)
    ltac:(by apply wrap_is_word) ltac:(lia)).
  rewrite (wrap_id 32 (_ + ma o)); [lia|]. unfold is_word. lia.
Qed.

Lemma land_8191 x : 0 <= Z.land x 8191 < 8192.
Proof. change 8191 with (Z.ones 13). rewrite Z.land_ones by lia. by apply Z.mod_pos_bound. Qed.

Lemma memGet_1_range o index : wf_othello o -> 0 <= index < ma o + mb o ->
  exists x, memGet 1 0 index (o_mem o) = Ok x /\ 0 <= x < 2.
Proof.
  intros (Hm & _ & Ha & Hb & Hab & Hfit) Hi. unfold memGet. const_arith. const_tests.
  destruct (get_field_spec 1 (index * 1) ltac:(lia) ltac:(lia) (o_mem o) Hm ltac:(lia))
    as (x & -> & Hx & _). exists x. by split.
Qed.

(** A lookup without a writer returns a bit, or spins on an odd version. *)
Lemma othello_lookUp_total o k : wf_othello o ->
  exists r, othello_lookUp o k = Ok r /\
    match r with
    | Some v => 0 <= v < 2
    | None => exists i x, rd (o_lock o) i = Ok x /\ x mod 2 = 1
    end.
Proof.
  intros Hwf. pose proof (getIndices_range o k Hwf) as [Ha Hb].
  pose proof Hwf as (_ & Hl & Hpa & Hpb & _).
  unfold othello_lookUp. destruct (getIndices o k) as [ha hb]. simpl in *.
  unfold lookUp_round.
  destruct (rd_in_range (o_lock o) (Z.land ha 8191)) as [va Hva]; [pose proof (land_8191 ha); lia|].
  destruct (rd_in_range (o_lock o) (Z.land hb 8191)) as [vb Hvb]; [pose proof (land_8191 hb); lia|].
  rewrite Hva. cbn [mbind res_bind]. rewrite Hvb. cbn [mbind res_bind].
  destruct (Z.eqb_spec (va mod 2) 1); simpl; [exists None; eauto|].
  destruct (Z.eqb_spec (vb mod 2) 1); simpl; [exists None; eauto|].
  destruct (memGet_1_range o ha Hwf) as (x & -> & Hx); [lia|].
  destruct (memGet_1_range o hb Hwf) as (y & -> & Hy); [lia|]. cbn [mbind res_bind].
  rewrite !Z.eqb_refl. simpl.
  eexists. split; [reflexivity|]. rewrite Z.shiftr_0_r.
  assert (is_word 1 (Z.lxor x y)) as H by (apply lxor_is_word; [lia|done..]).
  rewrite wrap_id; [done|]. unfold is_word in *. lia.
Qed.

(** ** Lookups that run concurrently with the writer

    The single writer executes [dp_memSet] one shared access at a time; a
    configuration is the shared structure and the index being written. *)

Definition config : Type := DataPlaneOthello * option Z.

Definition set_cell (o : DataPlaneOthello) (m : list Z) : DataPlaneOthello :=
  MkDPO m (ma o) (mb o) (hab o) (o_lock o).

Inductive writer_step : config -> config -> Prop :=
  | WriterBegin o o' i : 0 <= i < ma o + mb o -> bump_lock o i = Ok o' ->
      writer_step (o, None) (o', Some i)
  | WriterStore o m i v : memSet 1 0 i v (o_mem o) = Ok m ->
      writer_step (o, Some i) (set_cell o m, Some i)
  | WriterEnd o o' i : bump_lock o i = Ok o' -> writer_step (o, Some i) (o', None).

(** [n] steps of the writer. *)
Inductive writer_steps : nat -> config -> config -> Prop :=
  | WriterDone c : writer_steps 0 c c
  | WriterMore n c1 c2 c3 : writer_steps n c1 c2 -> writer_step c2 c3 ->
      writer_steps (S n) c1 c3.

(** Exactly the version byte of the cell being written is odd. *)
Definition versions_ok (c : config) : Prop :=
  wf_othello (fst c) /\
  (forall i, snd c = Some i -> 0 <= i < ma (fst c) + mb (fst c)) /\
  forall j x, rd (o_lock (fst c)) j = Ok x ->
    0 <= x < 256 /\ (x mod 2 = 1 <-> exists i, snd c = Some i /\ Z.land i 8191 = j).

Lemma bump_lock_inv o i o' : bump_lock o i = Ok o' -> exists v,
  rd (o_lock o) (Z.land i 8191) = Ok v /\ o_mem o' = o_mem o /\ ma o' = ma o /\ mb o' = mb o /\
  rd (o_lock o') (Z.land i 8191) = Ok (u8 (v + 1)) /\ length (o_lock o') = length (o_lock o) /\
  forall j, j <> Z.land i 8191 -> rd (o_lock o') j = rd (o_lock o) j.
Proof.
  unfold bump_lock. intros H. apply bind_Ok in H as (v & Hv & H).
  apply bind_Ok in H as (l & Hl & H). apply Ok_inj in H as <-. simpl. exists v.
  repeat split; try done; [by eapply rd_wr_eq|by eapply wr_length|].
  intros j Hj. eapply rd_wr_ne; [exact Hl|congruence].
Qed.

Lemma u8_succ x : 0 <= x < 256 -> 0 <= u8 (x + 1) < 256 /\ (u8 (x + 1)) mod 2 = (x + 1) mod 2.
Proof.
  intros Hx. unfold wrap. change (2 ^ 8) with 256.
  pose proof (Z.mod_pos_bound (x + 1) 256). split; [lia|].
  Z.to_euclidean_division_equations. lia.
Qed.

Lemma memSet_1_frame o i v m : wf_othello o -> 0 <= i < ma o + mb o ->
  memSet 1 0 i v (o_mem o) = Ok m ->
  wf_othello (set_cell o m) /\
  forall a, 0 <= a < ma o + mb o -> a <> i -> memGet 1 0 a m = memGet 1 0 a (o_mem o).
Proof.
  intros (Hm & Hl & Hpa & Hpb & Hab & Hfit) Hi E.
  unfold memSet in E. const_arith. const_tests_in E. cbn [Z.add] in E.
  change (1 + 0) with 1 in E. const_tests_in E.
  destruct (set_field_spec 1 (i * 1) ltac:(lia) ltac:(lia) (o_mem o) Hm ltac:(lia) v)
    as (m' & E' & Hm' & Hlen & _).
  assert (m' = m) as -> by congruence. split.
  - by repeat split; simpl; rewrite ?Hlen.
  - intros a Ha Hne. unfold memGet. const_arith. const_tests.
    eapply get_other_field; [..|exact E]; try lia; done.
Qed.

Lemma writer_step_ok c c' : versions_ok c -> writer_step c c' -> versions_ok c'.
Proof.
  intros (Hwf & Hrange & Hv) Hst. destruct Hst as [o o' i Hi Hb|o m i v Hs|o o' i Hb]; simpl in *.
  - destruct (bump_lock_inv o i o' Hb) as (x & Hx & Em & Ea & Eb & Hx' & Hl & Hoth).
    split; [|split].
    + unfold wf_othello in *. simpl. by rewrite Em, Ea, Eb, Hl.
    + intros i' [= <-]. simpl. lia.
    + simpl. intros j y Hy. destruct (decide (j = Z.land i 8191)) as [->|Hj].
      * destruct (Hv _ _ Hx) as [Hr Hp]. assert (y = u8 (x + 1)) as -> by congruence.
        destruct (u8_succ x Hr) as [? E]. split; [done|]. rewrite E.
        split; [eauto|]. intros _. assert (x mod 2 <> 1) by (intros ?; destruct Hp as [Hp _]; destruct Hp as (?&?&?); done).
        Z.to_euclidean_division_equations. lia.
      * rewrite Hoth in Hy by done. destruct (Hv _ _ Hy) as [Hr Hp]. split; [done|].
        rewrite Hp. split; [intros (?&?&?); done|]. intros (i' & [= <-] & ?). congruence.
  - destruct (memSet_1_frame o i v m Hwf (Hrange i eq_refl) Hs) as [Hwf' _].
    split; [done|]. split; [done|]. simpl. done.
  - destruct (bump_lock_inv o i o' Hb) as (x & Hx & Em & Ea & Eb & Hx' & Hl & Hoth).
    split; [|split].
    + unfold wf_othello in *. simpl. by rewrite Em, Ea, Eb, Hl.
    + done.
    + simpl. intros j y Hy. destruct (decide (j = Z.land i 8191)) as [->|Hj].
      * destruct (Hv _ _ Hx) as [Hr Hp]. assert (y = u8 (x + 1)) as -> by congruence.
        destruct (u8_succ x Hr) as [? E]. split; [done|]. rewrite E.
        assert (x mod 2 = 1) by (apply Hp; eauto).
        split; [|intros (?&?&?); done]. intros. exfalso.
        Z.to_euclidean_division_equations. lia.
      * rewrite Hoth in Hy by done. destruct (Hv _ _ Hy) as [Hr Hp]. split; [done|].
        rewrite Hp. split; [intros (i' & [= <-] & ?); congruence|]. intros (?&?&?); done.
Qed.

(** A version byte counts the steps that touch it, modulo 256; while it
    stays even and uncounted, the cells it guards do not change. *)
Lemma writer_steps_version n c c' a x : writer_steps n c c' -> versions_ok c ->
  0 <= a < ma (fst c) + mb (fst c) -> rd (o_lock (fst c)) (Z.land a 8191) = Ok x ->
  versions_ok c' /\ ma (fst c') = ma (fst c) /\ mb (fst c') = mb (fst c) /\
  exists b, 0 <= b <= Z.of_nat n /\
    rd (o_lock (fst c')) (Z.land a 8191) = Ok ((x + b) mod 256) /\
    (b = 0 -> x mod 2 = 0 -> memGet 1 0 a (o_mem (fst c')) = memGet 1 0 a (o_mem (fst c))).
Proof.
  intros Hst Hok Ha Hx. induction Hst as [c|n c1 c2 c3 Hst IH Hs].
  { split; [done|]. split; [done|]. split; [done|]. exists 0.
    destruct Hok as (_ & _ & Hv). destruct (Hv _ _ Hx). rewrite Z.add_0_r, Z.mod_small by lia.
    split; [lia|]. done. }
  destruct (IH Hok Ha Hx) as (Hok2 & Ema & Emb & b & Hb & Hx2 & Hmem).
  pose proof (writer_step_ok c2 c3 Hok2 Hs) as Hok3. split; [done|].
  assert (Hbump : forall o o' i, fst c2 = o -> fst c3 = o' -> bump_lock o i = Ok o' ->
    ma (fst c3) = ma (fst c1) /\ mb (fst c3) = mb (fst c1) /\
    exists b, 0 <= b <= Z.of_nat (S n) /\
      rd (o_lock (fst c3)) (Z.land a 8191) = Ok ((x + b) mod 256) /\
      (b = 0 -> x mod 2 = 0 -> memGet 1 0 a (o_mem (fst c3)) = memGet 1 0 a (o_mem (fst c1)))).
  { intros o o' i <- <- Hbl. destruct (bump_lock_inv _ _ _ Hbl) as (y & Hy & Em & Ea & Eb & Hy' & _ & Hoth).
    split; [congruence|]. split; [congruence|].
    destruct (decide (Z.land a 8191 = Z.land i 8191)) as [E|E].
    - exists (b + 1). split; [lia|]. split; [|lia]. rewrite E, Hy'. f_equal.
      rewrite <-E in Hy. assert (y = (x + b) mod 256) as -> by congruence.
      unfold wrap. change (2 ^ 8) with 256. rewrite Zplus_mod_idemp_l. f_equal. lia.
    - exists b. split; [lia|]. rewrite Hoth, Em by done. done. }
  inversion Hs; subst; simpl in *; [by eapply Hbump| |by eapply Hbump].
  split; [done|]. split; [done|]. exists b. split; [lia|]. split; [done|]. intros Hb0 He.
  destruct Hok2 as (Hwf2 & Hrange2 & Hv2). simpl in *.
  destruct (memSet_1_frame o i v m Hwf2 (Hrange2 i eq_refl) H) as [_ Hfr].
  rewrite Hfr; [by apply Hmem|lia|]. intros ->. subst b. rewrite Z.add_0_r in Hx2.
  destruct Hok as (_ & _ & Hv1). destruct (Hv1 _ _ Hx) as [Hr1 _].
  rewrite Z.mod_small in Hx2 by lia. destruct (Hv2 _ _ Hx2) as [_ Hodd].
  assert (x mod 2 = 1) by (apply Hodd; eauto). lia.
Qed.

Lemma writer_steps_trans n1 n2 c1 c2 c3 :
  writer_steps n1 c1 c2 -> writer_steps n2 c2 c3 -> writer_steps (n1 + n2) c1 c3.
Proof.
  intros H1 H2. induction H2 as [|n2 c2 c2' c3 H2 IH Hs]; [by rewrite Nat.add_0_r|].
  rewrite Nat.add_succ_r. by econstructor; [apply IH|].
Qed.

Lemma writer_steps_chain (c : nat -> config) (n : nat -> nat) i k :
  (forall j, (j < i + k)%nat -> writer_steps (n j) (c j) (c (S j))) ->
  writer_steps (sum_list (n <$> seq i k)) (c i) (c (i + k)%nat).
Proof.
  induction k as [|k IH]; intros H.
  - rewrite Nat.add_0_r. constructor.
  - rewrite seq_S, fmap_app, sum_list_with_app, Nat.add_succ_r.
    eapply writer_steps_trans; [apply IH; intros; apply H; lia|].
    replace (sum_list (n <$> [(i + k)%nat])) with (n (i + k)%nat) by (simpl; lia).
    apply H. lia.
Qed.

(** A cell read between two reads of its version that agree on an even
    number, with fewer than 256 steps in between, did not change. *)
Lemma guarded_cell n1 n2 c1 c2 c3 a x :
  versions_ok c1 -> writer_steps n1 c1 c2 -> writer_steps n2 c2 c3 -> (n1 + n2 < 256)%nat ->
  0 <= a < ma (fst c1) + mb (fst c1) ->
  rd (o_lock (fst c1)) (Z.land a 8191) = Ok x -> x mod 2 <> 1 ->
  rd (o_lock (fst c3)) (Z.land a 8191) = Ok x ->
  memGet 1 0 a (o_mem (fst c2)) = memGet 1 0 a (o_mem (fst c1)).
Proof.
  intros Hok Hw1 Hw2 Hn Ha Hx Hx1 Hx3.
  destruct Hok as (Hwf & Hr & Hv) eqn:Hokeq. clear Hokeq.
  destruct (Hv _ _ Hx) as [Hxr _].
  assert (Hok1 : versions_ok c1) by (by split).
  destruct (writer_steps_version _ _ _ a x Hw1 Hok1 Ha Hx)
    as (Hok2 & Ema & Emb & b1 & Hb1 & Hx2 & Hm2).
  destruct (writer_steps_version _ _ _ a ((x + b1) mod 256) Hw2 Hok2)
    as (_ & _ & _ & b2 & Hb2 & Hx3' & _); [lia|exact Hx2|].
  assert (x = ((x + b1) mod 256 + b2) mod 256) as E by congruence.
  rewrite Zplus_mod_idemp_l in E.
  assert (b1 = 0) as -> by (Z.to_euclidean_division_equations; lia).
  apply Hm2; [done|]. pose proof (Z.mod_pos_bound x 2). lia.
Qed.

(** C16: The version bytes make lookups atomic.  A lookup makes its six reads
    in the states [c 0] to [c 5], between which the writer makes fewer than 256
    steps altogether.  If the round returns a value, it is the value both cells
    had together in the state [c 1] in which the versions were first known: no
    half-written update is observed. *)
Theorem lookup_linearizable (c : nat -> config) (n : nat -> nat) ha hb v :
  versions_ok (c 0%nat) ->
  (forall i, (i < 5)%nat -> writer_steps (n i) (c i) (c (S i))) ->
  (sum_list (n <$> seq 0 5) < 256)%nat ->
  0 <= ha < ma (fst (c 0%nat)) + mb (fst (c 0%nat)) ->
  0 <= hb < ma (fst (c 0%nat)) + mb (fst (c 0%nat)) ->
  lookUp_round (fun i => fst (c i)) ha hb = Ok (Some v) ->
  exists a b, memGet 1 0 ha (o_mem (fst (c 1%nat))) = Ok a /\
    memGet 1 0 hb (o_mem (fst (c 1%nat))) = Ok b /\ v = u8 (Z.lxor a b).
Proof.
  intros Hok Hw Hn Hha Hhb H. unfold lookUp_round in H.
  apply bind_Ok in H as (va1 & Hva1 & H). apply bind_Ok in H as (vb1 & Hvb1 & H).
  destruct (Z.eqb_spec (va1 mod 2) 1) as [|Ea]; [discriminate|].
  destruct (Z.eqb_spec (vb1 mod 2) 1) as [|Eb]; [discriminate|]. simpl in H.
  apply bind_Ok in H as (aa & Haa & H). apply bind_Ok in H as (bb & Hbb & H).
  apply bind_Ok in H as (va2 & Hva2 & H). apply bind_Ok in H as (vb2 & Hvb2 & H).
  destruct (Z.eqb_spec va1 va2) as [<-|]; [|discriminate].
  destruct (Z.eqb_spec vb1 vb2) as [<-|]; [|discriminate]. simpl in H.
  apply Ok_inj in H. injection H as <-. cbn [seq fmap list_fmap sum_list_with id] in Hn.
  pose proof (fun i k Hik => writer_steps_chain c n i k
    (fun j Hj => Hw j (Nat.lt_le_trans _ _ _ Hj Hik))) as Hc.
  assert (versions_ok (c 1%nat) /\ ma (fst (c 1%nat)) = ma (fst (c 0%nat)) /\
    mb (fst (c 1%nat)) = mb (fst (c 0%nat))) as (Hok1 & Ema & Emb).
  { destruct (writer_steps_version _ _ _ ha va1 (Hw 0%nat ltac:(lia)) Hok Hha Hva1)
      as (? & ? & ? & _). done. }
  assert (Ha1 : memGet 1 0 ha (o_mem (fst (c 1%nat))) = memGet 1 0 ha (o_mem (fst (c 0%nat)))).
  { apply (guarded_cell _ _ _ (c 1%nat) _ ha va1 Hok (Hc 0%nat 1%nat ltac:(lia))
      (Hc 1%nat 3%nat ltac:(lia))); [simpl; lia|done..]. }
  assert (Ha2 : memGet 1 0 ha (o_mem (fst (c 2%nat))) = memGet 1 0 ha (o_mem (fst (c 0%nat)))).
  { apply (guarded_cell _ _ _ (c 2%nat) _ ha va1 Hok (Hc 0%nat 2%nat ltac:(lia))
      (Hc 2%nat 2%nat ltac:(lia))); [simpl; lia|done..]. }
  assert (Hb3 : memGet 1 0 hb (o_mem (fst (c 3%nat))) = memGet 1 0 hb (o_mem (fst (c 1%nat)))).
  { apply (guarded_cell _ _ _ (c 3%nat) _ hb vb1 Hok1 (Hc 1%nat 2%nat ltac:(lia))
      (Hc 3%nat 2%nat ltac:(lia))); [simpl; lia|lia|done..]. }
  exists aa, bb. rewrite Ha1, <-Ha2, <-Hb3, Z.shiftr_0_r. done.
Qed.

(** A lookup of which the first four reads run before the writer locks cell 2
    and the last two while it writes that cell. *)
Definition demo_othello : DataPlaneOthello :=
  MkDPO [5] 2 2 7 (replicate (Z.to_nat 8192) 0).

Definition demo_locked : DataPlaneOthello :=
  MkDPO [5] 2 2 7 (<[2%nat := 1]> (replicate (Z.to_nat 8192) 0)).

Lemma demo_versions_ok : versions_ok (demo_othello, None).
Proof.
  split; [|split; [done|]].
  - unfold wf_othello, demo_othello. cbn [o_mem o_lock ma mb].
    split; [repeat constructor; unfold is_word; lia|].
    split; [apply length_replicate|]. simpl. lia.
  - intros j x [Hj Hx]%rd_Ok. unfold demo_othello in Hx. cbn [fst o_lock] in Hx.
    apply lookup_replicate in Hx as [-> _]. split; [lia|].
    split; [discriminate|]. intros (i & Hi & _). discriminate.
Qed.

Lemma lookup_linearizable_witness :
  let c i := if (i <? 4)%nat then (demo_othello, None) else (demo_locked, Some 2) in
  exists a b, memGet 1 0 0 (o_mem (fst (c 1%nat))) = Ok a /\
    memGet 1 0 3 (o_mem (fst (c 1%nat))) = Ok b /\ 1 = u8 (Z.lxor a b).
Proof.
  intros c.
  apply (lookup_linearizable c (fun i => if (i =? 3)%nat then 1%nat else 0%nat) 0 3 1).
  - exact demo_versions_ok.
  - intros i Hi. destruct i as [|[|[|[|[|i]]]]]; try lia; cbn; try constructor.
    econstructor; [constructor|]. apply WriterBegin; [simpl; lia|]. vm_compute. reflexivity.
  - cbn. lia.
  - simpl. lia.
  - simpl. lia.
  - vm_compute. reflexivity.
Defined.
