(* ===== verification/Forest.v ===== *)
(** * Forests and their depth-first traversal

    The graph of an Othello: nodes are cells of its arrays, and every key is an
    edge between one cell of A and one of B.  Walks that never go back along
    the edge they came by; acyclic graphs as those without closed walks; and
    the traversal with an explicit stack that five functions of
    deps/ludo/tables/othello_cp_dp.h share: on an acyclic graph it ends,
    reaches every node of the component once, and parents first. *)

From Stdlib Require Import ZArith Lia.
From stdpp Require Import base numbers list relations.
From S2P Require Import Prelude.

#[local] Open Scope Z_scope.

(** ** The traversal

    [stack] holds (previous key, node), top first; [visit k v u] is the body of
    the inner loop for the cell [(k, v)] of node [u]'s list. *)
Fixpoint dfs {A} (adj : Z -> res (list (Z * Z))) (visit : Z -> Z -> Z -> A -> res A)
    (fuel : nat) (stack : list (Z * Z)) (st : A) : res A :=
  match stack with
  | [] => Ok st
  | (prev, nid) :: stack =>
      match fuel with
      | O => Err OutOfFuel
      | S fuel =>
          cells ← adj nid;
          let cells := filter (fun c => fst c <> prev) cells in
          st' ← foldM (fun st c => visit (fst c) (snd c) nid st) cells st;
          dfs adj visit fuel (reverse cells ++ stack) st'
      end
  end.

(** ** Walks *)

Section forest.
Context (ends : Z -> option (Z * Z)).

(** Key [k] joins [u] and [v]. *)
Definition joins (k u v : Z) : Prop :=
  exists a b, ends k = Some (a, b) /\ ((u = a /\ v = b) \/ (u = b /\ v = a)).

Definition loopless : Prop := forall k a b, ends k = Some (a, b) -> a <> b.

Fixpoint walk (p u : Z) (l : list (Z * Z)) : Prop :=
  match l with
  | [] => True
  | (k, v) :: l => joins k u v /\ k <> p /\ walk k v l
  end.

(** Where a walk from [u] ends, and by which key. *)
Fixpoint target (u : Z) (l : list (Z * Z)) : Z :=
  match l with [] => u | (_, v) :: l => target v l end.
Fixpoint via (p : Z) (l : list (Z * Z)) : Z :=
  match l with [] => p | (k, _) :: l => via k l end.

Definition acyclic : Prop := forall p u l, l <> [] -> walk p u l -> target u l <> u.

(** [x] can be reached from [u] without starting with the key [p]. *)
Definition reach (p u x : Z) : Prop := exists l, walk p u l /\ target u l = x.

Lemma joins_sym k u v : joins k u v -> joins k v u.
Proof. intros (a & b & E & [[-> ->]|[-> ->]]); exists a, b; eauto. Qed.

Lemma joins_fun k u v v' : loopless -> joins k u v -> joins k u v' -> v = v'.
Proof.
  intros Hl (a & b & E & H) (a' & b' & E' & H'). assert (a' = a /\ b' = b) as [-> ->] by naive_solver.
  pose proof (Hl k a b E). naive_solver.
Qed.

Lemma joins_ends k u v u' v' : joins k u v -> joins k u' v' ->
  (u' = u /\ v' = v) \/ (u' = v /\ v' = u).
Proof. intros (a & b & E & H) (a' & b' & E' & H'). assert (a' = a /\ b' = b) as [-> ->] by naive_solver. naive_solver. Qed.

Lemma walk_app p u l1 l2 :
  walk p u (l1 ++ l2) <-> walk p u l1 /\ walk (via p l1) (target u l1) l2.
Proof. revert p u. induction l1 as [|[k v] l1 IH]; intros p u; simpl; [tauto|]. rewrite IH. tauto. Qed.

Lemma target_app u l1 l2 : target u (l1 ++ l2) = target (target u l1) l2.
Proof. revert u. induction l1 as [|[k v] l1 IH]; intros u; simpl; auto. Qed.

Lemma via_app p l1 l2 : via p (l1 ++ l2) = via (via p l1) l2.
Proof. revert p. induction l1 as [|[k v] l1 IH]; intros p; simpl; auto. Qed.

Lemma walk_weaken p p' u k v l : walk p u ((k, v) :: l) -> k <> p' -> walk p' u ((k, v) :: l).
Proof. simpl. tauto. Qed.

(** A walk backwards: it leaves by the last key and arrives by the first. *)
Lemma walk_rev p u k v l : walk p u ((k, v) :: l) ->
  exists r, r <> [] /\ target (target v l) r = u /\ (forall q, via q r = k) /\
    forall q, q <> via k l -> walk q (target v l) r.
Proof.
  revert p u k v. induction l as [|[k' v'] l IH]; intros p u k v.
  - intros (Hj & _ & _). exists [(k, u)]. simpl. repeat split; auto. by apply joins_sym.
  - intros (Hj & _ & Hw). destruct (IH k v k' v' Hw) as (r & Hr & Ht & Hv & Hwr).
    destruct Hw as (_ & Hne & _). exists (r ++ [(k, u)]). split; [by destruct r|].
    simpl. split; [by rewrite target_app|]. split; [intros q; by rewrite via_app|].
    intros q Hq. apply walk_app. split; [by apply Hwr|]. rewrite Ht, Hv. simpl.
    split; [by apply joins_sym|]. auto.
Qed.

Lemma reach_refl p u : reach p u u.
Proof. exists []. by split. Qed.

(** What a traversal from [u] reaches is closed under every key but the one it
    must not start with. *)
Lemma reach_edge p u k x y : reach p u x -> joins k x y -> k <> p -> reach p u y.
Proof.
  intros (l & Hw & Ht) Hj Hk. destruct (decide (via p l = k)) as [Hv|Hv].
  - destruct l as [|[k' z] l' _] using rev_ind; [by simpl in Hv|].
    rewrite via_app in Hv. simpl in Hv. subst k'. rewrite target_app in Ht. simpl in Ht. subst z.
    apply walk_app in Hw as [Hw (Hj' & _)]. exists l'. split; [done|].
    destruct (joins_ends _ _ _ _ _ Hj' Hj) as [[? ?]|[? ?]]; congruence.
  - exists (l ++ [(k, y)]). rewrite target_app, walk_app, Ht. simpl. auto.
Qed.

(** ** Acyclic graphs *)

Context (Hac : acyclic).

Lemma acyclic_loopless : loopless.
Proof.
  intros k a b E <-. apply (Hac (k + 1) a [(k, a)]); [done| |done].
  simpl. split; [|split; [lia|done]]. exists a, a. auto.
Qed.

Lemma walk_unique p u l1 l2 : walk p u l1 -> walk p u l2 -> target u l1 = target u l2 -> l1 = l2.
Proof.
  revert p u l2. induction l1 as [|[k1 v1] l1 IH]; intros p u [|[k2 v2] l2] H1 H2 Ht; [done| | |].
  - simpl in Ht. destruct (Hac p u ((k2, v2) :: l2)); done.
  - simpl in Ht. destruct (Hac p u ((k1, v1) :: l1)); done.
  - destruct (decide (k1 = k2)) as [<-|Hne].
    + destruct H1 as (J1 & _ & W1). destruct H2 as (J2 & _ & W2).
      assert (v2 = v1) as -> by (eapply joins_fun; [apply acyclic_loopless|exact J2|exact J1]).
      f_equal. by apply (IH k1 v1).
    + exfalso. destruct (walk_rev _ _ _ _ _ H1) as (r & Hr & Htr & Hv & Hwr).
      simpl in Ht. apply (Hac (via k1 l1 + 1) (target v1 l1) (r ++ (k2, v2) :: l2)).
      * by destruct r.
      * apply walk_app. split; [apply Hwr; lia|]. rewrite Hv, Htr.
        eapply walk_weaken; [exact H2|congruence].
      * by rewrite target_app, Htr.
Qed.

Lemma walk_nodes_fresh p u l : walk p u l -> u ∉ snd <$> l.
Proof.
  intros Hw Hin. apply list_elem_of_fmap in Hin as ([k v] & -> & Hin). simpl in *.
  apply list_elem_of_split in Hin as (l1 & l2 & ->).
  rewrite cons_middle, (assoc_L (++)) in Hw. apply walk_app in Hw as [Hw _].
  apply (Hac p v (l1 ++ [(k, v)])); [by destruct l1|done|]. by rewrite target_app.
Qed.

Lemma walk_nodup p u l : walk p u l -> NoDup (u :: (snd <$> l)).
Proof.
  revert p u. induction l as [|[k v] l IH]; intros p u Hw; simpl.
  - constructor; [apply not_elem_of_nil|constructor].
  - apply NoDup_cons. split; [by apply (walk_nodes_fresh p u ((k, v) :: l))|].
    destruct Hw as (_ & _ & Hw). by apply (IH k v).
Qed.

(** The other end of the key by which a traversal came is not reached. *)
Lemma not_reach_back p s t : joins p t s -> ~ reach p s t.
Proof.
  intros Hj (l & Hw & Ht). apply (Hac (p + 1) t ((p, s) :: l)); [done| |done].
  simpl. split; [done|]. split; [lia|done].
Qed.

(** ** The nodes below a stack element

    [descend h p u] lists the visits (key, node, parent) on walks of at most
    [h] keys. *)

Context (adj : Z -> list (Z * Z)) (N : Z).
Context (Hadj : forall u k v, (k, v) ∈ adj u <-> joins k u v) (Hnd : forall u, NoDup (adj u))
  (Hrange : forall k u v, joins k u v -> 0 <= u < N).

Definition below (p u : Z) : list (Z * Z) := filter (fun c => fst c <> p) (adj u).

Definition visit_t : Type := Z * Z * Z.
Definition v_node (x : visit_t) : Z := snd (fst x).

Fixpoint descend (h : nat) (p u : Z) : list visit_t :=
  match h with
  | O => []
  | S h => c ← below p u; (fst c, snd c, u) :: descend h (fst c) (snd c)
  end.

Lemma elem_of_below p u k v : (k, v) ∈ below p u <-> joins k u v /\ k <> p.
Proof. unfold below. rewrite list_elem_of_filter, Hadj. simpl. tauto. Qed.

Lemma elem_of_descend h p u k v w : (k, v, w) ∈ descend h p u <->
  exists l, (length l < h)%nat /\ walk p u (l ++ [(k, v)]) /\ target u l = w.
Proof.
  revert p u. induction h as [|h IH]; intros p u; simpl.
  { split; [by intros ?%not_elem_of_nil|intros (l & ? & _); lia]. }
  rewrite list_elem_of_bind. split.
  - intros ([k1 v1] & Hin & Hb). apply elem_of_below in Hb as [Hj Hne]. simpl in Hin.
    apply elem_of_cons in Hin as [[= -> -> ->]|Hin].
    + exists []. simpl. split; [lia|]. auto.
    + apply IH in Hin as (l & Hl & Hw & Ht). exists ((k1, v1) :: l). simpl. split; [lia|]. auto.
  - intros ([|[k1 v1] l] & Hl & Hw & Ht); simpl in *.
    + destruct Hw as (Hj & Hne & _). subst w. exists (k, v). simpl. split; [left|].
      by apply elem_of_below.
    + destruct Hw as (Hj & Hne & Hw). exists (k1, v1). split; [|by apply elem_of_below].
      simpl. right. apply IH. exists l. split; [lia|]. auto.
Qed.

Lemma descend_node_reach h p u x : x ∈ v_node <$> descend h p u ->
  exists l, l <> [] /\ walk p u l /\ target u l = x.
Proof.
  intros ([[k v] w] & -> & Hin)%list_elem_of_fmap. apply elem_of_descend in Hin as (l & _ & Hw & _).
  exists (l ++ [(k, v)]). split; [by destruct l|]. by rewrite target_app.
Qed.

(** Every node is visited at most once. *)
Lemma descend_nodup h p u : NoDup (v_node <$> descend h p u).
Proof.
  revert p u. induction h as [|h IH]; intros p u; simpl; [constructor|].
  rewrite list_bind_fmap. apply NoDup_bind.
  - intros [k1 v1] [k2 v2] x [J1 N1]%elem_of_below [J2 N2]%elem_of_below. unfold compose. simpl.
    assert (Hgo : forall k v, x ∈ v :: (v_node <$> descend h k v) -> exists l, walk k v l /\ target v l = x).
    { intros k v [->|Hin]%elem_of_cons; [by exists []|].
      apply descend_node_reach in Hin as (l & _ & ? & ?). by exists l. }
    intros (l1 & W1 & T1)%Hgo (l2 & W2 & T2)%Hgo.
    assert ((k1, v1) :: l1 = (k2, v2) :: l2) by (apply (walk_unique p u); simpl; auto; congruence).
    congruence.
  - intros [k v] [J Nk]%elem_of_below. simpl. apply NoDup_cons.
    split; [|apply IH]. intros (l & Hl & Hw & Ht)%descend_node_reach. by apply (Hac k v l).
  - by apply NoDup_filter.
Qed.

Lemma descend_root_fresh h p u : u ∉ v_node <$> descend h p u.
Proof. intros (l & Hl & Hw & Ht)%descend_node_reach. by apply (Hac p u l). Qed.

Lemma Z_range_length (l : list Z) n : NoDup l -> Forall (fun x => 0 <= x < n) l ->
  Z.of_nat (length l) <= Z.max 0 n.
Proof.
  intros Hl Hr. assert (l ⊆+ seqZ 0 n) as H.
  { apply NoDup_submseteq; [done|]. intros x Hx. apply elem_of_seqZ.
    pose proof (proj1 (Forall_forall _ _) Hr x Hx). simpl in *. lia. }
  apply submseteq_length in H. rewrite length_seqZ in H. lia.
Qed.

Lemma walk_range p u l : walk p u l -> Forall (fun x => 0 <= x < N) (snd <$> l).
Proof.
  revert p u. induction l as [|[k v] l IH]; intros p u; simpl; [constructor|].
  intros (J & _ & W). constructor; [by eapply Hrange, joins_sym|by eapply IH].
Qed.

Lemma walk_short p u l : 0 <= u < N -> walk p u l -> (length l < Z.to_nat N)%nat.
Proof.
  intros Hu Hw. pose proof (Z_range_length (u :: (snd <$> l)) N (walk_nodup p u l Hw)) as H.
  cbn [length] in H. rewrite length_fmap in H.
  assert (Z.of_nat (S (length l)) <= Z.max 0 N); [|lia].
  apply H. constructor; [done|]. by eapply walk_range.
Qed.

(** Deep enough, [descend] lists everything. *)
Lemma descend_stable h p u : (forall l, walk p u l -> (length l <= h)%nat) ->
  descend (S h) p u = descend h p u.
Proof.
  revert p u. induction h as [|h IH]; intros p u Hs.
  - simpl. destruct (below p u) as [|[k v] b] eqn:E; [done|]. exfalso.
    assert ((k, v) ∈ below p u) as [J Nk]%elem_of_below by (rewrite E; left).
    pose proof (Hs [(k, v)]) as H. simpl in H. assert (1 <= 0)%nat; [|lia]. by apply H.
  - change (descend (S (S h)) p u) with
      (c ← below p u; (fst c, snd c, u) :: descend (S h) (fst c) (snd c)).
    change (descend (S h) p u) with (c ← below p u; (fst c, snd c, u) :: descend h (fst c) (snd c)).
    assert (forall c, c ∈ below p u -> descend (S h) (fst c) (snd c) = descend h (fst c) (snd c)) as Hc.
    { intros [k v] [J Nk]%elem_of_below. apply IH. simpl. intros l Hw.
      pose proof (Hs ((k, v) :: l)) as H. simpl in H. assert (S (length l) <= S h)%nat; [|lia].
      apply H. auto. }
    revert Hc. generalize (below p u). intros b. induction b as [|c b IHb]; intros Hc; [done|].
    rewrite !bind_cons. rewrite Hc by left. f_equal. apply IHb. intros c' ?. apply Hc. by right.
Qed.

(** All visits of a traversal from [(p, u)]. *)
Definition visits (p u : Z) : list visit_t := descend (Z.to_nat N) p u.

Lemma visits_unfold p u : 0 <= u < N ->
  visits p u = (c ← below p u; (fst c, snd c, u) :: visits (fst c) (snd c)).
Proof.
  intros Hu. unfold visits at 1. rewrite <-descend_stable; [done|].
  intros l Hw. apply (walk_short p u l Hu) in Hw. lia.
Qed.

Lemma elem_of_visits p u k v w : 0 <= u < N -> (k, v, w) ∈ visits p u <->
  joins k w v /\ exists l, walk p u (l ++ [(k, v)]) /\ target u l = w.
Proof.
  intros Hu. unfold visits. rewrite elem_of_descend. split.
  - intros (l & _ & Hw & Ht). split; [|eauto]. apply walk_app in Hw as [_ (J & _)]. by subst w.
  - intros (_ & l & Hw & Ht). exists l. split; [|done].
    apply (walk_short p u _ Hu) in Hw. rewrite length_app in Hw. simpl in Hw. lia.
Qed.

(** The nodes of a traversal are exactly those that can be reached. *)
Lemma visits_reach p u x : 0 <= u < N -> x ∈ u :: (v_node <$> visits p u) <-> reach p u x.
Proof.
  intros Hu. rewrite elem_of_cons. split.
  - intros [->|(l & _ & Hw & Ht)%descend_node_reach]; [apply reach_refl|by exists l].
  - intros (l & Hw & Ht). destruct l as [|[k v] l _] using rev_ind; [by left|right].
    rewrite target_app in Ht. simpl in Ht. subst v. apply list_elem_of_fmap. exists (k, x, target u l).
    split; [done|]. apply elem_of_visits; [done|]. split; [|by exists l].
    by apply walk_app in Hw as [_ (J & _)].
Qed.

(** Every key at a node that is reached is the key of a visit. *)
Lemma visits_edge p u k x y : 0 <= u < N -> reach p u x -> joins k x y -> k <> p ->
  (k, y, x) ∈ visits p u \/ (k, x, y) ∈ visits p u.
Proof.
  intros Hu (l & Hw & Ht) Hj Hk. destruct (decide (via p l = k)) as [Hv|Hv].
  - right. destruct l as [|[k' z] l' _] using rev_ind; [by simpl in Hv|].
    rewrite via_app in Hv. simpl in Hv. subst k'. rewrite target_app in Ht. simpl in Ht. subst z.
    pose proof Hw as (_ & Hj' & _)%walk_app.
    assert (target u l' = y) as <- by (eapply joins_fun; [apply acyclic_loopless|by apply joins_sym|done]).
    apply elem_of_visits; [done|]. split; [done|]. by exists l'.
  - left. apply elem_of_visits; [done|]. split; [done|]. exists l. split; [|done].
    apply walk_app. split; [done|]. rewrite Ht. simpl. auto.
Qed.

Lemma visits_nodup p u : 0 <= u < N -> NoDup (u :: (v_node <$> visits p u)).
Proof. intros Hu. apply NoDup_cons. split; [apply descend_root_fresh|apply descend_nodup]. Qed.

Lemma visits_length p u : 0 <= u < N -> Z.of_nat (length (visits p u)) < N.
Proof.
  intros Hu. pose proof (Z_range_length _ N (visits_nodup p u Hu)) as H. cbn [length] in H.
  rewrite length_fmap in H. assert (Z.of_nat (S (length (visits p u))) <= Z.max 0 N); [|lia].
  apply H. constructor; [done|]. apply Forall_fmap, Forall_forall. intros [[k v] w] Hin.
  unfold compose, v_node. simpl. apply elem_of_visits in Hin as [J _]; [|done].
  by eapply Hrange, joins_sym.
Qed.

(** ** The traversal visits them, parents first *)

Inductive parents_first : list Z -> list visit_t -> Prop :=
  | pf_nil R : parents_first R []
  | pf_cons R k v u vs : u ∈ R -> parents_first (v :: R) vs -> parents_first R ((k, v, u) :: vs).

Lemma parents_first_mono R R' vs : (forall x, x ∈ R -> x ∈ R') -> parents_first R vs ->
  parents_first R' vs.
Proof.
  intros Hs H. revert R' Hs. induction H as [|R k v u vs Hu _ IH]; intros R' Hs; constructor; [auto|].
  apply IH. intros x [->|Hx]%elem_of_cons; [left|right; auto].
Qed.

Lemma parents_first_app R vs1 vs2 : parents_first R vs1 ->
  parents_first ((v_node <$> vs1) ++ R) vs2 -> parents_first R (vs1 ++ vs2).
Proof.
  intros H. revert vs2. induction H as [|R k v u vs Hu _ IH]; intros vs2 H2; simpl in *; [done|].
  constructor; [done|]. apply IH. eapply parents_first_mono; [|exact H2].
  intros x. change (v_node (k, v, u)) with v. rewrite elem_of_cons, !elem_of_app, elem_of_cons. tauto.
Qed.

Lemma parents_first_row R u (cs : list (Z * Z)) : u ∈ R ->
  parents_first R ((fun c => (fst c, snd c, u)) <$> cs).
Proof.
  revert R. induction cs as [|[k v] cs IH]; intros R Hu; simpl; constructor; [done|].
  apply IH. by right.
Qed.

Definition below_stack (stack : list (Z * Z)) : list visit_t := e ← stack; visits (fst e) (snd e).

Definition run {A} (visit : Z -> Z -> Z -> A -> res A) (st : A) (x : visit_t) : res A :=
  visit (fst (fst x)) (snd (fst x)) (snd x) st.

Lemma below_stack_perm p u stack : 0 <= u < N ->
  ((fun c => (fst c, snd c, u)) <$> below p u) ++ below_stack (reverse (below p u) ++ stack)
  ≡ₚ below_stack ((p, u) :: stack).
Proof.
  intros Hu. unfold below_stack. rewrite bind_app. cbn [mbind list_bind fst snd].
  change (list_bind ?f ?l) with (l ≫= f). rewrite (visits_unfold p u Hu).
  rewrite (assoc (++)). apply Permutation_app_tail. generalize (below p u). intros b.
  rewrite (reverse_Permutation b). induction b as [|[k v] b IH]; [done|]. cbn.
  change (list_bind ?f ?l) with (l ≫= f). constructor.
  rewrite <-IH. cbn. rewrite !(assoc (++)). by rewrite (Permutation_app_comm _ (visits k v)).
Qed.

(** The traversal of a stack of [n] elements with [m] visits below them makes
    [n + m] rounds. *)
Theorem dfs_spec {A} (visit : Z -> Z -> Z -> A -> res A) (adjM : Z -> res (list (Z * Z))) fuel
    stack R (st : A) :
  (forall u, 0 <= u < N -> adjM u = Ok (adj u)) ->
  Forall (fun e => 0 <= snd e < N /\ snd e ∈ R) stack ->
  (length stack + length (below_stack stack) <= fuel)%nat ->
  exists vs, dfs adjM visit fuel stack st = foldM (run visit) vs st /\
    vs ≡ₚ below_stack stack /\ parents_first R vs.
Proof.
  intros HadjM. revert stack R st. induction fuel as [|fuel IH]; intros [|[p u] stack] R st Hst Hlen.
  - exists []. split; [done|]. split; [done|constructor].
  - simpl in Hlen. lia.
  - exists []. split; [done|]. split; [done|constructor].
  - apply Forall_cons in Hst as [[Hu HuR] Hst]. simpl in Hu, HuR. cbn [dfs].
    rewrite (HadjM u Hu), bind_Ok_l. fold (below p u).
    set (row := (fun c : Z * Z => (fst c, snd c, u)) <$> below p u).
    pose proof (below_stack_perm p u stack Hu) as Hperm. fold row in Hperm.
    assert (Hrow : foldM (fun st c => visit (fst c) (snd c) u st) (below p u) st = foldM (run visit) row st).
    { unfold row. generalize (below p u). intros b. revert st. induction b as [|[k v] b IHb]; intros st; [done|].
      rewrite fmap_cons. cbn [foldM fst snd].
      change (run visit st (k, v, u)) with (visit k v u st).
      destruct (visit k v u st) as [a|e]; [exact (IHb a)|done]. }
    cbv zeta. rewrite Hrow.
    assert (Hst' : forall st', exists vs, dfs adjM visit fuel (reverse (below p u) ++ stack) st' =
        foldM (run visit) vs st' /\ vs ≡ₚ below_stack (reverse (below p u) ++ stack) /\
        parents_first ((v_node <$> row) ++ R) vs).
    { intros st'. apply IH.
      - apply Forall_app. split; [apply Forall_reverse, Forall_forall; intros [k v] Hin|].
        + pose proof Hin as [J _]%elem_of_below. simpl. split; [by eapply Hrange, joins_sym|].
          apply elem_of_app. left. unfold row. apply list_elem_of_fmap. exists (k, v, u). split; [done|].
          apply list_elem_of_fmap. by exists (k, v).
        + eapply Forall_impl; [exact Hst|]. intros e [? ?]. split; [done|]. apply elem_of_app. by right.
      - apply Permutation_length in Hperm. rewrite length_app in Hperm. unfold row in Hperm.
        rewrite length_fmap in Hperm. rewrite length_app, length_reverse. cbn [length] in Hlen. lia. }
    destruct (foldM (run visit) row st) as [st'|e] eqn:E; cbn [mbind res_bind].
    + destruct (Hst' st') as (vs & Hd & Hp & Hpf). exists (row ++ vs). rewrite foldM_app, E.
      split; [done|]. split; [by rewrite <-Hperm, Hp|]. apply parents_first_app; [|done].
      by apply parents_first_row.
    + destruct (Hst' st) as (vs & _ & Hp & Hpf). exists (row ++ vs). rewrite foldM_app, E.
      split; [done|]. split; [by rewrite <-Hperm, Hp|]. apply parents_first_app; [|done].
      by apply parents_first_row.
Qed.
End forest.

(** ** Connected nodes, and changes of the graph *)

Definition linked (ends : Z -> option (Z * Z)) (u v : Z) : Prop := exists k, joins ends k u v.
Definition connected (ends : Z -> option (Z * Z)) : Z -> Z -> Prop := rtc (linked ends).

Lemma connected_sym ends u v : connected ends u v -> connected ends v u.
Proof.
  intros H. induction H as [u|u v w [k Hk] _ IH]; [constructor|].
  eapply rtc_r; [exact IH|]. exists k. by apply joins_sym.
Qed.

Lemma walk_connected ends p u l : walk ends p u l -> connected ends u (target u l).
Proof.
  revert p u. induction l as [|[k v] l IH]; intros p u; [constructor|].
  intros (J & _ & W). simpl. eapply rtc_l; [by exists k|]. by apply (IH k).
Qed.

Lemma reach_connected ends p u x : reach ends p u x -> connected ends u x.
Proof. intros (l & Hw & <-). by eapply walk_connected. Qed.

(** A traversal that need not avoid a key reaches the whole component. *)
Lemma connected_reach ends p u x : (forall y z, ~ joins ends p y z) -> connected ends u x ->
  reach ends p u x.
Proof.
  intros Hp. revert x. apply rtc_ind_r; [apply reach_refl|]. intros y z _ [k Hk] IH.
  eapply reach_edge; [exact IH|exact Hk|]. intros ->. by eapply Hp.
Qed.

Lemma connected_mono ends ends' u v : (forall k x y, joins ends k x y -> linked ends' x y) ->
  connected ends u v -> connected ends' u v.
Proof. intros Hs. apply rtc_subrel. intros x y [k Hk]. eauto. Qed.

(** A graph that maps into an acyclic one without identifying keys is acyclic. *)
Lemma acyclic_map ends ends' f : acyclic ends ->
  (forall k u v, joins ends' k u v -> joins ends (f k) u v) ->
  (forall k k', is_Some (ends' k) -> is_Some (ends' k') -> f k = f k' -> k = k') ->
  acyclic ends'.
Proof.
  intros Hac Hf Hinj p u l Hl Hw Ht.
  assert (Hgo : forall l p u, is_Some (ends' p) -> walk ends' p u l ->
    walk ends (f p) u ((fun c => (f (fst c), snd c)) <$> l)).
  { clear - Hf Hinj. intros l. induction l as [|[k v] l IH]; intros p u Hp Hw; [done|].
    destruct Hw as (J & Hne & W). simpl.
    assert (is_Some (ends' k)) as Hk by (destruct J as (a & b & E & _); eauto).
    split; [by apply Hf|]. split; [|by apply IH]. intros E. by apply Hne, Hinj. }
  destruct l as [|[k v] l]; [done|]. destruct Hw as (J & _ & W).
  assert (is_Some (ends' k)) as Hk by (destruct J as (a & b & E & _); eauto).
  apply (Hac (f k + 1) u ((f k, v) :: ((fun c => (f (fst c), snd c)) <$> l))); [done| |].
  - simpl. split; [by apply Hf|]. split; [lia|]. by apply Hgo.
  - rewrite <-Ht at 2. simpl. clear. revert v. induction l as [|[k v'] l IH]; intros v; simpl; auto.
Qed.

Lemma first_use (k : Z) (l : list (Z * Z)) : k ∈ fst <$> l ->
  exists l1 v l2, l = l1 ++ (k, v) :: l2 /\ k ∉ fst <$> l1.
Proof.
  induction l as [|[k' v'] l IH]; [by intros ?%elem_of_nil|].
  destruct (decide (k' = k)) as [->|Hne]; [intros _; exists [], v', l; split; [done|apply not_elem_of_nil]|].
  simpl. intros [?|Hin]%elem_of_cons; [congruence|].
  destruct (IH Hin) as (l1 & v & l2 & -> & Hn). exists ((k', v') :: l1), v, l2. split; [done|].
  simpl. rewrite elem_of_cons. intros [?|?]; [congruence|done].
Qed.

Section add_edge.
Context (ends ends' : Z -> option (Z * Z)) (k0 a b : Z).
Context (Hother : forall k, k <> k0 -> ends' k = ends k) (Hk0 : ends' k0 = Some (a, b)).

Lemma joins_add k u v : joins ends' k u v ->
  (k = k0 /\ ((u = a /\ v = b) \/ (u = b /\ v = a))) \/ (k <> k0 /\ joins ends k u v).
Proof.
  intros (x & y & E & H). destruct (decide (k = k0)) as [->|Hne].
  - left. split; [done|]. assert (x = a /\ y = b) as [-> ->] by naive_solver. done.
  - right. split; [done|]. exists x, y. by rewrite <-Hother.
Qed.

Lemma walk_without p u l : k0 ∉ fst <$> l -> walk ends' p u l -> walk ends p u l.
Proof.
  revert p u. induction l as [|[k v] l IH]; intros p u; [done|]. simpl.
  rewrite not_elem_of_cons. intros [Hne Hin] (J & Hp & W).
  apply joins_add in J as [[-> _]|[_ J]]; [done|]. auto.
Qed.

(** A key between two components closes no walk. *)
Lemma acyclic_add : acyclic ends -> ~ connected ends a b -> acyclic ends'.
Proof.
  intros Hac Hnc p u l Hl Hw Ht.
  destruct (decide (k0 ∈ fst <$> l)) as [Hin|Hn].
  2: { exact (Hac p u l Hl (walk_without p u l Hn Hw) Ht). }
  destruct (first_use k0 l Hin) as (l1 & v & l2 & -> & Hn1).
  apply walk_app in Hw as [W1 (J & _ & W2)]. rewrite target_app in Ht. simpl in Ht.
  pose proof (walk_connected _ _ _ _ (walk_without _ _ _ Hn1 W1)) as C1.
  set (x := target u l1) in *.
  assert (Hxv : (x = a /\ v = b) \/ (x = b /\ v = a))
    by (apply joins_add in J as [[_ J]|[? _]]; [done|congruence]).
  assert (Hnvx : ~ connected ends v x)
    by (destruct Hxv as [[-> ->]|[-> ->]]; [by intros ?%connected_sym|done]).
  destruct (decide (k0 ∈ fst <$> l2)) as [Hin2|Hn2].
  2: { apply Hnvx. etransitivity; [|exact C1].
       pose proof (walk_connected _ _ _ _ (walk_without _ _ _ Hn2 W2)) as C2. by rewrite Ht in C2. }
  destruct (first_use k0 l2 Hin2) as (l3 & w & l4 & -> & Hn3).
  apply walk_app in W2 as [W3 (J3 & Hne & _)].
  pose proof (walk_without _ _ _ Hn3 W3) as W3'. pose proof (walk_connected _ _ _ _ W3') as C3.
  set (y := target v l3) in *.
  assert (y = x \/ y = v) as [E|E].
  { apply joins_add in J3 as [[_ J3]|[? _]]; [|congruence].
    destruct Hxv as [[-> ->]|[-> ->]], J3 as [[-> _]|[-> _]]; auto. }
  - rewrite E in C3. exact (Hnvx C3).
  - destruct l3 as [|c l3]; [by simpl in Hne|]. by apply (Hac k0 v (c :: l3)).
Qed.

Lemma connected_add u v : connected ends' u v -> connected ends u v \/
  (connected ends u a /\ connected ends b v) \/ (connected ends u b /\ connected ends a v).
Proof.
  revert v. apply (rtc_ind_r _ u); [left; constructor|]. intros v w _ [k Hk] IH.
  apply joins_add in Hk as [[_ [[-> ->]|[-> ->]]]|[_ J]].
  - destruct IH as [C|[[C1 C2]|[C1 C2]]]; [right; left; split; [done|constructor]|..].
    + right; left. split; [done|constructor].
    + left. done.
  - destruct IH as [C|[[C1 C2]|[C1 C2]]]; [right; right; split; [done|constructor]|..].
    + left. done.
    + right; right. split; [done|constructor].
  - assert (forall x, connected ends x v -> connected ends x w) as Hs
      by (intros x C; eapply rtc_r; [exact C|by exists k]).
    destruct IH as [C|[[C1 C2]|[C1 C2]]]; eauto 6.
Qed.
End add_edge.
