(* ===== verification/UnionFind.v ===== *)
(** * Disjoint sets (deps/ludo/tables/disjointset.h)

    [DisjointSet]: an array of parents, [-1] for an element never looked up;
    [representative] compresses the paths it follows.  [root] is the relation
    the array represents; the operations keep or join its classes. *)

From Stdlib Require Import ZArith Lia.
From stdpp Require Import base numbers list.
From S2P Require Import Prelude Forest.

#[local] Open Scope Z_scope.

(** [uint32_t(-1)] *)
Definition NIL : Z := 0xffffffff.

(** ** DisjointSet *)

Module DisjointSet.

(** [mem[i] = representative(mem[i])]: the path is compressed on the way back. *)
Fixpoint representative_rec (fuel : nat) (i : Z) (mem : list Z) : res (Z * list Z) :=
  match fuel with
  | O => Err OutOfFuel
  | S fuel =>
      p ← rd mem i;
      if p =? NIL then mem' ← wr mem i i; Ok (i, mem')
      else if negb (p =? i) then
        '(r, mem1) ← representative_rec fuel p mem;
        mem2 ← wr mem1 i r; Ok (r, mem2)
      else Ok (i, mem)
  end.

(** A path has at most as many nodes as there are. *)
Definition representative (i : Z) (mem : list Z) : res (Z * list Z) :=
  representative_rec (S (length mem)) i mem.

Definition merge (a b : Z) (mem : list Z) : res (list Z) :=
  '(ra, mem1) ← representative a mem;
  '(rb, mem2) ← representative b mem1;
  wr mem2 rb ra.

Definition sameSet (a b : Z) (mem : list Z) : res (bool * list Z) :=
  '(ra, mem1) ← representative a mem;
  '(rb, mem2) ← representative b mem1;
  Ok (ra =? rb, mem2).

Definition isRoot (a : Z) (mem : list Z) : res bool := p ← rd mem a; Ok (p =? a).

Definition reset (mem : list Z) : list Z := replicate (length mem) NIL.

(** [resize(n)]: new elements are [-1]. *)
Definition resize_set (n : nat) (mem : list Z) : list Z := resize n NIL mem.

End DisjointSet.


(** ** The classes *)

(** [r] is the root of [i], [n] steps up. *)
Inductive rootn (f : list Z) : nat -> Z -> Z -> Prop :=
  | root_here i p : rd f i = Ok p -> p = NIL \/ p = i -> rootn f 0 i i
  | root_up n i p r : rd f i = Ok p -> p <> NIL -> p <> i -> rootn f n p r -> rootn f (S n) i r.

Definition root (f : list Z) (i r : Z) : Prop := exists n, rootn f n i r.

(** Every element has a root: no cycles. *)
Definition rooted (f : list Z) : Prop :=
  Z.of_nat (length f) <= NIL /\ forall i, 0 <= i < Z.of_nat (length f) -> exists r, root f i r.

Lemma rootn_det f n m i r q : rootn f n i r -> rootn f m i q -> n = m /\ r = q.
Proof.
  intros H. revert m q. induction H as [i p E Hp|n i p r E H1 H2 _ IH]; intros m q Hq;
    inversion Hq as [i' p' E' Hp'|m' i' p' r' E' H1' H2' Hm]; subst;
    assert (p' = p) as -> by congruence.
  - done.
  - destruct Hp; congruence.
  - destruct Hp'; congruence.
  - destruct (IH _ _ Hm) as [-> ->]. done.
Qed.

Lemma root_det f i r q : root f i r -> root f i q -> r = q.
Proof. intros [n Hn] [m Hm]. by destruct (rootn_det _ _ _ _ _ _ Hn Hm). Qed.

Lemma rootn_range f n i r : rootn f n i r ->
  0 <= i < Z.of_nat (length f) /\ 0 <= r < Z.of_nat (length f).
Proof. induction 1 as [i p E _|n i p r E _ _ _ [_ IH]]; split; try done; by eapply rd_range. Qed.

Lemma rootn_end f n i r : rootn f n i r -> rootn f 0 r r.
Proof. induction 1; [by econstructor|done]. Qed.

Lemma root_end f i r : root f i r -> root f r r.
Proof. intros [n H]. exists 0%nat. by eapply rootn_end. Qed.

Lemma rootn_path f n i r : rootn f n i r -> exists l, length l = S n /\ NoDup l /\
  Forall (fun x => 0 <= x < Z.of_nat (length f) /\ exists m, (m <= n)%nat /\ rootn f m x r) l.
Proof.
  induction 1 as [i p E Hp|n i p r E H1 H2 Hr (l & Hl & Hnd & Hall)].
  - exists [i]. split; [done|]. split; [apply NoDup_singleton|]. constructor; [|constructor].
    split; [by eapply rd_range|]. exists 0%nat. split; [lia|by econstructor].
  - exists (i :: l). assert (rootn f (S n) i r) as Hi by (by econstructor).
    split; [simpl; lia|]. split.
    + apply NoDup_cons. split; [|done]. intros Hin.
      apply (proj1 (Forall_forall _ _) Hall) in Hin as (_ & m & Hm & Hrm).
      destruct (rootn_det _ _ _ _ _ _ Hi Hrm). lia.
    + constructor; [split; [by eapply rd_range|]; exists (S n); split; [lia|done]|].
      eapply Forall_impl; [exact Hall|]. intros x (Hx & m & Hm & ?). split; [done|]. exists m. split; [lia|done].
Qed.

(** No path is longer than the array. *)
Lemma rootn_short f n i r : rootn f n i r -> (n < length f)%nat.
Proof.
  intros (l & Hl & Hnd & Hall)%rootn_path.
  pose proof (Z_range_length l (Z.of_nat (length f)) Hnd) as H.
  assert (Z.of_nat (length l) <= Z.max 0 (Z.of_nat (length f))); [|lia].
  apply H. eapply Forall_impl; [exact Hall|]. by intros x [? _].
Qed.

(** [g] has the classes of [f], and its parents are parents of [f] or roots. *)
Definition refined (f g : list Z) : Prop :=
  length g = length f /\ (forall j q, root f j q -> root g j q) /\
  forall j p, rd g j = Ok p -> rd f j = Ok p \/ root f j p.

Lemma refined_refl f : refined f f.
Proof. split; [done|]. auto. Qed.

Lemma refined_trans f g h : rooted f -> refined f g -> refined g h -> refined f h.
Proof.
  intros [_ Hf] (L1 & R1 & P1) (L2 & R2 & P2). split; [congruence|]. split; [auto|].
  intros j p E. destruct (P2 j p E) as [E'|Hr]; [by apply P1|]. right.
  destruct Hr as [n Hrn]. pose proof (rootn_range _ _ _ _ Hrn) as [Hj _]. rewrite L1 in Hj.
  destruct (Hf j Hj) as [q Hq]. assert (root g j p) as Hr by (by exists n).
  by rewrite (root_det _ _ _ _ Hr (R1 _ _ Hq)).
Qed.

Lemma refined_rooted f g : rooted f -> refined f g -> rooted g.
Proof.
  intros [Hl Hf] (L & R & _). split; [lia|]. intros i Hi. rewrite L in Hi.
  destruct (Hf i Hi) as [r Hr]. eauto.
Qed.

(** Writing its root as the parent of an element. *)
Lemma compress f i r g : Z.of_nat (length f) <= NIL -> root f i r -> wr f i r = Ok g -> refined f g.
Proof.
  intros Hnil Hi Hw. pose proof (wr_length _ _ _ _ Hw) as Hl. split; [done|]. split.
  - intros j q [n Hq]. induction Hq as [j p E Hp|n j p q E H1 H2 Hq IH].
    + exists 0%nat. destruct (decide (j = i)) as [->|Hne].
      * assert (r = i) as -> by (eapply root_det; [exact Hi|]; exists 0%nat; by econstructor).
        econstructor; [by eapply rd_wr_eq|by right].
      * econstructor; [|exact Hp]. by rewrite (rd_wr_ne _ _ _ _ _ Hw) by done.
    + destruct (decide (j = i)) as [->|Hne].
      * assert (q = r) as -> by (eapply root_det; [|exact Hi]; exists (S n); by econstructor).
        pose proof (rootn_end _ _ _ _ Hq) as Hr0. inversion Hr0 as [r' p' E' Hp'|]; subst.
        assert (r <> i) as Hri.
        { intros ->. rewrite E in E'. assert (p' = p) as -> by congruence. by destruct Hp'. }
        exists 1%nat. apply rootn_range in Hq as [Hpr Hrr].
        econstructor; [by eapply rd_wr_eq|lia|done|].
        econstructor; [|exact Hp']. by rewrite (rd_wr_ne _ _ _ _ _ Hw) by congruence.
      * destruct IH as [m Hm]. exists (S m). econstructor; [|exact H1|exact H2|exact Hm].
        by rewrite (rd_wr_ne _ _ _ _ _ Hw) by congruence.
  - intros j p E. destruct (decide (j = i)) as [->|Hne].
    + right. rewrite (rd_wr_eq _ _ _ _ Hw) in E. by assert (p = r) as -> by congruence.
    + left. by rewrite (rd_wr_ne _ _ _ _ _ Hw) in E by done.
Qed.

Lemma representative_rec_spec f n i r fuel : rooted f -> rootn f n i r -> (n < fuel)%nat ->
  exists g, DisjointSet.representative_rec fuel i f = Ok (r, g) /\ refined f g /\ rd g r = Ok r.
Proof.
  intros Hf Hr. revert fuel. induction Hr as [i p E Hp|n i p r E H1 H2 Hr IH]; intros [|fuel] Hlt; try lia;
    cbn [DisjointSet.representative_rec]; rewrite E, bind_Ok_l.
  - pose proof (rd_range _ _ _ E) as Hi. destruct Hf as [Hl _]. destruct (Z.eqb_spec p NIL) as [->|Hn].
    + pose proof (wr_in_range f i i Hi) as Hw. rewrite Hw, bind_Ok_l. eexists. split; [done|].
      split; [|by eapply rd_wr_eq]. apply (compress f i i); [done| |done]. exists 0%nat. by econstructor.
    + destruct Hp as [? | ->]; [done|]. rewrite Z.eqb_refl. cbn [negb]. exists f.
      split; [done|]. split; [apply refined_refl|done].
  - destruct (Z.eqb_spec p NIL); [done|]. destruct (Z.eqb_spec p i); [done|]. cbn [negb].
    destruct (IH fuel) as (g1 & -> & Hg1 & Er); [lia|]. rewrite bind_Ok_l.
    pose proof (refined_rooted _ _ Hf Hg1) as Hf1.
    assert (root g1 i r) as Hir by (apply Hg1; exists (S n); by econstructor).
    pose proof (rd_range _ _ _ E) as Hi. destruct Hg1 as [L1 ?]. rewrite <-L1 in Hi.
    pose proof (wr_in_range g1 i r Hi) as Hw. rewrite Hw, bind_Ok_l. eexists. split; [done|].
    split.
    + eapply refined_trans; [exact Hf|split; [exact L1|done]|].
      apply (compress g1 i r); [apply Hf1|done|done].
    + destruct (decide (r = i)) as [->|Hne]; [by eapply rd_wr_eq|].
      by rewrite (rd_wr_ne _ _ _ _ _ Hw) by congruence.
Qed.

Lemma representative_spec f i r : rooted f -> root f i r ->
  exists g, DisjointSet.representative i f = Ok (r, g) /\ refined f g /\ rd g r = Ok r.
Proof.
  intros Hf [n Hn]. apply (representative_rec_spec f n); [done..|].
  apply rootn_short in Hn. lia.
Qed.

Lemma refined_self f g r : refined f g -> rd f r = Ok r -> root f r r -> rd g r = Ok r.
Proof.
  intros (L & _ & P) E Hr. destruct (rd_in_range g r) as [p Hp]; [rewrite L; by eapply rd_range|].
  rewrite Hp. f_equal. destruct (P r p Hp) as [E'|H]; [congruence|]. by eapply root_det.
Qed.

Lemma sameSet_spec f a b ra rb : rooted f -> root f a ra -> root f b rb ->
  exists g, DisjointSet.sameSet a b f = Ok (ra =? rb, g) /\ refined f g.
Proof.
  intros Hf Ha Hb. destruct (representative_spec f a ra Hf Ha) as (g1 & E1 & H1 & _).
  pose proof (refined_rooted _ _ Hf H1) as Hf1. pose proof H1 as (_ & R1 & _).
  destruct (representative_spec g1 b rb Hf1 (R1 _ _ Hb)) as (g2 & E2 & H2 & _).
  exists g2. unfold DisjointSet.sameSet. rewrite E1, bind_Ok_l, E2, bind_Ok_l.
  split; [done|]. by eapply refined_trans.
Qed.

(** [merge] puts the class of [b] under the root of [a]. *)
Lemma merge_spec f a b ra rb : rooted f -> root f a ra -> root f b rb ->
  exists g, DisjointSet.merge a b f = Ok g /\ length g = length f /\ rd g ra = Ok ra /\
    (forall j q, root f j q -> root g j (if decide (q = rb) then ra else q)) /\
    forall j p, rd g j = Ok p -> rd f j = Ok p \/ root f j p \/ (j = rb /\ p = ra).
Proof.
  intros Hf Ha Hb.
  destruct (representative_spec f a ra Hf Ha) as (g1 & E1 & H1 & S1).
  pose proof (refined_rooted _ _ Hf H1) as Hf1. pose proof H1 as (_ & R1 & _).
  destruct (representative_spec g1 b rb Hf1 (R1 _ _ Hb)) as (g2 & E2 & H2 & S2).
  assert (S1' : rd g2 ra = Ok ra) by (eapply refined_self; [exact H2|done|eapply root_end; eauto]).
  pose proof (refined_trans _ _ _ Hf H1 H2) as H12. destruct H12 as (L2 & R2 & P2).
  pose proof (refined_rooted _ _ Hf1 H2) as [Hl _].
  unfold DisjointSet.merge. rewrite E1, bind_Ok_l, E2, bind_Ok_l.
  pose proof (wr_in_range g2 rb ra (rd_range _ _ _ S2)) as Hw. rewrite Hw. eexists. split; [done|].
  set (g := <[Z.to_nat rb:=ra]> g2) in *.
  assert (Sg : rd g ra = Ok ra).
  { destruct (decide (ra = rb)) as [E|Hne]; [rewrite E; rewrite E in Hw; by eapply rd_wr_eq|].
    by rewrite (rd_wr_ne _ _ _ _ _ Hw) by congruence. }
  assert (Hra : root g ra ra) by (exists 0%nat; econstructor; [exact Sg|by right]).
  split; [by rewrite (wr_length _ _ _ _ Hw)|]. split; [done|]. split.
  - intros j q Hj. apply R2 in Hj as [n Hn]. induction Hn as [j p E Hp|n j p q E Hn1 Hn2 _ IH].
    + destruct (decide (j = rb)) as [->|Hne].
      * destruct (decide (ra = rb)) as [<-|Hab]; [done|]. exists 1%nat.
        econstructor; [by eapply rd_wr_eq| |done|by econstructor; [exact Sg|right]].
        pose proof (rd_range _ _ _ Sg). pose proof (wr_length _ _ _ _ Hw). lia.
      * exists 0%nat. econstructor; [|exact Hp]. by rewrite (rd_wr_ne _ _ _ _ _ Hw) by congruence.
    + destruct IH as [m Hm]. exists (S m). econstructor; [|exact Hn1|exact Hn2|exact Hm].
      rewrite (rd_wr_ne _ _ _ _ _ Hw); [done|]. intros <-. congruence.
  - intros j p E. destruct (decide (j = rb)) as [->|Hne].
    + rewrite (rd_wr_eq _ _ _ _ Hw) in E. right. right. split; [done|congruence].
    + rewrite (rd_wr_ne _ _ _ _ _ Hw) in E by congruence. destruct (P2 j p E); auto.
Qed.

(** Relabelling: the elements of [S] get the parents [lab], which are their own
    parents; the paths of the others do not enter [S]. *)
Lemma relabel_root f g (S : Z -> Prop) (lab : Z -> Z) : (forall x, Decision (S x)) ->
  length g = length f ->
  (forall x, S x -> rd g x = Ok (lab x) /\ S (lab x) /\ lab (lab x) = lab x /\ lab x <> NIL) ->
  (forall x, ~ S x -> rd g x = rd f x) ->
  (forall x p, ~ S x -> rd f x = Ok p -> p <> NIL -> ~ S p) ->
  (forall x, S x -> root g x (lab x)) /\ (forall x q, ~ S x -> root f x q -> root g x q).
Proof.
  intros Hdec Hl HS Hn Hout. split.
  - intros x Hx. destruct (HS x Hx) as (E & Hlx & Hll & Hnil).
    destruct (HS _ Hlx) as (E' & _). rewrite Hll in E'.
    destruct (decide (lab x = x)) as [Hx0|Hne].
    + exists 0%nat. rewrite Hx0 in E |- *. econstructor; [exact E|by right].
    + exists 1%nat. econstructor; [exact E|done|done|]. econstructor; [exact E'|by right].
  - intros x q Hx [n Hq]. induction Hq as [x p E Hp|n x p q E H1 H2 _ IH].
    + exists 0%nat. econstructor; [|exact Hp]. by rewrite Hn.
    + destruct IH as [m Hm]; [by eapply Hout|]. exists (Datatypes.S m).
      econstructor; [|exact H1|exact H2|exact Hm]. by rewrite Hn.
Qed.
