(* ===== verification/LudoTable.v ===== *)
(** * The Ludo control plane (deps/ludo/ludo_cp_dp.h, LudoCommon and
      ControlPlaneLudo)

    A (2,4) cuckoo table.  Every key has two candidate buckets; a one-bit
    Othello, the locator, says in which of them it is, and the bucket's seed
    says at which of the four slots the data plane keeps it.  The locator is
    used through the interface [Locator].  [rand] is a stream that the table
    consumes. *)

From Stdlib Require Import ZArith Lia.
From stdpp Require Import base numbers gmap list.
From S2P Require Import Prelude Words Hash LudoSlot ServerRdma ServerInv.

#[local] Open Scope Z_scope.

(** ** LudoCommon *)

Definition kSlotsPerBucket : Z := 4.
Definition kMaxBFSPathLen : Z := 5.
Definition MAX_REHASH : nat := 2.

(** The slots in the order of the [for] loops. *)
Definition slots : list Z := [0; 1; 2; 3].

(** [num_buckets * g_ludo_load_factor * kSlotsPerBucket], truncated: the load
    factor 0.95 is the double [0x1.e666666666666p-1], and the products with a
    power of two are exact. *)
Definition load_capacity (num_buckets : Z) : Z :=
  num_buckets * 0x1e666666666666 * kSlotsPerBucket / 2 ^ 53.

(** The loop that doubles the number of buckets until the capacity suffices. *)
Fixpoint grow_buckets (fuel : nat) (num_buckets target : Z) : Z :=
  match fuel with
  | O => num_buckets
  | S fuel => if load_capacity num_buckets <? target
              then grow_buckets fuel (Z.shiftl num_buckets 1) target else num_buckets
  end.

Definition fast_map_to_buckets (x size : Z) : res (Z * Z) :=
  _ ← guard_ok (Z.land size (u32 (size - 1)) =? 0) AssertFailed;
  Ok (u32 (Z.land x (u32 (size - 1))), u32 (Z.land (Z.shiftr x 32) (u32 (size - 1)))).

(** ** The locator *)

Record OthelloUpdateResult := MkOUR {
  o_status : Z;
  xorTemplate : Z;
  o_marks : Z * Z;
  o_cc : list Z;
}.

Class Locator (L : Type) := {
  loc_isMember : L -> Z -> res bool;
  loc_lookUp : L -> Z -> res Z;
  loc_insert : L -> Z -> Z -> bool -> res (OthelloUpdateResult * L);
  loc_changeValue : L -> Z -> Z -> res (OthelloUpdateResult * L);
  loc_toggleInOthello : L -> Z -> res (OthelloUpdateResult * L);
  loc_remove : L -> Z -> res L;
  loc_getHalfTree : L -> Z -> bool -> res (list Z);
  loc_clear : L -> L;
  loc_resizeCapacity : L -> Z -> res L;
}.

(** How an operation that rebuilds the locator may fail: the seeds are used up,
    or the arrays would need more than 2^32 cells. *)
Definition build_fault (e : fault) : Prop := e = OutOfFuel \/ e = Thrown.

(** ** Buckets *)

Record Bucket := MkBucket {
  b_seed : Z;
  occupiedMask : Z;
  b_keys : list Z;
  b_values : list Z;
}.

Definition empty_bucket : Bucket := MkBucket 0 0 (replicate 4 0) (replicate 4 0).

(** [occupiedMask & (1 << slot)] *)
Definition occupied (b : Bucket) (slot : Z) : bool := Z.testbit (occupiedMask b) slot.

(** [occupiedMask |= 1U << slot] *)
Definition set_occupied (b : Bucket) (slot : Z) : Bucket :=
  MkBucket (b_seed b) (u8 (Z.lor (occupiedMask b) (Z.shiftl 1 slot))) (b_keys b) (b_values b).

(** [occupiedMask ^= 1U << slot] *)
Definition toggle_occupied (b : Bucket) (slot : Z) : Bucket :=
  MkBucket (b_seed b) (u8 (Z.lxor (occupiedMask b) (Z.shiftl 1 slot))) (b_keys b) (b_values b).

Definition set_mask (b : Bucket) (m : Z) : Bucket :=
  MkBucket (b_seed b) m (b_keys b) (b_values b).
Definition set_seed (b : Bucket) (seed : Z) : Bucket :=
  MkBucket seed (occupiedMask b) (b_keys b) (b_values b).
Definition set_value (b : Bucket) (slot v : Z) : res Bucket :=
  l ← wr (b_values b) slot v; Ok (MkBucket (b_seed b) (occupiedMask b) (b_keys b) l).
Definition set_item (b : Bucket) (slot k v : Z) : res Bucket :=
  ks ← wr (b_keys b) slot k; vs ← wr (b_values b) slot v;
  Ok (MkBucket (b_seed b) (occupiedMask b) ks vs).

(** The first slot of [sl] that is occupied by [k]: the loop of
    [FindInBucket], [locate], [changeValue] and [RemoveInBucket]. *)
Fixpoint find_slot (sl : list Z) (k : Z) (b : Bucket) : res (option Z) :=
  match sl with
  | [] => Ok None
  | s :: sl =>
      if occupied b s then
        k' ← rd (b_keys b) s;
        if k' =? k then Ok (Some s) else find_slot sl k b
      else find_slot sl k b
  end.

Definition FindInBucket (k : Z) (b : Bucket) : res (option Z) :=
  found ← find_slot slots k b;
  match found with
  | Some s => v ← rd (b_values b) s; Ok (Some v)
  | None => Ok None
  end.

(** The index of a free slot, or -1. *)
Fixpoint free_slot_from (sl : list Z) (b : Bucket) : Z :=
  match sl with
  | [] => -1
  | s :: sl => if negb (occupied b s) then s else free_slot_from sl b
  end.

Definition FindFreeSlot (b : Bucket) : Z := free_slot_from slots b.

(** The keys in the occupied slots, in slot order. *)
Fixpoint occupied_keys_from (sl : list Z) (b : Bucket) : res (list Z) :=
  match sl with
  | [] => Ok []
  | s :: sl =>
      if occupied b s then
        k ← rd (b_keys b) s; ks ← occupied_keys_from sl b; Ok (k :: ks)
      else occupied_keys_from sl b
  end.

Definition occupied_keys (b : Bucket) : res (list Z) := occupied_keys_from slots b.

(** [dpSlotMove[oldSlot] = toSlot] for the keys that were there before. *)
Fixpoint slot_moves (sl : list Z) (b : Bucket) (seed slotWithNewKey : Z) (m : list Z)
    : res (list Z) :=
  match sl with
  | [] => Ok m
  | s :: sl =>
      if occupied b s && negb (s =? slotWithNewKey) then
        k ← rd (b_keys b) s;
        m' ← wr m (slot_of (b_seed b) k) (slot_of seed k);
        slot_moves sl b seed slotWithNewKey m'
      else slot_moves sl b seed slotWithNewKey m
  end.

(** The unused entries of [dpSlotMove] (255) get the first slot that no key
    moves to. *)
Definition fill_moves (m : list Z) : res (list Z) :=
  let unused := filter (fun s => s ∉ m) slots in
  mapM (fun x => if x =? 255
                 then match unused with s :: _ => Ok s | [] => Err AssertFailed end
                 else Ok x) m.

(** [updateSeed] on its bucket: the new bucket, the seed, and [dpSlotMove] when
    it is asked for. *)
Definition update_bucket_seed (b : Bucket) (withDp : bool) (slotWithNewKey : Z)
    : res (Bucket * Z * list Z) :=
  ks ← occupied_keys b;
  found ← find_seed 256 0 ks;
  match found with
  | None => Err Thrown
  | Some seed =>
      moves ← (if withDp then
                 m ← slot_moves slots b seed slotWithNewKey (replicate 4 255); fill_moves m
               else Ok []);
      Ok (set_seed b seed, seed, moves)
  end.

(** [getDpBucket]: the data plane's view; unwritten keys and values keep [junk]. *)
Fixpoint dp_items (sl : list Z) (b : Bucket) (r : Bucket) : res Bucket :=
  match sl with
  | [] => Ok r
  | s :: sl =>
      if occupied b s then
        k ← rd (b_keys b) s; v ← rd (b_values b) s;
        r' ← set_value (set_occupied r (slot_of (b_seed b) k)) (slot_of (b_seed b) k) v;
        dp_items sl b r'
      else dp_items sl b r
  end.

Definition getDpBucket (b junk : Bucket) : res Bucket :=
  dp_items slots b (MkBucket (b_seed b) 0 (b_keys junk) (b_values junk)).

(** ** The queue of the cuckoo search *)

Record CuckooPathEntry := MkEntry {
  e_bucket : Z;
  e_depth : Z;
  e_parent : Z;
  e_parent_slot : Z;
}.

(** [calMaxQueueSize] and [calVisitedListSize]: [n] terms from [term]. *)
Fixpoint geometric_size (n : nat) (term : Z) : Z :=
  match n with O => 0 | S n => term + geometric_size n (term * ((2 - 1) * kSlotsPerBucket)) end.

Definition kMaxQueueSize : Z := geometric_size (Z.to_nat kMaxBFSPathLen) 4.
Definition kVisitedListSize : Z := geometric_size (Z.to_nat (kMaxBFSPathLen - 1)) 4.

Record CuckooPathQueue := MkQueue {
  queue_ : list CuckooPathEntry;
  head_ : Z;
  tail_ : Z;
}.

Definition push_back (q : CuckooPathQueue) (e : CuckooPathEntry) : res CuckooPathQueue :=
  l ← wr (queue_ q) (tail_ q) e;
  Ok (MkQueue l (head_ q) ((tail_ q + 1) mod kMaxQueueSize)).

(** [pop_front] returns a copy of the entry. *)
Definition pop_front (q : CuckooPathQueue) : res (CuckooPathEntry * CuckooPathQueue) :=
  e ← rd (queue_ q) (head_ q);
  Ok (e, MkQueue (queue_ q) ((head_ q + 1) mod kMaxQueueSize) (tail_ q)).

Definition queue_empty (q : CuckooPathQueue) : bool := head_ q =? tail_ q.
Definition queue_full (q : CuckooPathQueue) : bool := (tail_ q + 1) mod kMaxQueueSize =? head_ q.
Definition queue_reset (q : CuckooPathQueue) : CuckooPathQueue := MkQueue (queue_ q) 0 0.

(** ** The table *)

Record PathEntry := MkPath {
  p_status : Z;
  bid : Z;
  sid : Z;
  newSeed : Z;
  slot_move : list Z;   (* s0, s1, s2, s3 *)
  locatorCC : list Z;
}.

(** [LudoUpdateResult] *)
Record UpdateResult := MkUR { u_status : Z; u_path : list PathEntry }.

Definition no_update : UpdateResult := MkUR 0 [].

Section table.
Context {L : Type} `{!Locator L}.

Record ControlPlaneLudo := MkCP {
  num_buckets_ : Z;
  cp_h : Z;              (* the seed of h *)
  cp_digestH : Z;
  nKeys : Z;
  cp_locator : L;
  buckets_ : list Bucket;
  oldBuckets : list Bucket;
  capacity : Z;
  integrity : bool;
  rand_pos : nat;        (* how many values of rand() were used *)
}.

Definition with_buckets l t := MkCP (num_buckets_ t) (cp_h t) (cp_digestH t) (nKeys t)
  (cp_locator t) l (oldBuckets t) (capacity t) (integrity t) (rand_pos t).
Definition with_locator o t := MkCP (num_buckets_ t) (cp_h t) (cp_digestH t) (nKeys t)
  o (buckets_ t) (oldBuckets t) (capacity t) (integrity t) (rand_pos t).
Definition with_nKeys n t := MkCP (num_buckets_ t) (cp_h t) (cp_digestH t) n
  (cp_locator t) (buckets_ t) (oldBuckets t) (capacity t) (integrity t) (rand_pos t).
Definition with_size nb cap t := MkCP nb (cp_h t) (cp_digestH t) (nKeys t)
  (cp_locator t) (buckets_ t) (oldBuckets t) cap (integrity t) (rand_pos t).
Definition with_integrity i t := MkCP (num_buckets_ t) (cp_h t) (cp_digestH t) (nKeys t)
  (cp_locator t) (buckets_ t) (oldBuckets t) (capacity t) i (rand_pos t).
Definition with_oldBuckets l t := MkCP (num_buckets_ t) (cp_h t) (cp_digestH t) (nKeys t)
  (cp_locator t) (buckets_ t) l (capacity t) (integrity t) (rand_pos t).
Definition with_h h n t := MkCP (num_buckets_ t) h (cp_digestH t) (nKeys t)
  (cp_locator t) (buckets_ t) (oldBuckets t) (capacity t) (integrity t) n.

(** [fast_map_to_buckets(h(k), buckets, buckets_.size())] *)
Definition candidates (t : ControlPlaneLudo) (k : Z) : res (Z * Z) :=
  fast_map_to_buckets (FastHasher64 (cp_h t) k) (u32 (Z.of_nat (length (buckets_ t)))).

(** *** Lookups *)

(** The first of the buckets [bs] that holds [k], with its slot. *)
Fixpoint find_key (bs : list Z) (k : Z) (t : ControlPlaneLudo) : res (option (Z * Z)) :=
  match bs with
  | [] => Ok None
  | b :: bs =>
      bucket ← rd (buckets_ t) b;
      found ← find_slot slots k bucket;
      match found with Some s => Ok (Some (b, s)) | None => find_key bs k t end
  end.

Definition find_item (t : ControlPlaneLudo) (k : Z) : res (option (Z * Z)) :=
  '(b0, b1) ← candidates t k; find_key [b0; b1] k t.

(** Both components are [(uint32_t) -1] when the key is absent. *)
Definition locate (t : ControlPlaneLudo) (k : Z) : res (Z * Z) :=
  found ← find_item t k;
  match found with Some p => Ok p | None => Ok (mask 32, mask 32) end.

Definition isMember (t : ControlPlaneLudo) (k : Z) : res bool :=
  found ← find_item t k; Ok (match found with Some _ => true | None => false end).

Definition cp_lookUp (t : ControlPlaneLudo) (k : Z) : res (option Z) :=
  found ← find_item t k;
  match found with
  | Some (b, s) => bucket ← rd (buckets_ t) b; v ← rd (b_values bucket) s; Ok (Some v)
  | None => Ok None
  end.

(** [toMap], as the list of pairs in bucket and slot order. *)
Fixpoint bucket_items (sl : list Z) (b : Bucket) : res (list (Z * Z)) :=
  match sl with
  | [] => Ok []
  | s :: sl =>
      if occupied b s then
        k ← rd (b_keys b) s; v ← rd (b_values b) s; l ← bucket_items sl b; Ok ((k, v) :: l)
      else bucket_items sl b
  end.

Definition toMap (t : ControlPlaneLudo) : res (list (Z * Z)) :=
  ls ← mapM (bucket_items slots) (buckets_ t); Ok (concat ls).

(** *** Seeds *)

Definition updateSeed (t : ControlPlaneLudo) (bktIdx : Z) (withDp : bool) (slotWithNewKey : Z)
    : res (ControlPlaneLudo * Z * list Z) :=
  b ← rd (buckets_ t) bktIdx;
  '(b', seed, moves) ← update_bucket_seed b withDp slotWithNewKey;
  l ← wr (buckets_ t) bktIdx b';
  Ok (with_buckets l t, seed, moves).

(** *** Removal and change of a value *)

Definition remove (t : ControlPlaneLudo) (k : Z) : res (ControlPlaneLudo * UpdateResult) :=
  found ← find_item t k;
  match found with
  | Some (b, s) =>
      bucket ← rd (buckets_ t) b;
      l ← wr (buckets_ t) b (toggle_occupied bucket s);
      o ← loc_remove (cp_locator t) k;
      Ok (with_nKeys (u32 (nKeys t - 1)) (with_locator o (with_buckets l t)), no_update)
  | None => Ok (t, no_update)
  end.

Definition changeValue (t : ControlPlaneLudo) (k v : Z) : res (ControlPlaneLudo * UpdateResult) :=
  found ← find_item t k;
  match found with
  | Some (b, s) =>
      bucket ← rd (buckets_ t) b;
      bucket' ← set_value bucket s v;
      l ← wr (buckets_ t) b bucket';
      Ok (with_buckets l t,
          MkUR 0 [MkPath 0 b (slot_of (b_seed bucket) k) 0 [0; 0; 0; 0] []])
  | None => Ok (t, no_update)
  end.

(** [SelfCompose]: a value is translated, or its item dropped. *)
Definition compose_slot (trans : gmap Z Z) (i : Z) (t : ControlPlaneLudo) (slot : Z)
    : res ControlPlaneLudo :=
  b ← rd (buckets_ t) i;
  if negb (occupied b slot) then Ok t
  else
    v ← rd (b_values b) slot;
    match trans !! v with
    | Some v' =>
        b' ← set_value b slot v'; l ← wr (buckets_ t) i b'; Ok (with_buckets l t)
    | None =>
        l ← wr (buckets_ t) i
          (set_mask b (u8 (Z.land (occupiedMask b) (Z.lnot (Z.shiftl 1 slot)))));
        Ok (with_nKeys (u32 (nKeys t - 1)) (with_buckets l t))
    end.

Definition SelfCompose (trans : gmap Z Z) (t : ControlPlaneLudo) : res ControlPlaneLudo :=
  foldM (fun t i => foldM (compose_slot trans (Z.of_nat i)) slots t)
    (seq 0 (Z.to_nat (num_buckets_ t))) t.

(** *** Placing and moving an item *)

Definition registerKey (o : L) (k bi : Z) (online : bool) : res (OthelloUpdateResult * L) :=
  member ← loc_isMember o k;
  if member : bool then
    w ← loc_lookUp o k;
    if w =? bi then Ok (MkOUR 0 0 (-1, -1) [], o) else loc_changeValue o k bi
  else loc_insert o k bi online.

(** [path] is [None] for the null pointer. *)
Definition putItem (t : ControlPlaneLudo) (k v b slot : Z) (toFirstBucket : bool)
    (path : option (list PathEntry))
    : res (ControlPlaneLudo * option (list PathEntry) * bool) :=
  '(result, o) ← registerKey (cp_locator t) k (if toFirstBucket then 0 else 1)
                   (match path with Some _ => true | None => false end);
  let t := with_locator o t in
  if o_status result <? 0 then Ok (t, path, false)
  else
    bucket ← rd (buckets_ t) b;
    bucket' ← set_item bucket slot k v;
    l ← wr (buckets_ t) b (set_occupied bucket' slot);
    '(t', seed, moves) ← updateSeed (with_buckets l t) b
                           (match path with Some _ => true | None => false end) slot;
    match path with
    | None => Ok (t', None, true)
    | Some path =>
        cc ← (if xorTemplate result =? 0 then Ok []
              else loc_getHalfTree o k (0 <? xorTemplate result));
        let st := if o_status result =? 0 then Z.of_nat (length cc)
                  else -2 + (if toFirstBucket then 1 else 0) in
        Ok (t', Some (path ++ [MkPath st b (slot_of seed k) seed moves cc]), true)
    end.

Definition moveItem (t : ControlPlaneLudo) (sBkt sSlot dBkt dSlot : Z)
    (path : option (list PathEntry)) : res (ControlPlaneLudo * option (list PathEntry)) :=
  src ← rd (buckets_ t) sBkt;
  k ← rd (b_keys src) sSlot; v ← rd (b_values src) sSlot;
  dst ← rd (buckets_ t) dBkt;
  dst' ← set_item dst dSlot k v;
  l ← wr (buckets_ t) dBkt dst';
  '(result, o) ← loc_toggleInOthello (cp_locator t) k;
  _ ← guard_ok (o_status result =? 0) AssertFailed;
  '(t', seed, moves) ← updateSeed (with_locator o (with_buckets l t)) dBkt
                         (match path with Some _ => true | None => false end) dSlot;
  match path with
  | None => Ok (t', None)
  | Some path =>
      cc ← loc_getHalfTree o k (0 <? xorTemplate result);
      Ok (t', Some (path ++ [MkPath (Z.of_nat (length cc)) dBkt (slot_of seed k) seed moves cc]))
  end.

(** *** The cuckoo search *)

(** The entries that the expansion of [entry] pushes for one slot. *)
Definition push_alternatives (t : ControlPlaneLudo) (bucket : Bucket) (entry : CuckooPathEntry)
    (parent_index : Z) (q : CuckooPathQueue) (i : Z) : res CuckooPathQueue :=
  let slot := (u32 (e_depth entry + e_bucket entry) mod kSlotsPerBucket + i) mod kSlotsPerBucket in
  k ← rd (b_keys bucket) slot;
  '(b0, b1) ← candidates t k;
  foldM (fun q b => if b =? e_bucket entry then Ok q
                    else push_back q (MkEntry b (e_depth entry + 1) parent_index slot))
    [b0; b1] q.

(** The loop of [CuckooInsert]: the first entry whose bucket has a free slot,
    that slot, and the visited list; [None] when the queue runs empty. *)
Fixpoint cuckoo_search (fuel : nat) (t : ControlPlaneLudo) (q : CuckooPathQueue)
    (visited : list CuckooPathEntry) (visited_end : Z)
    : res (option (CuckooPathEntry * Z * list CuckooPathEntry)) :=
  match fuel with
  | O => Err OutOfFuel
  | S fuel =>
      if queue_empty q then Ok None
      else
        '(entry, q) ← pop_front q;
        bucket ← rd (buckets_ t) (e_bucket entry);
        let free_slot := FindFreeSlot bucket in
        if negb (free_slot =? -1) then Ok (Some (entry, free_slot, visited))
        else if e_depth entry <? kMaxBFSPathLen then
          let visited_end := visited_end + 1 in
          visited ← wr visited visited_end entry;
          q ← foldM (push_alternatives t bucket entry visited_end) slots q;
          cuckoo_search fuel t q visited visited_end
        else cuckoo_search fuel t q visited visited_end
  end.

(** The [while (entry.depth > 1)] loop. *)
Fixpoint follow_path (fuel : nat) (t : ControlPlaneLudo) (visited : list CuckooPathEntry)
    (entry : CuckooPathEntry) (free_slot : Z) (toFirstBucket : bool)
    (path : option (list PathEntry))
    : res (ControlPlaneLudo * CuckooPathEntry * Z * bool * option (list PathEntry)) :=
  if 1 <? e_depth entry then
    match fuel with
    | O => Err OutOfFuel
    | S fuel =>
        parent ← rd visited (e_parent entry);
        let toFirstBucket := if e_depth entry =? 2 then e_parent entry =? 0 else toFirstBucket in
        '(t', path') ← moveItem t (e_bucket parent) (e_parent_slot entry) (e_bucket entry)
                         free_slot path;
        follow_path fuel t' visited parent (e_parent_slot entry) toFirstBucket path'
    end
  else Ok (t, entry, free_slot, toFirstBucket, path).

Definition blank_entry : CuckooPathEntry := MkEntry 0 0 0 0.

(** The roots: both buckets at depth 1. *)
Definition root_queue (b0 b1 : Z) : res CuckooPathQueue :=
  foldM (fun q b => push_back q (MkEntry b 1 (-1) (-1))) [b0; b1]
    (MkQueue (replicate (Z.to_nat kMaxQueueSize) blank_entry) 0 0).

(** A popped entry per iteration. *)
Definition search_fuel : nat := Z.to_nat kMaxQueueSize.

Definition find_path (t : ControlPlaneLudo) (k : Z)
    : res (option (CuckooPathEntry * Z * list CuckooPathEntry)) :=
  '(b0, b1) ← candidates t k;
  q ← root_queue b0 b1;
  cuckoo_search search_fuel t q (replicate (Z.to_nat kVisitedListSize) blank_entry) (-1).

(** [CuckooInsert] once a path is found. *)
Definition insert_along (t : ControlPlaneLudo) (k v : Z) (entry : CuckooPathEntry)
    (free_slot : Z) (visited : list CuckooPathEntry) (online : bool)
    : res (ControlPlaneLudo * UpdateResult) :=
  bucket ← rd (buckets_ t) (e_bucket entry);
  l ← wr (buckets_ t) (e_bucket entry) (set_occupied bucket free_slot);
  '(t1, root, slot, toFirst, path) ←
    follow_path (Z.to_nat kMaxBFSPathLen) (with_buckets l t) visited entry free_slot false
      (if online then Some [] else None);
  '(t2, path2, succ) ← putItem t1 k v (e_bucket root) slot toFirst path;
  Ok (t2, MkUR (if succ : bool then 0 else -1) (default [] path2)).

(** *** Growing by a power of two *)

Definition power_slot (i : Z) (t : ControlPlaneLudo) (slot : Z) : res ControlPlaneLudo :=
  b ← rd (buckets_ t) i;
  if negb (occupied b slot) then Ok t
  else
    key ← rd (b_keys b) slot; value ← rd (b_values b) slot;
    '(b0, b1) ← fast_map_to_buckets (FastHasher64 (cp_h t) key) (num_buckets_ t);
    w ← loc_lookUp (cp_locator t) key;
    bi ← rd [b0; b1] w;
    if bi =? i then Ok t
    else
      l ← wr (buckets_ t) i (toggle_occupied b slot);
      dst ← rd l bi;
      dst' ← set_item (set_occupied dst slot) slot key value;
      l' ← wr l bi dst';
      '(t', _, _) ← updateSeed (with_buckets l' t) bi false (-1);
      Ok t'.

Definition powerSize (t : ControlPlaneLudo) (times : Z) : res ControlPlaneLudo :=
  let oldSize := num_buckets_ t / times in
  let l := resize (Z.to_nat (num_buckets_ t)) empty_bucket (buckets_ t) in
  o ← loc_resizeCapacity (cp_locator t) (capacity t);
  foldM (fun t i => foldM (power_slot (Z.of_nat i)) slots t) (seq 0 (Z.to_nat oldSize))
    (with_locator o (with_buckets l t)).

(** *** Rebuilding *)

Section rebuild.
Context (rnd : nat -> Z).
Context (insert_rec : ControlPlaneLudo -> Z -> Z -> bool -> res (ControlPlaneLudo * UpdateResult)).
Context (resizeCapacity_rec : ControlPlaneLudo -> Z -> bool -> res ControlPlaneLudo).

(** One item of [oldBuckets] is inserted again.  The loop iterates over
    [oldBuckets] itself: an insertion that replaces it by a vector of another
    length leaves dangling iterators. *)
Definition rebuild_slot (i : Z) (st : ControlPlaneLudo * bool) (slot : Z)
    : res (ControlPlaneLudo * bool) :=
  let '(t, succ) := st in
  b ← rd (oldBuckets t) i;
  if occupied b slot then
    k ← rd (b_keys b) slot; v ← rd (b_values b) slot;
    '(t', result) ← insert_rec t k v false;
    _ ← guard_ok (bool_decide (length (oldBuckets t') = length (oldBuckets t))) OutOfBounds;
    Ok (t', if u_status result <? 0 then false else succ)
  else Ok st.

Definition tryBuild (t : ControlPlaneLudo) : res (ControlPlaneLudo * bool) :=
  let t0 := with_nKeys 0 (with_locator (loc_clear (cp_locator t))
              (with_buckets ((fun b => set_mask b 0) <$> buckets_ t) t)) in
  '(t', succ) ←
    foldM (fun st i => if snd st : bool then foldM (rebuild_slot (Z.of_nat i)) slots st else Ok st)
      (seq 0 (length (oldBuckets t0))) (t0, true);
  Ok (with_integrity succ t', succ).

(** [do ... while (!built && tryCount < MAX_REHASH)] *)
Fixpoint try_hashes (tries : nat) (t : ControlPlaneLudo) : res (ControlPlaneLudo * bool) :=
  match tries with
  | O => Ok (t, false)
  | S tries =>
      let h := Z.lor (u64 (Z.shiftl (rnd (rand_pos t)) 32)) (rnd (S (rand_pos t))) in
      '(t', built) ← tryBuild (with_h h (rand_pos t + 2)%nat t);
      if built : bool then Ok (t', true) else try_hashes tries t'
  end.

Fixpoint build (fuel : nat) (t : ControlPlaneLudo) : res ControlPlaneLudo :=
  match fuel with
  | O => Err OutOfFuel
  | S fuel =>
      '(t', built) ← try_hashes MAX_REHASH t;
      if built : bool then Ok t'
      else t'' ← resizeCapacity_rec t' (u32 (capacity t' + 1)) true; build fuel t''
  end.

Definition resizeCapacity_body (fuel : nat) (t : ControlPlaneLudo) (targetCapacity : Z)
    (forceBuild : bool) : res ControlPlaneLudo :=
  let targetCapacity := Z.max (nKeys t) (Z.max targetCapacity 256) in
  let nextNbuckets := grow_buckets 64 64 targetCapacity in
  let nextCapacity := load_capacity nextNbuckets in
  let shrink := nextNbuckets <? num_buckets_ t in
  let enlarge := num_buckets_ t <? nextNbuckets in
  let times := if enlarge then nextNbuckets / num_buckets_ t else num_buckets_ t / nextNbuckets in
  let t := with_size (u32 nextNbuckets) (u32 nextCapacity) t in
  if enlarge && integrity t then powerSize t times
  else
    o ← loc_resizeCapacity (cp_locator t) (capacity t);
    let t := with_locator o (with_oldBuckets (buckets_ t) (with_integrity false t)) in
    let t := with_buckets (resize (Z.to_nat (num_buckets_ t)) empty_bucket (buckets_ t)) t in
    if 2 ^ 30 <=? num_buckets_ t then Err Thrown
    else if forceBuild || enlarge || shrink then build fuel t else Ok t.

(** The first free slot of the candidate buckets, in order. *)
Fixpoint free_position (bs : list Z) (t : ControlPlaneLudo) : res (option (Z * Z)) :=
  match bs with
  | [] => Ok None
  | b :: bs =>
      bucket ← rd (buckets_ t) b;
      let s := FindFreeSlot bucket in
      if s =? -1 then free_position bs t else Ok (Some (b, s))
  end.

Definition CuckooInsert (t : ControlPlaneLudo) (k v : Z) (online : bool)
    : res (ControlPlaneLudo * UpdateResult) :=
  found ← find_path t k;
  match found with
  | Some (entry, free_slot, visited) => insert_along t k v entry free_slot visited online
  | None =>
      if online then Ok (t, MkUR (-2) [])
      else
        t' ← resizeCapacity_rec t (u32 (nKeys t + 1)) true;
        '(t'', result) ← insert_rec t' k v false;
        Ok (t'', MkUR 2 (u_path result))
  end.

Definition insert_body (t : ControlPlaneLudo) (k v : Z) (online : bool)
    : res (ControlPlaneLudo * UpdateResult) :=
  member ← isMember t k;
  if member : bool then changeValue t k v
  else if capacity t <? u32 (nKeys t + 1) then
    if online then Ok (t, MkUR (-2) [])
    else
      t' ← resizeCapacity_rec t (u32 (nKeys t + 1)) true;
      '(t'', result) ← insert_rec t' k v false;
      if u_status result <? 0 then Err Thrown else Ok (t'', MkUR 2 (u_path result))
  else
    '(b0, b1) ← candidates t k;
    target ← free_position [b0; b1] t;
    '(t', result) ←
      match target with
      | Some (b, s) =>
          '(t', path, succ) ← putItem t k v b s (b =? b0) (if online then Some [] else None);
          Ok (t', MkUR (if succ : bool then 0 else -1) (default [] path))
      | None => CuckooInsert t k v online
      end;
    if 0 <=? u_status result then Ok (with_nKeys (u32 (nKeys t' + 1)) t', result)
    else Ok (t', result).
End rebuild.

(** [insert] and [resizeCapacity] call each other; [fuel] bounds the depth. *)
Fixpoint insert (rnd : nat -> Z) (fuel : nat) (t : ControlPlaneLudo) (k v : Z) (online : bool)
    : res (ControlPlaneLudo * UpdateResult) :=
  match fuel with
  | O => Err OutOfFuel
  | S fuel => insert_body (insert rnd fuel) (resizeCapacity rnd fuel) t k v online
  end
with resizeCapacity (rnd : nat -> Z) (fuel : nat) (t : ControlPlaneLudo) (target : Z)
    (forceBuild : bool) : res ControlPlaneLudo :=
  match fuel with
  | O => Err OutOfFuel
  | S fuel =>
      resizeCapacity_body rnd (insert rnd fuel) (resizeCapacity rnd fuel) fuel t target forceBuild
  end.

(** The constructor without initial items; [o] is [locator(1U, true)]. *)
Definition default_hash_seed : Z := 0xe2211e2211.

Definition new_table (o : L) (capacity_ : Z) : res ControlPlaneLudo :=
  let nb := grow_buckets 32 64 capacity_ in
  o' ← loc_resizeCapacity o 0;
  Ok (MkCP nb default_hash_seed default_hash_seed 0 o'
        (replicate (Z.to_nat nb) empty_bucket) [] (load_capacity nb) true 0).

(** [Merge]; [isValid] decides which items are inserted. *)
Definition Merge (rnd : nat -> Z) (fuel : nat) (isValid : Z -> bool) (t : ControlPlaneLudo)
    (items : list (Z * Z)) : res ControlPlaneLudo :=
  foldM (fun t p => if isValid (snd p)
                    then '(t', _) ← insert rnd fuel t (fst p) (snd p) false; Ok t'
                    else '(t', _) ← remove t (fst p); Ok t') items t.
End table.
Arguments ControlPlaneLudo : clear implicits.
