(* ===== verification/LudoInv.v ===== *)
(** * The invariant of the Ludo table

    Laws of buckets, of the seed search and of the two candidate buckets; the
    contract of the locator; well-formed tables, their contents, and how the
    replacement of a bucket changes both. *)

From Stdlib Require Import ZArith Lia.
From stdpp Require Import base numbers gmap list.
From S2P Require Import Prelude Words Hash LudoSlot ServerRdma ServerInv LudoTable.

#[local] Open Scope Z_scope.

(** ** Buckets *)

(** [k] with value [v] is in slot [s] of [b]. *)
Definition item (b : Bucket) (s k v : Z) : Prop :=
  0 <= s < 4 /\ occupied b s = true /\ rd (b_keys b) s = Ok k /\ rd (b_values b) s = Ok v.

(** The seed puts the keys of the bucket into different slots. *)
Definition bucket_sep (seed : Z) (b : Bucket) : Prop :=
  forall s s' k k' v v', item b s k v -> item b s' k' v' ->
    slot_of seed k = slot_of seed k' -> s = s'.

Record shape (b : Bucket) : Prop := {
  shape_keys : length (b_keys b) = 4%nat;
  shape_values : length (b_values b) = 4%nat;
  shape_mask : is_word 4 (occupiedMask b);
}.

Record bucket_ok (b : Bucket) : Prop := {
  ok_shape : shape b;
  ok_seed : 0 <= b_seed b < 255;
  ok_sep : bucket_sep (b_seed b) b;
}.

Lemma elem_of_slots s : s ∈ slots <-> 0 <= s < 4.
Proof. unfold slots. set_unfold. lia. Qed.

Lemma slots_range : Forall (fun s => 0 <= s < 4) slots.
Proof. apply Forall_forall. intros s. apply elem_of_slots. Qed.

Lemma shape_item b s : shape b -> 0 <= s < 4 -> occupied b s = true ->
  exists k v, item b s k v.
Proof.
  intros [Hk Hv _] Hs Ho.
  destruct (rd_in_range (b_keys b) s) as [k ?]; [lia|].
  destruct (rd_in_range (b_values b) s) as [v ?]; [lia|]. by exists k, v.
Qed.

Lemma item_fun b s k v k' v' : item b s k v -> item b s k' v' -> k = k' /\ v = v'.
Proof. unfold item. intros (_ & _ & ? & ?) (_ & _ & ? & ?). split; congruence. Qed.

(** A separated bucket holds a key at most once. *)
Lemma item_unique b s s' k v v' : bucket_sep (b_seed b) b ->
  item b s k v -> item b s' k v' -> s = s' /\ v = v'.
Proof.
  intros Hsep H H'. assert (s = s') as <- by (by eapply Hsep).
  split; [done|]. by eapply item_fun.
Qed.

Lemma find_slot_spec sl k b : shape b -> Forall (fun s => 0 <= s < 4) sl ->
  exists r, find_slot sl k b = Ok r /\
  match r with
  | Some s => s ∈ sl /\ exists v, item b s k v
  | None => forall s v, s ∈ sl -> ~ item b s k v
  end.
Proof.
  intros Hb. induction sl as [|s sl IH]; intros Hsl; cbn [find_slot].
  { exists None. split; [done|]. set_solver. }
  apply Forall_cons in Hsl as [Hs Hsl]. destruct (IH Hsl) as (r & -> & Hr).
  destruct (occupied b s) eqn:Ho.
  - destruct (shape_item b s Hb Hs Ho) as (k' & v & Hi).
    pose proof Hi as (_ & _ & -> & _). cbn [mbind res_bind].
    destruct (Z.eqb_spec k' k) as [->|Hne].
    + exists (Some s). split; [done|]. split; [set_solver|eauto].
    + exists r. split; [done|]. destruct r as [s'|]; [set_solver|].
      intros s' v' [->|Hin]%elem_of_cons Hi'; [|by eapply Hr].
      destruct (item_fun _ _ _ _ _ _ Hi Hi'). congruence.
  - exists r. split; [done|]. destruct r as [s'|]; [set_solver|].
    intros s' v' [->|Hin]%elem_of_cons Hi'; [|by eapply Hr].
    destruct Hi' as (_ & ? & _). congruence.
Qed.

Lemma FindFreeSlot_spec b :
  (FindFreeSlot b = -1 /\ forall s, 0 <= s < 4 -> occupied b s = true) \/
  (0 <= FindFreeSlot b < 4 /\ occupied b (FindFreeSlot b) = false).
Proof.
  unfold FindFreeSlot, slots, free_slot_from.
  destruct (occupied b 0) eqn:?, (occupied b 1) eqn:?, (occupied b 2) eqn:?,
    (occupied b 3) eqn:?; cbn [negb];
    (right; split; [lia|done]) || (left; split; [done|]); intros s Hs;
    assert (s = 0 \/ s = 1 \/ s = 2 \/ s = 3) as [->|[->|[->| ->]]] by lia; done.
Qed.

(** [occupied_keys] lists the keys, and its separation is the bucket's. *)
Lemma occupied_keys_from_spec seed sl b : shape b -> Forall (fun s => 0 <= s < 4) sl -> NoDup sl ->
  exists ks, occupied_keys_from sl b = Ok ks /\
    (forall k, k ∈ ks <-> exists s v, s ∈ sl /\ item b s k v) /\
    (separates seed ks <-> forall s s' k k' v v', s ∈ sl -> s' ∈ sl ->
       item b s k v -> item b s' k' v' -> slot_of seed k = slot_of seed k' -> s = s').
Proof.
  intros Hb. induction sl as [|s sl IH]; intros Hsl Hnd; cbn [occupied_keys_from].
  { exists []. split; [done|]. split.
    - intros k. split; [by intros ?%not_elem_of_nil|]. by intros (s & v & ?%not_elem_of_nil & _).
    - split; [|constructor]. by intros _ s s' k k' v v' ?%not_elem_of_nil. }
  apply Forall_cons in Hsl as [Hs Hsl]. apply NoDup_cons in Hnd as [Hni Hnd].
  destruct (IH Hsl Hnd) as (ks & Hks & Hel & Hsep). destruct (occupied b s) eqn:Ho.
  2:{ exists ks. split; [done|].
      assert (Hno : forall k v, ~ item b s k v) by (intros k v (_ & ? & _); congruence).
      split.
      - intros k. rewrite Hel. split.
        + intros (s' & v & ? & ?). exists s', v. split; [set_solver|done].
        + intros (s' & v & [->|Hin]%elem_of_cons & Hi); [by apply Hno in Hi|eauto].
      - rewrite Hsep. split; intros H s1 s2 k1 k2 v1 v2 H1 H2 Hi1 Hi2.
        + apply elem_of_cons in H1 as [->|H1]; [by apply Hno in Hi1|].
          apply elem_of_cons in H2 as [->|H2]; [by apply Hno in Hi2|]. by apply (H s1 s2 k1 k2 v1 v2).
        + apply (H s1 s2 k1 k2 v1 v2); [by apply list_elem_of_further..|done|done]. }
  destruct (shape_item b s Hb Hs Ho) as (k0 & v0 & Hi0).
  pose proof Hi0 as (_ & _ & -> & _). rewrite Hks. cbn [mbind res_bind].
  exists (k0 :: ks). split; [done|]. split.
  - intros k. rewrite elem_of_cons, Hel. split.
    + intros [->|(s' & v & ? & ?)]; [exists s, v0|exists s', v]; (split; [set_solver|done]).
    + intros (s' & v & [->|Hin]%elem_of_cons & Hi); [|eauto].
      left. by destruct (item_fun _ _ _ _ _ _ Hi Hi0).
  - unfold separates in *. rewrite fmap_cons, NoDup_cons, Hsep. split.
    + intros [Hn H] s1 s2 k1 k2 v1 v2 H1 H2 Hi1 Hi2 E.
      apply elem_of_cons in H1 as [->|H1]; apply elem_of_cons in H2 as [->|H2]; [done|..].
      * exfalso. apply Hn. destruct (item_fun _ _ _ _ _ _ Hi1 Hi0) as [-> _].
        rewrite E. apply list_elem_of_fmap_2, Hel. eauto.
      * exfalso. apply Hn. destruct (item_fun _ _ _ _ _ _ Hi2 Hi0) as [-> _].
        rewrite <-E. apply list_elem_of_fmap_2, Hel. eauto.
      * by apply (H s1 s2 k1 k2 v1 v2).
    + intros H. split.
      * intros (k & E & Hk)%list_elem_of_fmap. apply Hel in Hk as (s' & v & Hin & Hi).
        assert (s = s') as ->; [|done].
        apply (H s s' k0 k v0 v); [apply list_elem_of_here|by apply list_elem_of_further|done..].
      * intros s1 s2 k1 k2 v1 v2 H1 H2 Hi1 Hi2.
        apply (H s1 s2 k1 k2 v1 v2); [by apply list_elem_of_further..|done|done].
Qed.

Lemma occupied_keys_spec seed b : shape b -> exists ks, occupied_keys b = Ok ks /\
  (forall k, k ∈ ks <-> exists s v, item b s k v) /\ (separates seed ks <-> bucket_sep seed b).
Proof.
  intros Hb. destruct (occupied_keys_from_spec seed slots b Hb slots_range) as (ks & E & Hel & Hsep).
  { unfold slots. repeat constructor; set_solver. }
  exists ks. split; [done|]. split.
  - intros k. rewrite Hel. split; [intros (s & v & _ & Hi); eauto|]. intros (s & v & Hi). exists s, v.
    split; [|done]. apply elem_of_slots. by destruct Hi.
  - rewrite Hsep. unfold bucket_sep. split; [|eauto].
    intros H s s' k k' v v' Hi Hi'. eapply H; [..|done|done]; apply elem_of_slots;
      [by destruct Hi|by destruct Hi'].
Qed.

(** The seed search on a bucket: the least separating seed below 255, or the
    exception. *)
Lemma update_bucket_seed_spec b slot : shape b ->
  (exists seed, update_bucket_seed b false slot = Ok (set_seed b seed, seed, []) /\
     0 <= seed < 255 /\ bucket_sep seed b /\
     forall seed', 0 <= seed' < seed -> ~ bucket_sep seed' b) \/
  (update_bucket_seed b false slot = Err Thrown /\
     forall seed, 0 <= seed < 255 -> ~ bucket_sep seed b).
Proof.
  intros Hb. destruct (occupied_keys_spec 0 b Hb) as (ks & Hks & _).
  assert (Hsep : forall seed, separates seed ks <-> bucket_sep seed b).
  { intros seed. destruct (occupied_keys_spec seed b Hb) as (ks' & Hks' & _ & H).
    by assert (ks' = ks) as -> by congruence. }
  unfold update_bucket_seed. rewrite Hks. cbn [mbind res_bind].
  destruct (find_seed_spec 256 0 ks) as (r & -> & Hr); [lia..|]. cbn [mbind res_bind].
  destruct r as [seed|].
  - left. exists seed. destruct Hr as (? & ? & Hmin). split; [done|]. split; [done|].
    split; [by apply Hsep|]. intros seed' ?. rewrite <-Hsep. by apply Hmin.
  - right. split; [done|]. intros seed ?. rewrite <-Hsep. by apply Hr.
Qed.

(** *** Changes of a bucket *)

Lemma occupied_set_item b s k v b' : set_item b s k v = Ok b' ->
  occupiedMask b' = occupiedMask b /\ b_seed b' = b_seed b.
Proof. unfold set_item. intros H. by res_inv. Qed.

Lemma mask_bit_cases n s : 0 <= s < 4 -> is_word 4 n ->
  is_word 4 (u8 (Z.lor n (Z.shiftl 1 s))) /\ is_word 4 (u8 (Z.lxor n (Z.shiftl 1 s))) /\
  forall j, 0 <= j < 4 ->
    Z.testbit (u8 (Z.lor n (Z.shiftl 1 s))) j = (j =? s) || Z.testbit n j /\
    Z.testbit (u8 (Z.lxor n (Z.shiftl 1 s))) j = xorb (j =? s) (Z.testbit n j).
Proof.
  intros Hs Hn. unfold is_word in Hn.
  assert (n ∈ seqZ 0 16) as Hin by (apply elem_of_seqZ; lia).
  assert (s ∈ seqZ 0 4) as Hins by (apply elem_of_seqZ; lia).
  assert (Forall (fun n => Forall (fun s =>
    (0 <= u8 (Z.lor n (Z.shiftl 1 s)) < 16 /\ 0 <= u8 (Z.lxor n (Z.shiftl 1 s)) < 16) /\
    Forall (fun j => Z.testbit (u8 (Z.lor n (Z.shiftl 1 s))) j = (j =? s) || Z.testbit n j /\
      Z.testbit (u8 (Z.lxor n (Z.shiftl 1 s))) j = xorb (j =? s) (Z.testbit n j)) (seqZ 0 4))
    (seqZ 0 4)) (seqZ 0 16)) as H by (repeat constructor; vm_compute; done).
  eapply Forall_forall in H; [|done]. eapply Forall_forall in H; [|done].
  destruct H as [H1 H2]. split; [apply H1|]. split; [apply H1|].
  intros j Hj. eapply Forall_forall in H2; [exact H2|]. apply elem_of_seqZ. lia.
Qed.

Section bucket_changes.
Context (b : Bucket) (Hb : shape b).

Lemma set_occupied_shape s : 0 <= s < 4 -> shape (set_occupied b s).
Proof.
  intros Hs. destruct Hb as [H1 H2 H3]. constructor; [done|done|].
  by apply (mask_bit_cases (occupiedMask b) s).
Qed.

Lemma toggle_occupied_shape s : 0 <= s < 4 -> shape (toggle_occupied b s).
Proof.
  intros Hs. destruct Hb as [H1 H2 H3]. constructor; [done|done|].
  by apply (mask_bit_cases (occupiedMask b) s).
Qed.

(** Removing the item of slot [s]. *)
Lemma toggle_occupied_item s s' k v : 0 <= s < 4 -> occupied b s = true ->
  item (toggle_occupied b s) s' k v <-> item b s' k v /\ s' <> s.
Proof.
  intros Hs Ho. unfold item, occupied, toggle_occupied in *. simpl.
  destruct (mask_bit_cases (occupiedMask b) s Hs (shape_mask b Hb)) as (_ & _ & Hbit).
  split.
  - intros (Hr & Ho' & ? & ?). destruct (Hbit s' Hr) as [_ E]. rewrite E in Ho'.
    destruct (Z.eqb_spec s' s) as [->|]; [by rewrite Ho in Ho'|]. done.
  - intros [(Hr & Ho' & ? & ?) Hne]. destruct (Hbit s' Hr) as [_ E]. rewrite E.
    destruct (Z.eqb_spec s' s); [done|]. by rewrite Ho'.
Qed.

(** Writing an item into slot [s]. *)
Lemma put_item_spec s k v : 0 <= s < 4 -> exists b', set_item b s k v = Ok b' /\
  shape (set_occupied b' s) /\ b_seed b' = b_seed b /\ occupiedMask b' = occupiedMask b /\
  forall s' k' v', item (set_occupied b' s) s' k' v' <->
    (s' = s /\ k' = k /\ v' = v) \/ (s' <> s /\ item b s' k' v').
Proof.
  intros Hs. destruct Hb as [H1 H2 H3]. unfold set_item.
  rewrite !wr_in_range by lia. cbn [mbind res_bind]. eexists. split; [reflexivity|].
  set (b' := MkBucket _ _ _ _).
  destruct (mask_bit_cases (occupiedMask b) s Hs H3) as (Hm & _ & Hbit).
  split; [constructor; simpl; rewrite ?length_insert; done|]. split; [done|]. split; [done|].
  assert (Hk := wr_in_range (b_keys b) s k ltac:(lia)).
  assert (Hv := wr_in_range (b_values b) s v ltac:(lia)).
  intros s' k' v'. unfold item, occupied, set_occupied. simpl. split.
  - intros (Hr & Ho & Hk' & Hv'). destruct (decide (s' = s)) as [->|Hne].
    + left. rewrite (rd_wr_eq _ _ _ _ Hk) in Hk'. rewrite (rd_wr_eq _ _ _ _ Hv) in Hv'.
      by apply Ok_inj in Hk' as <-; apply Ok_inj in Hv' as <-.
    + right. split; [done|]. destruct (Hbit s' Hr) as [E _]. rewrite E in Ho.
      destruct (Z.eqb_spec s' s); [done|]. simpl in Ho.
      rewrite (rd_wr_ne _ _ _ _ _ Hk) in Hk' by congruence.
      rewrite (rd_wr_ne _ _ _ _ _ Hv) in Hv' by congruence. done.
  - intros [(-> & -> & ->)|(Hne & Hr & Ho & Hk' & Hv')].
    + split; [done|]. destruct (Hbit s Hs) as [E _]. rewrite E, Z.eqb_refl.
      by rewrite (rd_wr_eq _ _ _ _ Hk), (rd_wr_eq _ _ _ _ Hv).
    + split; [done|]. destruct (Hbit s' Hr) as [E _]. rewrite E, Ho, orb_true_r.
      rewrite (rd_wr_ne _ _ _ _ _ Hk) by congruence.
      by rewrite (rd_wr_ne _ _ _ _ _ Hv) by congruence.
Qed.

Lemma set_value_spec s k v v' : item b s k v -> exists b', set_value b s v' = Ok b' /\
  shape b' /\ b_seed b' = b_seed b /\
  forall s1 k1 v1, item b' s1 k1 v1 <->
    (s1 = s /\ k1 = k /\ v1 = v') \/ (s1 <> s /\ item b s1 k1 v1).
Proof.
  intros (Hs & Ho & Hk & Hv). destruct Hb as [H1 H2 H3]. unfold set_value.
  rewrite wr_in_range by lia. cbn [mbind res_bind]. eexists. split; [reflexivity|].
  assert (Hw := wr_in_range (b_values b) s v' ltac:(lia)).
  split; [constructor; simpl; rewrite ?length_insert; done|]. split; [done|].
  intros s1 k1 v1. unfold item, occupied. simpl. destruct (decide (s1 = s)) as [->|Hne].
  - rewrite (rd_wr_eq _ _ _ _ Hw). split; [|naive_solver].
    intros (? & ? & Hk' & Hv'). left. apply Ok_inj in Hv' as <-. split; [done|]. split; congruence.
  - rewrite (rd_wr_ne _ _ _ _ _ Hw) by congruence. unfold occupied. naive_solver.
Qed.
End bucket_changes.

Lemma shape_set_seed b seed : shape (set_seed b seed) <-> shape b.
Proof. split; intros [? ? ?]; by constructor. Qed.

Lemma item_set_seed b seed s k v : item (set_seed b seed) s k v <-> item b s k v.
Proof. done. Qed.

Lemma empty_bucket_ok : bucket_ok empty_bucket.
Proof.
  assert (Hno : forall s, 0 <= s -> occupied empty_bucket s = false)
    by (intros; apply Z.bits_0).
  constructor; [constructor; [done..|unfold is_word; simpl; lia]|simpl; lia|].
  intros s s' k k' v v' (Hs & Ho & _). rewrite Hno in Ho; [done|lia].
Qed.

(** ** The two candidate buckets *)

(** Bucket [w] of key [k] in a table of [2 ^ j] buckets with hash seed [h]. *)
Definition cand (j h k w : Z) : Z :=
  (if w =? 0 then FastHasher64 h k else Z.shiftr (FastHasher64 h k) 32) mod 2 ^ j.

Lemma cand_range j h k w : 0 <= j -> 0 <= cand j h k w < 2 ^ j.
Proof. intros. apply Z.mod_pos_bound. by apply Z.pow_pos_nonneg; lia. Qed.

(** A bucket of the doubled table lies over the same bucket of the old one. *)
Lemma cand_mono j j' h k w : 0 <= j <= j' -> cand j' h k w mod 2 ^ j = cand j h k w.
Proof.
  intros Hj. unfold cand. apply Z.mod_mod_divide.
  exists (2 ^ (j' - j)). rewrite <-Z.pow_add_r by lia. f_equal. lia.
Qed.

Lemma fast_map_spec j x : 0 <= j <= 31 -> is_word 64 x ->
  fast_map_to_buckets x (2 ^ j) = Ok (x mod 2 ^ j, Z.shiftr x 32 mod 2 ^ j).
Proof.
  intros Hj Hx. unfold fast_map_to_buckets.
  assert (0 < 2 ^ j) by (by apply Z.pow_pos_nonneg; lia).
  assert (2 ^ j <= 2 ^ 31) by (by apply Z.pow_le_mono_r; lia).
  rewrite (wrap_id 32 (2 ^ j - 1)) by (unfold is_word; lia).
  replace (2 ^ j - 1) with (Z.ones j) by (rewrite Z.ones_equiv; lia).
  rewrite (Z.land_ones (2 ^ j)), Z.mod_same by lia. cbn [Z.eqb guard_ok mbind res_bind].
  rewrite !Z.land_ones by lia.
  pose proof (Z.mod_pos_bound x (2 ^ j)). pose proof (Z.mod_pos_bound (Z.shiftr x 32) (2 ^ j)).
  by rewrite !wrap_id by (unfold is_word; lia).
Qed.

(** ** The contract of the locator

    A map from its members to bits.  Only an online insertion may be refused;
    an offline one rebuilds the structure with seeds from [rand()] until one
    works, so it has no answer when the seeds given run out.  OthelloLocator.v
    proves it of the Othello. *)

Class LocatorOk (L : Type) `{!Locator L} := {
  loc_inv : L -> Prop;
  loc_map : L -> gmap Z Z;
  loc_isMember_spec o k : loc_inv o -> loc_isMember o k = Ok (bool_decide (is_Some (loc_map o !! k)));
  loc_lookUp_spec o k w : loc_inv o -> loc_map o !! k = Some w -> loc_lookUp o k = Ok w;
  loc_bits o k w : loc_inv o -> loc_map o !! k = Some w -> w = 0 \/ w = 1;
  loc_insert_spec o k w online : loc_inv o -> loc_map o !! k = None -> w = 0 \/ w = 1 ->
    (exists r o', loc_insert o k w online = Ok (r, o') /\ loc_inv o' /\
       (0 <= o_status r /\ loc_map o' = <[k := w]> (loc_map o) \/
        online = true /\ o_status r < 0 /\ loc_map o' = loc_map o)) \/
    (online = false /\ exists e, loc_insert o k w online = Err e /\ build_fault e);
  loc_changeValue_spec o k w w' : loc_inv o -> loc_map o !! k = Some w -> w' = 0 \/ w' = 1 ->
    exists r o', loc_changeValue o k w' = Ok (r, o') /\ loc_inv o' /\ o_status r = 0 /\
      loc_map o' = <[k := w']> (loc_map o);
  loc_toggle_spec o k w : loc_inv o -> loc_map o !! k = Some w ->
    exists r o', loc_toggleInOthello o k = Ok (r, o') /\ loc_inv o' /\ o_status r = 0 /\
      loc_map o' = <[k := 1 - w]> (loc_map o);
  loc_remove_spec o k : loc_inv o ->
    exists o', loc_remove o k = Ok o' /\ loc_inv o' /\ loc_map o' = delete k (loc_map o);
  loc_resize_spec o n : loc_inv o -> 0 <= n < 2 ^ 30 ->
    (exists o', loc_resizeCapacity o n = Ok o' /\ loc_inv o' /\ loc_map o' = loc_map o) \/
    (exists e, loc_resizeCapacity o n = Err e /\ build_fault e);
}.

(** A locator that is its map. *)
Definition map_result (st : Z) : OthelloUpdateResult := MkOUR st 0 (-1, -1) [].

#[export] Instance map_locator : Locator (gmap Z Z) := {
  loc_isMember o k := Ok (bool_decide (is_Some (o !! k)));
  loc_lookUp o k := match o !! k with Some w => Ok w | None => Err Thrown end;
  loc_insert o k w online := Ok (map_result 0, <[k := w]> o);
  loc_changeValue o k w := Ok (map_result 0, <[k := w]> o);
  loc_toggleInOthello o k :=
    match o !! k with Some w => Ok (map_result 0, <[k := 1 - w]> o) | None => Err AssertFailed end;
  loc_remove o k := Ok (delete k o);
  loc_getHalfTree _ _ _ := Ok [];
  loc_clear _ := ∅;
  loc_resizeCapacity o _ := Ok o;
}.

#[export] Program Instance map_locator_ok : LocatorOk (gmap Z Z) := {
  loc_inv o := map_Forall (fun _ w => w = 0 \/ w = 1) o;
  loc_map o := o;
}.
Next Obligation. done. Qed.
Next Obligation. intros o k w _ H. simpl. by rewrite H. Qed.
Next Obligation. intros o k w H Hk. by apply (H k w). Qed.
Next Obligation.
  intros o k w online H Hk Hw. left. do 2 eexists. split; [done|]. split; [by apply map_Forall_insert_2|].
  left. done.
Qed.
Next Obligation.
  intros o k w w' H Hk Hw. do 2 eexists. split; [done|]. split; [by apply map_Forall_insert_2|done].
Qed.
Next Obligation.
  intros o k w H Hk. simpl. rewrite Hk. do 2 eexists. split; [done|].
  split; [|done]. apply map_Forall_insert_2; [|done]. destruct (H k w Hk); lia.
Qed.
Next Obligation. intros o k H. eexists. split; [done|]. split; [by apply map_Forall_delete|done]. Qed.
Next Obligation. intros o n H _. left. by exists o. Qed.

(** ** Well-formed tables *)

Section table.
Context {L : Type} `{LO : LocatorOk L}.
Implicit Types (t : ControlPlaneLudo L).

(** Item [s] of bucket [i]. *)
Definition at_pos t (i s k v : Z) : Prop :=
  exists b, rd (buckets_ t) i = Ok b /\ item b s k v.

(** The contents. *)
Definition holds t (k v : Z) : Prop := exists i s, at_pos t i s k v.

(** The bucket the locator assigns to [k]. *)
Definition home_bucket t (j k i : Z) : Prop :=
  exists w, loc_map (cp_locator t) !! k = Some w /\ i = cand j (cp_h t) k w.

Record table_shape t (j : Z) : Prop := {
  ts_j : 6 <= j < 30;
  ts_size : num_buckets_ t = 2 ^ j;
  ts_len : length (buckets_ t) = Z.to_nat (2 ^ j);
  ts_bucket : forall i b, rd (buckets_ t) i = Ok b -> bucket_ok b;
  ts_loc : loc_inv (cp_locator t);
}.

Record wf_table t (j : Z) : Prop := {
  wt_shape :> table_shape t j;
  wt_home : forall i s k v, at_pos t i s k v -> home_bucket t j k i;
}.

Lemma home_bucket_fun t j k i i' : home_bucket t j k i -> home_bucket t j k i' -> i = i'.
Proof. intros (w & Hw & ->) (w' & Hw' & ->). congruence. Qed.

Lemma size_word t j : table_shape t j -> u32 (Z.of_nat (length (buckets_ t))) = 2 ^ j.
Proof.
  intros Ht. rewrite (ts_len t j Ht). destruct (ts_j t j Ht).
  assert (0 < 2 ^ j) by (by apply Z.pow_pos_nonneg; lia).
  assert (2 ^ j <= 2 ^ 31) by (by apply Z.pow_le_mono_r; lia).
  rewrite Z2Nat.id by lia. apply wrap_id. unfold is_word. lia.
Qed.

Lemma candidates_spec t j k : table_shape t j ->
  candidates t k = Ok (cand j (cp_h t) k 0, cand j (cp_h t) k 1).
Proof.
  intros Ht. unfold candidates. rewrite (size_word t j Ht). destruct (ts_j t j Ht).
  rewrite (fast_map_spec j) by (lia || apply FastHasher64_word). done.
Qed.

Lemma bucket_at t j i : table_shape t j -> 0 <= i < 2 ^ j -> exists b, rd (buckets_ t) i = Ok b.
Proof. intros Ht Hi. apply rd_in_range. rewrite (ts_len t j Ht). lia. Qed.

Lemma cand_bucket t j k w : table_shape t j ->
  exists b, rd (buckets_ t) (cand j (cp_h t) k w) = Ok b.
Proof. intros Ht. destruct (ts_j t j Ht). apply (bucket_at t j); [done|apply cand_range; lia]. Qed.

(** A key is at one position. *)
Lemma at_pos_unique t j k i s v i' s' v' : wf_table t j ->
  at_pos t i s k v -> at_pos t i' s' k v' -> i = i' /\ s = s' /\ v = v'.
Proof.
  intros Ht H H'. assert (i = i') as <-.
  { eapply home_bucket_fun; by eapply wt_home. }
  split; [done|]. destruct H as (b & Hb & Hi), H' as (b' & Hb' & Hi').
  assert (b' = b) as -> by congruence. eapply item_unique; [|done..].
  apply ok_sep. by apply (ts_bucket t j Ht i).
Qed.

Lemma find_key_spec t j bs k : table_shape t j -> Forall (fun i => 0 <= i < 2 ^ j) bs ->
  exists r, find_key bs k t = Ok r /\
  match r with
  | Some (i, s) => i ∈ bs /\ exists v, at_pos t i s k v
  | None => forall i s v, i ∈ bs -> ~ at_pos t i s k v
  end.
Proof.
  intros Ht. induction bs as [|i bs IH]; intros Hbs; cbn [find_key].
  { exists None. split; [done|]. by intros i s v ?%not_elem_of_nil. }
  apply Forall_cons in Hbs as [Hi Hbs]. destruct (bucket_at t j i Ht Hi) as [b Hb].
  rewrite Hb. cbn [mbind res_bind].
  destruct (find_slot_spec slots k b (ok_shape b (ts_bucket t j Ht i b Hb)) slots_range)
    as (r & -> & Hr). cbn [mbind res_bind]. destruct r as [s|].
  - exists (Some (i, s)). split; [done|]. split; [apply list_elem_of_here|].
    destruct Hr as (_ & v & Hv). exists v. by exists b.
  - destruct (IH Hbs) as (r & -> & Hr'). exists r. split; [done|]. destruct r as [[i' s']|].
    + destruct Hr' as [? ?]. split; [by apply list_elem_of_further|done].
    + intros i' s' v [->|Hin]%elem_of_cons; [|by apply Hr'].
      intros (b' & Hb' & Hit). assert (b' = b) as -> by congruence.
      eapply Hr; [|exact Hit]. apply elem_of_slots. by destruct Hit.
Qed.

(** The search finds exactly the stored keys. *)
Lemma find_item_spec t j k : wf_table t j -> exists r, find_item t k = Ok r /\
  match r with
  | Some (i, s) => exists v, at_pos t i s k v
  | None => forall v, ~ holds t k v
  end.
Proof.
  intros Ht. unfold find_item. rewrite (candidates_spec t j k Ht). cbn [mbind res_bind].
  destruct (ts_j t j Ht).
  destruct (find_key_spec t j [cand j (cp_h t) k 0; cand j (cp_h t) k 1] k Ht) as (r & -> & Hr).
  { repeat constructor; apply cand_range; lia. }
  exists r. split; [done|]. destruct r as [[i s]|]; [apply Hr|].
  intros v (i & s & Hp). apply (Hr i s v); [|done].
  destruct (wt_home t j Ht i s k v Hp) as (w & Hw & ->).
  destruct (loc_bits (cp_locator t) k w (ts_loc t j Ht) Hw) as [->| ->];
    [apply list_elem_of_here|apply list_elem_of_further, list_elem_of_here].
Qed.

(** *** Replacing a bucket *)

Lemma at_pos_upd t t' i b b' i' s k v : rd (buckets_ t) i = Ok b ->
  wr (buckets_ t) i b' = Ok (buckets_ t') ->
  at_pos t' i' s k v <-> (i' = i /\ item b' s k v) \/ (i' <> i /\ at_pos t i' s k v).
Proof.
  intros Hb Hw. unfold at_pos. destruct (decide (i' = i)) as [->|Hne].
  - rewrite (rd_wr_eq _ _ _ _ Hw). split.
    + intros (b1 & Hb1 & Hi). left. by apply Ok_inj in Hb1 as <-.
    + intros [[_ Hi]|[? _]]; [eauto|done].
  - rewrite (rd_wr_ne _ _ _ _ _ Hw) by congruence. naive_solver.
Qed.

Lemma table_shape_upd t t' j i b' : table_shape t j ->
  wr (buckets_ t) i b' = Ok (buckets_ t') -> num_buckets_ t' = num_buckets_ t ->
  loc_inv (cp_locator t') -> bucket_ok b' -> table_shape t' j.
Proof.
  intros Ht Hw Hn Hl Hb'. constructor; [apply Ht|by rewrite Hn, (ts_size t j)| | |done].
  - rewrite (wr_length _ _ _ _ Hw). apply Ht.
  - intros i' b1 Hb1. destruct (decide (i' = i)) as [->|Hne].
    + rewrite (rd_wr_eq _ _ _ _ Hw) in Hb1. by apply Ok_inj in Hb1 as <-.
    + rewrite (rd_wr_ne _ _ _ _ _ Hw) in Hb1 by congruence. by eapply ts_bucket.
Qed.

(** A bucket that loses items stays well-formed. *)
Lemma bucket_ok_sub b b' : bucket_ok b -> shape b' -> b_seed b' = b_seed b ->
  (forall s k v, item b' s k v -> exists v', item b s k v') -> bucket_ok b'.
Proof.
  intros Hb Hs He Hsub. constructor; [done|rewrite He; apply Hb|].
  intros s s' k k' v v' Hi Hi'. rewrite He.
  apply Hsub in Hi as [v1 Hi], Hi' as [v2 Hi']. by apply (ok_sep b Hb s s' k k' v1 v2).
Qed.
End table.
