(* ===== verification/LudoProps.v ===== *)
(** * Correctness of the Ludo table

    The operations of LudoTable.v on well-formed tables: lookups, removal,
    change of a value, insertion into a free slot, and growing. *)

From Stdlib Require Import ZArith Lia.
From stdpp Require Import base numbers gmap list.
From S2P Require Import Prelude Words Hash LudoSlot ServerRdma ServerInv LudoTable LudoInv.

#[local] Open Scope Z_scope.

Section table.
Context {L : Type} `{LO : LocatorOk L}.
Implicit Types (t : ControlPlaneLudo L).

(** ** Lookups *)

(** C11: Lookups in a well-formed table are exact: [lookUp] returns the value
    of a stored key and reports every other key absent, [isMember] says which,
    and [locate] gives the key's bucket and slot. *)
Theorem cp_lookUp_correct t j k : wf_table t j ->
  (forall v, cp_lookUp t k = Ok (Some v) <-> holds t k v) /\
  (cp_lookUp t k = Ok None <-> forall v, ~ holds t k v) /\
  (exists b, isMember t k = Ok b /\ (b = true <-> exists v, holds t k v)) /\
  (exists i s, locate t k = Ok (i, s) /\ forall i' s' v, at_pos t i' s' k v -> i' = i /\ s' = s).
Proof.
  intros Ht. destruct (find_item_spec t j k Ht) as (r & Hr & Hspec).
  unfold cp_lookUp, isMember, locate. rewrite Hr. cbn [mbind res_bind].
  destruct r as [[i s]|].
  - destruct Hspec as [v Hv]. pose proof Hv as (b & Hb & _ & _ & _ & Hval).
    rewrite Hb. cbn [mbind res_bind]. rewrite Hval. cbn [mbind res_bind].
    assert (Hh : holds t k v) by (by exists i, s).
    assert (Huniq : forall i' s' v', at_pos t i' s' k v' -> i' = i /\ s' = s /\ v' = v)
      by (intros; by eapply at_pos_unique).
    split; [|split; [|split]].
    + intros v'. split; [by intros [= ->]|]. intros (i' & s' & Hp).
      by destruct (Huniq _ _ _ Hp) as (_ & _ & ->).
    + split; [done|]. intros H. by apply H in Hh.
    + exists true. split; [done|]. split; [eauto|done].
    + exists i, s. split; [done|]. intros i' s' v' Hp. by destruct (Huniq _ _ _ Hp) as (? & ? & _).
  - split; [|split; [|split]].
    + intros v. split; [done|]. intros H. by apply Hspec in H.
    + done.
    + exists false. split; [done|]. split; [done|]. intros [v H]. by apply Hspec in H.
    + do 2 eexists. split; [done|]. intros i' s' v' Hp. exfalso. apply (Hspec v'). by exists i', s'.
Qed.

(** ** Removal and change of a value *)

Lemma wf_from_sub t t' j i b b' : wf_table t j -> rd (buckets_ t) i = Ok b ->
  wr (buckets_ t) i b' = Ok (buckets_ t') -> num_buckets_ t' = num_buckets_ t ->
  cp_h t' = cp_h t -> loc_inv (cp_locator t') -> shape b' -> b_seed b' = b_seed b ->
  (forall s k v, item b' s k v -> exists v', item b s k v') ->
  (forall i s k v, at_pos t' i s k v ->
     loc_map (cp_locator t') !! k = loc_map (cp_locator t) !! k) ->
  wf_table t' j.
Proof.
  intros Ht Hb Hw Hn Hh Hl Hs He Hsub Hm.
  assert (Hok : bucket_ok b') by (by eapply bucket_ok_sub; [apply (ts_bucket t j Ht i b Hb)|..]).
  constructor; [by apply (table_shape_upd t t' j i b'); [apply Ht|..]|]. intros i' s k v Hp.
  unfold home_bucket. rewrite Hh, (Hm _ _ _ _ Hp).
  apply (at_pos_upd t t' i b b') in Hp as [[-> Hi]|[_ Hp]];
    [|by eapply (wt_home t j)|done|done].
  apply Hsub in Hi as [v' Hi]. apply (wt_home t j Ht i s k v'). by exists b.
Qed.

(** C15: [remove] on a well-formed table takes out exactly its key, and the
    table stays well-formed. *)
Theorem remove_exact t j k : wf_table t j ->
  exists t' u, remove t k = Ok (t', u) /\ wf_table t' j /\
    forall k' v', holds t' k' v' <-> holds t k' v' /\ k' <> k.
Proof.
  intros Ht. destruct (find_item_spec t j k Ht) as (r & Hr & Hspec).
  unfold remove. rewrite Hr. cbn [mbind res_bind]. destruct r as [[i s]|].
  2:{ exists t, no_update. split; [done|]. split; [done|]. intros k' v'. split; [|naive_solver].
      intros H. split; [done|]. intros ->. by apply Hspec in H. }
  destruct Hspec as [v Hp]. pose proof Hp as (b & Hb & Hit). rewrite Hb. cbn [mbind res_bind].
  rewrite wr_in_range by (by eapply rd_range). cbn [mbind res_bind].
  destruct (loc_remove_spec (cp_locator t) k (ts_loc t j Ht)) as (o & -> & Ho & Hmap).
  cbn [mbind res_bind]. do 2 eexists. split; [reflexivity|].
  pose proof (wr_in_range (buckets_ t) i (toggle_occupied b s) (rd_range _ _ _ Hb)) as Hw.
  pose proof Hit as (Hs & Hocc & _).
  pose proof (ok_shape b (ts_bucket t j Ht i b Hb)) as Hshape.
  set (t' := with_nKeys _ _).
  assert (Hpos : forall i' s' k' v', at_pos t' i' s' k' v' <-> at_pos t i' s' k' v' /\ k' <> k).
  { intros i' s' k' v'. rewrite (at_pos_upd t t' i b (toggle_occupied b s) _ _ _ _ Hb Hw).
    split.
    - intros [[-> H]|[Hne H]].
      + apply toggle_occupied_item in H as [H Hne]; [|done..].
        split; [by exists b|]. intros ->. apply Hne.
        assert (Hp' : at_pos t i s' k v') by (by exists b).
        by destruct (at_pos_unique t j _ _ _ _ _ _ _ Ht Hp Hp') as (_ & -> & _).
      + split; [done|]. intros ->. apply Hne.
        by destruct (at_pos_unique t j _ _ _ _ _ _ _ Ht Hp H) as (-> & _).
    - intros [H Hne]. destruct (decide (i' = i)) as [->|]; [|by right]. left. split; [done|].
      destruct H as (b' & Hb' & H). assert (b' = b) as -> by congruence.
      apply toggle_occupied_item; [done..|]. split; [done|]. intros ->. apply Hne.
      by destruct (item_fun _ _ _ _ _ _ H Hit). }
  split.
  - eapply (wf_from_sub t t' j i b (toggle_occupied b s)); try done.
    + by apply toggle_occupied_shape.
    + intros s' k' v' H. apply toggle_occupied_item in H as [H _]; eauto.
    + intros i' s' k' v' [_ Hne]%Hpos. simpl. rewrite Hmap. by apply lookup_delete_ne.
  - unfold holds. setoid_rewrite Hpos. naive_solver.
Qed.

Lemma changeValue_spec t j k v : wf_table t j ->
  exists t' u, changeValue t k v = Ok (t', u) /\ wf_table t' j /\
    forall k' v', holds t' k' v' <->
      (k' <> k /\ holds t k' v') \/ (k' = k /\ v' = v /\ exists v0, holds t k v0).
Proof.
  intros Ht. destruct (find_item_spec t j k Ht) as (r & Hr & Hspec).
  unfold changeValue. rewrite Hr. cbn [mbind res_bind]. destruct r as [[i s]|].
  2:{ exists t, no_update. split; [done|]. split; [done|]. intros k' v'.
      destruct (decide (k' = k)) as [->|]; [|naive_solver]. split.
      - intros H. by apply Hspec in H.
      - intros [[? _]|(_ & _ & v0 & H)]; [done|by apply Hspec in H]. }
  destruct Hspec as [v0 Hp]. pose proof Hp as (b & Hb & Hit). rewrite Hb. cbn [mbind res_bind].
  pose proof (ok_shape b (ts_bucket t j Ht i b Hb)) as Hshape.
  destruct (set_value_spec b Hshape s k v0 v Hit) as (b' & -> & Hs' & He' & Hit').
  cbn [mbind res_bind]. pose proof (wr_in_range (buckets_ t) i b' (rd_range _ _ _ Hb)) as Hw.
  rewrite Hw. cbn [mbind res_bind]. do 2 eexists. split; [reflexivity|].
  set (t' := with_buckets _ t).
  assert (Hpos : forall i' s' k' v', at_pos t' i' s' k' v' <->
    (k' <> k /\ at_pos t i' s' k' v') \/ (k' = k /\ v' = v /\ i' = i /\ s' = s)).
  { intros i' s' k' v'. rewrite (at_pos_upd t t' i b b' _ _ _ _ Hb Hw), Hit'. split.
    - intros [[-> [(-> & -> & ->)|[Hne H]]]|[Hne H]]; [by right|left..].
      + split; [|by exists b]. intros ->. apply Hne.
        assert (Hp' : at_pos t i s' k v') by (by exists b).
        by destruct (at_pos_unique t j _ _ _ _ _ _ _ Ht Hp Hp') as (_ & -> & _).
      + split; [|done]. intros ->. apply Hne.
        by destruct (at_pos_unique t j _ _ _ _ _ _ _ Ht Hp H) as (-> & _).
    - intros [[Hne H]|(-> & -> & -> & ->)]; [|by left; split; [|left]].
      destruct (decide (i' = i)) as [->|]; [|by right]. left. split; [done|]. right.
      destruct H as (b1 & Hb1 & H). assert (b1 = b) as -> by congruence.
      split; [|done]. intros ->. by destruct (item_fun _ _ _ _ _ _ H Hit). }
  split.
  - eapply (wf_from_sub t t' j i b b'); try done; [apply (ts_loc t j Ht)|].
    intros s' k' v' [(-> & -> & ->)|[_ H]]%Hit'; eauto.
  - unfold holds. intros k' v'. setoid_rewrite Hpos. split.
    + intros (i' & s' & [[? H]|(-> & -> & -> & ->)]); [left; eauto|right; eauto 10].
    + intros [[? (i' & s' & H)]|(-> & -> & _)]; [exists i', s'; by left|exists i, s; by right].
Qed.

(** [changeValue] on a well-formed table replaces the value of a stored
    key, leaves every other item, and does nothing for an absent key. *)
Theorem changeValue_exact t j k v : wf_table t j ->
  exists t' u, changeValue t k v = Ok (t', u) /\ wf_table t' j /\
    forall k' v', holds t' k' v' <->
      (k' <> k /\ holds t k' v') \/ (k' = k /\ v' = v /\ exists v0, holds t k v0).
Proof. apply changeValue_spec. Qed.

(** ** Insertion into a free slot *)

(** The seed of bucket [i] is recomputed when some seed separates its keys. *)
Lemma updateSeed_spec t i b slot : rd (buckets_ t) i = Ok b -> shape b ->
  (exists seed t', updateSeed t i false slot = Ok (t', seed, []) /\
     t' = with_buckets (buckets_ t') t /\ wr (buckets_ t) i (set_seed b seed) = Ok (buckets_ t') /\
     0 <= seed < 255 /\ bucket_sep seed b) \/
  (updateSeed t i false slot = Err Thrown /\
     forall seed, 0 <= seed < 255 -> ~ bucket_sep seed b).
Proof.
  intros Hb Hs. unfold updateSeed. rewrite Hb. cbn [mbind res_bind].
  destruct (update_bucket_seed_spec b slot Hs) as [(seed & -> & Hr & Hsep & _)|[-> Hno]];
    [left|by right]. cbn [mbind res_bind].
  pose proof (wr_in_range (buckets_ t) i (set_seed b seed) (rd_range _ _ _ Hb)) as Hw.
  rewrite Hw. cbn [mbind res_bind]. by do 2 eexists.
Qed.

Lemma registerKey_spec o k w : loc_inv o -> w = 0 \/ w = 1 ->
  (exists r o', registerKey o k w false = Ok (r, o') /\ loc_inv o' /\ 0 <= o_status r /\
     loc_map o' = <[k := w]> (loc_map o)) \/
  (exists e, registerKey o k w false = Err e /\ loc_insert o k w false = Err e /\ build_fault e).
Proof.
  intros Ho Hw. unfold registerKey. rewrite loc_isMember_spec, bind_Ok_l by done.
  case_bool_decide as Hm.
  - left. destruct Hm as [w' Hw']. rewrite (loc_lookUp_spec o k w') by done. cbn [mbind res_bind].
    destruct (Z.eqb_spec w' w) as [->|].
    + do 2 eexists. split; [done|]. split; [done|]. split; [done|]. by rewrite insert_id.
    + destruct (loc_changeValue_spec o k w' w Ho Hw' Hw) as (r & o' & ? & ? & ? & ?).
      exists r, o'. do 2 (split; [done|]). split; [lia|done].
  - apply eq_None_not_Some in Hm.
    destruct (loc_insert_spec o k w false Ho Hm Hw) as [(r & o' & ? & ? & [[? ?]|(? & _)])|(_ & e & ? & ?)];
      [left|done|right; by exists e]. by exists r, o'.
Qed.

(** [putItem] into slot [s] of a candidate bucket of [k]: the item that was in
    the slot is overwritten; or no seed separates the bucket's keys. *)
Lemma putItem_spec t j k v i b s w : wf_table t j -> rd (buckets_ t) i = Ok b -> 0 <= s < 4 ->
  w = 0 \/ w = 1 -> i = cand j (cp_h t) k w ->
  (forall i' s' v', at_pos t i' s' k v' -> i' = i /\ s' = s) ->
  (exists t', putItem t k v i s (w =? 0) None = Ok (t', None, true) /\ wf_table t' j /\
     nKeys t' = nKeys t /\
     forall i' s' k' v', at_pos t' i' s' k' v' <->
       (i' = i /\ s' = s /\ k' = k /\ v' = v) \/ (~ (i' = i /\ s' = s) /\ at_pos t i' s' k' v')) \/
  (putItem t k v i s (w =? 0) None = Err Thrown /\
     forall b', set_item b s k v = Ok b' -> forall seed, 0 <= seed < 255 ->
       ~ bucket_sep seed (set_occupied b' s)) \/
  (exists e, putItem t k v i s (w =? 0) None = Err e /\
     loc_insert (cp_locator t) k w false = Err e /\ build_fault e).
Proof.
  intros Ht Hb Hs Hw Hi Hk. unfold putItem.
  replace (if w =? 0 then 0 else 1) with w by (destruct Hw as [->| ->]; done).
  destruct (registerKey_spec (cp_locator t) k w (ts_loc t j Ht) Hw) as [(r & o & Hreg & Ho & Hst & Hm)|(e & Hreg & ? & ?)];
    [|right; right; exists e; by rewrite Hreg].
  rewrite Hreg. cbn [mbind res_bind]. destruct (Z.ltb_spec (o_status r) 0); [lia|].
  replace (buckets_ (with_locator o t)) with (buckets_ t) by done. rewrite Hb. cbn [mbind res_bind].
  pose proof (ok_shape b (ts_bucket t j Ht i b Hb)) as Hshape.
  destruct (put_item_spec b Hshape s k v Hs) as (b1 & Hset & Hs1 & _ & _ & Hit).
  rewrite Hset. cbn [mbind res_bind]. set (b2 := set_occupied b1 s) in *.
  pose proof (wr_in_range (buckets_ t) i b2 (rd_range _ _ _ Hb)) as Hw2. rewrite Hw2.
  cbn [mbind res_bind]. set (l := <[Z.to_nat i := b2]> (buckets_ t)) in *.
  set (t1 := with_buckets l (with_locator o t)).
  assert (Hb2 : rd (buckets_ t1) i = Ok b2) by (by apply (rd_wr_eq _ _ _ _ Hw2)).
  destruct (updateSeed_spec t1 i b2 s Hb2 Hs1) as [(seed & t2 & -> & Et2 & Hw3 & Hr & Hsep)|[-> Hno]].
  2:{ right. left. split; [done|]. intros b' Hb'. by assert (b' = b1) as -> by congruence. }
  left. exists t2. split; [done|].
  assert (Hw4 : wr (buckets_ t) i (set_seed b2 seed) = Ok (buckets_ t2)).
  { apply wr_Ok in Hw3 as [Hlen Hw3]. simpl in Hw3, Hlen. unfold l in Hw3, Hlen.
    rewrite length_insert in Hlen. apply wr_Ok. split; [done|]. by rewrite Hw3, list_insert_insert_eq. }
  assert (Hpos : forall i' s' k' v', at_pos t2 i' s' k' v' <->
    (i' = i /\ s' = s /\ k' = k /\ v' = v) \/ (~ (i' = i /\ s' = s) /\ at_pos t i' s' k' v')).
  { intros i' s' k' v'. rewrite (at_pos_upd t t2 i b (set_seed b2 seed) _ _ _ _ Hb Hw4), item_set_seed, Hit.
    split.
    - intros [[-> [(-> & -> & ->)|[Hne H1]]]|[Hne H1]]; [by left|right..].
      + split; [by intros [_ ?]|by exists b].
      + split; [by intros [? _]|done].
    - intros [(-> & -> & -> & ->)|[Hne H1]]; [left; split; [done|by left]|].
      destruct (decide (i' = i)) as [->|]; [|by right].
      left. split; [done|]. right. split; [intros ->; by apply Hne|].
      destruct H1 as (b' & Hb' & H1). by assert (b' = b) as -> by congruence. }
  split; [|split; [by rewrite Et2|done]].
  assert (Hloc : cp_locator t2 = o) by (by rewrite Et2).
  assert (Hh : cp_h t2 = cp_h t) by (by rewrite Et2).
  constructor.
  - eapply (table_shape_upd t t2 j i); [apply Ht|exact Hw4|by rewrite Et2|by rewrite Hloc|].
    by constructor; [apply shape_set_seed| |].
  - intros i' s' k' v' Hp. unfold home_bucket. rewrite Hloc, Hm, Hh.
    apply Hpos in Hp as [(-> & -> & -> & ->)|[Hne Hp]].
    + exists w. by rewrite lookup_insert_eq.
    + rewrite lookup_insert_ne by (intros <-; by apply Hk in Hp). by eapply wt_home.
Qed.

Lemma free_position_spec t j bs : table_shape t j -> Forall (fun i => 0 <= i < 2 ^ j) bs ->
  exists r, free_position bs t = Ok r /\
  match r with
  | Some (i, s) => i ∈ bs /\ 0 <= s < 4 /\ exists b, rd (buckets_ t) i = Ok b /\ occupied b s = false
  | None => forall i b s, i ∈ bs -> rd (buckets_ t) i = Ok b -> 0 <= s < 4 -> occupied b s = true
  end.
Proof.
  intros Ht. induction bs as [|i bs IH]; intros Hbs; cbn [free_position].
  { exists None. split; [done|]. by intros i b s ?%not_elem_of_nil. }
  apply Forall_cons in Hbs as [Hi Hbs]. destruct (bucket_at t j i Ht Hi) as [b Hb].
  rewrite Hb. cbn [mbind res_bind].
  destruct (FindFreeSlot_spec b) as [[-> Hfull]|[Hr Hfree]].
  - destruct (IH Hbs) as (r & -> & Hr). exists r. split; [done|]. destruct r as [[i' s']|].
    + destruct Hr as [? ?]. split; [by apply list_elem_of_further|done].
    + intros i' b' s' [->|Hin]%elem_of_cons Hb'; [|by eapply Hr].
      assert (b' = b) as -> by congruence. apply Hfull.
  - destruct (Z.eqb_spec (FindFreeSlot b) (-1)) as [E|_]; [lia|].
    eexists. split; [done|]. split; [apply list_elem_of_here|]. eauto.
Qed.

Lemma insert_S rnd fuel t k v online : insert rnd (S fuel) t k v online =
  insert_body (insert rnd fuel) (resizeCapacity rnd fuel) t k v online.
Proof. reflexivity. Qed.

Lemma insert_body_member t j ins rsz k v i s v0 : wf_table t j ->
  find_item t k = Ok (Some (i, s)) -> at_pos t i s k v0 ->
  exists t' u, insert_body ins rsz t k v false = Ok (t', u) /\ u_status u = 0 /\ wf_table t' j /\
    forall k' v', holds t' k' v' <-> (k' = k /\ v' = v) \/ (k' <> k /\ holds t k' v').
Proof.
  intros Ht Hr Hv0. unfold insert_body, isMember. rewrite Hr. cbn [mbind res_bind].
  destruct (changeValue_spec t j k v Ht) as (t' & u & E & Hwf & Hholds).
  exists t', u. split; [done|]. split; [|split; [done|]].
  - unfold changeValue in E. rewrite Hr in E. cbn [mbind res_bind] in E.
    do 3 (apply bind_Ok in E as (? & _ & E)). by apply Ok_inj, pair_equal_spec in E as [_ <-].
  - intros k' v'. rewrite Hholds. assert (holds t k v0) by (by exists i, s). naive_solver.
Qed.

Lemma free_candidate t j k i s : wf_table t j ->
  free_position [cand j (cp_h t) k 0; cand j (cp_h t) k 1] t = Ok (Some (i, s)) ->
  exists w b, (w = 0 \/ w = 1) /\ (i =? cand j (cp_h t) k 0) = (w =? 0) /\
    i = cand j (cp_h t) k w /\ 0 <= s < 4 /\ rd (buckets_ t) i = Ok b /\ occupied b s = false.
Proof.
  intros Ht Hf. destruct (ts_j t j Ht).
  destruct (free_position_spec t j [cand j (cp_h t) k 0; cand j (cp_h t) k 1] Ht) as (p & Hp & Hspec).
  { repeat constructor; apply cand_range; lia. }
  assert (p = Some (i, s)) as -> by congruence. destruct Hspec as (Hin & Hs & b & Hb & Hfree).
  destruct (Z.eqb_spec i (cand j (cp_h t) k 0)) as [E|E].
  - exists 0, b. split; [by left|]. done.
  - exists 1, b. split; [by right|]. split; [done|]. split; [|done].
    apply elem_of_cons in Hin as [?|Hin]; [done|]. by apply list_elem_of_singleton in Hin.
Qed.

Lemma put_new_contents t j i s b k v t' : wf_table t j ->
  (forall v', ~ holds t k v') -> rd (buckets_ t) i = Ok b -> occupied b s = false ->
  (forall i' s' k' v', at_pos t' i' s' k' v' <->
     (i' = i /\ s' = s /\ k' = k /\ v' = v) \/ (~ (i' = i /\ s' = s) /\ at_pos t i' s' k' v')) ->
  forall k' v', holds t' k' v' <-> (k' = k /\ v' = v) \/ (k' <> k /\ holds t k' v').
Proof.
  intros Ht Hno Hb Hfree Hpos k' v'. unfold holds in *. split.
  - intros (i' & s' & [(-> & -> & -> & ->)|[_ H]]%Hpos); [by left|].
    right. split; [intros ->; apply (Hno v'); eauto|eauto].
  - intros [[-> ->]|[Hne (i' & s' & H)]]; [exists i, s; apply Hpos; by left|].
    exists i', s'. apply Hpos. right. split; [|done]. intros [-> ->].
    destruct H as (b' & Hb' & _ & Ho & _). congruence.
Qed.

Lemma insert_body_new t j ins rsz k v : wf_table t j -> u32 (nKeys t + 1) <= capacity t ->
  find_item t k = Ok None -> (forall v', ~ holds t k v') ->
  (exists w b s, (w = 0 \/ w = 1) /\ 0 <= s < 4 /\
     rd (buckets_ t) (cand j (cp_h t) k w) = Ok b /\ occupied b s = false) ->
  (exists t' u, insert_body ins rsz t k v false = Ok (t', u) /\ u_status u = 0 /\ wf_table t' j /\
     forall k' v', holds t' k' v' <-> (k' = k /\ v' = v) \/ (k' <> k /\ holds t k' v')) \/
  (insert_body ins rsz t k v false = Err Thrown /\
     exists i b s b', rd (buckets_ t) i = Ok b /\ 0 <= s < 4 /\ occupied b s = false /\
       set_item b s k v = Ok b' /\
       forall seed, 0 <= seed < 255 -> ~ bucket_sep seed (set_occupied b' s)) \/
  (exists w e, insert_body ins rsz t k v false = Err e /\ (w = 0 \/ w = 1) /\
     loc_insert (cp_locator t) k w false = Err e /\ build_fault e).
Proof.
  intros Ht Hcap Hr Hno Hroom. unfold insert_body, isMember. rewrite Hr. cbn [mbind res_bind].
  destruct (Z.ltb_spec (capacity t) (u32 (nKeys t + 1))); [lia|].
  rewrite (candidates_spec t j k Ht), bind_Ok_l. destruct (ts_j t j Ht).
  destruct (free_position_spec t j [cand j (cp_h t) k 0; cand j (cp_h t) k 1] Ht) as (p & Hf & Hp).
  { repeat constructor; apply cand_range; lia. }
  rewrite Hf, bind_Ok_l. destruct p as [[i s]|].
  2:{ exfalso. destruct Hroom as (w & b & s & Hw & Hs & Hb & Hfree).
      assert (occupied b s = true); [|congruence]. eapply (Hp _ b s); [|done..].
      destruct Hw as [->| ->]; [apply list_elem_of_here|apply list_elem_of_further, list_elem_of_here]. }
  destruct (free_candidate t j k i s Ht Hf) as (w & b & Hw & -> & Hi & Hs & Hb & Hfree).
  destruct (putItem_spec t j k v i b s w Ht Hb Hs Hw Hi) as [(t' & -> & Hwf & Hn & Hpos)|[[-> Hseed]|(e & -> & He)]].
  { intros i' s' v' H'. exfalso. apply (Hno v'). by exists i', s'. }
  - left. rewrite !bind_Ok_l. change (0 <=? u_status (MkUR 0 [])) with true. cbv iota.
    do 2 eexists. split; [reflexivity|]. split; [done|]. split.
    + destruct Hwf as [[] Hhome]. by constructor.
    + by apply (put_new_contents t j i s b k v t').
  - right. left. split; [done|]. pose proof (ok_shape b (ts_bucket t j Ht i b Hb)) as Hshape.
    destruct (put_item_spec b Hshape s k v Hs) as (b1 & Hset & _).
    exists i, b, s, b1. do 4 (split; [done|]). by apply Hseed.
  - right. right. by exists w, e.
Qed.

(** An offline [insert] with room in the table and in one of the two
    candidate buckets: a stored key gets the new value; a new key is added and
    nothing else changes; in both cases the table stays well-formed.  The only
    failures are the exception of the seed search, when no seed below 255
    separates the keys of the bucket that receives the item, and a failure of
    the locator's own insertion, when rebuilding it finds no seed. *)
Theorem insert_with_room t j rnd fuel k v :
  wf_table t j -> u32 (nKeys t + 1) <= capacity t ->
  (exists w b s, (w = 0 \/ w = 1) /\ 0 <= s < 4 /\
     rd (buckets_ t) (cand j (cp_h t) k w) = Ok b /\ occupied b s = false) ->
  (exists t' u, insert rnd (S fuel) t k v false = Ok (t', u) /\ u_status u = 0 /\
     wf_table t' j /\
     forall k' v', holds t' k' v' <-> (k' = k /\ v' = v) \/ (k' <> k /\ holds t k' v')) \/
  (insert rnd (S fuel) t k v false = Err Thrown /\
     exists i b s b', rd (buckets_ t) i = Ok b /\ 0 <= s < 4 /\ occupied b s = false /\
       set_item b s k v = Ok b' /\
       forall seed, 0 <= seed < 255 -> ~ bucket_sep seed (set_occupied b' s)) \/
  (exists w e, insert rnd (S fuel) t k v false = Err e /\ (w = 0 \/ w = 1) /\
     loc_insert (cp_locator t) k w false = Err e /\ build_fault e).
Proof.
  intros Ht Hcap Hroom. rewrite insert_S.
  destruct (find_item_spec t j k Ht) as (r & Hr & Hspec). destruct r as [[i s]|].
  - left. destruct Hspec as [v0 Hv0]. by eapply insert_body_member.
  - by apply insert_body_new.
Qed.
End table.

(** ** A table to apply the theorems to *)

(** 64 empty buckets, and the same table after an insertion. *)
Definition demo_table : ControlPlaneLudo (gmap Z Z) :=
  MkCP 64 default_hash_seed default_hash_seed 0 ∅ (replicate 64 empty_bucket) [] 243 true 0.

Lemma demo_empty i s k v : ~ at_pos demo_table i s k v.
Proof.
  intros (b & [_ Hb]%rd_Ok & _ & Ho & _). cbn [demo_table buckets_] in Hb.
  apply lookup_replicate in Hb as [-> _]. unfold occupied, empty_bucket in Ho.
  cbn [occupiedMask] in Ho. by rewrite Z.bits_0 in Ho.
Qed.

Lemma demo_wf : wf_table demo_table 6.
Proof.
  constructor; [constructor|].
  - lia.
  - done.
  - done.
  - intros i b [_ Hb]%rd_Ok. cbn [demo_table buckets_] in Hb.
    apply lookup_replicate in Hb as [-> _]. apply empty_bucket_ok.
  - apply map_Forall_empty.
  - intros i s k v H. by apply demo_empty in H.
Qed.

Definition demo_table1 : ControlPlaneLudo (gmap Z Z) :=
  match insert_body (fun t _ _ _ => Ok (t, no_update)) (fun t _ _ => Ok t) demo_table 5 50 false with
  | Ok (t, _) => t
  | Err _ => demo_table
  end.

Lemma demo_wf1 : wf_table demo_table1 6.
Proof.
  unfold demo_table1.
  destruct (insert_body_new demo_table 6 (fun t _ _ _ => Ok (t, no_update)) (fun t _ _ => Ok t) 5 50)
    as [(t' & u & -> & _ & Hwf & _)|[[-> _]|(w & e & -> & _)]].
  - exact demo_wf.
  - vm_compute. discriminate.
  - vm_compute. reflexivity.
  - intros v' (i & s & H). by apply demo_empty in H.
  - exists 0, empty_bucket, 0. split; [by left|]. split; [lia|]. split; [|done].
    vm_compute. reflexivity.
  - exact Hwf.
  - exact demo_wf.
  - exact demo_wf.
Qed.

(** The item is there. *)
Lemma demo_lookUp : cp_lookUp demo_table1 5 = Ok (Some 50).
Proof. vm_compute. reflexivity. Qed.

Lemma cp_lookUp_correct_witness :
  (forall v, cp_lookUp demo_table1 5 = Ok (Some v) <-> holds demo_table1 5 v) /\
  (cp_lookUp demo_table1 5 = Ok None <-> forall v, ~ holds demo_table1 5 v) /\
  (exists b, isMember demo_table1 5 = Ok b /\ (b = true <-> exists v, holds demo_table1 5 v)) /\
  (exists i s, locate demo_table1 5 = Ok (i, s) /\
     forall i' s' v, at_pos demo_table1 i' s' 5 v -> i' = i /\ s' = s).
Proof. apply (cp_lookUp_correct demo_table1 6 5 demo_wf1). Defined.

Lemma remove_exact_witness :
  exists t' u, remove demo_table1 5 = Ok (t', u) /\ wf_table t' 6 /\
    forall k' v', holds t' k' v' <-> holds demo_table1 k' v' /\ k' <> 5.
Proof. apply (remove_exact demo_table1 6 5 demo_wf1). Defined.

Lemma changeValue_exact_witness :
  exists t' u, changeValue demo_table1 5 51 = Ok (t', u) /\ wf_table t' 6 /\
    forall k' v', holds t' k' v' <->
      (k' <> 5 /\ holds demo_table1 k' v') \/ (k' = 5 /\ v' = 51 /\ exists v0, holds demo_table1 5 v0).
Proof. apply (changeValue_exact demo_table1 6 5 51 demo_wf1). Defined.

Lemma insert_with_room_witness :
  (exists t' u, insert (fun _ => 0) 1 demo_table 5 50 false = Ok (t', u) /\ u_status u = 0 /\
     wf_table t' 6 /\
     forall k' v', holds t' k' v' <-> (k' = 5 /\ v' = 50) \/ (k' <> 5 /\ holds demo_table k' v')) \/
  (insert (fun _ => 0) 1 demo_table 5 50 false = Err Thrown /\
     exists i b s b', rd (buckets_ demo_table) i = Ok b /\ 0 <= s < 4 /\ occupied b s = false /\
       set_item b s 5 50 = Ok b' /\
       forall seed, 0 <= seed < 255 -> ~ bucket_sep seed (set_occupied b' s)) \/
  (exists w e, insert (fun _ => 0) 1 demo_table 5 50 false = Err e /\ (w = 0 \/ w = 1) /\
     loc_insert (cp_locator demo_table) 5 w false = Err e /\ build_fault e).
Proof.
  apply (insert_with_room demo_table 6 (fun _ => 0) 0 5 50 demo_wf).
  - vm_compute. discriminate.
  - exists 0, empty_bucket, 0. split; [by left|]. split; [lia|]. split; [|done].
    vm_compute. reflexivity.
Defined.
