(* ===== verification/LudoGrow.v ===== *)
(** * Growing the Ludo table (ControlPlaneLudo::powerSize)

    When the number of buckets is multiplied by a power of two, every item
    moves to the bucket over its old one that its hash selects, at the same
    slot; no item is lost, none is overwritten, and no seed search fails. *)

From Stdlib Require Import ZArith Lia.
From stdpp Require Import base numbers gmap list.
From S2P Require Import Prelude Words Hash LudoSlot ServerRdma ServerInv LudoTable LudoInv LudoProps.

#[local] Open Scope Z_scope.

Section grow.
Context {L : Type} `{LO : LocatorOk L}.
Implicit Types (t u : ControlPlaneLudo L).

Lemma set_item_occupied b s k v :
  set_item (set_occupied b s) s k v = (b' ← set_item b s k v; Ok (set_occupied b' s)).
Proof. unfold set_item. simpl. destruct (wr (b_keys b) s k); [|done]. by destruct (wr _ _ _). Qed.

(** The old table [t0], with [2 ^ j] buckets, grows to [2 ^ j'] buckets. *)
Context (t0 : ControlPlaneLudo L) (j j' : Z).
Context (Hwf : wf_table t0 j) (Hj : j <= j' < 30).

(** The bucket of [k] after the growth. *)
Definition target (k i : Z) : Prop := exists w,
  loc_map (cp_locator t0) !! k = Some w /\ i = cand j' (cp_h t0) k w.

Lemma target_fun k i i' : target k i -> target k i' -> i = i'.
Proof. intros (w & Hw & ->) (w' & Hw' & ->). congruence. Qed.

Lemma target_over k i i0 s v : at_pos t0 i0 s k v -> target k i -> i mod 2 ^ j = i0.
Proof.
  intros Hp (w & Hw & ->). destruct (ts_j t0 j Hwf).
  rewrite cand_mono by lia. destruct (wt_home t0 j Hwf _ _ _ _ Hp) as (w' & Hw' & ->). congruence.
Qed.

Lemma at_pos_range i s k v : at_pos t0 i s k v -> 0 <= i < 2 ^ j /\ 0 <= s < 4.
Proof.
  intros (b & Hb & Hs & _). apply rd_range in Hb. rewrite (ts_len t0 j Hwf) in Hb.
  destruct (ts_j t0 j Hwf). assert (0 < 2 ^ j) by (by apply Z.pow_pos_nonneg; lia). lia.
Qed.

Lemma target_exists i s k v : at_pos t0 i s k v -> exists i', target k i' /\ 0 <= i' < 2 ^ j'.
Proof.
  intros Hp. destruct (wt_home t0 j Hwf _ _ _ _ Hp) as (w & Hw & _).
  exists (cand j' (cp_h t0) k w). split; [by exists w|]. destruct (ts_j t0 j Hwf).
  apply cand_range. lia.
Qed.

(** Where the item of position [(i0, s)] is when the positions of [D] are done. *)
Definition grown_at (D : Z -> Z -> Prop) (i0 s k i : Z) : Prop :=
  (D i0 s /\ target k i) \/ (~ D i0 s /\ i = i0).

Record growing (D : Z -> Z -> Prop) u : Prop := {
  gr_shape : table_shape u j';
  gr_h : cp_h u = cp_h t0;
  gr_map : loc_map (cp_locator u) = loc_map (cp_locator t0);
  gr_pos : forall i s k v, at_pos u i s k v <->
    exists i0, at_pos t0 i0 s k v /\ grown_at D i0 s k i;
}.

(** In a growing table everything in bucket [i] comes from bucket [i mod 2 ^ j]. *)
Lemma growing_origin D u i s k v : growing D u -> at_pos u i s k v ->
  at_pos t0 (i mod 2 ^ j) s k v.
Proof.
  intros Hg (i0 & Hp & Hat)%(gr_pos D u Hg).
  destruct Hat as [[_ Ht]|[_ ->]]; [by rewrite (target_over k i i0 s v)|].
  destruct (at_pos_range _ _ _ _ Hp). by rewrite Z.mod_small.
Qed.

(** A bucket all of whose items are in one old bucket can be separated. *)
Lemma old_seed_separates (b : Bucket) n :
  (forall s k v, item b s k v -> at_pos t0 n s k v) -> 0 <= n < 2 ^ j ->
  exists seed, 0 <= seed < 255 /\ bucket_sep seed b.
Proof.
  intros Hsub Hn. destruct (bucket_at t0 j n Hwf Hn) as [b0 Hb0].
  pose proof (ts_bucket t0 j Hwf n b0 Hb0) as Hok. exists (b_seed b0).
  split; [apply Hok|]. intros s s' k k' v v' Hi Hi'.
  apply Hsub in Hi as (b1 & E1 & Hi), Hi' as (b2 & E2 & Hi').
  assert (b1 = b0) as -> by congruence. assert (b2 = b0) as -> by congruence.
  by apply (ok_sep b0 Hok s s' k k' v v').
Qed.

(** The extension of the set of finished positions by [(n, m)]. *)
Definition add_pos (D : Z -> Z -> Prop) (n m : Z) : Z -> Z -> Prop :=
  fun i s => D i s \/ (i = n /\ s = m).

Lemma growing_idle D u n m : growing D u -> ~ D n m ->
  (forall k v, at_pos t0 n m k v -> target k n) -> growing (add_pos D n m) u.
Proof.
  intros Hg HD Hidle. constructor; [apply Hg..|]. intros i s k v. rewrite (gr_pos D u Hg).
  unfold grown_at, add_pos. split.
  - intros (i0 & Hp & [[HDi Ht]|[HDi ->]]); exists i0; (split; [done|]); [by left; split; [left|]|].
    destruct (decide (i0 = n /\ s = m)) as [[-> ->]|Hne]; [|right; split; [|done]; by intros [?|?]].
    left. split; [by right|]. by apply (Hidle k v).
  - intros (i0 & Hp & [[[HDi|[-> ->]] Ht]|[HDi ->]]); exists i0 || exists n; (split; [done|]).
    + by left.
    + right. split; [done|]. apply (target_fun k); [done|by apply (Hidle k v)].
    + right. split; [|done]. intros ?. apply HDi. by left.
Qed.

(** The item [(k, v)] of position [(n, m)] moves to bucket [bi]. *)
Lemma growing_move D u u' n m k v bi b b2 dst' : growing D u -> ~ D n m ->
  at_pos t0 n m k v -> target k bi -> bi <> n ->
  rd (buckets_ u) n = Ok b -> item b m k v ->
  rd (buckets_ u) bi = Ok b2 ->
  (forall s k' v', item dst' s k' v' <->
     (s = m /\ k' = k /\ v' = v) \/ (s <> m /\ item b2 s k' v')) ->
  (forall i s k' v', at_pos u' i s k' v' <->
     (i = n /\ item b s k' v' /\ s <> m) \/ (i = bi /\ item dst' s k' v') \/
     (i <> n /\ i <> bi /\ at_pos u i s k' v')) ->
  table_shape u' j' -> cp_h u' = cp_h u -> loc_map (cp_locator u') = loc_map (cp_locator u) ->
  growing (add_pos D n m) u'.
Proof.
  intros Hg HD Hp Ht Hne Hb Hit Hb2 Hdst Hpos Hsh Hh Hm.
  assert (Hbn : bi mod 2 ^ j = n) by (by eapply target_over).
  assert (Hn : n mod 2 ^ j = n) by (rewrite <-Hbn; apply Z.mod_mod; rewrite <-Hbn in Hp;
    destruct (at_pos_range _ _ _ _ Hp); lia).
  assert (Hfree : forall k' v', ~ item b2 m k' v').
  { intros k' v' Hi2. assert (Hp2 : at_pos u bi m k' v') by (by exists b2).
    apply (gr_pos D u Hg) in Hp2 as (i0 & Hp2 & [[HDi Ht2]|[HDi ->]]).
    - assert (i0 = n) as -> by (rewrite <-Hbn; symmetry; by eapply target_over). done.
    - destruct (at_pos_range _ _ _ _ Hp2). rewrite Z.mod_small in Hbn by done. done. }
  assert (Honly : forall i i0 s k' v', at_pos t0 i0 s k' v' -> grown_at (add_pos D n m) i0 s k' i ->
    (i0 = n /\ s = m /\ i = bi /\ k' = k /\ v' = v) \/
    (~ (i0 = n /\ s = m) /\ grown_at D i0 s k' i)).
  { intros i i0 s k' v' Hp' Hat. destruct (decide (i0 = n /\ s = m)) as [[-> ->]|Hd].
    - left. destruct Hp as (b0 & Hb0 & Hi0), Hp' as (b0' & Hb0' & Hi0').
      assert (b0' = b0) as -> by congruence. destruct (item_fun _ _ _ _ _ _ Hi0 Hi0') as [-> ->].
      do 2 (split; [done|]). destruct Hat as [[_ Ht']|[HD' _]]; [|exfalso; apply HD'; by right].
      split; [|done]. by apply (target_fun k').
    - right. split; [done|]. destruct Hat as [[[?|?] ?]|[HD' ->]]; [by left|done|].
      right. split; [|done]. intros ?. apply HD'. by left. }
  constructor; [done|by rewrite Hh, (gr_h D u Hg)|by rewrite Hm, (gr_map D u Hg)|].
  intros i s k' v'. rewrite Hpos. split.
  - intros [(-> & Hi & Hs)|[[-> [(-> & -> & ->)|[Hs Hi]]%Hdst]|(Hi1 & Hi2 & Hi)]].
    + assert (Hpu : at_pos u n s k' v') by (by exists b).
      apply (gr_pos D u Hg) in Hpu as (i0 & Hp0 & Hat). exists i0. split; [done|].
      destruct Hat as [[? ?]|[HDi ->]]; [left; split; [by left|done]|right].
      split; [|done]. by intros [?|[_ ?]].
    + exists n. split; [done|]. left. split; [by right|done].
    + assert (Hpu : at_pos u bi s k' v') by (by exists b2).
      apply (gr_pos D u Hg) in Hpu as (i0 & Hp0 & Hat). exists i0. split; [done|].
      destruct Hat as [[? ?]|[HDi ->]]; [left; split; [by left|done]|right].
      split; [|done]. by intros [?|[_ ?]].
    + apply (gr_pos D u Hg) in Hi as (i0 & Hp0 & Hat). exists i0. split; [done|].
      destruct Hat as [[? ?]|[HDi ->]]; [left; split; [by left|done]|right].
      split; [|done]. by intros [?|[? _]].
  - intros (i0 & Hp0 & Hat). destruct (Honly i i0 s k' v' Hp0 Hat) as [(-> & -> & -> & -> & ->)|[Hd Hat']].
    + right. left. split; [done|]. apply Hdst. by left.
    + assert (Hpu : at_pos u i s k' v') by (apply (gr_pos D u Hg); by exists i0).
      destruct (decide (i = n)) as [->|Hin]; [left|destruct (decide (i = bi)) as [->|Hib]].
      * destruct Hpu as (b' & Hb' & Hi). assert (b' = b) as -> by congruence.
        split; [done|]. split; [done|]. intros ->. apply Hd. split; [|done].
        pose proof (growing_origin D u n m k' v' Hg) as Ho. rewrite Hn in Ho.
        destruct Hat' as [[HDi Ht']|[_ ->]]; [|done].
        assert (n mod 2 ^ j = i0) as <- by (by eapply target_over). done.
      * right. left. split; [done|]. apply Hdst. right.
        destruct Hpu as (b' & Hb' & Hi). assert (b' = b2) as -> by congruence.
        split; [|done]. intros ->. by apply Hfree in Hi.
      * by right; right.
Qed.

Lemma rd_pair (a b w : Z) (P : Z -> Z) : w = 0 \/ w = 1 -> P 0 = a -> P 1 = b -> rd [a; b] w = Ok (P w).
Proof. by intros [->| ->] <- <-. Qed.

(** The bucket that an item is looked up to move to. *)
Lemma power_target D u k w : growing D u -> loc_map (cp_locator t0) !! k = Some w ->
  fast_map_to_buckets (FastHasher64 (cp_h u) k) (num_buckets_ u) =
    Ok (cand j' (cp_h t0) k 0, cand j' (cp_h t0) k 1) /\
  loc_lookUp (cp_locator u) k = Ok w /\
  rd [cand j' (cp_h t0) k 0; cand j' (cp_h t0) k 1] w = Ok (cand j' (cp_h t0) k w).
Proof.
  intros Hg Hw. pose proof (gr_shape D u Hg) as Hs. destruct (ts_j u j' Hs).
  split; [|split].
  - rewrite (ts_size u j' Hs), (gr_h D u Hg), (fast_map_spec j') by (lia || apply FastHasher64_word).
    done.
  - apply loc_lookUp_spec; [apply Hs|]. by rewrite (gr_map D u Hg).
  - apply (rd_pair _ _ w (cand j' (cp_h t0) k)); [|done..].
    by apply (loc_bits (cp_locator t0) k w (ts_loc t0 j Hwf)).
Qed.

(** The write of the moved item and the new seed of its bucket. *)
Lemma power_move D u n m k v bi b : growing D u -> ~ D n m -> 0 <= n < 2 ^ j ->
  at_pos t0 n m k v -> target k bi -> bi <> n ->
  rd (buckets_ u) n = Ok b -> item b m k v ->
  exists u', (l ← wr (buckets_ u) n (toggle_occupied b m);
     dst ← rd l bi;
     dst' ← set_item (set_occupied dst m) m k v;
     l' ← wr l bi dst';
     '(t', _, _) ← updateSeed (with_buckets l' u) bi false (-1);
     Ok t') = Ok u' /\ growing (add_pos D n m) u'.
Proof.
  intros Hg HD Hn Hp Ht Hne Hb Hit. pose proof (gr_shape D u Hg) as Hs.
  pose proof (ts_bucket u j' Hs n b Hb) as Hbok. pose proof Hit as (Hm & Hocc & _).
  destruct (ts_j u j' Hs).
  destruct (target_exists _ _ _ _ Hp) as (bi' & Ht' & Hbi).
  assert (bi' = bi) as -> by (by apply (target_fun k)).
  destruct (bucket_at u j' bi Hs Hbi) as [b2 Hb2].
  pose proof (ts_bucket u j' Hs bi b2 Hb2) as Hb2ok.
  pose proof (wr_in_range (buckets_ u) n (toggle_occupied b m) (rd_range _ _ _ Hb)) as Hw1.
  rewrite Hw1, bind_Ok_l. set (l := <[Z.to_nat n := toggle_occupied b m]> (buckets_ u)) in *.
  assert (Hlbi : rd l bi = Ok b2) by (by rewrite (rd_wr_ne _ _ _ _ _ Hw1)).
  rewrite Hlbi, bind_Ok_l, set_item_occupied.
  destruct (put_item_spec b2 (ok_shape b2 Hb2ok) m k v Hm) as (b3 & -> & Hs3 & _ & _ & Hit3).
  rewrite !bind_Ok_l. set (dst' := set_occupied b3 m) in *.
  pose proof (wr_in_range l bi dst' (rd_range _ _ _ Hlbi)) as Hw2. rewrite Hw2, bind_Ok_l.
  set (l' := <[Z.to_nat bi := dst']> l) in *. set (u1 := with_buckets l' u).
  assert (Hb1 : rd (buckets_ u1) bi = Ok dst') by (by apply (rd_wr_eq _ _ _ _ Hw2)).
  assert (Hbn : bi mod 2 ^ j = n) by (by eapply target_over).
  assert (Hsub : forall s k' v', item dst' s k' v' -> at_pos t0 n s k' v').
  { intros s k' v' [(-> & -> & ->)|[_ Hi]]%Hit3; [done|].
    rewrite <-Hbn. apply (growing_origin D u); [done|]. by exists b2. }
  destruct (updateSeed_spec u1 bi dst' (-1) Hb1 Hs3)
    as [(seed & u2 & -> & Eu2 & Hw3 & Hseed & Hsep)|[_ Hno]].
  2:{ exfalso. destruct (old_seed_separates dst' n Hsub Hn) as (sd & ? & ?). by eapply Hno. }
  rewrite bind_Ok_l. exists u2. split; [done|].
  assert (Hrd : forall i, rd (buckets_ u2) i = if i =? bi then Ok (set_seed dst' seed)
    else if i =? n then Ok (toggle_occupied b m) else rd (buckets_ u) i).
  { intros i. destruct (Z.eqb_spec i bi) as [->|Hib]; [by rewrite (rd_wr_eq _ _ _ _ Hw3)|].
    rewrite (rd_wr_ne _ _ _ _ _ Hw3) by congruence.
    change (buckets_ u1) with l'. rewrite (rd_wr_ne _ _ _ _ _ Hw2) by congruence.
    destruct (Z.eqb_spec i n) as [->|Hin]; [by rewrite (rd_wr_eq _ _ _ _ Hw1)|].
    by rewrite (rd_wr_ne _ _ _ _ _ Hw1) by congruence. }
  apply (growing_move D u u2 n m k v bi b b2 (set_seed dst' seed)); try done.
  - intros i s k' v'. unfold at_pos. rewrite Hrd.
    destruct (Z.eqb_spec i bi) as [->|Hib].
    + split; [intros (b' & Hb' & Hi); right; left; by apply Ok_inj in Hb' as <-|].
      intros [[? _]|[[_ Hi]|(_ & ? & _)]]; [done|by eexists|done].
    + destruct (Z.eqb_spec i n) as [->|Hin].
      * split.
        -- intros (b' & Hb' & Hi). apply Ok_inj in Hb' as <-. left.
           by apply toggle_occupied_item in Hi as [? ?]; [|apply Hbok|..].
        -- intros [(_ & Hi & Hsm)|[[? _]|(? & _)]]; [|done..]. eexists. split; [done|].
           by apply toggle_occupied_item; [apply Hbok|..].
      * split; [by right; right|]. by intros [[? _]|[[? _]|(_ & _ & ?)]].
  - constructor; [done|by rewrite Eu2; apply Hs| | |by rewrite Eu2; apply Hs].
    + rewrite (wr_length _ _ _ _ Hw3). change (buckets_ u1) with l'.
      rewrite (wr_length _ _ _ _ Hw2), (wr_length _ _ _ _ Hw1). apply Hs.
    + intros i b'. rewrite Hrd. destruct (Z.eqb_spec i bi); [|destruct (Z.eqb_spec i n)].
      * intros <-%Ok_inj. by constructor; [apply shape_set_seed| |].
      * intros <-%Ok_inj. apply (bucket_ok_sub b); [done|by apply toggle_occupied_shape; [apply Hbok|]|done|].
        intros s k' v' Hi. exists v'. by apply toggle_occupied_item in Hi as [? _]; [|apply Hbok|..].
      * by apply Hs.
  - by rewrite Eu2.
  - by rewrite Eu2.
Qed.

Lemma power_slot_spec D u n m : growing D u -> ~ D n m -> 0 <= n < 2 ^ j -> 0 <= m < 4 ->
  exists u', power_slot n u m = Ok u' /\ growing (add_pos D n m) u'.
Proof.
  intros Hg HD Hn Hm. pose proof (gr_shape D u Hg) as Hs. destruct (ts_j t0 j Hwf).
  assert (2 ^ j <= 2 ^ j') by (apply Z.pow_le_mono_r; lia).
  destruct (bucket_at u j' n Hs) as [b Hb]; [lia|].
  pose proof (ts_bucket u j' Hs n b Hb) as Hbok. unfold power_slot. rewrite Hb, bind_Ok_l.
  destruct (occupied b m) eqn:Hocc; cbn [negb].
  2:{ exists u. split; [done|]. apply growing_idle; [done|done|]. intros k v Hp. exfalso.
      assert (Hpu : at_pos u n m k v) by (apply (gr_pos D u Hg); exists n; by split; [|right]).
      destruct Hpu as (b' & Hb' & _ & Ho & _). congruence. }
  destruct (shape_item b m (ok_shape b Hbok) Hm Hocc) as (k & v & Hit).
  pose proof Hit as (_ & _ & -> & ->). rewrite !bind_Ok_l.
  assert (Hp : at_pos t0 n m k v).
  { assert (Hp : at_pos t0 (n mod 2 ^ j) m k v)
      by (apply (growing_origin D u n m k v Hg); by exists b). by rewrite Z.mod_small in Hp. }
  destruct (wt_home t0 j Hwf _ _ _ _ Hp) as (w & Hw & _).
  destruct (power_target D u k w Hg Hw) as (-> & -> & Hrd).
  rewrite !bind_Ok_l. cbv beta iota. rewrite Hrd, bind_Ok_l.
  assert (Ht : target k (cand j' (cp_h t0) k w)) by (by exists w).
  destruct (Z.eqb_spec (cand j' (cp_h t0) k w) n) as [E|Hne].
  - exists u. split; [done|]. apply growing_idle; [done|done|]. intros k' v' Hp'.
    destruct Hp as (b0 & Hb0 & Hi0), Hp' as (b0' & Hb0' & Hi0').
    assert (b0' = b0) as -> by congruence. destruct (item_fun _ _ _ _ _ _ Hi0 Hi0') as [<- _].
    by rewrite <-E.
  - by apply (power_move D u n m k v (cand j' (cp_h t0) k w) b).
Qed.

Lemma growing_ext D D' u : (forall i s, 0 <= s < 4 -> D i s <-> D' i s) -> growing D u -> growing D' u.
Proof.
  intros HD Hg. constructor; [apply Hg..|]. intros i s k v. rewrite (gr_pos D u Hg).
  unfold grown_at. split; intros (i0 & Hp & H); exists i0; (split; [done|]);
    destruct (at_pos_range _ _ _ _ Hp); by rewrite HD in * || rewrite <-HD in *.
Qed.

(** The first [n] buckets are done. *)
Definition rows_done (n : Z) : Z -> Z -> Prop := fun i _ => i < n.

Lemma power_row u n : growing (rows_done n) u -> 0 <= n < 2 ^ j ->
  exists u', foldM (power_slot n) slots u = Ok u' /\ growing (rows_done (n + 1)) u'.
Proof.
  intros Hg Hn.
  destruct (foldM_inv (fun pre u => growing (fun i s => i < n \/ (i = n /\ s ∈ pre)) u)
    (power_slot n) slots u) as (u' & E & Hg').
  - apply (growing_ext (rows_done n)); [|done]. intros i s _. unfold rows_done.
    split; [by left|]. intros [?|[_ ?%not_elem_of_nil]]; done.
  - intros pre m post u1 Hl Hg1.
    assert (Hm : m ∈ slots) by (rewrite Hl; apply elem_of_app; right; apply list_elem_of_here).
    assert (Hnd : NoDup slots) by (unfold slots; repeat constructor; set_solver).
    rewrite Hl in Hnd. apply NoDup_app in Hnd as (_ & Hnd & _).
    destruct (power_slot_spec _ u1 n m Hg1) as (u2 & -> & Hg2); [|done|by apply elem_of_slots|].
    + intros [?|[_ Hin]]; [lia|]. by apply (Hnd m Hin), list_elem_of_here.
    + exists u2. split; [done|]. eapply growing_ext; [|exact Hg2]. intros i s _.
      unfold add_pos. cbv beta. rewrite elem_of_app, list_elem_of_singleton. tauto.
  - exists u'. split; [done|]. eapply growing_ext; [|exact Hg']. intros i s Hs.
    unfold rows_done. apply elem_of_slots in Hs. split; [intros [?|[-> _]]; lia|].
    intros ?. destruct (decide (i = n)); [by right|left; lia].
Qed.

Lemma seq_split N pre x post : seq 0 N = pre ++ x :: post -> x = length pre /\ (x < N)%nat.
Proof.
  intros H. assert (Hx : seq 0 N !! length pre = Some x) by (by rewrite H, list_lookup_middle).
  by apply lookup_seq in Hx as [-> ?].
Qed.

Lemma power_rows u : growing (rows_done 0) u ->
  exists u', foldM (fun t i => foldM (power_slot (Z.of_nat i)) slots t)
    (seq 0 (Z.to_nat (2 ^ j))) u = Ok u' /\ growing (rows_done (2 ^ j)) u'.
Proof.
  intros Hg. destruct (ts_j t0 j Hwf). assert (0 < 2 ^ j) by (by apply Z.pow_pos_nonneg; lia).
  destruct (foldM_inv (fun pre u => growing (rows_done (Z.of_nat (length pre))) u)
    (fun t i => foldM (power_slot (Z.of_nat i)) slots t) (seq 0 (Z.to_nat (2 ^ j))) u Hg)
    as (u' & E & Hg').
  - intros pre x post u1 Hl Hg1. apply seq_split in Hl as [-> Hx].
    destruct (power_row u1 (Z.of_nat (length pre)) Hg1) as (u2 & -> & Hg2); [lia|].
    exists u2. split; [done|]. by rewrite length_app, Nat2Z.inj_add.
  - exists u'. split; [done|]. by rewrite length_seq, Z2Nat.id in Hg' by lia.
Qed.

(** The table with the new size and the added empty buckets. *)
Lemma growing_start cap o : loc_inv o -> loc_map o = loc_map (cp_locator t0) ->
  growing (rows_done 0) (with_locator o
    (with_buckets (resize (Z.to_nat (2 ^ j')) empty_bucket (buckets_ t0)) (with_size (2 ^ j') cap t0))).
Proof.
  intros Ho Hm. destruct (ts_j t0 j Hwf).
  assert (0 < 2 ^ j) by (by apply Z.pow_pos_nonneg; lia).
  assert (2 ^ j <= 2 ^ j') by (apply Z.pow_le_mono_r; lia).
  assert (Hl : resize (Z.to_nat (2 ^ j')) empty_bucket (buckets_ t0) =
    buckets_ t0 ++ replicate (Z.to_nat (2 ^ j') - Z.to_nat (2 ^ j)) empty_bucket).
  { rewrite resize_ge; [by rewrite (ts_len t0 j Hwf)|]. rewrite (ts_len t0 j Hwf). lia. }
  assert (Hrd : forall i b, rd (resize (Z.to_nat (2 ^ j')) empty_bucket (buckets_ t0)) i = Ok b ->
    rd (buckets_ t0) i = Ok b \/ b = empty_bucket).
  { intros i b [Hi Hb]%rd_Ok. rewrite Hl in Hb. apply lookup_app_Some in Hb as [Hb|[_ Hb]].
    - left. by apply rd_Ok.
    - right. by apply lookup_replicate in Hb as [-> _]. }
  constructor; [constructor|done|done|].
  - lia.
  - done.
  - simpl. by rewrite length_resize.
  - simpl. intros i b Hb. apply Hrd in Hb as [Hb| ->]; [by apply (ts_bucket t0 j Hwf i)|].
    apply empty_bucket_ok.
  - done.
  - intros i s k v. unfold grown_at, rows_done. split.
    + intros (b & Hb & Hi). simpl in Hb. apply Hrd in Hb as [Hb| ->].
      * exists i. assert (Hp : at_pos t0 i s k v) by (by exists b). split; [done|].
        right. split; [|done]. destruct (at_pos_range _ _ _ _ Hp). lia.
      * destruct Hi as (? & Ho' & _). unfold occupied, empty_bucket in Ho'. simpl in Ho'.
        by rewrite Z.bits_0 in Ho'.
    + intros (i0 & Hp & [[? _]|[_ ->]]).
      * destruct (at_pos_range _ _ _ _ Hp). lia.
      * destruct Hp as (b & [Hi Hb]%rd_Ok & Hit). exists b. split; [|done]. simpl.
        apply rd_Ok. split; [done|]. rewrite Hl. by apply lookup_app_l_Some.
Qed.

Lemma growing_end u : growing (rows_done (2 ^ j)) u ->
  wf_table u j' /\ forall k v, holds u k v <-> holds t0 k v.
Proof.
  intros Hg.
  assert (Hpos : forall i s k v, at_pos u i s k v <->
    exists i0, at_pos t0 i0 s k v /\ target k i).
  { intros i s k v. rewrite (gr_pos _ u Hg). unfold grown_at, rows_done. split.
    - intros (i0 & Hp & [[_ Ht]|[Hno _]]); [by exists i0|]. destruct (at_pos_range _ _ _ _ Hp). lia.
    - intros (i0 & Hp & Ht). exists i0. split; [done|]. left. split; [|done].
      destruct (at_pos_range _ _ _ _ Hp). lia. }
  split.
  - constructor; [apply Hg|]. intros i s k v (i0 & _ & w & Hw & ->)%Hpos.
    exists w. by rewrite (gr_map _ u Hg), (gr_h _ u Hg).
  - intros k v. unfold holds. split.
    + intros (i & s & (i0 & Hp & _)%Hpos). by exists i0, s.
    + intros (i & s & Hp). destruct (target_exists _ _ _ _ Hp) as (i' & Ht & _).
      exists i', s. apply Hpos. by exists i.
Qed.
End grow.

(** C12: Growing the table keeps its contents: [powerSize] on a well-formed
    table of [2 ^ j] buckets that was given the size [2 ^ j'] succeeds whenever the
    resize of the locator does;
    the table is well-formed at the new size, so every item is in the bucket
    that its hash selects there, and it holds exactly the items it held. *)
Theorem powerSize_correct {L : Type} `{LO : LocatorOk L} (t : ControlPlaneLudo L) j j' cap :
  wf_table t j -> j <= j' < 30 -> 0 <= cap < 2 ^ 30 ->
  (exists t', powerSize (with_size (2 ^ j') cap t) (2 ^ j' / 2 ^ j) = Ok t' /\
     wf_table t' j' /\ forall k v, holds t' k v <-> holds t k v) \/
  (exists e, powerSize (with_size (2 ^ j') cap t) (2 ^ j' / 2 ^ j) = Err e /\
     loc_resizeCapacity (cp_locator t) cap = Err e /\ build_fault e).
Proof.
  intros Hwf Hj Hcap. destruct (ts_j t j Hwf).
  destruct (loc_resize_spec (cp_locator t) cap (ts_loc t j Hwf) Hcap) as [(o & E & Ho & Hm)|(e & E & He)].
  2: { right. exists e. unfold powerSize. cbn [num_buckets_ with_size buckets_ cp_locator capacity]. by rewrite E. }
  left. destruct (power_rows t j j' Hwf Hj _ (growing_start t j j' Hwf Hj cap o Ho Hm)) as (t' & E' & Hg).
  exists t'. split; [|by apply (growing_end t j j')].
  unfold powerSize. cbn [num_buckets_ with_size buckets_ cp_locator capacity]. rewrite E, bind_Ok_l.
  replace (2 ^ j' / (2 ^ j' / 2 ^ j)) with (2 ^ j); [exact E'|].
  rewrite <-Z.pow_sub_r, <-Z.pow_sub_r by lia. f_equal. lia.
Qed.

Lemma powerSize_correct_witness :
  (exists t', powerSize (with_size (2 ^ 7) 486 demo_table1) (2 ^ 7 / 2 ^ 6) = Ok t' /\
     wf_table t' 7 /\ forall k v, holds t' k v <-> holds demo_table1 k v) \/
  (exists e, powerSize (with_size (2 ^ 7) 486 demo_table1) (2 ^ 7 / 2 ^ 6) = Err e /\
     loc_resizeCapacity (cp_locator demo_table1) 486 = Err e /\ build_fault e).
Proof. apply (powerSize_correct demo_table1 6 7 486); [exact demo_wf1|lia|lia]. Defined.
