(* ===== verification/LudoCuckoo.v ===== *)
(** * The cuckoo search of the Ludo table (ControlPlaneLudo::CuckooInsert)

    The breadth-first search for a bucket with a free slot ends, stays inside
    its arrays and finds a path of items each of which may move to the next
    bucket; moving them along it and putting the new item into the slot that
    becomes free keeps the table well-formed and adds exactly that item. *)

From Stdlib Require Import ZArith Lia.
From stdpp Require Import base numbers gmap list.
From S2P Require Import Prelude Words Hash LudoSlot ServerRdma ServerInv LudoTable LudoInv LudoProps.

#[local] Open Scope Z_scope.
#[local] Opaque FastHasher64.

(** ** The queue

    The search pushes fewer entries than the array has, so that the indices of
    the circular queue never wrap: its contents are a slice of the array. *)

Definition live (q : CuckooPathQueue) (Q : list CuckooPathEntry) : Prop :=
  length (queue_ q) = Z.to_nat kMaxQueueSize /\ 0 <= head_ q /\
  tail_ q = head_ q + Z.of_nat (length Q) /\
  forall i e, Q !! i = Some e -> rd (queue_ q) (head_ q + Z.of_nat i) = Ok e.

Lemma live_empty q Q : live q Q -> queue_empty q = bool_decide (Q = []).
Proof.
  intros (_ & _ & Ht & _). unfold queue_empty. case_bool_decide as H.
  - subst Q. apply Z.eqb_eq. cbn in Ht. lia.
  - apply Z.eqb_neq. destruct Q; [done|]. cbn [length] in Ht. lia.
Qed.

Lemma push_back_live q Q e : live q Q -> tail_ q + 1 < kMaxQueueSize ->
  exists q', push_back q e = Ok q' /\ live q' (Q ++ [e]) /\ tail_ q' = tail_ q + 1.
Proof.
  intros (Hl & Hh & Ht & Hrd) Hroom. unfold push_back.
  pose proof (wr_in_range (queue_ q) (tail_ q) e ltac:(lia)) as Hw. rewrite Hw, bind_Ok_l.
  eexists. split; [reflexivity|]. rewrite Z.mod_small by lia. split; [|done].
  unfold live. cbn [head_ tail_ queue_].
  split; [by rewrite length_insert|]. split; [done|]. split; [rewrite length_app; cbn [length]; lia|]. intros i x Hi.
  apply lookup_app_Some in Hi as [Hi|[Hge Hi]].
  - rewrite (rd_wr_ne _ _ _ _ _ Hw); [by apply Hrd|]. apply lookup_lt_Some in Hi. lia.
  - apply list_lookup_singleton_Some in Hi as [Hi <-].
    replace (head_ q + Z.of_nat i) with (tail_ q) by lia. by apply (rd_wr_eq _ _ _ _ Hw).
Qed.

Lemma pop_front_live q e Q : live q (e :: Q) -> head_ q + 1 < kMaxQueueSize ->
  exists q', pop_front q = Ok (e, q') /\ live q' Q /\ tail_ q' = tail_ q.
Proof.
  intros (Hl & Hh & Ht & Hrd) Hroom. unfold pop_front.
  pose proof (Hrd 0%nat e eq_refl) as H0. rewrite Z.add_0_r in H0. rewrite H0, bind_Ok_l.
  eexists. split; [reflexivity|]. rewrite Z.mod_small by lia. split; [|done].
  split; [done|]. cbn [head_ tail_ queue_]. cbn [length] in Ht. split; [lia|]. split; [lia|].
  intros i x Hi. replace (head_ q + 1 + Z.of_nat i) with (head_ q + Z.of_nat (S i)) by lia.
  by apply Hrd.
Qed.

(** How many entries the expansion of an entry of depth [d] may still push, and
    how many of them are expanded in turn. *)
Definition pushes (d : Z) : Z := (4 ^ (6 - d) - 4) / 3.
Definition expansions (d : Z) : Z := (4 ^ (5 - d) - 1) / 3.

Lemma depth_cases d : 1 <= d <= 5 -> d = 1 \/ d = 2 \/ d = 3 \/ d = 4 \/ d = 5.
Proof. lia. Qed.

Lemma pushes_step d : 1 <= d < 5 -> pushes d = 4 + 4 * pushes (d + 1) /\ 0 <= pushes (d + 1) /\
  expansions d = 1 + 4 * expansions (d + 1) /\ 0 <= expansions (d + 1).
Proof. intros Hd. destruct (depth_cases d ltac:(lia)) as [->|[->|[->|[->| ->]]]]; [by vm_compute..|lia]. Qed.

Lemma pushes_nonneg d : 1 <= d <= 5 -> 0 <= pushes d /\ 0 <= expansions d.
Proof. intros Hd. by destruct (depth_cases d Hd) as [->|[->|[->|[->| ->]]]]. Qed.

Definition total (f : Z -> Z) (Q : list CuckooPathEntry) : Z :=
  foldr (fun e n => f (e_depth e) + n) 0 Q.

Lemma total_cons f e Q : total f (e :: Q) = f (e_depth e) + total f Q.
Proof. reflexivity. Qed.

Lemma total_app f Q Q' : total f (Q ++ Q') = total f Q + total f Q'.
Proof. induction Q as [|e Q IH]; cbn [app]; [done|]. rewrite !total_cons, IH. lia. Qed.

Lemma total_same f d Q : 0 <= f d -> Forall (fun e => e_depth e = d) Q -> (length Q <= 4)%nat ->
  0 <= total f Q <= 4 * f d.
Proof.
  intros Hf HQ Hlen. assert (total f Q = Z.of_nat (length Q) * f d) as ->; [|nia].
  clear Hlen. induction HQ as [|e Q He _ IH]; [done|]. rewrite total_cons, He, IH. cbn [length]. lia.
Qed.

Lemma totals_nonneg Q : Forall (fun e => 1 <= e_depth e <= 5) Q ->
  0 <= total pushes Q /\ 0 <= total expansions Q.
Proof.
  intros HQ. induction HQ as [|e Q He _ IH]; [done|]. rewrite !total_cons.
  pose proof (pushes_nonneg _ He). lia.
Qed.

(** ** The search *)

Record hop := MkHop { from_bucket : Z; from_slot : Z; to_bucket : Z }.

Section search.
Context {L : Type} `{LO : LocatorOk L} (t : ControlPlaneLudo L) (j : Z) (Ht : wf_table t j).

Definition is_cand (k i : Z) : Prop := i = cand j (cp_h t) k 0 \/ i = cand j (cp_h t) k 1.

Definition full (i : Z) : Prop := exists b, rd (buckets_ t) i = Ok b /\
  forall s, 0 <= s < 4 -> occupied b s = true.

(** The item of a full bucket that may move to another bucket. *)
Definition hop_ok (h : hop) : Prop :=
  full (from_bucket h) /\ to_bucket h <> from_bucket h /\
  exists k v, at_pos t (from_bucket h) (from_slot h) k v /\ is_cand k (to_bucket h).

(** The hops from an entry back to a root, through the visited entries [V]. *)
Inductive trail (V : list CuckooPathEntry) : CuckooPathEntry -> list hop -> Prop :=
  | trail_root e : e_depth e = 1 -> trail V e []
  | trail_hop e p l : rd V (e_parent e) = Ok p -> e_depth e = e_depth p + 1 ->
      hop_ok (MkHop (e_bucket p) (e_parent_slot e) (e_bucket e)) -> trail V p l ->
      trail V e (MkHop (e_bucket p) (e_parent_slot e) (e_bucket e) :: l).

Lemma trail_depth V e l : trail V e l -> e_depth e = 1 + Z.of_nat (length l).
Proof. induction 1; cbn [length]; lia. Qed.

Definition extends (V V' : list CuckooPathEntry) : Prop := forall i e, rd V i = Ok e -> rd V' i = Ok e.

Lemma extends_snoc V e : extends V (V ++ [e]).
Proof. intros i x [Hi Hx]%rd_Ok. apply rd_Ok. split; [done|]. by apply lookup_app_l_Some. Qed.

Lemma trail_extends V V' e l : extends V V' -> trail V e l -> trail V' e l.
Proof. intros Hx. induction 1; [by constructor|]. econstructor; eauto. Qed.

(** A pushed entry [x] of the expansion of [e], which is visited entry [n]. *)
Definition child (e : CuckooPathEntry) (n : Z) (x : CuckooPathEntry) : Prop :=
  e_depth x = e_depth e + 1 /\ e_parent x = n /\ 0 <= e_bucket x < 2 ^ j /\
  hop_ok (MkHop (e_bucket e) (e_parent_slot x) (e_bucket x)).

Lemma push_alternatives_spec b e n q Q i : rd (buckets_ t) (e_bucket e) = Ok b ->
  (forall s, 0 <= s < 4 -> occupied b s = true) -> live q Q -> tail_ q + 1 < kMaxQueueSize ->
  exists q' new, push_alternatives t b e n q i = Ok q' /\ live q' (Q ++ new) /\
    tail_ q' = tail_ q + Z.of_nat (length new) /\ (length new <= 1)%nat /\ Forall (child e n) new.
Proof.
  intros Hb Hfull Hq Hroom. unfold push_alternatives, kSlotsPerBucket.
  set (slot := _ mod 4). assert (Hslot : 0 <= slot < 4) by (by apply Z.mod_pos_bound).
  destruct (shape_item b slot (ok_shape b (ts_bucket t j Ht _ b Hb)) Hslot (Hfull slot Hslot)) as (k & v & Hit).
  pose proof Hit as (_ & _ & Hk & _). rewrite Hk, bind_Ok_l, (candidates_spec t j k Ht), bind_Ok_l.
  assert (Hp : at_pos t (e_bucket e) slot k v) by (by exists b).
  destruct (wt_home t j Ht _ _ _ _ Hp) as (w & Hw & Eb).
  assert (Hpush : forall x, x = cand j (cp_h t) k 0 \/ x = cand j (cp_h t) k 1 -> exists q' new,
    (if x =? e_bucket e then Ok q else push_back q (MkEntry x (e_depth e + 1) n slot)) = Ok q' /\
    live q' (Q ++ new) /\ tail_ q' = tail_ q + Z.of_nat (length new) /\ (length new <= 1)%nat /\
    Forall (child e n) new).
  { intros x Hx. destruct (Z.eqb_spec x (e_bucket e)) as [E|Hne].
    - exists q, []. rewrite app_nil_r. split; [done|]. split; [done|]. split; [cbn; lia|]. split; [cbn; lia|done].
    - destruct (push_back_live q Q (MkEntry x (e_depth e + 1) n slot) Hq Hroom) as (q' & E & Hq' & Ht').
      exists q', [MkEntry x (e_depth e + 1) n slot]. split; [done|]. split; [done|]. split; [done|].
      split; [cbn; lia|]. apply Forall_singleton. split; [done|]. split; [done|].
      destruct (ts_j t j Ht). split; [destruct Hx as [->| ->]; apply cand_range; lia|].
      split; [by exists b|]. split; [done|]. by exists k, v. }
  cbn [foldM]. destruct (loc_bits (cp_locator t) k w (ts_loc t j Ht) Hw) as [->| ->].
  - rewrite <-Eb, Z.eqb_refl, bind_Ok_l. destruct (Hpush (cand j (cp_h t) k 1)) as (q' & new & E & H); [by right|].
    exists q', new. rewrite E, bind_Ok_l. by split.
  - destruct (Hpush (cand j (cp_h t) k 0)) as (q' & new & E & H); [by left|].
    exists q', new. rewrite E, bind_Ok_l, <-Eb, Z.eqb_refl, bind_Ok_l. by split.
Qed.

Lemma expand_spec b e n q Q : rd (buckets_ t) (e_bucket e) = Ok b ->
  (forall s, 0 <= s < 4 -> occupied b s = true) -> live q Q -> tail_ q + 4 < kMaxQueueSize ->
  exists q' new, foldM (push_alternatives t b e n) slots q = Ok q' /\ live q' (Q ++ new) /\
    tail_ q' = tail_ q + Z.of_nat (length new) /\ (length new <= 4)%nat /\ Forall (child e n) new.
Proof.
  intros Hb Hfull Hq Hroom.
  destruct (foldM_inv (fun pre q' => exists new, live q' (Q ++ new) /\
    tail_ q' = tail_ q + Z.of_nat (length new) /\ (length new <= length pre)%nat /\ Forall (child e n) new)
    (push_alternatives t b e n) slots q) as (q' & E & new & H).
  - exists []. rewrite app_nil_r. split; [done|]. split; [cbn; lia|]. split; [done|done].
  - intros pre i post q1 Hl (new & Hq1 & Ht1 & Hlen & Hnew).
    assert (length pre < 4)%nat by (apply (f_equal length) in Hl; rewrite length_app in Hl; cbn in Hl; lia).
    destruct (push_alternatives_spec b e n q1 (Q ++ new) i Hb Hfull Hq1) as (q2 & new2 & E & Hq2 & Ht2 & Hlen2 & Hnew2);
      [lia|]. exists q2. split; [done|]. exists (new ++ new2). rewrite (assoc_L (++)). split; [done|].
    rewrite !length_app. cbn [length]. split; [lia|]. split; [lia|]. by apply Forall_app_2.
  - exists q', new. by split.
Qed.

(** The candidate buckets of the key to insert are full. *)
Context (k : Z).

(** The first visited entry is the root of the first bucket. *)
Definition roots_ok (V : list CuckooPathEntry) : Prop :=
  forall i e, rd V i = Ok e -> e_depth e = 1 ->
    e_bucket e = cand j (cp_h t) k (if i =? 0 then 0 else 1).

Record searching (q : CuckooPathQueue) (vis : list CuckooPathEntry) (vend : Z)
    (Q V : list CuckooPathEntry) : Prop := {
  s_live : live q Q;
  s_vis : length vis = Z.to_nat kVisitedListSize;
  s_end : vend = Z.of_nat (length V) - 1;
  s_prefix : extends V vis;
  s_room : tail_ q + total pushes Q <= 682;
  s_visit : Z.of_nat (length V) + total expansions Q <= 170;
  s_trail : Forall (fun e => exists l, trail V e l) Q;
  s_depth : Forall (fun e => 1 <= e_depth e <= 5) Q;
  s_range : Forall (fun e => 0 <= e_bucket e < 2 ^ j) Q;
  s_roots : roots_ok V;
  s_queued : forall i e, Q !! i = Some e -> e_depth e = 1 ->
    (i + length V < 2)%nat /\ e_bucket e = cand j (cp_h t) k (if Nat.eqb (i + length V) 0 then 0 else 1);
}.

Lemma searching_tail q vis vend Q V : searching q vis vend Q V ->
  head_ q + Z.of_nat (length Q) <= 682 /\ 0 <= total pushes Q /\ 0 <= total expansions Q.
Proof.
  intros H. destruct (s_live _ _ _ _ _ H) as (_ & _ & Htl & _). pose proof (s_room _ _ _ _ _ H).
  pose proof (totals_nonneg Q (s_depth _ _ _ _ _ H)). lia.
Qed.

(** An entry is popped and expanded. *)
Lemma searching_expand q vis vend e Q V b q1 : searching q vis vend (e :: Q) V ->
  live q1 Q -> tail_ q1 = tail_ q -> e_depth e < 5 -> rd (buckets_ t) (e_bucket e) = Ok b ->
  (forall s, 0 <= s < 4 -> occupied b s = true) ->
  exists vis' q2 Q', wr vis (vend + 1) e = Ok vis' /\
    foldM (push_alternatives t b e (vend + 1)) slots q1 = Ok q2 /\ searching q2 vis' (vend + 1) Q' (V ++ [e]) /\
    head_ q2 = head_ q1.
Proof.
  intros H Hq1 Ht1 Hd Hb Hfull. destruct (searching_tail _ _ _ _ _ H) as (_ & Hpos & Hpos').
  destruct H as [Hlive Hvis Hend Hpre Hroom Hvisit Htrail Hdepth Hrange Hroots Hqueued].
  apply Forall_cons in Htrail as [[l Hl] Htrail], Hdepth as [Hde Hdepth], Hrange as [Hre Hrange].
  destruct (pushes_step (e_depth e) ltac:(lia)) as (Hp & Hp0 & Hx & Hx0).
  rewrite total_cons in Hroom, Hvisit, Hpos, Hpos'.
  destruct (totals_nonneg Q Hdepth) as [HQ HQ'].
  pose proof (wr_in_range vis (vend + 1) e) as Hw. rewrite Hvis in Hw.
  specialize (Hw ltac:(change kVisitedListSize with 340; lia)). rewrite Hw. eexists.
  destruct (expand_spec b e (vend + 1) q1 Q Hb Hfull Hq1) as (q2 & new & E & Hq2 & Ht2 & Hlen & Hnew);
    [change kMaxQueueSize with 1364; lia|].
  exists q2, (Q ++ new). split; [done|]. split; [done|].
  assert (Hsame : Forall (fun x => e_depth x = e_depth e + 1) new) by (eapply Forall_impl; [exact Hnew|]; by intros x []).
  pose proof (total_same pushes (e_depth e + 1) new Hp0 Hsame Hlen) as Hn1.
  pose proof (total_same expansions (e_depth e + 1) new Hx0 Hsame Hlen) as Hn2.
  assert (He : rd (V ++ [e]) (vend + 1) = Ok e).
  { apply rd_Ok. split; [lia|]. replace (Z.to_nat (vend + 1)) with (length V) by lia. by apply list_lookup_middle. }
  split; [constructor|].
  - done.
  - by rewrite length_insert.
  - rewrite length_app. cbn [length]. lia.
  - intros i x Hix. destruct (decide (i = vend + 1)) as [->|Hne].
    + rewrite He in Hix. apply Ok_inj in Hix as <-. by apply (rd_wr_eq _ _ _ _ Hw).
    + rewrite (rd_wr_ne _ _ _ _ _ Hw) by congruence. apply Hpre. pose proof (rd_range _ _ _ Hix) as Hr.
      rewrite length_app in Hr. cbn [length] in Hr. apply rd_Ok in Hix as [? Hix]. apply rd_Ok. split; [done|].
      by rewrite lookup_app_l in Hix by lia.
  - rewrite total_app. lia.
  - rewrite length_app, total_app. cbn [length]. lia.
  - apply Forall_app_2.
    + eapply Forall_impl; [exact Htrail|]. intros x [lx Hlx]. exists lx.
      eapply trail_extends; [apply extends_snoc|done].
    + eapply Forall_impl; [exact Hnew|]. intros x (Hdx & Hpx & _ & Hhop). eexists.
      eapply (trail_hop _ x e l); [by rewrite Hpx|done|done|]. eapply trail_extends; [apply extends_snoc|done].
  - apply Forall_app_2; [done|]. eapply Forall_impl; [exact Hsame|]. intros x Hdx. cbv beta in *. lia.
  - apply Forall_app_2; [done|]. eapply Forall_impl; [exact Hnew|]. by intros x (_ & _ & ? & _).
  - intros i x Hix Hdx. pose proof (rd_range _ _ _ Hix) as Hr. rewrite length_app in Hr. cbn [length] in Hr.
    destruct (decide (i = vend + 1)) as [->|Hne].
    + rewrite He in Hix. apply Ok_inj in Hix as <-. destruct (Hqueued 0%nat e eq_refl Hdx) as [Hlt ->].
      f_equal. cbn [Nat.add] in *. destruct (Nat.eqb_spec (length V) 0), (Z.eqb_spec (vend + 1) 0); done || lia.
    + apply Hroots; [|done]. apply rd_Ok in Hix as [? Hix]. apply rd_Ok. split; [done|].
      by rewrite lookup_app_l in Hix by lia.
  - intros i x Hix Hdx. apply lookup_app_Some in Hix as [Hix|[_ Hix]].
    + destruct (Hqueued (S i) x Hix Hdx) as [Hlt ->]. rewrite length_app. cbn [length].
      replace (i + (length V + 1))%nat with (S i + length V)%nat by lia. by split.
    + eapply Forall_lookup_1 in Hsame; [|exact Hix]. cbv beta in Hsame. lia.
  - destruct Hq1 as (_ & _ & ? & _), Hq2 as (_ & _ & Hh2 & _). rewrite length_app in Hh2. lia.
Qed.

(** An entry of the last level is popped. *)
Lemma searching_drop q vis vend e Q V q1 : searching q vis vend (e :: Q) V ->
  live q1 Q -> tail_ q1 = tail_ q -> 5 <= e_depth e -> searching q1 vis vend Q V.
Proof.
  intros [Hlive Hvis Hend Hpre Hroom Hvisit Htrail Hdepth Hrange Hroots Hqueued] Hq1 Ht1 Hd.
  apply Forall_cons in Htrail as [[l Hl] Htrail], Hdepth as [Hde Hdepth], Hrange as [Hre Hrange].
  rewrite total_cons in Hroom, Hvisit. destruct (pushes_nonneg (e_depth e) Hde).
  constructor; try done; [lia..|]. intros i x Hix Hdx. exfalso.
  destruct (Hqueued (S i) x Hix Hdx) as [Hlt _].
  inversion Hl as [|? p ? Hp]; subst; [lia|]. apply rd_range in Hp. lia.
Qed.

(** A path: an entry with a free slot and its trail through what was visited. *)
Definition path_to (e : CuckooPathEntry) (fs : Z) (vis : list CuckooPathEntry) : Prop :=
  (exists V l, trail V e l /\ roots_ok V /\ extends V vis) /\ 1 <= e_depth e <= 5 /\
  (e_depth e = 1 -> is_cand k (e_bucket e)) /\
  exists b, rd (buckets_ t) (e_bucket e) = Ok b /\ 0 <= fs < 4 /\ occupied b fs = false.

Lemma cuckoo_search_spec fuel q vis vend Q V : searching q vis vend Q V ->
  682 - head_ q < Z.of_nat fuel ->
  exists r, cuckoo_search fuel t q vis vend = Ok r /\
    match r with Some (e, fs, vis') => path_to e fs vis' | None => True end.
Proof.
  revert q vis vend Q V. induction fuel as [|fuel IH]; intros q vis vend Q V H Hfuel;
    destruct (searching_tail _ _ _ _ _ H) as (Hhead & _); [lia|].
  cbn [cuckoo_search]. rewrite (live_empty q Q (s_live _ _ _ _ _ H)). case_bool_decide as HQ; [by exists None|].
  destruct Q as [|e Q]; [done|]. cbn [length] in Hhead.
  destruct (pop_front_live q e Q (s_live _ _ _ _ _ H)) as (q1 & -> & Hq1 & Ht1);
    [change kMaxQueueSize with 1364; lia|]. rewrite bind_Ok_l. cbv beta iota.
  pose proof (s_range _ _ _ _ _ H) as Hrange. apply Forall_cons in Hrange as [Hre _].
  destruct (bucket_at t j (e_bucket e) Ht Hre) as [b Hb]. rewrite Hb, bind_Ok_l. cbv zeta.
  assert (Hh1 : head_ q1 = head_ q + 1).
  { destruct (s_live _ _ _ _ _ H) as (_ & _ & Hq & _), Hq1 as (_ & _ & Hq' & _). cbn [length] in Hq. lia. }
  destruct (FindFreeSlot_spec b) as [[Hfs Hfull]|[Hr Hfree]].
  - rewrite Hfs. change (negb (-1 =? -1)) with false. cbv iota.
    change kMaxBFSPathLen with 5. destruct (Z.ltb_spec (e_depth e) 5) as [Hd|Hd].
    + destruct (searching_expand q vis vend e Q V b q1 H Hq1 Ht1 Hd Hb Hfull) as (vis' & q2 & Q' & -> & E & H' & Hh2).
      rewrite bind_Ok_l, E, bind_Ok_l. apply (IH q2 vis' _ Q' (V ++ [e])); [done|lia].
    + apply (IH q1 vis vend Q V); [by eapply searching_drop|lia].
  - destruct (Z.eqb_spec (FindFreeSlot b) (-1)); [lia|]. eexists. split; [reflexivity|].
    pose proof (s_trail _ _ _ _ _ H) as Htrail. apply Forall_cons in Htrail as [[l Hl] _].
    pose proof (s_depth _ _ _ _ _ H) as Hdepth. apply Forall_cons in Hdepth as [Hd _].
    split; [exists V, l; split; [done|]; split; apply H|]. split; [done|]. split; [|by exists b].
    intros Hd1. destruct (s_queued _ _ _ _ _ H 0%nat e eq_refl Hd1) as [_ ->].
    unfold is_cand. destruct (Nat.eqb _ _); [by left|by right].
Qed.

(** The search neither runs out of fuel nor leaves the queue or the list of
    visited entries. *)
Lemma find_path_spec : exists r, find_path t k = Ok r /\
  match r with Some (e, fs, vis) => path_to e fs vis | None => True end.
Proof.
  unfold find_path. rewrite (candidates_spec t j k Ht), bind_Ok_l. unfold root_queue. cbn [foldM].
  set (q0 := MkQueue _ 0 0).
  assert (Hq0 : live q0 []) by (split; [apply length_replicate|]; split; [done|]; by split).
  destruct (push_back_live q0 [] (MkEntry (cand j (cp_h t) k 0) 1 (-1) (-1)) Hq0) as (q1 & -> & Hq1 & Ht1); [done|].
  rewrite bind_Ok_l. destruct (push_back_live q1 _ (MkEntry (cand j (cp_h t) k 1) 1 (-1) (-1)) Hq1) as (q2 & -> & Hq2 & Ht2);
    [by rewrite Ht1|]. rewrite !bind_Ok_l. change (tail_ q0) with 0 in Ht1. destruct (ts_j t j Ht).
  cbn [app] in Hq2. set (Q := [_; _]) in Hq2.
  assert (Hstart : searching q2 (replicate (Z.to_nat kVisitedListSize) blank_entry) (-1) Q []).
  { constructor; [exact Hq2|apply length_replicate|done|by intros i e [_ ?]%rd_Ok| | | | | | |].
    - rewrite Ht2, Ht1. by vm_compute.
    - by vm_compute.
    - repeat apply Forall_cons_2; [exists []; by constructor..|done].
    - repeat apply Forall_cons_2; [cbn; lia..|done].
    - repeat apply Forall_cons_2; [apply cand_range; lia..|done].
    - by intros i e [_ ?]%rd_Ok.
    - intros [|[|i]] e; cbn; [by intros [= <-]; split; [lia|]..|done]. }
  apply (cuckoo_search_spec _ _ _ _ _ _ Hstart).
  destruct Hq2 as (_ & ? & _). change (Z.of_nat search_fuel) with 1364. lia.
Qed.
End search.
