(* ===== verification/LudoInsert.v ===== *)
(** * Insertion into the Ludo table

    Moving items along the path that the cuckoo search found, the insertion
    that does not rebuild, and what any insertion that never drew a new hash
    seed does: also when it grew the table, it adds exactly its item. *)

From Stdlib Require Import ZArith Lia.
From stdpp Require Import base numbers gmap list.
From S2P Require Import Prelude Words Hash LudoSlot ServerRdma ServerInv LudoTable LudoInv LudoProps LudoGrow LudoCuckoo.

#[local] Open Scope Z_scope.
#[local] Opaque FastHasher64.

Lemma set_occupied_id b s : shape b -> 0 <= s < 4 -> occupied b s = true -> set_occupied b s = b.
Proof.
  intros [_ _ Hm] Hs Ho. unfold set_occupied, occupied in *. destruct b as [sd m ks vs]. cbn in *. f_equal.
  destruct (mask_bit_cases m s Hs Hm) as (Hw & _ & Hbit). unfold is_word in *.
  apply Z.bits_inj'. intros n Hn. destruct (decide (n < 4)) as [Hlt|Hge].
  - destruct (Hbit n ltac:(lia)) as [-> _]. destruct (Z.eqb_spec n s) as [->|]; [by rewrite Ho|done].
  - assert (Hhigh : forall x, 0 <= x < 2 ^ 4 -> Z.testbit x n = false).
    { intros x Hx. rewrite <-(Z.mod_small x (2 ^ 4)) by done. apply Z.mod_pow2_bits_high. lia. }
    by rewrite !Hhigh.
Qed.

Lemma set_occupied_item b s s' k v : shape b -> 0 <= s < 4 -> s' <> s ->
  item (set_occupied b s) s' k v <-> item b s' k v.
Proof.
  intros Hb Hs Hne. unfold item, occupied, set_occupied. cbn.
  destruct (mask_bit_cases (occupiedMask b) s Hs (shape_mask b Hb)) as (_ & _ & Hbit).
  split; intros (Hr & Ho & ?); (split; [done|]); (split; [|done]);
    destruct (Hbit s' Hr) as [E _]; rewrite (proj2 (Z.eqb_neq s' s) Hne) in E; cbn in E; congruence.
Qed.

(** At most four different keys of [Q] that no seed below 255 puts into
    different slots, as a bucket that holds them. *)
Definition inseparable (Q : Z -> Prop) : Prop := exists b, shape b /\
  (forall s k v, item b s k v -> Q k) /\
  (forall s s' k v v', item b s k v -> item b s' k v' -> s = s') /\
  forall seed, 0 <= seed < 255 -> ~ bucket_sep seed b.

(** Writing a key into a slot of a bucket whose other keys are different. *)
Lemma inseparable_put (Q : Z -> Prop) b b1 ds k v : shape b1 -> Q k ->
  (forall s' k' v', item b1 s' k' v' <-> (s' = ds /\ k' = k /\ v' = v) \/ (s' <> ds /\ item b s' k' v')) ->
  (forall s' k' v', s' <> ds -> item b s' k' v' -> Q k' /\ k' <> k) ->
  (forall s s' k' v1 v2, s <> ds -> s' <> ds -> item b s k' v1 -> item b s' k' v2 -> s = s') ->
  (forall seed, 0 <= seed < 255 -> ~ bucket_sep seed b1) -> inseparable Q.
Proof.
  intros Hsh HQ Hit Hother Hdist Hno. exists b1. split; [done|]. split; [|split; [|done]].
  - intros s k' v' [(_ & -> & _)|[Hne Hi]]%Hit; [done|by eapply Hother].
  - intros s s' k' v1 v2 [(-> & -> & _)|[Hne Hi]]%Hit [(-> & E & _)|[Hne' Hi']]%Hit; [done|..].
    + by destruct (Hother _ _ _ Hne' Hi').
    + subst k'. by destruct (Hother _ _ _ Hne Hi).
    + by eapply Hdist.
Qed.

(** The keys of a table and a new one. *)
Definition key_or {L : Type} `{LO : LocatorOk L} (t : ControlPlaneLudo L) (k x : Z) : Prop :=
  x = k \/ exists v, holds t x v.

(** The locator [o] has the keys of [t]'s, and its own insertion of [k] fails. *)
Definition locator_fails {L : Type} `{LO : LocatorOk L} (t : ControlPlaneLudo L) (k : Z) (e : fault) : Prop :=
  exists o w, loc_inv o /\
    (forall x, is_Some (loc_map o !! x) <-> is_Some (loc_map (cp_locator t) !! x)) /\
    (w = 0 \/ w = 1) /\ loc_insert o k w false = Err e /\ build_fault e.

(** Why an insertion of [k] fails with [e]. *)
Definition insert_fails {L : Type} `{LO : LocatorOk L} (t : ControlPlaneLudo L) (k : Z) (e : fault) : Prop :=
  (e = Thrown /\ inseparable (key_or t k)) \/ locator_fails t k e.

Section moves.
Context {L : Type} `{LO : LocatorOk L} (t : ControlPlaneLudo L) (j : Z) (Ht : wf_table t j).
Implicit Types (u : ControlPlaneLudo L).

Notation is_cand := (is_cand t j).
Notation hop_ok := (hop_ok t j).
Notation trail := (trail t j).

(** ** Paths *)

Lemma other_cand i s k v x y : at_pos t i s k v -> is_cand k x -> is_cand k y -> x <> i -> y <> i -> x = y.
Proof.
  intros Hp Hx Hy Nx Ny. destruct (wt_home t j Ht _ _ _ _ Hp) as (w & Hw & ->).
  destruct (loc_bits (cp_locator t) k w (ts_loc t j Ht) Hw) as [->| ->], Hx as [->| ->], Hy as [->| ->]; done.
Qed.

Fixpoint linked (D : Z) (l : list hop) : Prop :=
  match l with [] => True | h :: l => to_bucket h = D /\ linked (from_bucket h) l end.

Lemma trail_linked V e l : trail V e l -> linked (e_bucket e) l /\ Forall hop_ok l.
Proof. induction 1 as [|e p l Hp Hd Hh Hl [IH1 IH2]]; [done|]. split; [by split|by constructor]. Qed.

(** A later hop from the slot that is being filled goes to the bucket that the
    item which fills it came from. *)
Fixpoint tame (D ds : Z) (l : list hop) : Prop :=
  match l with
  | [] => True
  | h :: l => (forall h', h' ∈ l -> from_bucket h' = D -> from_slot h' = ds -> to_bucket h' = from_bucket h) /\
              tame (from_bucket h) (from_slot h) l
  end.

Lemma tame_cons D ds h l : (forall h', h' ∈ l -> from_bucket h' = D -> from_slot h' = ds ->
  to_bucket h' = from_bucket h) -> tame (from_bucket h) (from_slot h) l -> tame D ds (h :: l).
Proof. by split. Qed.

Lemma tame_free D ds h l : Forall hop_ok l -> ~ full t D ->
  tame (from_bucket h) (from_slot h) l -> tame D ds (h :: l).
Proof.
  intros Hl HD Htl. apply tame_cons; [|done]. intros h' Hin E _. exfalso. apply HD. rewrite <-E.
  eapply Forall_forall in Hl; [|exact Hin]. apply Hl.
Qed.

(** Two hops from the same slot go to the same bucket. *)
Lemma same_hop a d : hop_ok a -> hop_ok d -> from_bucket d = from_bucket a -> from_slot d = from_slot a ->
  to_bucket a = to_bucket d.
Proof.
  intros (_ & Na & k & v & Hp & Hc) (_ & Nd & k' & v' & Hp' & Hc') E E'. rewrite E, E' in *.
  destruct Hp as (b & Hb & Hi), Hp' as (b' & Hb' & Hi'). assert (b' = b) as -> by congruence.
  destruct (item_fun _ _ _ _ _ _ Hi Hi') as [<- _].
  apply (other_cand (from_bucket a) (from_slot a) k v); try done. by exists b.
Qed.

Lemma trail_tame D ds l : linked D l -> Forall hop_ok l -> (length l <= 4)%nat -> ~ full t D -> tame D ds l.
Proof.
  intros Hlink Hok Hlen HD. destruct l as [|a l]; [done|]. destruct Hlink as [Ea Hlink].
  apply Forall_cons in Hok as [Ha Hok]. apply tame_free; [done..|].
  destruct l as [|b l]; [done|]. destruct Hlink as [Eb Hlink]. apply Forall_cons in Hok as [Hb Hok].
  destruct l as [|c l]; [by apply tame_cons; [intros h' ?%not_elem_of_nil|]|].
  destruct Hlink as [Ec Hlink]. apply Forall_cons in Hok as [Hc Hok]. apply tame_cons.
  - intros h' [->|Hin]%elem_of_cons E1 E2; [done|]. destruct l as [|d l]; [by apply not_elem_of_nil in Hin|].
    destruct l; [|cbn in Hlen; lia]. apply list_elem_of_singleton in Hin as ->. exfalso.
    apply Forall_cons in Hok as [Hd _]. destruct Hlink as [Ed _].
    pose proof (same_hop a d Ha Hd E1 E2) as E. rewrite Ea, Ed in E. apply HD. rewrite E. apply Hc.
  - destruct l as [|d l]; [by apply tame_cons; [intros h' ?%not_elem_of_nil|]|].
    destruct l; [|cbn in Hlen; lia]. destruct Hlink as [Ed _]. apply tame_cons.
    + by intros h' ->%list_elem_of_singleton _ _.
    + by apply tame_cons; [intros h' ?%not_elem_of_nil|].
Qed.

(** ** Tables with a hole

    While items move, one slot is occupied by something that is about to be
    overwritten; everything else is as in a well-formed table and holds what
    [t] holds. *)

Definition hole_free u (D ds k v : Z) : Prop := exists i s, (i, s) <> (D, ds) /\ at_pos u i s k v.

Record holed u (D ds : Z) : Prop := {
  ho_frame : u = with_buckets (buckets_ u) (with_locator (cp_locator u) t);
  ho_len : length (buckets_ u) = Z.to_nat (2 ^ j);
  ho_loc : loc_inv (cp_locator u);
  ho_shape : forall i b, rd (buckets_ u) i = Ok b -> shape b /\ 0 <= b_seed b < 255;
  ho_sep : forall i b, i <> D -> rd (buckets_ u) i = Ok b -> bucket_sep (b_seed b) b;
  ho_slot : 0 <= ds < 4;
  ho_occ : exists b, rd (buckets_ u) D = Ok b /\ occupied b ds = true;
  ho_home : forall i s k v, (i, s) <> (D, ds) -> at_pos u i s k v -> home_bucket u j k i;
  ho_holds : forall k v, hole_free u D ds k v <-> holds t k v;
  ho_dom : forall x, is_Some (loc_map (cp_locator u) !! x) <-> is_Some (loc_map (cp_locator t) !! x);
  ho_dist : forall s s' k v v', s <> ds -> s' <> ds -> at_pos u D s k v -> at_pos u D s' k v' -> s = s';
}.

Lemma ho_h u D ds : holed u D ds -> cp_h u = cp_h t.
Proof. intros H. by rewrite (ho_frame _ _ _ H). Qed.

(** The free slot that the search found is occupied first. *)
Lemma holed_start D ds b l : rd (buckets_ t) D = Ok b -> 0 <= ds < 4 -> occupied b ds = false ->
  wr (buckets_ t) D (set_occupied b ds) = Ok l -> holed (with_buckets l t) D ds.
Proof.
  intros Hb Hs Hfree Hw. pose proof (ok_shape b (ts_bucket t j Ht D b Hb)) as Hsh.
  set (u := with_buckets l t).
  assert (Hpos : forall i s k v, (i, s) <> (D, ds) -> at_pos u i s k v <-> at_pos t i s k v).
  { intros i s k v Hne. rewrite (at_pos_upd t u D b (set_occupied b ds) _ _ _ _ Hb Hw). split.
    - intros [[-> Hi]|[_ Hp]]; [|done]. exists b. split; [done|].
      apply (set_occupied_item b ds); [done..|congruence|done].
    - intros Hp. destruct (decide (i = D)) as [->|]; [|by right]. left. split; [done|].
      destruct Hp as (b' & Hb' & Hi). assert (b' = b) as -> by congruence.
      apply set_occupied_item; [done..|congruence|done]. }
  assert (Hrd : forall i b', rd l i = Ok b' -> (i = D /\ b' = set_occupied b ds) \/ (i <> D /\ rd (buckets_ t) i = Ok b')).
  { intros i b' Hb'. destruct (decide (i = D)) as [->|Hne].
    - rewrite (rd_wr_eq _ _ _ _ Hw) in Hb'. left. by apply Ok_inj in Hb'.
    - rewrite (rd_wr_ne _ _ _ _ _ Hw) in Hb' by congruence. by right. }
  constructor.
  - by destruct t.
  - cbn. rewrite (wr_length _ _ _ _ Hw). apply Ht.
  - apply Ht.
  - intros i b' [[-> ->]|[_ Hb']]%Hrd; [|by split; apply (ts_bucket t j Ht i)].
    split; [by apply set_occupied_shape|]. apply (ts_bucket t j Ht D b Hb).
  - intros i b' Hne [[? _]|[_ Hb']]%Hrd; [done|]. by apply (ts_bucket t j Ht i).
  - done.
  - exists (set_occupied b ds). split; [by apply (rd_wr_eq _ _ _ _ Hw)|]. unfold occupied, set_occupied. cbn.
    destruct (mask_bit_cases (occupiedMask b) ds Hs (shape_mask b Hsh)) as (_ & _ & Hbit).
    destruct (Hbit ds Hs) as [-> _]. by rewrite Z.eqb_refl.
  - intros i s k v Hne Hp. apply (wt_home t j Ht i s k v). by apply Hpos.
  - intros k v. split.
    + intros (i & s & Hne & Hp). exists i, s. by apply Hpos.
    + intros (i & s & Hp). exists i, s. assert (Hne : (i, s) <> (D, ds)).
      { intros [= -> ->]. destruct Hp as (b' & Hb' & _ & Ho & _). congruence. }
      split; [done|]. by apply Hpos.
  - done.
  - intros s s' k v v' Hne Hne' Hp Hp'. apply Hpos in Hp as (b1 & Hb1 & Hi1); [|congruence].
    apply Hpos in Hp' as (b2 & Hb2 & Hi2); [|congruence].
    assert (b1 = b) as -> by congruence. assert (b2 = b) as -> by congruence.
    by apply (item_unique b s s' k v v' (ok_sep b (ts_bucket t j Ht D b Hb))).
Qed.

(** An item is written into the hole, and the seed of its bucket renewed. *)
Lemma fill_hole u D ds k v slot (Q : Z -> Prop) : holed u D ds -> Q k ->
  (forall x y, holds t x y -> Q x) -> (forall s v', s <> ds -> ~ at_pos u D s k v') ->
  exists b b1 l, rd (buckets_ u) D = Ok b /\ set_item b ds k v = Ok b1 /\ occupied b1 ds = true /\
    shape b1 /\ wr (buckets_ u) D b1 = Ok l /\
    forall o, (exists u' seed, updateSeed (with_locator o (with_buckets l u)) D false slot = Ok (u', seed, []) /\
        u' = with_buckets (buckets_ u') (with_locator o u) /\
        length (buckets_ u') = length (buckets_ u) /\
        (forall i b', rd (buckets_ u') i = Ok b' -> (i = D /\ shape b' /\ 0 <= b_seed b' < 255 /\ bucket_sep (b_seed b') b') \/
           (i <> D /\ rd (buckets_ u) i = Ok b')) /\
        forall i s k' v', at_pos u' i s k' v' <->
          ((i, s) = (D, ds) /\ k' = k /\ v' = v) \/ ((i, s) <> (D, ds) /\ at_pos u i s k' v')) \/
      (updateSeed (with_locator o (with_buckets l u)) D false slot = Err Thrown /\ inseparable Q).
Proof.
  intros H HQk HQ Hk. destruct (ho_occ _ _ _ H) as (b & Hb & Hocc). pose proof (ho_slot _ _ _ H) as Hs.
  destruct (ho_shape _ _ _ H D b Hb) as [Hsh _].
  destruct (put_item_spec b Hsh ds k v Hs) as (b1 & Hset & Hs1 & Hseed & Hmask & Hit).
  pose proof (wr_in_range (buckets_ u) D b1 (rd_range _ _ _ Hb)) as Hw. eexists b, b1, _.
  assert (Hocc1 : occupied b1 ds = true) by (unfold occupied in *; by rewrite Hmask).
  assert (Hsh1 : shape b1) by (destruct Hs1 as [H1 H2 _]; constructor; [done|done|rewrite Hmask; apply Hsh]).
  rewrite (set_occupied_id b1 ds Hsh1 Hs Hocc1) in Hit, Hs1.
  do 4 (split; [done|]). split; [exact Hw|]. intros o. set (l := <[Z.to_nat D := b1]> (buckets_ u)) in *.
  set (u1 := with_locator o (with_buckets l u)).
  destruct (updateSeed_spec u1 D b1 slot) as [(seed & u' & E & Eu & Hw' & Hr & Hsep)|[E Hno]];
    [by apply (rd_wr_eq _ _ _ _ Hw)|done| |].
  2:{ right. split; [done|]. apply (inseparable_put Q b b1 ds k v Hsh1 HQk Hit); [| |done].
      - intros s' k' v' Hne Hi. split.
        + apply (HQ k' v'), (ho_holds _ _ _ H). exists D, s'. split; [congruence|by exists b].
        + intros ->. apply (Hk s' v' Hne). by exists b.
      - intros s s' k' v1 v2 Hne Hne' Hi Hi'. apply (ho_dist _ _ _ H s s' k' v1 v2); [done|done|by exists b..]. }
  left. exists u', seed. split; [done|].
  assert (Hw2 : wr (buckets_ u) D (set_seed b1 seed) = Ok (buckets_ u')).
  { apply wr_Ok in Hw' as [Hlen Hw']. cbn in Hw', Hlen. unfold l in Hw', Hlen. rewrite length_insert in Hlen.
    apply wr_Ok. split; [done|]. by rewrite Hw', list_insert_insert_eq. }
  split; [by rewrite Eu|]. split; [by apply (wr_length _ _ _ _ Hw2)|]. split.
  - intros i b' Hb'. destruct (decide (i = D)) as [->|Hne].
    + left. rewrite (rd_wr_eq _ _ _ _ Hw2) in Hb'. apply Ok_inj in Hb' as <-.
      split; [done|]. split; [by apply shape_set_seed|]. by split.
    + right. by rewrite (rd_wr_ne _ _ _ _ _ Hw2) in Hb' by congruence.
  - intros i s k' v'. rewrite (at_pos_upd u u' D b (set_seed b1 seed) _ _ _ _ Hb Hw2), item_set_seed, Hit. split.
    + intros [[-> [(-> & -> & ->)|[Hne Hi]]]|[Hne Hp]]; [by left|right|right; split; [congruence|done]].
      split; [congruence|by exists b].
    + intros [([= -> ->] & -> & ->)|[Hne Hp]]; [by left; split; [|left]|].
      destruct (decide (i = D)) as [->|]; [|by right]. left. split; [done|]. right. split; [congruence|].
      destruct Hp as (b' & Hb' & Hi). by assert (b' = b) as -> by congruence.
Qed.

(** An item is at one position apart from the hole. *)
Lemma holed_unique u D ds k i s v i' s' v' : holed u D ds -> i <> D -> (i', s') <> (D, ds) ->
  at_pos u i s k v -> at_pos u i' s' k v' -> i' = i /\ s' = s.
Proof.
  intros H Hne Hne' Hp Hp'.
  assert (i' = i) as -> by (eapply home_bucket_fun; eapply (ho_home _ _ _ H); [|exact Hp'| |exact Hp]; congruence).
  split; [done|]. destruct Hp as (b & Hb & Hi), Hp' as (b' & Hb' & Hi'). assert (b' = b) as -> by congruence.
  symmetry. by apply (item_unique b s s' k v v' (ho_sep _ _ _ H i b Hne Hb)).
Qed.

Lemma move_spec u B s D ds k v : holed u D ds -> at_pos u B s k v -> B <> D -> is_cand k D ->
  (exists u', moveItem u B s D ds None = Ok (u', None) /\ holed u' B s /\
     forall i s' k' v', at_pos u' i s' k' v' <->
       ((i, s') = (D, ds) /\ k' = k /\ v' = v) \/ ((i, s') <> (D, ds) /\ at_pos u i s' k' v')) \/
  (moveItem u B s D ds None = Err Thrown /\ inseparable (fun x => exists y, holds t x y)).
Proof.
  intros H Hp HBD Hc. unfold moveItem.
  assert (Hkt : holds t k v) by (apply (ho_holds _ _ _ H); exists B, s; split; [congruence|done]).
  destruct (fill_hole u D ds k v ds (fun x => exists y, holds t x y) H) as (b & b1 & l & Hb & Hset & _ & _ & Hw & Hseed);
    [by exists v|by intros x y ?; exists y| |].
  { intros s' v' Hne Hp'. by destruct (holed_unique u D ds k B s v D s' v' H HBD ltac:(congruence) Hp Hp') as [-> _]. }
  pose proof Hp as (src & Hsrc & Hs & Hocc & Hk & Hv).
  rewrite Hsrc, bind_Ok_l, Hk, bind_Ok_l, Hv, bind_Ok_l, Hb, bind_Ok_l, Hset, bind_Ok_l, Hw, bind_Ok_l.
  destruct (ho_home _ _ _ H B s k v) as (w & Hm & HB); [congruence|done|].
  pose proof (loc_bits (cp_locator u) k w (ho_loc _ _ _ H) Hm) as Hbit.
  rewrite (ho_h _ _ _ H) in HB.
  assert (HD : D = cand j (cp_h t) k (1 - w)) by (destruct Hbit as [->| ->], Hc as [->| ->]; done).
  destruct (loc_toggle_spec (cp_locator u) k w (ho_loc _ _ _ H) Hm) as (r & o & -> & Ho & Hst & Hmap).
  rewrite bind_Ok_l, Hst. cbn [Z.eqb guard_ok]. rewrite bind_Ok_l.
  destruct (Hseed o) as [(u' & seed & -> & Eu & Hlen & Hrd & Hpos)|[-> Hins]]; [left|by right].
  rewrite bind_Ok_l. exists u'. split; [done|]. split; [|done].
  assert (Hl : cp_locator u' = o) by (by rewrite Eu).
  assert (Hh : cp_h u' = cp_h t) by (rewrite Eu; apply (ho_h _ _ _ H)).
  constructor.
  - rewrite Eu. rewrite (ho_frame _ _ _ H). by destruct t.
  - rewrite Hlen. apply H.
  - by rewrite Hl.
  - intros i b' [(-> & ? & ? & _)|[_ Hb']]%Hrd; [done|]. by apply (ho_shape _ _ _ H i).
  - intros i b' Hne [(-> & _ & _ & ?)|[Hi Hb']]%Hrd; [done|]. by apply (ho_sep _ _ _ H i).
  - done.
  - exists src. split; [|done]. assert (Hp' : at_pos u' B s k v) by (apply Hpos; right; split; [congruence|done]).
    destruct Hp' as (src' & Hsrc' & _). rewrite Hsrc'. destruct (Hrd _ _ Hsrc') as [(-> & _)|[_ E]]; congruence.
  - intros i s' k' v' Hne Hp'. apply Hpos in Hp' as [([= -> ->] & -> & ->)|[Hne' Hp']].
    + exists (1 - w). rewrite Hl, Hmap, lookup_insert_eq, Hh. done.
    + destruct (ho_home _ _ _ H i s' k' v' Hne' Hp') as (w' & Hw' & ->). exists w'.
      rewrite Hl, Hmap, Hh, (ho_h _ _ _ H). split; [|done]. rewrite lookup_insert_ne; [done|]. intros <-.
      apply Hne. by destruct (holed_unique u D ds k B s v _ s' v' H HBD Hne' Hp Hp') as [-> ->].
  - intros k' v'. rewrite <-(ho_holds _ _ _ H k' v'). unfold hole_free. split.
    + intros (i & s' & Hne & [([= -> ->] & -> & ->)|[Hne' Hp']]%Hpos); [exists B, s|exists i, s'];
        (split; [congruence|done]).
    + intros (i & s' & Hne & Hp'). destruct (decide ((i, s') = (B, s))) as [[= -> ->]|Hne'].
      * exists D, ds. split; [congruence|]. apply Hpos. left. destruct Hp' as (b' & Hb' & Hi').
        assert (b' = src) as -> by congruence. split; [done|]. by apply (item_fun src s).
      * exists i, s'. split; [done|]. apply Hpos. by right.
  - intros x. rewrite Hl, Hmap, <-(ho_dom _ _ _ H). destruct (decide (x = k)) as [->|Hne].
    + rewrite lookup_insert_eq, Hm. by split; eexists.
    + by rewrite lookup_insert_ne.
  - intros s1 s2 k' v1 v2 _ _ H1 H2. apply Hpos in H1 as [([= -> _] & _)|[_ H1]]; [done|].
    apply Hpos in H2 as [([= -> _] & _)|[_ H2]]; [done|].
    destruct H1 as (b' & Hb' & Hi1), H2 as (b'' & Hb'' & Hi2). assert (b'' = b') as -> by congruence.
    by apply (item_unique b' s1 s2 k' v1 v2 (ho_sep _ _ _ H B b' HBD Hb')).
Qed.

Definition src_ok u (h : hop) : Prop := to_bucket h <> from_bucket h /\
  exists k v, at_pos u (from_bucket h) (from_slot h) k v /\ is_cand k (to_bucket h).

(** The moves along a trail; [toFirst] says which bucket of the new key becomes
    free. *)
Lemma follow_path_spec k V vis l : roots_ok t j k V -> extends V vis ->
  forall e u fs fuel first, trail V e l -> holed u (e_bucket e) fs -> Forall (src_ok u) l ->
  tame (e_bucket e) fs l -> (length l <= fuel)%nat ->
  (exists u' root slot first', follow_path fuel u vis e fs first None = Ok (u', root, slot, first', None) /\
     holed u' (e_bucket root) slot /\
     (l <> [] -> e_bucket root = cand j (cp_h t) k (if first' : bool then 0 else 1))) \/
  (follow_path fuel u vis e fs first None = Err Thrown /\ inseparable (fun x => exists y, holds t x y)).
Proof.
  intros HV Hvis. induction l as [|h l IH]; intros e u fs fuel first Htr H Hsrc Htame Hlen.
  - pose proof (trail_depth _ _ _ _ _ Htr) as Hd. cbn in Hd. left. exists u, e, fs, first.
    split; [|by split]. destruct fuel; cbn [follow_path]; by rewrite Hd.
  - pose proof (trail_depth _ _ _ _ _ Htr) as Hd. cbn [length] in Hd, Hlen.
    inversion Htr as [|? p ? Hp Hde Hhop Htp E1 E2]; subst. clear Htr.
    destruct fuel as [|fuel]; [lia|]. cbn [follow_path]. destruct (Z.ltb_spec 1 (e_depth e)); [|lia].
    rewrite (Hvis _ _ Hp), bind_Ok_l. apply Forall_cons in Hsrc as [(Hne & k' & v' & Hat & Hc) Hsrc].
    destruct Htame as [Hth Htame]. cbn [from_bucket from_slot to_bucket] in *.
    destruct (move_spec u (e_bucket p) (e_parent_slot e) (e_bucket e) fs k' v' H Hat (not_eq_sym Hne) Hc)
      as [(u1 & -> & H1 & Hpos)|[-> Hins]]; [|by right]. rewrite bind_Ok_l.
    set (first1 := if e_depth e =? 2 then e_parent e =? 0 else first).
    destruct (IH p u1 (e_parent_slot e) fuel first1 Htp H1) as [(u' & root & slot & first' & E & H' & Hfirst)|[E Hins]];
      [|done|lia|left|by right].
    + apply Forall_forall. intros h' Hin. pose proof Hsrc as Hs'. eapply Forall_forall in Hs'; [|exact Hin].
      destruct Hs' as (Hne' & k2 & v2 & Hat2 & Hc2). split; [done|].
      destruct (decide ((from_bucket h', from_slot h') = (e_bucket e, fs))) as [[= Eb Es]|Hno].
      * exists k', v'. split; [apply Hpos; left; by rewrite Eb, Es|]. rewrite (Hth h' Hin Eb Es).
        destruct (ho_home _ _ _ H (e_bucket p) (e_parent_slot e) k' v') as (w & Hw & ->); [congruence|done|].
        rewrite (ho_h _ _ _ H). by destruct (loc_bits _ k' w (ho_loc _ _ _ H) Hw) as [->| ->]; [left|right].
      * exists k2, v2. split; [|done]. apply Hpos. by right.
    + exists u', root, slot, first'. split; [done|]. split; [done|]. intros _.
      destruct l as [|h' l]; [|by apply Hfirst].
      pose proof (trail_depth _ _ _ _ _ Htp) as Hdp. cbn in Hdp.
      assert (Hroot : root = p /\ first' = first1).
      { destruct fuel; cbn [follow_path] in E; rewrite Hdp in E; cbn in E; by injection E as _ <- _ <-. }
      destruct Hroot as [-> ->]. rewrite (HV _ _ Hp) by lia. f_equal. unfold first1.
      destruct (Z.eqb_spec (e_depth e) 2); [by destruct (e_parent e =? 0)|lia].
Qed.

(** ** The new item *)

(** The table afterwards: [k] has [v], everything else as before. *)
Definition inserted u (k v : Z) : Prop :=
  wf_table u j /\ forall k' v', holds u k' v' <-> (k' = k /\ v' = v) \/ (k' <> k /\ holds t k' v').

Lemma put_hole u D ds k v w : holed u D ds -> w = 0 \/ w = 1 -> D = cand j (cp_h t) k w ->
  (forall v', ~ holds t k v') ->
  (exists u', putItem u k v D ds (w =? 0) None = Ok (u', None, true) /\ inserted u' k v /\
     u' = with_buckets (buckets_ u') (with_locator (cp_locator u') t)) \/
  (exists e, putItem u k v D ds (w =? 0) None = Err e /\ insert_fails t k e).
Proof.
  intros H Hw HD Hno. unfold putItem.
  replace (if w =? 0 then 0 else 1) with w by (destruct Hw as [->| ->]; done).
  destruct (registerKey_spec (cp_locator u) k w (ho_loc _ _ _ H) Hw) as [(r & o & -> & Ho & Hst & Hm)|(e & -> & El & He)].
  2:{ right. exists e. split; [done|]. right. exists (cp_locator u), w. split; [apply H|].
      split; [apply (ho_dom _ _ _ H)|]. by split. }
  rewrite bind_Ok_l. destruct (Z.ltb_spec (o_status r) 0); [lia|]. cbn [buckets_ with_locator].
  destruct (fill_hole u D ds k v ds (key_or t k) H) as (b & b1 & l & Hb & Hset & Hocc1 & Hsh1 & Hwr & Hseed);
    [by left|by intros x y ?; right; exists y| |].
  { intros s v' Hne Hp. apply (Hno v'), (ho_holds _ _ _ H). exists D, s. split; [congruence|done]. }
  rewrite Hb, bind_Ok_l, Hset, bind_Ok_l.
  rewrite (set_occupied_id b1 ds Hsh1 (ho_slot _ _ _ H) Hocc1), Hwr, bind_Ok_l.
  change (with_buckets l (with_locator o u)) with (with_locator o (with_buckets l u)).
  destruct (Hseed o) as [(u' & seed & -> & Eu & Hlen & Hrd & Hpos)|[-> Hins]]; [left|right; exists Thrown; by split; [|left]].
  rewrite bind_Ok_l. exists u'. split; [done|].
  assert (Hl : cp_locator u' = o) by (by rewrite Eu).
  assert (Hh : cp_h u' = cp_h t) by (rewrite Eu; apply (ho_h _ _ _ H)).
  assert (Hpos' : forall i s k' v', at_pos u' i s k' v' ->
    ((i, s) = (D, ds) /\ k' = k /\ v' = v) \/ (k' <> k /\ (i, s) <> (D, ds) /\ at_pos u i s k' v')).
  { intros i s k' v' [?|[Hne Hp]]%Hpos; [by left|right]. split; [|done]. intros ->.
    apply (Hno v'), (ho_holds _ _ _ H). by exists i, s. }
  split; [split; [constructor; [constructor|]|]|].
  - apply Ht.
  - rewrite Eu, (ho_frame _ _ _ H). apply Ht.
  - rewrite Hlen. apply H.
  - intros i b' [(_ & ? & ? & ?)|[Hne Hb']]%Hrd; [by constructor|].
    destruct (ho_shape _ _ _ H i b' Hb'). constructor; [done..|]. by apply (ho_sep _ _ _ H i).
  - by rewrite Hl.
  - intros i s k' v' [([= -> ->] & -> & ->)|(Hne & Hnh & Hp)]%Hpos'; unfold home_bucket; rewrite Hl, Hm, Hh.
    + exists w. by rewrite lookup_insert_eq.
    + rewrite lookup_insert_ne by congruence. rewrite <-(ho_h _ _ _ H). by apply (ho_home _ _ _ H i s k' v').
  - intros k' v'. rewrite <-(ho_holds _ _ _ H k' v'). unfold holds, hole_free. split.
    + intros (i & s & [(_ & -> & ->)|(Hne & Hnh & Hp)]%Hpos'); [by left|right]. split; [done|]. by exists i, s.
    + intros [[-> ->]|(Hne & i & s & Hnh & Hp)]; [exists D, ds|exists i, s]; apply Hpos; [by left|by right].
  - rewrite Eu. rewrite (ho_frame _ _ _ H). by destruct t.
Qed.

(** The path that the search found is followed. *)
Lemma insert_along_spec k v e fs vis : path_to t j k e fs vis -> (forall v', ~ holds t k v') ->
  full t (cand j (cp_h t) k 0) -> full t (cand j (cp_h t) k 1) ->
  (exists u, insert_along t k v e fs vis false = Ok (u, MkUR 0 []) /\ inserted u k v /\
     u = with_buckets (buckets_ u) (with_locator (cp_locator u) t)) \/
  (exists x, insert_along t k v e fs vis false = Err x /\ insert_fails t k x).
Proof.
  intros ((V & l & Htr & HV & Hvis) & Hd & Hroot & b & Hb & Hs & Hfree) Hno Hf0 Hf1. unfold insert_along.
  rewrite Hb, bind_Ok_l. pose proof (wr_in_range (buckets_ t) (e_bucket e) (set_occupied b fs) (rd_range _ _ _ Hb)) as Hw.
  rewrite Hw, bind_Ok_l. pose proof (holed_start (e_bucket e) fs b _ Hb Hs Hfree Hw) as H.
  set (u0 := with_buckets _ t) in *. pose proof (trail_depth _ _ _ _ _ Htr) as Hde.
  destruct (trail_linked _ _ _ Htr) as [Hlink Hok].
  assert (Hnf : ~ full t (e_bucket e)).
  { intros (b' & Hb' & Hall). assert (b' = b) as -> by congruence. specialize (Hall fs Hs). congruence. }
  assert (Hl : l <> []).
  { intros ->. cbn in Hde. destruct (Hroot Hde) as [E|E]; apply Hnf; by rewrite E. }
  assert (Hsrc : Forall (src_ok u0) l).
  { eapply Forall_impl; [exact Hok|]. intros h (Hfull & Hne & k' & v' & Hp & Hc). split; [done|].
    exists k', v'. split; [|done]. destruct Hp as (b' & Hb' & Hi). exists b'. split; [|done].
    cbn. rewrite (rd_wr_ne _ _ _ _ _ Hw); [done|]. intros E. apply Hnf. by rewrite E. }
  assert (Htame : tame (e_bucket e) fs l) by (apply trail_tame; [done..|lia|done]).
  destruct (follow_path_spec k V vis l HV Hvis e u0 fs (Z.to_nat kMaxBFSPathLen) false Htr H Hsrc Htame)
    as [(u1 & root & slot & first & -> & H1 & Hfirst)|[-> Hins]];
    [change (Z.to_nat kMaxBFSPathLen) with 5%nat; lia| |].
  2:{ right. exists Thrown. split; [done|]. left. split; [done|].
      destruct Hins as (b' & Hsh' & Hq & Hrest). exists b'. split; [done|]. split; [|done].
      intros s' k' v' Hi. right. by eapply Hq. }
  rewrite bind_Ok_l. specialize (Hfirst Hl).
  assert (first = ((if first then 0 else 1) =? 0)) as -> by (by destruct first). set (w := if first then 0 else 1) in *.
  assert (Hw' : w = 0 \/ w = 1) by (unfold w; destruct first; auto).
  replace (if w =? 0 then 0 else 1) with w in Hfirst by (destruct Hw' as [->| ->]; done).
  destruct (put_hole u1 (e_bucket root) slot k v w H1 Hw' Hfirst Hno) as [(u' & -> & Hin & Hfr)|(x & -> & Hx)].
  - left. exists u'. rewrite bind_Ok_l. by split.
  - right. by exists x.
Qed.
End moves.

(** ** Insertion *)

Section insertion.
Context {L : Type} `{LO : LocatorOk L} (rnd : nat -> Z).
Implicit Types (t : ControlPlaneLudo L).

Lemma full_of t j k : table_shape t j ->
  free_position [cand j (cp_h t) k 0; cand j (cp_h t) k 1] t = Ok None ->
  full t (cand j (cp_h t) k 0) /\ full t (cand j (cp_h t) k 1).
Proof.
  intros Ht Hf. destruct (ts_j t j Ht).
  destruct (free_position_spec t j [cand j (cp_h t) k 0; cand j (cp_h t) k 1] Ht) as (p & Hp & Hspec).
  { repeat apply Forall_cons_2; [apply cand_range; lia..|done]. }
  assert (p = None) as -> by congruence. split; [destruct (cand_bucket t j k 0 Ht) as [b Hb]|
    destruct (cand_bucket t j k 1 Ht) as [b Hb]]; exists b; (split; [done|]); intros s Hs;
    (eapply Hspec; [|exact Hb|done]); [left|right; left].
Qed.

(** A failed put into a free slot has one of the two causes. *)
Lemma put_fails t j k v i b s b' : wf_table t j -> (forall v', ~ holds t k v') ->
  rd (buckets_ t) i = Ok b -> 0 <= s < 4 -> set_item b s k v = Ok b' ->
  (forall seed, 0 <= seed < 255 -> ~ bucket_sep seed (set_occupied b' s)) -> inseparable (key_or t k).
Proof.
  intros Ht Hno Hb Hs Hset Hsep. destruct (ts_bucket t j Ht i b Hb) as [Hsh _ Hbs].
  destruct (put_item_spec b Hsh s k v Hs) as (b1 & Hset1 & Hs1 & _ & _ & Hit).
  assert (b1 = b') as -> by congruence.
  apply (inseparable_put (key_or t k) b (set_occupied b' s) s k v Hs1); [by left|exact Hit| | |done].
  - intros s' k' v' Hne Hi. split; [right; exists v', i, s'; by exists b|]. intros ->.
    apply (Hno v'). exists i, s'. by exists b.
  - intros s1 s2 k' v1 v2 _ _. apply (item_unique b s1 s2 k' v1 v2 Hbs).
Qed.

(** An insertion into a table with room either adds exactly its item, or fails
    because no seed separates the keys of a bucket or because of the locator,
    or finds no path: then it resizes the table and starts over. *)
Lemma insert_main fuel t j k v : wf_table t j -> u32 (nKeys t + 1) <= capacity t ->
  (exists t' u, insert rnd (S fuel) t k v false = Ok (t', u) /\ u_status u = 0 /\ inserted t j t' k v) \/
  (exists e, insert rnd (S fuel) t k v false = Err e /\ insert_fails t k e) \/
  (find_path t k = Ok None /\ full t (cand j (cp_h t) k 0) /\ full t (cand j (cp_h t) k 1) /\
   (forall v', ~ holds t k v') /\
   insert rnd (S fuel) t k v false =
     (t' ← resizeCapacity rnd fuel t (u32 (nKeys t + 1)) true;
      '(t'', r) ← insert rnd fuel t' k v false;
      Ok (with_nKeys (u32 (nKeys t'' + 1)) t'', MkUR 2 (u_path r)))).
Proof.
  intros Ht Hcap. rewrite insert_S. destruct (find_item_spec t j k Ht) as (r & Hr & Hspec). destruct r as [[i s]|].
  { left. destruct Hspec as [v0 Hv0].
    destruct (insert_body_member t j (insert rnd fuel) (resizeCapacity rnd fuel) k v i s v0 Ht Hr Hv0)
      as (t' & u & E & Hu & Hin). by exists t', u. }
  destruct (ts_j t j Ht).
  destruct (free_position_spec t j [cand j (cp_h t) k 0; cand j (cp_h t) k 1] Ht) as (p & Hf & Hp).
  { repeat apply Forall_cons_2; [apply cand_range; lia..|done]. }
  destruct p as [[i s]|].
  - destruct (free_candidate t j k i s Ht Hf) as (w & b & Hw & _ & Hi & Hs & Hb & Hfree). subst i.
    destruct (insert_body_new t j (insert rnd fuel) (resizeCapacity rnd fuel) k v Ht Hcap Hr Hspec)
      as [(t' & u & E & Hu & Hin)|[[E (i & b' & s' & b1 & Hb' & Hs' & _ & Hset & Hsep)]|(w' & e & E & Hw' & El & He)]];
      [by exists w, b, s|left|right; left..].
    + by exists t', u.
    + exists Thrown. split; [done|]. left. split; [done|]. by apply (put_fails t j k v i b' s' b1).
    + exists e. split; [done|]. right. exists (cp_locator t), w'. split; [apply Ht|]. by split.
  - destruct (full_of t j k Ht Hf) as [Hf0 Hf1]. unfold insert_body, isMember. rewrite Hr, !bind_Ok_l. cbv iota.
    destruct (Z.ltb_spec (capacity t) (u32 (nKeys t + 1))); [lia|].
    rewrite (candidates_spec t j k Ht), bind_Ok_l, Hf, bind_Ok_l. unfold CuckooInsert.
    destruct (find_path_spec t j Ht k) as (q & Hq & Hpath). rewrite Hq, bind_Ok_l.
    destruct q as [[[e fs] vis]|].
    + destruct (insert_along_spec t j Ht k v e fs vis Hpath Hspec Hf0 Hf1) as [(u & -> & Hin & Hfr)|(x & -> & Hx)].
      * left. rewrite bind_Ok_l. cbn [u_status Z.leb Z.compare]. do 2 eexists. split; [reflexivity|].
        split; [done|]. destruct Hin as [Hwf Hh]. split; [|done]. destruct Hwf as [[] Hhome]. constructor; [by constructor|exact Hhome].
      * right. left. by exists x.
    + right. right. split; [done|]. do 2 (split; [done|]). split; [done|].
      destruct (resizeCapacity rnd fuel t (u32 (nKeys t + 1)) true) as [t1|]; [|done]. rewrite !bind_Ok_l.
      by destruct (insert rnd fuel t1 k v false) as [[t2 u2]|].
Qed.
End insertion.
