(* ===== verification/LudoLoad.v ===== *)
(** * Insertions that never rebuild the Ludo table

    Every rebuilding draws a new hash seed from [rand()].  An insertion during
    which none was drawn may have moved items and may have grown the table by
    powers of two; it keeps the table well-formed and adds exactly its item,
    and so does a sequence of them. *)

From Stdlib Require Import ZArith Lia.
From stdpp Require Import base numbers gmap list.
From S2P Require Import Prelude Words Hash LudoSlot ServerRdma ServerInv LudoTable LudoInv LudoProps LudoGrow LudoCuckoo LudoInsert.

#[local] Open Scope Z_scope.
#[local] Opaque FastHasher64.

(** ** Sizes *)

Lemma load_capacity_mono a b : a <= b -> load_capacity a <= load_capacity b.
Proof. intros H. unfold load_capacity, kSlotsPerBucket. apply Z.div_le_mono; lia. Qed.

Lemma grow_buckets_pow fuel i target : 0 <= i -> exists i', i <= i' /\
  grow_buckets fuel (2 ^ i) target = 2 ^ i' /\ (i' = i \/ load_capacity (2 ^ (i' - 1)) < target).
Proof.
  revert i. induction fuel as [|fuel IH]; intros i Hi; cbn [grow_buckets]; [exists i; split; [lia|]; by split; [|left]|].
  destruct (Z.ltb_spec (load_capacity (2 ^ i)) target) as [Hlt|Hge]; [|exists i; split; [lia|]; by split; [|left]].
  rewrite Z.shiftl_mul_pow2, <-Z.pow_add_r by lia. destruct (IH (i + 1) ltac:(lia)) as (i' & Hle & E & Hcase).
  exists i'. split; [lia|]. split; [done|]. right. destruct Hcase as [->|?]; [|done].
  by replace (i + 1 - 1) with i by lia.
Qed.

(** The sizes that [resizeCapacity] asks for. *)
Lemma next_size target : target < 2 ^ 32 -> exists i, 6 <= i <= 31 /\ grow_buckets 64 64 target = 2 ^ i.
Proof.
  intros Ht. destruct (grow_buckets_pow 64 6 target) as (i & Hi & E & Hcase); [lia|].
  exists i. split; [|exact E]. split; [done|]. destruct Hcase as [->|Hlt]; [lia|].
  destruct (decide (i <= 31)); [done|]. exfalso.
  pose proof (load_capacity_mono (2 ^ 31) (2 ^ (i - 1)) ltac:(apply Z.pow_le_mono_r; lia)) as Hm.
  assert (E31 : load_capacity (2 ^ 31) = 8160437862) by reflexivity. lia.
Qed.

Lemma small_capacity i : i < 29 -> 0 <= i -> 0 <= load_capacity (2 ^ i) < 2 ^ 30.
Proof.
  intros Hi H0. pose proof (load_capacity_mono (2 ^ i) (2 ^ 28) ltac:(apply Z.pow_le_mono_r; lia)) as Hm.
  pose proof (load_capacity_mono 0 (2 ^ i) ltac:(apply Z.pow_nonneg; lia)) as Hm0.
  assert (E0 : load_capacity 0 = 0) by reflexivity.
  assert (E28 : load_capacity (2 ^ 28) = 1020054732) by reflexivity. lia.
Qed.

Section load.
Context {L : Type} `{LO : LocatorOk L} (rnd : nat -> Z).
Implicit Types (t : ControlPlaneLudo L).

(** ** What never changes without a rebuild *)

Definition steady t t' : Prop :=
  rand_pos t' = rand_pos t /\ num_buckets_ t' = num_buckets_ t /\ nKeys t' = nKeys t.

Lemma steady_refl t : steady t t.
Proof. done. Qed.

Lemma steady_trans t t1 t2 : steady t t1 -> steady t1 t2 -> steady t t2.
Proof. intros (? & ? & ?) (? & ? & ?). split; [congruence|]. split; congruence. Qed.

Lemma updateSeed_steady t i w s t' x m : updateSeed t i w s = Ok (t', x, m) -> steady t t'.
Proof.
  unfold updateSeed. intros H. apply bind_Ok in H as (b & _ & H). apply bind_Ok in H as ([[b' sd] mv] & _ & H).
  apply bind_Ok in H as (l & _ & H). apply Ok_inj, pair_equal_spec in H as [H _]. by apply pair_equal_spec in H as [<- _].
Qed.

Lemma changeValue_steady t k v t' u : changeValue t k v = Ok (t', u) -> steady t t'.
Proof.
  unfold changeValue. intros H. apply bind_Ok in H as ([[b s]|] & _ & H).
  - do 3 (apply bind_Ok in H as (? & _ & H)). by apply Ok_inj, pair_equal_spec in H as [<- _].
  - by apply Ok_inj, pair_equal_spec in H as [<- _].
Qed.

Lemma putItem_steady t k v b s w p t' p' ok : putItem t k v b s w p = Ok (t', p', ok) -> steady t t'.
Proof.
  unfold putItem. intros H. apply bind_Ok in H as ([r o] & _ & H).
  destruct (o_status r <? 0); [by apply Ok_inj in H; injection H as <- _ _|].
  do 3 (apply bind_Ok in H as (? & _ & H)). apply bind_Ok in H as ([[t1 sd] mv] & Hs & H).
  apply updateSeed_steady in Hs. destruct p; [apply bind_Ok in H as (? & _ & H)|]; apply Ok_inj in H; by injection H as <- _ _.
Qed.

Lemma moveItem_steady t b s d ds p t' p' : moveItem t b s d ds p = Ok (t', p') -> steady t t'.
Proof.
  unfold moveItem. intros H. do 6 (apply bind_Ok in H as (? & _ & H)). apply bind_Ok in H as ([r o] & _ & H).
  apply bind_Ok in H as (? & _ & H). apply bind_Ok in H as ([[t1 sd] mv] & Hs & H). apply updateSeed_steady in Hs.
  destruct p; [apply bind_Ok in H as (? & _ & H)|]; by apply Ok_inj, pair_equal_spec in H as [<- _].
Qed.

Lemma follow_path_steady fuel t vis e fs w p t' r s w' p' :
  follow_path fuel t vis e fs w p = Ok (t', r, s, w', p') -> steady t t'.
Proof.
  revert t e fs w p. induction fuel as [|fuel IH]; intros t e fs w p; cbn [follow_path];
    (destruct (1 <? e_depth e); [|intros H; apply Ok_inj in H; by injection H as <- _ _ _ _]); [done|].
  intros H. apply bind_Ok in H as (q & _ & H). apply bind_Ok in H as ([t1 p1] & Hm & H).
  eapply steady_trans; [by eapply moveItem_steady|by eapply IH].
Qed.

Lemma insert_along_steady t k v e fs vis o t' u : insert_along t k v e fs vis o = Ok (t', u) -> steady t t'.
Proof.
  unfold insert_along. intros H. do 2 (apply bind_Ok in H as (? & _ & H)).
  apply bind_Ok in H as ([[[[t1 r] s] w] p] & Hf & H). apply bind_Ok in H as ([[t2 p2] ok] & Hp & H).
  apply follow_path_steady in Hf. apply putItem_steady in Hp.
  apply Ok_inj, pair_equal_spec in H as [<- _]. eapply steady_trans; [|exact Hp]. exact Hf.
Qed.

Lemma foldM_rel {A B} (R : A -> A -> Prop) (f : A -> B -> res A) l a a' :
  (forall a, R a a) -> (forall a b c, R a b -> R b c -> R a c) ->
  (forall a x a', f a x = Ok a' -> R a a') -> foldM f l a = Ok a' -> R a a'.
Proof.
  intros Hrefl Htrans Hf. revert a. induction l as [|x l IH]; intros a H; cbn [foldM] in H.
  - by apply Ok_inj in H as <-.
  - apply bind_Ok in H as (a1 & H1 & H). eauto.
Qed.

Lemma power_slot_steady i t s t' : power_slot i t s = Ok t' -> steady t t'.
Proof.
  unfold power_slot. intros H. apply bind_Ok in H as (b & _ & H).
  destruct (negb _); [by apply Ok_inj in H as <-|]. do 2 (apply bind_Ok in H as (? & _ & H)).
  apply bind_Ok in H as ([b0 b1] & _ & H). do 2 (apply bind_Ok in H as (? & _ & H)).
  destruct (_ =? i); [by apply Ok_inj in H as <-|]. do 4 (apply bind_Ok in H as (? & _ & H)).
  apply bind_Ok in H as ([[t1 sd] mv] & Hs & H). apply updateSeed_steady in Hs. by apply Ok_inj in H as <-.
Qed.

Lemma powerSize_steady t n t' : powerSize t n = Ok t' -> steady t t'.
Proof.
  unfold powerSize. intros H. apply bind_Ok in H as (o & _ & H).
  apply (foldM_rel steady) in H; [exact H|apply steady_refl|apply steady_trans|].
  intros a i a' Ha. apply (foldM_rel steady) in Ha; [exact Ha|apply steady_refl|apply steady_trans|].
  intros ???. apply power_slot_steady.
Qed.

(** ** What grows *)

Record grown t t' : Prop := {
  gw_keys : is_word 32 (nKeys t');
  gw_rand : (rand_pos t <= rand_pos t')%nat;
  gw_size : rand_pos t' = rand_pos t -> num_buckets_ t <= num_buckets_ t';
}.

Lemma grown_refl t : is_word 32 (nKeys t) -> grown t t.
Proof. intros. by constructor. Qed.

Lemma grown_trans t t1 t2 : grown t t1 -> grown t1 t2 -> grown t t2.
Proof.
  intros [? R1 S1] [? R2 S2]. constructor; [done|lia|]. intros E.
  specialize (S1 ltac:(lia)). specialize (S2 ltac:(lia)). lia.
Qed.

Lemma steady_grown t t' : is_word 32 (nKeys t) -> steady t t' -> grown t t'.
Proof. intros Hk (Hr & Hn & E). constructor; [by rewrite E|lia|lia]. Qed.

(** A rebuilding draws seeds. *)
Lemma drew_grown t t' : is_word 32 (nKeys t') -> (rand_pos t < rand_pos t')%nat -> grown t t'.
Proof. intros. constructor; [done|lia..]. Qed.

Section one_level.
Context (insert_rec : ControlPlaneLudo L -> Z -> Z -> bool -> res (ControlPlaneLudo L * UpdateResult)).
Context (resize_rec : ControlPlaneLudo L -> Z -> bool -> res (ControlPlaneLudo L)).
Context (Hins : forall t k v o t' u, is_word 32 (nKeys t) -> insert_rec t k v o = Ok (t', u) -> grown t t').
Context (Hrsz : forall t n t', is_word 32 (nKeys t) -> is_word 32 n -> resize_rec t n true = Ok t' -> grown t t').

Lemma tryBuild_grown t t' b : tryBuild insert_rec t = Ok (t', b) ->
  is_word 32 (nKeys t') /\ (rand_pos t <= rand_pos t')%nat.
Proof.
  unfold tryBuild. intros H. apply bind_Ok in H as ([t1 ok] & H & E). apply Ok_inj, pair_equal_spec in E as [<- _].
  cbn [nKeys rand_pos with_integrity].
  set (R := fun a c : ControlPlaneLudo L * bool => is_word 32 (nKeys a.1) -> grown a.1 c.1).
  apply (foldM_rel R) in H.
  - specialize (H ltac:(cbn; unfold is_word; lia)). cbn in H. split; [apply H|]. exact (gw_rand _ _ H).
  - intros a Ha. by apply grown_refl.
  - intros a b' c Hab Hbc Ha. specialize (Hab Ha). eapply grown_trans; [exact Hab|apply Hbc, Hab].
  - intros [a oka] i [c okc] Hf. cbn [snd] in Hf. intros Ha. destruct oka; [|apply Ok_inj, pair_equal_spec in Hf as [<- _]; by apply grown_refl].
    revert Ha. apply (foldM_rel R) in Hf; [exact Hf| | |].
    + intros x Hx. by apply grown_refl.
    + intros x y z Hxy Hyz Hx. specialize (Hxy Hx). eapply grown_trans; [exact Hxy|apply Hyz, Hxy].
    + intros [x okx] sl [y oky] Hs Hx. unfold rebuild_slot in Hs. cbn [fst] in *.
      apply bind_Ok in Hs as (bk & _ & Hs). destruct (occupied bk sl); [|by apply Ok_inj in Hs; injection Hs as <- _; apply grown_refl].
      do 2 (apply bind_Ok in Hs as (? & _ & Hs)). apply bind_Ok in Hs as ([y' u] & Hi & Hs).
      apply bind_Ok in Hs as (? & _ & Hs). apply Ok_inj, pair_equal_spec in Hs as [<- _]. by eapply Hins.
Qed.

Lemma try_hashes_grown n t t' b : is_word 32 (nKeys t) -> try_hashes rnd insert_rec n t = Ok (t', b) ->
  is_word 32 (nKeys t') /\ (rand_pos t + Nat.min n 1 <= rand_pos t')%nat.
Proof.
  revert t. induction n as [|n IH]; intros t Hk H; cbn [try_hashes] in H.
  - apply Ok_inj, pair_equal_spec in H as [<- _]. split; [done|lia].
  - apply bind_Ok in H as ([t1 built] & H1 & H). apply tryBuild_grown in H1 as [Hk1 Hr1].
    cbn [rand_pos with_h] in Hr1. destruct built.
    + apply Ok_inj, pair_equal_spec in H as [<- _]. split; [done|lia].
    + destruct (IH t1 Hk1 H). split; [done|lia].
Qed.

Lemma build_grown fuel t t' : is_word 32 (nKeys t) -> build rnd insert_rec resize_rec fuel t = Ok t' ->
  is_word 32 (nKeys t') /\ (rand_pos t < rand_pos t')%nat.
Proof.
  revert t. induction fuel as [|fuel IH]; intros t Hk H; cbn [build] in H; [done|].
  apply bind_Ok in H as ([t1 built] & H1 & H). apply try_hashes_grown in H1 as [Hk1 Hr1]; [|done].
  change (Nat.min MAX_REHASH 1) with 1%nat in Hr1. destruct built.
  - apply Ok_inj in H as <-. split; [done|lia].
  - apply bind_Ok in H as (t2 & H2 & H). apply Hrsz in H2 as [Hk2 Hr2 _]; [|done|by apply wrap_is_word].
    destruct (IH t2 Hk2 H). split; [done|lia].
Qed.

(** A forced resize rebuilds, or multiplies the number of buckets. *)
Lemma resize_body_cases fuel t n t' : is_word 32 (nKeys t) -> is_word 32 n ->
  resizeCapacity_body rnd insert_rec resize_rec fuel t n true = Ok t' ->
  (is_word 32 (nKeys t') /\ (rand_pos t < rand_pos t')%nat) \/
  (exists i, 6 <= i <= 31 /\ num_buckets_ t < 2 ^ i /\
     powerSize (with_size (2 ^ i) (u32 (load_capacity (2 ^ i))) t) (2 ^ i / num_buckets_ t) = Ok t').
Proof.
  intros Hk Hn. unfold resizeCapacity_body. cbv zeta.
  destruct (next_size (Z.max (nKeys t) (Z.max n 256))) as (i & Hi & ->); [unfold is_word in *; lia|].
  assert (Hw : u32 (2 ^ i) = 2 ^ i).
  { apply wrap_id. split; [by apply Z.pow_nonneg|apply Z.pow_lt_mono_r; lia]. } rewrite Hw.
  destruct (Z.ltb_spec (num_buckets_ t) (2 ^ i)) as [Hlt|Hge]; cbn [andb].
  - change (integrity (with_size _ _ t)) with (integrity t). destruct (integrity t).
    + intros H. right. by exists i.
    + intros H. apply bind_Ok in H as (o & _ & H). destruct (2 ^ 30 <=? _); [done|]. cbn [orb] in H.
      left. by apply build_grown in H.
  - intros H. apply bind_Ok in H as (o & _ & H). destruct (2 ^ 30 <=? _); [done|]. cbn [orb] in H.
    left. by apply build_grown in H.
Qed.

Lemma resize_body_grown fuel t n t' : is_word 32 (nKeys t) -> is_word 32 n ->
  resizeCapacity_body rnd insert_rec resize_rec fuel t n true = Ok t' -> grown t t'.
Proof.
  intros Hk Hn H. apply resize_body_cases in H as [[? ?]|(i & Hi & Hlt & H)]; [by apply drew_grown| |done..].
  apply powerSize_steady in H as (Hr & Hs & E). cbn [rand_pos num_buckets_ nKeys with_size] in *.
  constructor; [by rewrite E|lia|lia].
Qed.

Lemma insert_body_grown t k v o t' u : is_word 32 (nKeys t) ->
  insert_body insert_rec resize_rec t k v o = Ok (t', u) -> grown t t'.
Proof.
  intros Hk H. unfold insert_body in H. apply bind_Ok in H as (m & _ & H).
  assert (Hw : is_word 32 (u32 (nKeys t + 1))) by (by apply wrap_is_word).
  destruct m; [apply changeValue_steady in H; by apply steady_grown|].
  destruct (capacity t <? u32 (nKeys t + 1)).
  { destruct o; [apply Ok_inj, pair_equal_spec in H as [<- _]; by apply grown_refl|].
    apply bind_Ok in H as (t1 & H1 & H). apply bind_Ok in H as ([t2 r] & H2 & H). apply Hrsz in H1; [|done..].
    apply Hins in H2; [|apply H1]. destruct (u_status r <? 0); [done|].
    apply Ok_inj, pair_equal_spec in H as [<- _]. by eapply grown_trans. }
  apply bind_Ok in H as ([b0 b1] & _ & H). apply bind_Ok in H as (p & _ & H). apply bind_Ok in H as ([t1 r] & H1 & H).
  assert (Hg : grown t t1).
  { destruct p as [[b s]|].
    - apply bind_Ok in H1 as ([[t2 pa] ok] & Hp & H1). apply putItem_steady in Hp.
      apply Ok_inj, pair_equal_spec in H1 as [<- _]. by apply steady_grown.
    - unfold CuckooInsert in H1. apply bind_Ok in H1 as ([[[e fs] vis]|] & _ & H1).
      + apply insert_along_steady in H1. by apply steady_grown.
      + destruct o; [apply Ok_inj, pair_equal_spec in H1 as [<- _]; by apply grown_refl|].
        apply bind_Ok in H1 as (t2 & H2 & H1). apply bind_Ok in H1 as ([t3 r3] & H3 & H1). apply Hrsz in H2; [|done..].
        apply Hins in H3; [|apply H2]. apply Ok_inj, pair_equal_spec in H1 as [<- _]. by eapply grown_trans. }
  destruct (0 <=? u_status r); apply Ok_inj, pair_equal_spec in H as [<- _]; [|done].
  destruct Hg. constructor; [by apply wrap_is_word|done..].
Qed.
End one_level.

Lemma both_grown fuel :
  (forall t k v o t' u, is_word 32 (nKeys t) -> insert rnd fuel t k v o = Ok (t', u) -> grown t t') /\
  (forall t n t', is_word 32 (nKeys t) -> is_word 32 n -> resizeCapacity rnd fuel t n true = Ok t' -> grown t t').
Proof.
  induction fuel as [|fuel [IHi IHr]]; [done|]. split.
  - intros t k v o t' u Hk H. exact (insert_body_grown _ _ IHi IHr t k v o t' u Hk H).
  - intros t n t' Hk Hn H. exact (resize_body_grown _ _ IHi IHr fuel t n t' Hk Hn H).
Qed.

(** ** Insertions that drew no seed *)

Lemma resize_no_rebuild fuel t j n t' : wf_table t j -> is_word 32 (nKeys t) -> is_word 32 n ->
  resizeCapacity rnd fuel t n true = Ok t' -> rand_pos t' = rand_pos t -> num_buckets_ t' < 2 ^ 29 ->
  exists j', wf_table t' j' /\ forall k v, holds t' k v <-> holds t k v.
Proof.
  intros Ht Hk Hn H Hr Hs. destruct fuel as [|fuel]; [done|]. destruct (both_grown fuel) as [IHi IHr].
  destruct (resize_body_cases _ _ IHi IHr fuel t n t' Hk Hn H) as [[_ ?]|(i & Hi & Hlt & Hp)]; [lia|].
  pose proof (powerSize_steady _ _ _ Hp) as (_ & E & _). cbn [num_buckets_ with_size] in E. rewrite E in Hs.
  apply Z.pow_lt_mono_r_iff in Hs; [|lia..]. rewrite (ts_size t j Ht) in Hlt, Hp.
  apply Z.pow_lt_mono_r_iff in Hlt; [|lia..].
  pose proof (small_capacity i Hs ltac:(lia)) as Hc. rewrite wrap_id in Hp by (unfold is_word; lia).
  destruct (powerSize_correct t j i (load_capacity (2 ^ i)) Ht ltac:(lia) Hc) as [(t1 & E1 & Hwf & Hh)|(e & E1 & _)];
    [|congruence]. assert (t1 = t') as -> by congruence. by exists i.
Qed.

Lemma insert_no_rebuild fuel t j k v t' u : wf_table t j -> is_word 32 (nKeys t) ->
  insert rnd fuel t k v false = Ok (t', u) -> rand_pos t' = rand_pos t -> num_buckets_ t' < 2 ^ 29 ->
  exists j', inserted t j' t' k v.
Proof.
  revert t j t' u. induction fuel as [|fuel IH]; intros t j t' u Ht Hk H Hr Hs; [done|].
  destruct (both_grown fuel) as [Gi Gr]. assert (Hw : is_word 32 (u32 (nKeys t + 1))) by (by apply wrap_is_word).
  assert (Hagain : forall t1 t2 r, resizeCapacity rnd fuel t (u32 (nKeys t + 1)) true = Ok t1 ->
    insert rnd fuel t1 k v false = Ok (t2, r) -> rand_pos t2 = rand_pos t -> num_buckets_ t2 < 2 ^ 29 ->
    exists j', inserted t j' t2 k v).
  { intros t1 t2 r H1 H2 Hr2 Hs2. pose proof (Gr _ _ _ Hk Hw H1) as [K1 R1 _].
    pose proof (Gi _ _ _ _ _ _ K1 H2) as [_ R2 S2]. specialize (S2 ltac:(lia)).
    destruct (resize_no_rebuild fuel t j _ t1 Ht Hk Hw H1) as (j1 & Hwf1 & Hh1); [lia..|].
    destruct (IH t1 j1 t2 r Hwf1 K1 H2) as (j2 & Hwf2 & Hh2); [lia..|]. exists j2. split; [done|].
    intros k' v'. by rewrite Hh2, Hh1. }
  destruct (decide (u32 (nKeys t + 1) <= capacity t)) as [Hcap|Hcap].
  - destruct (insert_main rnd fuel t j k v Ht Hcap) as [(t1 & u1 & E & _ & Hin)|[(e & E & _)|(_ & _ & _ & _ & E)]].
    + assert (t1 = t') as -> by congruence. by exists j.
    + congruence.
    + rewrite E in H. apply bind_Ok in H as (t1 & H1 & H). apply bind_Ok in H as ([t2 r] & H2 & H).
      apply Ok_inj, pair_equal_spec in H as [<- _]. cbn [rand_pos num_buckets_ with_nKeys] in *.
      destruct (Hagain t1 t2 r H1 H2 Hr Hs) as (j' & Hwf & Hh). exists j'. split; [|done].
      destruct Hwf as [[] Hhome]. constructor; [by constructor|exact Hhome].
  - rewrite insert_S in H. unfold insert_body, isMember in H.
    destruct (find_item_spec t j k Ht) as (r & Hf & Hspec). rewrite Hf, !bind_Ok_l in H. destruct r as [[i s]|].
    + destruct Hspec as [v0 Hv0].
      destruct (insert_body_member t j (insert rnd fuel) (resizeCapacity rnd fuel) k v i s v0 Ht Hf Hv0)
        as (t1 & u1 & E & _ & Hin). unfold insert_body, isMember in E. rewrite Hf, !bind_Ok_l in E.
      assert (t1 = t') as -> by congruence. by exists j.
    + destruct (Z.ltb_spec (capacity t) (u32 (nKeys t + 1))); [|lia]. apply bind_Ok in H as (t1 & H1 & H).
      apply bind_Ok in H as ([t2 r2] & H2 & H). destruct (u_status r2 <? 0); [done|].
      apply Ok_inj, pair_equal_spec in H as [<- _]. by apply (Hagain t1 t2 r2).
Qed.

(** A sequence of insertions. *)
Definition insert_all (fuel : nat) (items : list (Z * Z)) (t : ControlPlaneLudo L) : res (ControlPlaneLudo L) :=
  foldM (fun t '(k, v) => '(t', _) ← insert rnd fuel t k v false; Ok t') items t.

Lemma insert_all_grown fuel items t t' : is_word 32 (nKeys t) -> insert_all fuel items t = Ok t' -> grown t t'.
Proof.
  revert t. induction items as [|[k v] items IH]; intros t Hk H; cbn in H.
  - apply Ok_inj in H as <-. by apply grown_refl.
  - apply bind_Ok in H as (t1 & H1 & H). apply bind_Ok in H1 as ([t2 u] & H1 & E). apply Ok_inj in E as <-.
    pose proof (proj1 (both_grown fuel) _ _ _ _ _ _ Hk H1) as G. eapply grown_trans; [exact G|].
    apply IH; [apply G|done].
Qed.

Lemma insert_all_spec fuel items t j t' : wf_table t j -> is_word 32 (nKeys t) -> NoDup items.*1 ->
  insert_all fuel items t = Ok t' -> rand_pos t' = rand_pos t -> num_buckets_ t' < 2 ^ 29 ->
  exists j', wf_table t' j' /\
    forall k v, holds t' k v <-> (k, v) ∈ items \/ (k ∉ items.*1 /\ holds t k v).
Proof.
  revert t j. induction items as [|[k v] items IH]; intros t j Ht Hk Hnd H Hr Hs; cbn in H.
  - apply Ok_inj in H as <-. exists j. split; [done|]. intros k v. split; [intros ?; right; split; [|done]; apply not_elem_of_nil|].
    by intros [?%not_elem_of_nil|[_ ?]].
  - apply bind_Ok in H as (t1 & H1 & H). apply bind_Ok in H1 as ([t2 u] & H1 & E). apply Ok_inj in E as <-.
    cbn [fmap list_fmap fst] in Hnd. apply NoDup_cons in Hnd as [Hni Hnd].
    pose proof (proj1 (both_grown fuel) _ _ _ _ _ _ Hk H1) as [K1 R1 S1].
    pose proof (insert_all_grown fuel items t2 t' K1 H) as [_ R2 S2].
    specialize (S1 ltac:(lia)). specialize (S2 ltac:(lia)).
    destruct (insert_no_rebuild fuel t j k v t2 u Ht Hk H1) as (j1 & Hwf1 & Hh1); [lia..|].
    destruct (IH t2 j1 Hwf1 K1 Hnd H) as (j' & Hwf & Hh); [lia..|]. exists j'. split; [done|].
    intros k' v'. rewrite Hh, Hh1, elem_of_cons. cbn [fmap list_fmap fst]. rewrite not_elem_of_cons.
    assert (Hkv : (k, v') ∈ items -> k ∈ items.*1) by (intros Hin; apply list_elem_of_fmap; by exists (k, v')).
    split.
    + intros [?|(Hn & [[-> ->]|[Hne ?]])]; [by left; right|by left; left|by right].
    + intros [[[= -> ->]|Hin]|((Hne & Hn) & ?)]; [right; split; [done|by left]|by left|right; split; [done|by right]].
Qed.
End load.

(** ** From the constructor *)

Lemma new_table_spec {L : Type} `{LO : LocatorOk L} (o : L) cap t : loc_inv o -> cap < 2 ^ 30 ->
  new_table o cap = Ok t -> exists j, wf_table t j /\ nKeys t = 0 /\ rand_pos t = 0%nat /\ forall k v, ~ holds t k v.
Proof.
  intros Ho Hcap H. unfold new_table in H. apply bind_Ok in H as (o' & E & H). apply Ok_inj in H as <-.
  destruct (grow_buckets_pow 32 6 cap) as (i & Hi & Ei & Hcase); [lia|]. change (2 ^ 6) with 64 in Ei. rewrite Ei.
  assert (Hi30 : i < 30).
  { destruct Hcase as [->|Hlt]; [lia|]. destruct (decide (i < 30)); [done|]. exfalso.
    pose proof (load_capacity_mono (2 ^ 29) (2 ^ (i - 1)) ltac:(apply Z.pow_le_mono_r; lia)) as Hm.
    assert (E29 : load_capacity (2 ^ 29) = 2040109465) by reflexivity. lia. }
  set (t := MkCP _ _ _ _ _ _ _ _ _ _).
  assert (Hno : forall x s k v, ~ at_pos t x s k v).
  { intros x s k v (b & [_ Hb]%rd_Ok & _ & Hocc & _). apply lookup_replicate in Hb as [-> _].
    unfold occupied, empty_bucket in Hocc. cbn [occupiedMask] in Hocc. by rewrite Z.bits_0 in Hocc. }
  exists i. split; [|split; [done|split; [done|by intros k v (x & s & H); apply Hno in H]]].
  constructor; [|intros x s k v H; by apply Hno in H]. constructor; [lia|done|apply length_replicate| |].
  - intros x b [_ Hb]%rd_Ok. apply lookup_replicate in Hb as [-> _]. apply empty_bucket_ok.
  - cbn. destruct (loc_resize_spec o 0 Ho) as [(o1 & E1 & Ho1 & _)|(e & E1 & _)]; [lia|congruence..].
Qed.

Section theorems.
Context {L : Type} `{LO : LocatorOk L}.
Implicit Types (t : ControlPlaneLudo L).

Lemma load_main (o : L) cap rnd fuel items t0 t : loc_inv o -> cap < 2 ^ 30 -> NoDup items.*1 ->
  new_table o cap = Ok t0 -> insert_all rnd fuel items t0 = Ok t -> rand_pos t = 0%nat -> num_buckets_ t < 2 ^ 29 ->
  exists j, wf_table t j /\ forall k v, holds t k v <-> (k, v) ∈ items.
Proof.
  intros Ho Hcap Hnd H0 H Hr Hs. destruct (new_table_spec o cap t0 Ho Hcap H0) as (j & Ht & Hk & Hr0 & Hno).
  destruct (insert_all_spec rnd fuel items t0 j t Ht) as (j' & Hwf & Hh); [rewrite Hk; unfold is_word; lia|done|done|lia|done|].
  exists j'. split; [done|]. intros k v. rewrite Hh. split; [intros [?|[_ H1]]; [done|by apply Hno in H1]|by left].
Qed.

(** C13: An offline [insert] on a well-formed table with room, by a free slot or
    along a cuckoo path of any length: either exactly its pair is stored and the
    table stays well-formed; or it fails ([insert_fails]), with the exception of
    a seed search, and then there are at most four different keys, each the new
    key or a key of the table, that no seed below 255 puts into different slots,
    or with the fault of the locator's own insertion of the key, on a locator with
    the keys of the table's; or both candidate buckets are full and the
    search, which always ends within its queue and its list of visited entries,
    finds no path: then the table is resized and the insertion starts over. *)
Theorem insert_exact rnd fuel t j k v : wf_table t j -> u32 (nKeys t + 1) <= capacity t ->
  (exists t' u, insert rnd (S fuel) t k v false = Ok (t', u) /\ u_status u = 0 /\ wf_table t' j /\
     forall k' v', holds t' k' v' <-> (k' = k /\ v' = v) \/ (k' <> k /\ holds t k' v')) \/
  (exists e, insert rnd (S fuel) t k v false = Err e /\ insert_fails t k e) \/
  (find_path t k = Ok None /\ full t (cand j (cp_h t) k 0) /\ full t (cand j (cp_h t) k 1) /\
   (forall v', ~ holds t k v') /\
   insert rnd (S fuel) t k v false =
     (t' ← resizeCapacity rnd fuel t (u32 (nKeys t + 1)) true;
      '(t'', r) ← insert rnd fuel t' k v false;
      Ok (with_nKeys (u32 (nKeys t'' + 1)) t'', MkUR 2 (u_path r)))).
Proof. apply insert_main. Qed.

(** C14: Loading a table from the constructor: when a sequence of insertions of
    different keys has succeeded without drawing a new hash seed, so that the
    table was at most grown and never rebuilt, the table is well-formed and
    holds exactly the inserted pairs. *)
Theorem load_exact (o : L) cap rnd fuel items t0 t : loc_inv o -> cap < 2 ^ 30 -> NoDup items.*1 ->
  new_table o cap = Ok t0 -> insert_all rnd fuel items t0 = Ok t -> rand_pos t = 0%nat -> num_buckets_ t < 2 ^ 29 ->
  exists j, wf_table t j /\ forall k v, holds t k v <-> (k, v) ∈ items.
Proof. apply load_main. Qed.
End theorems.

(** ** Tables to apply the theorems to *)

Definition pairs (keys : list Z) : list (Z * Z) := (fun k => (k, 10 * k)) <$> keys.

Definition table_of (keys : list Z) (t0 : res (ControlPlaneLudo (gmap Z Z))) : ControlPlaneLudo (gmap Z Z) :=
  match (t ← t0; insert_all (fun _ => 0) 1 (pairs keys) t) with Ok t => t | Err _ => demo_table end.

(** Four keys in each of the two candidate buckets of key 1. *)
Definition crowding : list Z := [5; 159; 179; 205; 142; 171; 211; 263].
Definition crowded : ControlPlaneLudo (gmap Z Z) := table_of crowding (Ok demo_table).

(** A few keys from the constructor. *)
Definition few : list Z := [5; 159; 179].
Definition loaded : ControlPlaneLudo (gmap Z Z) := table_of few (new_table ∅ 64).

Lemma table_of_ok keys t0 t : Prelude.is_ok (t ← t0; insert_all (fun _ => 0) 1 (pairs keys) t) = true ->
  t0 = Ok t -> insert_all (fun _ => 0) 1 (pairs keys) t = Ok (table_of keys t0).
Proof. intros H ->. unfold table_of. rewrite bind_Ok_l in *. by destruct (insert_all _ _ _ t). Qed.

Lemma pairs_distinct keys : NoDup keys -> NoDup (pairs keys).*1.
Proof.
  intros H. unfold pairs. rewrite <-list_fmap_compose.
  assert (E : fst ∘ (fun k : Z => (k, 10 * k)) <$> keys = keys) by (rewrite <-list_fmap_id; by apply list_fmap_ext).
  by rewrite E.
Qed.

Lemma crowded_wf : wf_table crowded 6.
Proof.
  assert (E : rand_pos crowded = 0%nat /\ num_buckets_ crowded = 2 ^ 6) by (vm_compute; auto). destruct E as [Er En].
  destruct (insert_all_spec (fun _ => 0) 1 (pairs crowding) demo_table 6 crowded) as (j & Hwf & _).
  - exact demo_wf.
  - cbn. unfold is_word. lia.
  - apply pairs_distinct, (bool_decide_unpack _). vm_compute. exact I.
  - apply table_of_ok; [vm_compute; reflexivity|reflexivity].
  - exact Er.
  - by rewrite En.
  - rewrite (ts_size crowded j Hwf) in En. pose proof (ts_j crowded j Hwf).
    apply Z.pow_inj_r in En; [by subst j|lia..].
Qed.

(** Both buckets are full, and an item of one of them makes room. *)
Example crowded_path : free_position [cand 6 (cp_h crowded) 1 0; cand 6 (cp_h crowded) 1 1] crowded = Ok None /\
  match find_path crowded 1 with Ok (Some (e, _, _)) => e_depth e | _ => 0 end = 2.
Proof. vm_compute. auto. Qed.

Lemma insert_exact_witness :
  (exists t' u, insert (fun _ => 0) 1 crowded 1 7 false = Ok (t', u) /\ u_status u = 0 /\ wf_table t' 6 /\
     forall k' v', holds t' k' v' <-> (k' = 1 /\ v' = 7) \/ (k' <> 1 /\ holds crowded k' v')) \/
  (exists e, insert (fun _ => 0) 1 crowded 1 7 false = Err e /\ insert_fails crowded 1 e) \/
  (find_path crowded 1 = Ok None /\ full crowded (cand 6 (cp_h crowded) 1 0) /\
   full crowded (cand 6 (cp_h crowded) 1 1) /\ (forall v', ~ holds crowded 1 v') /\
   insert (fun _ => 0) 1 crowded 1 7 false =
     (t' ← resizeCapacity (fun _ => 0) 0 crowded (u32 (nKeys crowded + 1)) true;
      '(t'', r) ← insert (fun _ => 0) 0 t' 1 7 false;
      Ok (with_nKeys (u32 (nKeys t'' + 1)) t'', MkUR 2 (u_path r)))).
Proof. apply (insert_exact (fun _ => 0) 0 crowded 6 1 7 crowded_wf). vm_compute. discriminate. Defined.

Lemma load_exact_witness :
  exists j, wf_table loaded j /\ forall k v, holds loaded k v <-> (k, v) ∈ pairs few.
Proof.
  destruct (new_table (∅ : gmap Z Z) 64) as [t0|e] eqn:E0; [|discriminate E0].
  apply (load_exact (∅ : gmap Z Z) 64 (fun _ => 0) 1 (pairs few) t0 loaded).
  - apply map_Forall_empty.
  - reflexivity.
  - apply pairs_distinct, (bool_decide_unpack _). vm_compute. exact I.
  - exact E0.
  - apply table_of_ok; [vm_compute; reflexivity|exact E0].
  - vm_compute. reflexivity.
  - vm_compute. reflexivity.
Defined.
