(* ===== verification/LudoDP.v ===== *)
(** * The Ludo data plane (deps/ludo/ludo_cp_dp.h, DataPlaneLudo)

    The structure servers and clients look keys up in: one seed per bucket, the
    locator's data plane and the version bytes.  [DataPlaneLudo_with_buckets]
    is the constructor that also fills the index cells from the control plane;
    [to_dp] stands for the conversion of the locator's control plane. *)

From Stdlib Require Import ZArith Lia.
From stdpp Require Import base numbers gmap list.
From S2P Require Import Prelude Words Hash LudoSlot ServerRdma ServerInv.
From S2P Require Import OthelloMem LudoTable LudoInv LudoProps.

#[local] Open Scope Z_scope.

Record DataPlaneLudo := MkDPL {
  dp_num_buckets : Z;          (* num_buckets_ *)
  dp_h : Z;                    (* the seed of h *)
  dp_digestH : Z;
  dp_buckets : list Z;         (* buckets[].seed *)
  dp_locator : DataPlaneOthello;
  dp_lock : list Z;            (* lock, 8192 version bytes *)
}.

Definition with_seeds l d :=
  MkDPL (dp_num_buckets d) (dp_h d) (dp_digestH d) l (dp_locator d) (dp_lock d).
Definition with_lock l d :=
  MkDPL (dp_num_buckets d) (dp_h d) (dp_digestH d) (dp_buckets d) (dp_locator d) l.

(** One round of [lookup_slot]; [r i] is the structure at the [i]-th shared
    access.  The seed is read after the versions have been compared. *)
Definition lookup_slot_round (r : nat -> DataPlaneLudo) (k : Z) : res (option (Z * Z)) :=
  '(b0, b1) ← fast_map_to_buckets (FastHasher64 (dp_h (r 0%nat)) k) (dp_num_buckets (r 0%nat));
  va1 ← rd (dp_lock (r 0%nat)) (Z.land b0 8191);
  vb1 ← rd (dp_lock (r 1%nat)) (Z.land b1 8191);
  if (va1 mod 2 =? 1) || (vb1 mod 2 =? 1) then Ok None
  else
    found ← othello_lookUp (dp_locator (r 2%nat)) k;
    match found with
    | None => Ok None
    | Some w =>
        bktIdt ← rd [b0; b1] w;
        va2 ← rd (dp_lock (r 3%nat)) (Z.land b0 8191);
        vb2 ← rd (dp_lock (r 4%nat)) (Z.land b1 8191);
        if negb (va1 =? va2) || negb (vb1 =? vb2) then Ok None
        else seed ← rd (dp_buckets (r 5%nat)) bktIdt; Ok (Some (bktIdt, slot_of seed k))
    end.

(** [lookup_slot] with no concurrent writer: one round, or it spins. *)
Definition lookup_slot (d : DataPlaneLudo) (k : Z) : res (option (Z * Z)) :=
  lookup_slot_round (fun _ => d) k.

(** [DataPlaneLudo::updateSeed], of a [uint8_t] seed. *)
Definition dp_updateSeed (d : DataPlaneLudo) (bktIdx seed : Z) : res DataPlaneLudo :=
  l ← wr (dp_buckets d) bktIdx (u8 seed); Ok (with_seeds l d).

(** [lock[bid & 8191]++] *)
Definition bump_bucket (d : DataPlaneLudo) (bid : Z) : res DataPlaneLudo :=
  v ← rd (dp_lock d) (Z.land bid 8191);
  l ← wr (dp_lock d) (Z.land bid 8191) (u8 (v + 1));
  Ok (with_lock l d).

(** [applyUpdate]: the assignment between the two increments is commented out
    in the source. *)
Definition applyUpdate (d : DataPlaneLudo) (bid_ sid_ v : Z) : res DataPlaneLudo :=
  d' ← bump_bucket d bid_; bump_bucket d' bid_.

Definition applyUpdate_bs (d : DataPlaneLudo) (bs v : Z) : res DataPlaneLudo :=
  applyUpdate d (Z.shiftr bs 2) (Z.land bs 3) v.

Definition getBucketsNum (d : DataPlaneLudo) : Z := Z.of_nat (length (dp_buckets d)).
Definition getMemoryCost (d : DataPlaneLudo) : Z := Z.of_nat (length (dp_buckets d)) * 1.

(** [resizeCapacity]; [loc_resize] is that of the locator's data plane. *)
Definition dp_resizeCapacity (loc_resize : DataPlaneOthello -> Z -> DataPlaneOthello)
    (d : DataPlaneLudo) (targetCapacity : Z) : DataPlaneLudo :=
  let nb := grow_buckets 64 64 (Z.max targetCapacity 256) in
  MkDPL (u32 nb) (dp_h d) (dp_digestH d) (resize (Z.to_nat (u32 nb)) 0 (dp_buckets d))
    (loc_resize (dp_locator d) (u32 (load_capacity nb))) (dp_lock d).

Section from_control_plane.
Context {L : Type} `{LO : LocatorOk L} (to_dp : L -> DataPlaneOthello).

Definition DataPlaneLudo_of (cp : ControlPlaneLudo L) : DataPlaneLudo :=
  MkDPL (num_buckets_ cp) (cp_h cp) (cp_digestH cp)
    (b_seed <$> take (Z.to_nat (num_buckets_ cp)) (buckets_ cp))
    (to_dp (cp_locator cp)) (replicate (Z.to_nat 8192) 0).

(** [uint64_t length = 64UL << 48] *)
Definition bulk_length : Z := u64 (Z.shiftl 64 48).

(** [pdBucket.slots[locateHash(k) >> 62] = values[slot] + length] *)
Definition fill_slot (b : Bucket) (cells : list Z) (slot : Z) : res (list Z) :=
  if occupied b slot then
    k ← rd (b_keys b) slot; v ← rd (b_values b) slot;
    wr cells (slot_of (b_seed b) k) (u64 (v + bulk_length))
  else Ok cells.

Definition fill_bucket (b : Bucket) : res ludo_bucket := foldM (fill_slot b) slots [0; 0; 0; 0].

Definition DataPlaneLudo_with_buckets (cp : ControlPlaneLudo L)
    : res (DataPlaneLudo * list ludo_bucket) :=
  cells ← mapM fill_bucket (take (Z.to_nat (num_buckets_ cp)) (buckets_ cp));
  Ok (DataPlaneLudo_of cp, cells).

(** ** Laws *)

(** A filled bucket: the value of every item is in the cell that the seed
    selects, and the other cells are empty. *)
Lemma fill_bucket_spec b : bucket_ok b -> exists cells, fill_bucket b = Ok cells /\
  length cells = 4%nat /\
  (forall s k v, item b s k v -> rd cells (slot_of (b_seed b) k) = Ok (u64 (v + bulk_length))) /\
  (forall x, 0 <= x < 4 -> rd cells x = Ok 0 \/
     exists s k v, item b s k v /\ slot_of (b_seed b) k = x /\ rd cells x = Ok (u64 (v + bulk_length))).
Proof.
  intros Hb. unfold fill_bucket.
  destruct (foldM_inv (fun pre cells => length cells = 4%nat /\
    (forall s k v, s ∈ pre -> item b s k v ->
       rd cells (slot_of (b_seed b) k) = Ok (u64 (v + bulk_length))) /\
    (forall x, 0 <= x < 4 -> rd cells x = Ok 0 \/
       exists s k v, item b s k v /\ slot_of (b_seed b) k = x /\
         rd cells x = Ok (u64 (v + bulk_length)))) (fill_slot b) slots [0; 0; 0; 0])
    as (cells & E & Hlen & Hit & Hother).
  - split; [done|]. split; [by intros s k v ?%not_elem_of_nil|].
    intros x Hx. left. by apply rd_zeros.
  - intros pre m post cells Hl (Hlen & Hit & Hother).
    assert (Hm : m ∈ slots) by (rewrite Hl; apply elem_of_app; right; apply list_elem_of_here).
    apply elem_of_slots in Hm. unfold fill_slot. destruct (occupied b m) eqn:Ho.
    2:{ exists cells. split; [done|]. split; [done|]. split; [|done].
        intros s k v [Hs|Hs]%elem_of_app Hi; [by eapply Hit|].
        apply list_elem_of_singleton in Hs as ->. destruct Hi as (_ & ? & _). congruence. }
    destruct (shape_item b m (ok_shape b Hb) Hm Ho) as (k & v & Hi).
    pose proof Hi as (_ & _ & -> & ->). rewrite !bind_Ok_l.
    pose proof (wr_in_range cells (slot_of (b_seed b) k) (u64 (v + bulk_length))
      ltac:(pose proof (slot_of_range (b_seed b) k); lia)) as Hw.
    rewrite Hw. eexists. split; [reflexivity|].
    split; [by rewrite (wr_length _ _ _ _ Hw)|]. split.
    + intros s k' v' Hs Hi'.
      destruct (decide (slot_of (b_seed b) k' = slot_of (b_seed b) k)) as [E|E].
      * assert (s = m) as -> by (by apply (ok_sep b Hb s m k' k v' v)).
        destruct (item_fun _ _ _ _ _ _ Hi Hi') as [<- <-]. by apply (rd_wr_eq _ _ _ _ Hw).
      * rewrite (rd_wr_ne _ _ _ _ _ Hw) by congruence. apply elem_of_app in Hs as [Hs|Hs].
        { by apply (Hit s). }
        apply list_elem_of_singleton in Hs as ->.
        by destruct (item_fun _ _ _ _ _ _ Hi Hi') as [-> _].
    + intros x Hx. destruct (decide (slot_of (b_seed b) k = x)) as [<-|E].
      * right. exists m, k, v. by rewrite (rd_wr_eq _ _ _ _ Hw).
      * rewrite (rd_wr_ne _ _ _ _ _ Hw) by done. by apply Hother.
  - exists cells. split; [done|]. split; [done|]. split; [|done].
    intros s k v Hi. apply (Hit s); [|done]. apply elem_of_slots. by destruct Hi.
Qed.

Lemma bulk_cell v : 0 <= v < 2 ^ 40 ->
  toAddr (u64 (v + bulk_length)) = v /\ toFinger (u64 (v + bulk_length)) = 0 /\
  toLength (u64 (v + bulk_length)) = 16384 /\ toCachebit (u64 (v + bulk_length)) = 0.
Proof.
  intros Hv. change bulk_length with (2 ^ 54).
  rewrite (wrap_id 64) by (unfold is_word; lia).
  rewrite toAddr_mod, toFinger_mod, toLength_mod, toCachebit_mod.
  Z.to_euclidean_division_equations. lia.
Qed.

Lemma seed_at cp j i b : table_shape cp j -> rd (buckets_ cp) i = Ok b ->
  rd (dp_buckets (DataPlaneLudo_of cp)) i = Ok (b_seed b).
Proof.
  intros Hs Hb. apply rd_Ok in Hb as [Hi Hb]. apply rd_Ok. split; [done|]. simpl.
  rewrite take_ge by (rewrite (ts_size cp j Hs), (ts_len cp j Hs); done).
  by rewrite list_lookup_fmap, Hb.
Qed.

Lemma rd_lock i : rd (replicate (Z.to_nat 8192) 0) (Z.land i 8191) = Ok 0.
Proof.
  pose proof (land_8191 i). destruct (rd_in_range (replicate (Z.to_nat 8192) 0) (Z.land i 8191))
    as [x Hx]; [rewrite length_replicate; lia|].
  rewrite Hx. apply rd_Ok in Hx as [_ Hx]. by apply lookup_replicate in Hx as [-> _].
Qed.

(** The conversion of the locator keeps the bits of its members. *)
Definition synced (o : L) : Prop := forall k w, loc_map o !! k = Some w ->
  othello_lookUp (to_dp o) k = Ok (Some w).

Lemma lookup_slot_home cp j k w b : table_shape cp j -> synced (cp_locator cp) ->
  loc_map (cp_locator cp) !! k = Some w -> rd (buckets_ cp) (cand j (cp_h cp) k w) = Ok b ->
  lookup_slot (DataPlaneLudo_of cp) k = Ok (Some (cand j (cp_h cp) k w, slot_of (b_seed b) k)).
Proof.
  intros Hs Hdp Hw Hb. destruct (ts_j cp j Hs). unfold lookup_slot, lookup_slot_round.
  cbn [dp_h dp_num_buckets dp_lock dp_locator DataPlaneLudo_of].
  rewrite (ts_size cp j Hs), (fast_map_spec j) by (lia || apply FastHasher64_word).
  rewrite bind_Ok_l. cbv beta iota. rewrite !rd_lock, !bind_Ok_l.
  change ((0 mod 2 =? 1) || (0 mod 2 =? 1)) with false. cbv iota.
  rewrite (Hdp _ _ Hw), bind_Ok_l. cbv iota.
  assert (Hbit := loc_bits (cp_locator cp) k w (ts_loc cp j Hs) Hw).
  assert (Hrd : rd [FastHasher64 (cp_h cp) k mod 2 ^ j; Z.shiftr (FastHasher64 (cp_h cp) k) 32 mod 2 ^ j] w
    = Ok (cand j (cp_h cp) k w)) by (by destruct Hbit as [->| ->]).
  rewrite Hrd, !bind_Ok_l. change (negb (0 =? 0) || negb (0 =? 0)) with false. cbv iota.
  by rewrite (seed_at cp j _ b Hs Hb), bind_Ok_l.
Qed.

Lemma bulk_load_main cp j : wf_table cp j -> synced (cp_locator cp) ->
  exists d cells, DataPlaneLudo_with_buckets cp = Ok (d, cells) /\
    length cells = Z.to_nat (2 ^ j) /\ getBucketsNum d = 2 ^ j /\
    forall k v, holds cp k v -> 0 <= v < 2 ^ 40 ->
      exists row slot c, lookup_slot d k = Ok (Some (row, slot)) /\
        rd2 cells row slot = Ok c /\ read_addr cells row slot = Ok v /\
        toLength c = 16384 /\ toFinger c = 0.
Proof.
  intros Hwf Hdp. pose proof (wt_shape cp j Hwf) as Hs.
  assert (Htake : take (Z.to_nat (num_buckets_ cp)) (buckets_ cp) = buckets_ cp)
    by (apply take_ge; by rewrite (ts_size cp j Hs), (ts_len cp j Hs)).
  assert (Hcells : exists cells, mapM fill_bucket (buckets_ cp) = Ok cells).
  { assert (HF : Forall bucket_ok (buckets_ cp)).
    { apply Forall_lookup. intros i b Hb. apply (ts_bucket cp j Hs (Z.of_nat i)).
      apply rd_Ok. split; [lia|]. by rewrite Nat2Z.id. }
    revert HF. generalize (buckets_ cp). clear. intros bs HF.
    induction HF as [|b bs Hb _ IH]; [by exists []|]. destruct IH as [cs E].
    destruct (fill_bucket_spec b Hb) as (c & Ec & _). exists (c :: cs).
    simpl. by rewrite Ec, bind_Ok_l, E, bind_Ok_l. }
  destruct Hcells as [cells Hcells]. exists (DataPlaneLudo_of cp), cells.
  split; [|split; [|split]].
  - unfold DataPlaneLudo_with_buckets. by rewrite Htake, Hcells, bind_Ok_l.
  - apply mapM_Ok, Forall2_length in Hcells. rewrite <-Hcells. apply Hs.
  - unfold getBucketsNum. simpl. rewrite Htake, length_fmap, (ts_len cp j Hs).
    destruct (ts_j cp j Hs). apply Z2Nat.id. apply Z.pow_nonneg. lia.
  - intros k v (i & s & Hp) Hv.
    destruct (wt_home cp j Hwf i s k v Hp) as (w & Hw & Hi).
    destruct Hp as (b & Hb & Hit). subst i.
    exists (cand j (cp_h cp) k w), (slot_of (b_seed b) k), (u64 (v + bulk_length)).
    assert (Hrow : exists c, rd cells (cand j (cp_h cp) k w) = Ok c /\ fill_bucket b = Ok c).
    { apply mapM_Ok in Hcells. apply rd_Ok in Hb as [Hi Hb].
      destruct (Forall2_lookup_l _ _ _ _ _ Hcells Hb) as (c & Hc & Ef).
      exists c. split; [|done]. by apply rd_Ok. }
    destruct Hrow as (c & Hc & Ef).
    destruct (fill_bucket_spec b (ts_bucket cp j Hs _ b Hb)) as (c' & Ef' & _ & Hit' & _).
    assert (c' = c) as -> by congruence.
    destruct (bulk_cell v Hv) as (Ha & Hf & Hl & _).
    assert (Hcell : rd2 cells (cand j (cp_h cp) k w) (slot_of (b_seed b) k) = Ok (u64 (v + bulk_length)))
      by (unfold rd2; by rewrite Hc, bind_Ok_l, (Hit' s k v)).
    split; [by apply lookup_slot_home|]. split; [done|]. split; [|done].
    unfold read_addr. by rewrite Hcell, bind_Ok_l, Ha.
Qed.

(** C17: The data plane and the index cells built from a well-formed control
    plane, whose locator was converted faithfully, agree with it: for every item [(k, v)] with [v] below 2^40, the data
    plane finds the row and slot of [k], and the cell there has address [v] and
    is not empty.  The cell has the fingerprint 0, whatever the key: the
    constructor uses another layout of the cell than [combine]. *)
Theorem bulk_load_agrees cp j : wf_table cp j -> synced (cp_locator cp) ->
  exists d cells, DataPlaneLudo_with_buckets cp = Ok (d, cells) /\
    length cells = Z.to_nat (2 ^ j) /\ getBucketsNum d = 2 ^ j /\
    forall k v, holds cp k v -> 0 <= v < 2 ^ 40 ->
      exists row slot c, lookup_slot d k = Ok (Some (row, slot)) /\
        rd2 cells row slot = Ok c /\ read_addr cells row slot = Ok v /\
        toLength c = 16384 /\ toFinger c = 0.
Proof. apply bulk_load_main. Qed.

(** Every cell, stored or empty. *)
Lemma bulk_cells cp j : wf_table cp j -> exists cells, DataPlaneLudo_with_buckets cp = Ok (DataPlaneLudo_of cp, cells) /\
  length cells = Z.to_nat (2 ^ j) /\ wf_buckets cells /\
  forall row slot c, rd2 cells row slot = Ok c -> c = 0 \/
    exists s k v b, rd (buckets_ cp) row = Ok b /\ item b s k v /\ slot = slot_of (b_seed b) k /\ c = u64 (v + bulk_length).
Proof.
  intros Hwf. pose proof (wt_shape cp j Hwf) as Hs.
  assert (Hcells : exists cells, mapM fill_bucket (take (Z.to_nat (num_buckets_ cp)) (buckets_ cp)) = Ok cells).
  { assert (HF : Forall bucket_ok (take (Z.to_nat (num_buckets_ cp)) (buckets_ cp))).
    { apply Forall_take, Forall_lookup. intros i b Hb. apply (ts_bucket cp j Hs (Z.of_nat i)).
      apply rd_Ok. split; [lia|]. by rewrite Nat2Z.id. }
    revert HF. generalize (take (Z.to_nat (num_buckets_ cp)) (buckets_ cp)). clear. intros bs HF.
    induction HF as [|b bs Hb _ [cs E]]; [by exists []|]. destruct (fill_bucket_spec b Hb) as (c & Ec & _).
    exists (c :: cs). simpl. by rewrite Ec, bind_Ok_l, E, bind_Ok_l. }
  destruct Hcells as [cells E]. exists cells. unfold DataPlaneLudo_with_buckets. rewrite E, bind_Ok_l.
  rewrite take_ge in E by (by rewrite (ts_size cp j Hs), (ts_len cp j Hs)). apply mapM_Ok in E.
  assert (Hrow : forall i c, cells !! i = Some c -> exists b, rd (buckets_ cp) (Z.of_nat i) = Ok b /\ fill_bucket b = Ok c).
  { intros i c Hc. destruct (Forall2_lookup_r _ _ _ _ _ E Hc) as (b & Hb & Ef). exists b. split; [|done].
    apply rd_Ok. split; [lia|]. by rewrite Nat2Z.id. }
  assert (Hfill : forall i b c, rd (buckets_ cp) i = Ok b -> fill_bucket b = Ok c -> length c = 4%nat /\
    forall x y, rd c x = Ok y -> y = 0 \/ exists s k v, item b s k v /\ x = slot_of (b_seed b) k /\ y = u64 (v + bulk_length)).
  { intros i b c Hb Ef. destruct (fill_bucket_spec b (ts_bucket cp j Hs i b Hb)) as (c' & Ef' & Hl & _ & Hall).
    assert (c' = c) as -> by congruence. split; [done|]. intros x y Hy. pose proof (rd_range _ _ _ Hy).
    destruct (Hall x ltac:(lia)) as [E0|(s & k & v & Hi & <- & E0)]; [left; congruence|].
    right. exists s, k, v. split; [done|]. split; [done|]. congruence. }
  split; [done|]. split; [rewrite <-(Forall2_length _ _ _ E); apply Hs|]. split.
  - apply Forall_lookup. intros i c Hc. destruct (Hrow i c Hc) as (b & Hb & Ef). by eapply Hfill.
  - intros row slot c (r & Hr & Hc)%bind_Ok. apply rd_Ok in Hr as [Hp Hr]. destruct (Hrow _ r Hr) as (b & Hb & Ef).
    rewrite Z2Nat.id in Hb by done. destruct (Hfill row b r Hb Ef) as [_ Hall].
    destruct (Hall slot c Hc) as [?|(s & k & v & Hi & ? & ?)]; [by left|right]. by exists s, k, v, b.
Qed.

(** *** Any table *)

Definition wf_dp (d : DataPlaneLudo) (j : Z) : Prop :=
  0 <= j <= 31 /\ dp_num_buckets d = 2 ^ j /\ length (dp_buckets d) = Z.to_nat (2 ^ j) /\
  wf_othello (dp_locator d) /\ length (dp_lock d) = Z.to_nat 8192.
End from_control_plane.

Lemma wf_dp_lock d j i : wf_dp d j -> exists v, rd (dp_lock d) (Z.land i 8191) = Ok v.
Proof.
  intros (_ & _ & _ & _ & Hl). apply rd_in_range. rewrite Hl. pose proof (land_8191 i). lia.
Qed.

(** [lookup_slot] is memory-safe for every key, stored or not: in a
    structure with [2 ^ j] buckets a round without a writer never faults and
    either goes round again or returns a row below [2 ^ j] and a slot below 4. *)
Theorem lookup_slot_total d j k : wf_dp d j ->
  exists r, lookup_slot d k = Ok r /\
    match r with Some (row, slot) => 0 <= row < 2 ^ j /\ 0 <= slot < 4 | None => True end.
Proof.
  intros Hd. pose proof Hd as (Hj & Hn & Hb & Ho & Hl).
  assert (0 < 2 ^ j) by (by apply Z.pow_pos_nonneg; lia).
  unfold lookup_slot, lookup_slot_round.
  rewrite Hn, (fast_map_spec j) by (lia || apply FastHasher64_word). rewrite bind_Ok_l.
  cbv beta iota.
  pose proof (Z.mod_pos_bound (FastHasher64 (dp_h d) k) (2 ^ j) ltac:(done)) as Ha.
  pose proof (Z.mod_pos_bound (Z.shiftr (FastHasher64 (dp_h d) k) 32) (2 ^ j) ltac:(done)) as Hb'.
  revert Ha Hb'. generalize (FastHasher64 (dp_h d) k mod 2 ^ j),
    (Z.shiftr (FastHasher64 (dp_h d) k) 32 mod 2 ^ j). intros x y Hx Hy.
  destruct (wf_dp_lock d j x Hd) as [va Hva], (wf_dp_lock d j y Hd) as [vb Hvb].
  rewrite Hva, Hvb, !bind_Ok_l.
  destruct ((va mod 2 =? 1) || (vb mod 2 =? 1)); [by exists None|].
  destruct (othello_lookUp_total (dp_locator d) k Ho) as (r & -> & Hr). rewrite bind_Ok_l.
  destruct r as [w|]; [|by exists None].
  destruct (rd_in_range [x; y] w) as [row Hrow]; [simpl; lia|]. rewrite Hrow, !bind_Ok_l.
  rewrite !Z.eqb_refl. cbn [negb orb].
  assert (0 <= row < 2 ^ j).
  { apply rd_Ok in Hrow as [_ Hrow]. apply list_elem_of_lookup_2 in Hrow. set_solver. }
  destruct (rd_in_range (dp_buckets d) row) as [seed Hseed]; [rewrite Hb; lia|].
  rewrite Hseed, bind_Ok_l. eexists. split; [reflexivity|]. split; [done|apply slot_of_range].
Qed.

Definition demo_dp : DataPlaneLudo :=
  MkDPL 4 7 7 [0; 1; 2; 3] demo_othello (replicate (Z.to_nat 8192) 0).

Lemma lookup_slot_total_witness :
  exists r, lookup_slot demo_dp 99 = Ok r /\
    match r with Some (row, slot) => 0 <= row < 2 ^ 2 /\ 0 <= slot < 4 | None => True end.
Proof.
  apply (lookup_slot_total demo_dp 2 99). split; [lia|]. split; [done|]. split; [done|].
  split; [exact (proj1 demo_versions_ok)|]. apply length_replicate.
Defined.

(** All cells 0: the locator of [demo_table1], whose only key is in its first
    bucket. *)
Definition zero_othello : DataPlaneOthello := MkDPO [0] 2 2 7 (replicate (Z.to_nat 8192) 0).

Lemma bulk_load_agrees_witness :
  exists d cells, DataPlaneLudo_with_buckets (fun _ => zero_othello) demo_table1 = Ok (d, cells) /\
    length cells = Z.to_nat (2 ^ 6) /\ getBucketsNum d = 2 ^ 6 /\
    forall k v, holds demo_table1 k v -> 0 <= v < 2 ^ 40 ->
      exists row slot c, lookup_slot d k = Ok (Some (row, slot)) /\
        rd2 cells row slot = Ok c /\ read_addr cells row slot = Ok v /\
        toLength c = 16384 /\ toFinger c = 0.
Proof.
  apply (bulk_load_agrees (fun _ => zero_othello) demo_table1 6 demo_wf1).
  intros k w Hw. assert (E : cp_locator demo_table1 = {[5 := 0]}) by (vm_compute; reflexivity).
  rewrite E in Hw. cbn [loc_map map_locator_ok] in Hw.
  apply lookup_singleton_Some in Hw as [<- <-]. vm_compute. reflexivity.
Defined.
