(* ===== verification/OthelloCP.v ===== *)
(** * The Othello control plane (deps/ludo/tables/othello_cp_dp.h)

    [ControlPlaneOthello<K, uint8_t, 1, 0, true>], as the Ludo table
    instantiates it: one bit per key, no digest, [maintainDP] and
    [maintainDisjointSet] set, not [randomized].  A key is an edge between a
    cell of array A and one of array B, and its bit is the exclusive or of the
    two cells; keys are kept in linked lists per cell, and components in a
    disjoint set.  [rands] are the answers of [rand()] to come; when they are
    used up the model stops with [OutOfFuel]. *)

From Stdlib Require Import ZArith Lia.
From stdpp Require Import base numbers list gmap.
From S2P Require Import Prelude Words Hash OthelloMem LudoTable Forest UnionFind.

#[local] Open Scope Z_scope.

(** ** The state *)

(** [OthelloCPCell]: a key and the node at its other end. *)
Notation OthelloCPCell := (Z * Z)%type.

Record ControlPlaneOthello := MkCPO {
  cpo_mem : list Z;
  cpo_ma : Z;
  cpo_mb : Z;
  cpo_hab : Z;                        (* the seed of hab *)
  nKeysInOthello : Z;
  cpo_keys : list Z;
  cpo_values : list Z;
  indMem : list Z;
  cpo_head : list OthelloCPCell;
  nextAtA : list OthelloCPCell;
  nextAtB : list OthelloCPCell;
  connectivityForest : list Z;
  compact : bool;
  cpo_integrity : bool;
  rands : list Z;
}.

(** The part shared with the data plane. *)
Definition common (o : ControlPlaneOthello) : DataPlaneOthello :=
  MkDPO (cpo_mem o) (cpo_ma o) (cpo_mb o) (cpo_hab o) [].

Definition with_mem m o := MkCPO m (cpo_ma o) (cpo_mb o) (cpo_hab o) (nKeysInOthello o) (cpo_keys o)
  (cpo_values o) (indMem o) (cpo_head o) (nextAtA o) (nextAtB o) (connectivityForest o) (compact o)
  (cpo_integrity o) (rands o).
Definition with_hab s r o := MkCPO (cpo_mem o) (cpo_ma o) (cpo_mb o) s (nKeysInOthello o) (cpo_keys o)
  (cpo_values o) (indMem o) (cpo_head o) (nextAtA o) (nextAtB o) (connectivityForest o) (compact o)
  (cpo_integrity o) r.
Definition with_entries n ks vs o := MkCPO (cpo_mem o) (cpo_ma o) (cpo_mb o) (cpo_hab o) n ks
  vs (indMem o) (cpo_head o) (nextAtA o) (nextAtB o) (connectivityForest o) (compact o)
  (cpo_integrity o) (rands o).
Definition with_indMem l o := MkCPO (cpo_mem o) (cpo_ma o) (cpo_mb o) (cpo_hab o) (nKeysInOthello o)
  (cpo_keys o) (cpo_values o) l (cpo_head o) (nextAtA o) (nextAtB o) (connectivityForest o) (compact o)
  (cpo_integrity o) (rands o).
Definition with_lists h a b o := MkCPO (cpo_mem o) (cpo_ma o) (cpo_mb o) (cpo_hab o) (nKeysInOthello o)
  (cpo_keys o) (cpo_values o) (indMem o) h a b (connectivityForest o) (compact o)
  (cpo_integrity o) (rands o).
Definition with_forest f o := MkCPO (cpo_mem o) (cpo_ma o) (cpo_mb o) (cpo_hab o) (nKeysInOthello o)
  (cpo_keys o) (cpo_values o) (indMem o) (cpo_head o) (nextAtA o) (nextAtB o) f (compact o)
  (cpo_integrity o) (rands o).
Definition with_intact i o := MkCPO (cpo_mem o) (cpo_ma o) (cpo_mb o) (cpo_hab o) (nKeysInOthello o)
  (cpo_keys o) (cpo_values o) (indMem o) (cpo_head o) (nextAtA o) (nextAtB o) (connectivityForest o)
  (compact o) i (rands o).

(** The two nodes of a key. *)
Definition nodes_of (o : ControlPlaneOthello) (k : Z) : Z * Z := getIndices (common o) k.

(** ** Reading *)

(** [lookUp(k)] with [maintainingDP]: the bit, whether or not the key is a
    member. *)
Definition cpo_lookUp (o : ControlPlaneOthello) (k : Z) : res Z :=
  let '(ha, hb) := nodes_of o k in
  aa ← memGet 1 0 ha (cpo_mem o);
  bb ← memGet 1 0 hb (cpo_mem o);
  Ok (u8 (Z.shiftr (Z.lxor aa bb) 0)).

Definition lookUpIndex (o : ControlPlaneOthello) (k : Z) : res Z :=
  let '(ha, hb) := nodes_of o k in
  aa ← rd (indMem o) ha;
  bb ← rd (indMem o) hb;
  Ok (Z.lxor aa bb).

Definition cpo_isMember (o : ControlPlaneOthello) (k : Z) : res bool :=
  index ← lookUpIndex o k;
  if index <? nKeysInOthello o then k' ← rd (cpo_keys o) index; Ok (k' =? k) else Ok false.

(** The cells of a list from [c] on, and the list of a node. *)
Fixpoint cells_from (next : list OthelloCPCell) (fuel : nat) (c : OthelloCPCell)
    : res (list OthelloCPCell) :=
  if fst c =? NIL then Ok []
  else
    match fuel with
    | O => Err OutOfFuel
    | S fuel => c' ← rd next (fst c); l ← cells_from next fuel c'; Ok (c :: l)
    end.

Definition next_of (o : ControlPlaneOthello) (nid : Z) : list OthelloCPCell :=
  if nid <? cpo_ma o then nextAtA o else nextAtB o.

Definition adjacent (o : ControlPlaneOthello) (nid : Z) : res (list OthelloCPCell) :=
  c ← rd (cpo_head o) nid; cells_from (next_of o nid) (length (next_of o nid)) c.

(** A traversal over the lists of [o]; its rounds are at most its nodes. *)
Definition traverse {A} (o : ControlPlaneOthello) (visit : Z -> Z -> Z -> A -> res A)
    (prev root : Z) (st : A) : res A :=
  dfs (adjacent o) visit (length (cpo_head o)) [(prev, root)] st.

Definition getHalfTree (o : ControlPlaneOthello) (k : Z) (startFromA prependTheOtherEnd : bool)
    : res (list Z) :=
  let '(na, nb) := nodes_of o k in
  i ← lookUpIndex o k;
  let start := if startFromA then na else nb in
  let other := if startFromA then nb else na in
  traverse o (fun _ v _ result => Ok (result ++ [v])) i start
    (if prependTheOtherEnd then [other; start] else [start]).

(** ** Filling and fixing cells *)

Definition value_get (keepDigest : bool) (node : Z) (mem : list Z) : res Z :=
  if keepDigest then memValueGet 1 0 node mem else memGet 1 0 node mem.
Definition value_set (keepDigest : bool) (node v : Z) (mem : list Z) : res (list Z) :=
  if keepDigest then memValueSet 1 0 node v mem else memSet 1 0 node v mem.

Definition fillSingle (fillValue fillIndex keepDigest : bool) (keyId nodeToFill oppositeNode : Z)
    (o : ControlPlaneOthello) : res ControlPlaneOthello :=
  o1 ← (if fillValue then
          v ← rd (cpo_values o) keyId;
          w ← value_get keepDigest oppositeNode (cpo_mem o);
          m ← value_set keepDigest nodeToFill (Z.lxor v w) (cpo_mem o);
          Ok (with_mem m o)
        else Ok o);
  if fillIndex then
    i ← rd (indMem o1) oppositeNode;
    l ← wr (indMem o1) nodeToFill (Z.lxor keyId i);
    Ok (with_indMem l o1)
  else Ok o1.

Definition fixSingle (fillValue fillIndex keepDigest : bool) (nodeToFix x ix : Z)
    (o : ControlPlaneOthello) : res ControlPlaneOthello :=
  o1 ← (if fillValue then
          w ← value_get keepDigest nodeToFix (cpo_mem o);
          m ← value_set keepDigest nodeToFix (Z.lxor x w) (cpo_mem o);
          Ok (with_mem m o)
        else Ok o);
  if fillIndex then
    i ← rd (indMem o1) nodeToFix;
    l ← wr (indMem o1) nodeToFix (Z.lxor ix i);
    Ok (with_indMem l o1)
  else Ok o1.

Definition fixHalfTreeDFS (fillValue fillIndex keepDigest : bool) (keyId startNode skippedNode : Z)
    (o : ControlPlaneOthello) : res (ControlPlaneOthello * Z) :=
  _ ← guard_ok ((startNode <? cpo_ma o) && negb (keyId =? NIL)) AssertFailed;
  startNodeVal ← memGet 1 0 startNode (cpo_mem o);
  _ ← memGet 1 0 skippedNode (cpo_mem o);
  x0 ← (if fillValue then
          if keepDigest then memValueGet 1 0 startNode (cpo_mem o) else Ok startNodeVal
        else Ok 0);
  ix0 ← (if fillIndex then rd (indMem o) startNode else Ok 0);
  o1 ← fillSingle fillValue fillIndex keepDigest keyId startNode skippedNode o;
  x ← (if fillValue then y ← value_get keepDigest startNode (cpo_mem o1); Ok (Z.lxor x0 y) else Ok 0);
  ix ← (if fillIndex then y ← rd (indMem o1) startNode; Ok (Z.lxor ix0 y) else Ok 0);
  o2 ← traverse o1 (fun _ v _ => fixSingle fillValue fillIndex keepDigest v x ix) keyId startNode o1;
  Ok (o2, x).

Definition fillTreeDFS (fillValue fillIndex keepDigest : bool) (root : Z) (o : ControlPlaneOthello)
    : res ControlPlaneOthello :=
  traverse o (fillSingle fillValue fillIndex keepDigest) NIL root o.

(** [fillValue]: every root's tree. *)
Definition fillValue (keepDigest : bool) (o : ControlPlaneOthello) : res ControlPlaneOthello :=
  foldM (fun o i =>
    root ← DisjointSet.isRoot i (connectivityForest o);
    if root : bool then fillTreeDFS true true keepDigest i o else Ok o)
    (seqZ 0 (cpo_ma o + cpo_mb o)) o.

(** ** The graph *)

Definition addEdge (key ha hb : Z) (o : ControlPlaneOthello) : res ControlPlaneOthello :=
  cA ← rd (cpo_head o) ha;
  nA ← wr (nextAtA o) key cA;
  h1 ← wr (cpo_head o) ha (key, hb);
  cB ← rd h1 hb;
  nB ← wr (nextAtB o) key cB;
  h2 ← wr h1 hb (key, ha);
  f ← DisjointSet.merge ha hb (connectivityForest o);
  Ok (with_forest f (with_lists h2 nA nB o)).

(** One key of [testHash]; [false] once a cycle was found. *)
Definition test_key (st : bool * ControlPlaneOthello) (i : Z) : res (bool * ControlPlaneOthello) :=
  let '(ok, o) := st in
  if negb ok then Ok st
  else
    k ← rd (cpo_keys o) i;
    let '(ha, hb) := nodes_of o k in
    '(same, f) ← DisjointSet.sameSet ha hb (connectivityForest o);
    let o := with_forest f o in
    if same : bool then Ok (false, o) else o' ← addEdge i ha hb o; Ok (true, o').

Definition testHash (o : ControlPlaneOthello) : res (bool * ControlPlaneOthello) :=
  foldM test_key (seqZ 0 (nKeysInOthello o)) (true, o).

Definition isConnectedDFS (ha hb : Z) (o : ControlPlaneOthello) : res (bool * ControlPlaneOthello) :=
  '(same, f) ← DisjointSet.sameSet ha hb (connectivityForest o); Ok (same, with_forest f o).

(** [connectDFS]: the component of [root] gets one representative. *)
Definition connectDFS (root : Z) (o : ControlPlaneOthello) : res ControlPlaneOthello :=
  c ← rd (cpo_head o) root;
  if fst c =? NIL then f ← wr (connectivityForest o) root root; Ok (with_forest f o)
  else
    let root := if cpo_ma o <? root then snd c else root in
    f ← wr (connectivityForest o) root root;
    traverse o (fun _ v _ o => f ← wr (connectivityForest o) v root; Ok (with_forest f o))
      NIL root (with_forest f o).

(** ** Building *)

Definition clear_cells (o : ControlPlaneOthello) : res (list Z) :=
  foldM (fun m i => memSet 1 0 i 0 m) (seqZ 0 (cpo_ma o + cpo_mb o)) (cpo_mem o).

Definition resetBuildState (o : ControlPlaneOthello) : res ControlPlaneOthello :=
  m ← clear_cells o;
  Ok (with_forest (DisjointSet.reset (connectivityForest o))
    (with_lists (replicate (length (cpo_head o)) (NIL, NIL)) (replicate (length (nextAtA o)) (NIL, NIL))
      (replicate (length (nextAtB o)) (NIL, NIL)) (with_mem m o))).

Definition tryBuild (o : ControlPlaneOthello) : res (bool * ControlPlaneOthello) :=
  o1 ← resetBuildState o;
  if nKeysInOthello o1 =? 0 then Ok (true, o1)
  else
    '(succ, o2) ← testHash o1;
    if succ : bool then o3 ← fillValue false o2; Ok (true, with_intact true o3)
    else Ok (false, o2).

(** [hab.setSeed((uint64_t(rand()) << 32U) | rand())] *)
Definition reseed (o : ControlPlaneOthello) : res ControlPlaneOthello :=
  match rands o with
  | r0 :: r1 :: r => Ok (with_hab (Z.lor (u64 (Z.shiftl r0 32)) r1) r o)
  | _ => Err OutOfFuel
  end.

(** The inner loop of [build]: at most [MAX_REHASH] seeds. *)
Definition MAX_REHASH : nat := 5.

Fixpoint try_seeds (n : nat) (o : ControlPlaneOthello) : res (bool * ControlPlaneOthello) :=
  match n with
  | O => Ok (false, o)
  | S n =>
      o1 ← reseed o;
      '(built, o2) ← tryBuild o1;
      if built : bool then Ok (true, o2) else try_seeds n o2
  end.

(** Products of an integer with a double.  The exact product of the mantissas
    is rounded to 53 bits, ties to even; the factors are those of the doubles
    1.33334, 1.33 and 0.8. *)
Definition round53 (p : Z) : Z :=
  if p <? 2 ^ 53 then p
  else
    let s := Z.log2 p - 52 in
    let q := p / 2 ^ s in let r := p mod 2 ^ s in
    let up := (2 ^ (s - 1) <? r) || ((2 ^ (s - 1) =? r) && Z.odd q) in
    (if up then q + 1 else q) * 2 ^ s.

Definition times_1_33334 (n : Z) : Z := round53 (n * 0x15555c52e72da1) / 2 ^ 52.
Definition times_1_33 (n : Z) : Z := round53 (n * 0x1547ae147ae148) / 2 ^ 52.
Definition below_0_8 (x n : Z) : bool := x * 2 ^ 53 <? round53 (n * 0x1999999999999a).

(** The loop that doubles [nextMb] when not [compact]. *)
Fixpoint double_until (fuel : nat) (n target : Z) : Z :=
  match fuel with
  | O => n
  | S fuel => if n <? target then double_until fuel (u64 (Z.shiftl n 1)) target else n
  end.

(** [resizeCapacity] with its default [skipBuild = false], which no caller
    overrides; [bld] is [build]. *)
Definition resize_with (bld : ControlPlaneOthello -> res ControlPlaneOthello)
    (o : ControlPlaneOthello) (targetCapacity : Z) (forceBuild : bool) : res ControlPlaneOthello :=
  let targetCapacity := Z.max (nKeysInOthello o) (Z.max targetCapacity 256) in
  let nextMb := if compact o then targetCapacity else double_until 64 256 targetCapacity in
  let nextMa := times_1_33334 nextMb in
  _ ← guard_ok (nextMa + nextMb <? Z.shiftl 1 32) Thrown;
  let o1 :=
    if Z.of_nat (length (cpo_keys o)) <? targetCapacity then
      let n := Z.to_nat (Z.max 256 (u32 (targetCapacity * (if compact o then 1 else 2)))) in
      with_lists (cpo_head o) (resize n (0, 0) (nextAtA o)) (resize n (0, 0) (nextAtB o))
        (with_entries (nKeysInOthello o) (resize n 0 (cpo_keys o)) (resize n 0 (cpo_values o)) o)
    else o in
  if (cpo_ma o <? nextMa) || below_0_8 nextMa (cpo_ma o) then
    let n := Z.to_nat (nextMa + nextMb) in
    bld (MkCPO (resize (Z.to_nat ((nextMa + nextMb + 63) / 64)) 0 (cpo_mem o1)) nextMa nextMb (cpo_hab o1)
      (nKeysInOthello o1) (cpo_keys o1) (cpo_values o1) (resize n 0 (indMem o1))
      (resize n (0, 0) (cpo_head o1)) (nextAtA o1) (nextAtB o1)
      (DisjointSet.resize_set n (connectivityForest o1)) (compact o1) false (rands o1))
  else if forceBuild then bld o1 else Ok o1.

(** Every round draws a seed, so the answers of [rand()] bound the rounds. *)
Fixpoint build_rec (fuel : nat) (o : ControlPlaneOthello) : res ControlPlaneOthello :=
  match fuel with
  | O => Err OutOfFuel
  | S fuel =>
      '(built, o1) ← try_seeds MAX_REHASH o;
      if built : bool then Ok (with_intact true o1)
      else
        o2 ← resize_with (build_rec fuel) o1 (u32 (times_1_33 (Z.of_nat (length (cpo_keys o1))))) true;
        build_rec fuel o2
  end.

Definition build (o : ControlPlaneOthello) : res ControlPlaneOthello :=
  build_rec (S (length (rands o))) o.

Definition cpo_resizeCapacity (o : ControlPlaneOthello) (targetCapacity : Z) (forceBuild : bool)
    : res ControlPlaneOthello := resize_with build o targetCapacity forceBuild.

(** [ControlPlaneOthello()] *)
Definition new_othello (rs : list Z) : res ControlPlaneOthello :=
  cpo_resizeCapacity (MkCPO [] 0 0 default_hash_seed 0 [] [] [] [] [] [] [] true true rs) 1 true.

(** [clear]: only the count is reset. *)
Definition cpo_clear (o : ControlPlaneOthello) : ControlPlaneOthello :=
  with_entries 0 (cpo_keys o) (cpo_values o) o.

(** ** Updates *)

Definition changeValueAt (keyId val : Z) (o : ControlPlaneOthello) : res (ControlPlaneOthello * Z) :=
  _ ← guard_ok (keyId <? nKeysInOthello o) AssertFailed;
  vs ← wr (cpo_values o) keyId val;
  k ← rd (cpo_keys o) keyId;
  let '(ha, hb) := nodes_of o k in
  fixHalfTreeDFS true false true keyId ha hb
    (with_entries (nKeysInOthello o) (cpo_keys o) vs o).

Definition changed_cells (o : ControlPlaneOthello) (k x : Z) : res (list Z) :=
  getHalfTree o k (0 <? x) false.

Definition cpo_changeValue (o : ControlPlaneOthello) (k val : Z)
    : res (OthelloUpdateResult * ControlPlaneOthello) :=
  member ← cpo_isMember o k;
  _ ← guard_ok member AssertFailed;
  i ← lookUpIndex o k;
  '(o', x) ← changeValueAt i val o;
  cc ← (if x =? 0 then Ok [] else changed_cells o' k x);
  Ok (MkOUR 0 x (-1, -1) cc, o').

Definition toggleInOthello (o : ControlPlaneOthello) (k : Z)
    : res (OthelloUpdateResult * ControlPlaneOthello) :=
  member ← cpo_isMember o k;
  _ ← guard_ok member AssertFailed;
  keyId ← lookUpIndex o k;
  v ← rd (cpo_values o) keyId;
  vs ← wr (cpo_values o) keyId (if v =? 0 then 1 else 0);
  let '(ha, hb) := nodes_of o k in
  '(o', x) ← fixHalfTreeDFS true false true keyId ha hb
    (with_entries (nKeysInOthello o) (cpo_keys o) vs o);
  cc ← changed_cells o' k x;
  Ok (MkOUR 0 1 (-1, -1) cc, o').

(** [keys[nKeysInOthello] = k; values[nKeysInOthello] = v], with the count
    [n] afterwards. *)
Definition append_key (n k v : Z) (o : ControlPlaneOthello) : res ControlPlaneOthello :=
  ks ← wr (cpo_keys o) (nKeysInOthello o) k;
  vs ← wr (cpo_values o) (nKeysInOthello o) v;
  Ok (with_entries n ks vs o).

Fixpoint insert_rec (fuel : nat) (o : ControlPlaneOthello) (k v : Z) (DoNotRebuild : bool)
    : res (OthelloUpdateResult * ControlPlaneOthello) :=
  let n := nKeysInOthello o in
  member ← cpo_isMember o k;
  if member : bool then cpo_changeValue o k v
  else if (Z.of_nat (length (cpo_keys o)) <=? n) || (cpo_mb o <=? n) then
    if DoNotRebuild then Ok (MkOUR (-2) 0 (-1, -1) [], o)
    else
      match fuel with
      | O => Err OutOfFuel
      | S fuel =>
          o1 ← cpo_resizeCapacity o (u32 (n * 4)) true;
          '(result, o2) ← insert_rec fuel o1 k v false;
          if o_status result <? 0 then Err Thrown
          else Ok (MkOUR 2 (xorTemplate result) (o_marks result) (o_cc result), o2)
      end
  else
    let '(ha, hb) := nodes_of o k in
    '(same, o1) ← isConnectedDFS ha hb o;
    if same : bool then
      if DoNotRebuild then Ok (MkOUR (-1) 0 (-1, -1) [], o1)
      else
        o2 ← append_key (n + 1) k v o1;
        o3 ← build o2;
        Ok (MkOUR 1 0 (-1, -1) [], o3)
    else
      o2 ← append_key n k v o1;
      o3 ← addEdge n ha hb o2;
      '(o4, x) ← fixHalfTreeDFS true true false n ha hb o3;
      let o5 := with_entries (n + 1) (cpo_keys o4) (cpo_values o4) o4 in
      cc ← changed_cells o5 k x;
      Ok (MkOUR 0 x (-1, -1) cc, o5).

Definition cpo_insert (o : ControlPlaneOthello) (k v : Z) (DoNotRebuild : bool)
    : res (OthelloUpdateResult * ControlPlaneOthello) :=
  insert_rec (length (rands o)) o k v DoNotRebuild.

(** ** Removal *)

(** [while (next[t].keyId != keyId) t = next[t].keyId] *)
Fixpoint find_before (fuel : nat) (next : list OthelloCPCell) (t keyId : Z) : res Z :=
  c ← rd next t;
  if fst c =? keyId then Ok t
  else match fuel with O => Err OutOfFuel | S fuel => find_before fuel next (fst c) keyId end.

(** Take [keyId] out of the list of node [u]. *)
Definition unlink (head next : list OthelloCPCell) (u keyId : Z)
    : res (list OthelloCPCell * list OthelloCPCell) :=
  c ← rd head u;
  if fst c =? keyId then c' ← rd next keyId; h ← wr head u c'; Ok (h, next)
  else
    t ← find_before (length next) next (fst c) keyId;
    c' ← rd next keyId; n ← wr next t c'; Ok (head, n).

(** Let the list of node [u] refer to [cell] in place of the key [old]. *)
Definition relink (head next : list OthelloCPCell) (u old : Z) (cell : OthelloCPCell)
    : res (list OthelloCPCell * list OthelloCPCell) :=
  c ← rd head u;
  if fst c =? old then h ← wr head u cell; Ok (h, next)
  else
    t ← find_before (length next) next (fst c) old;
    n ← wr next t cell; Ok (head, n).

(** "move the last to override current key-value" *)
Definition move_last (keyId : Z) (o : ControlPlaneOthello) : res ControlPlaneOthello :=
  let last := nKeysInOthello o in
  lastKey ← rd (cpo_keys o) last;
  ks ← wr (cpo_keys o) keyId lastKey;
  lastValue ← rd (cpo_values o) last;
  vs ← wr (cpo_values o) keyId lastValue;
  let '(hal, hbl) := nodes_of o lastKey in
  cA ← rd (nextAtA o) last;
  nA ← wr (nextAtA o) keyId cA;
  '(h1, nA') ← relink (cpo_head o) nA hal last (keyId, hbl);
  cB ← rd (nextAtB o) last;
  nB ← wr (nextAtB o) keyId cB;
  '(h2, nB') ← relink h1 nB hbl last (keyId, hal);
  '(o', _) ← fixHalfTreeDFS false true true keyId hal hbl
    (with_lists h2 nA' nB' (with_entries last ks vs o));
  Ok o'.

Definition cpo_remove_at (o : ControlPlaneOthello) (k keyId : Z)
    : res (OthelloUpdateResult * ControlPlaneOthello) :=
  if nKeysInOthello o <=? keyId then Ok (MkOUR 0 0 (-1, -1) [], o)
  else
    k' ← rd (cpo_keys o) keyId;
    if negb (k' =? k) then Ok (MkOUR 0 0 (-1, -1) [], o)
    else
      let '(ha, hb) := nodes_of o k in
      let n := nKeysInOthello o - 1 in
      '(h1, nA) ← unlink (cpo_head o) (nextAtA o) ha keyId;
      '(h2, nB) ← unlink h1 (nextAtB o) hb keyId;
      let o1 := with_lists h2 nA nB (with_entries n (cpo_keys o) (cpo_values o) o) in
      o2 ← (if keyId =? n then Ok o1 else move_last keyId o1);
      o3 ← connectDFS ha o2;
      o4 ← connectDFS hb o3;
      ea ← isEmpty 1 0 ha (cpo_mem o4);
      eb ← isEmpty 1 0 hb (cpo_mem o4);
      Ok (MkOUR 0 0 (if ea : bool then ha else -1, if eb : bool then hb else -1) [], o4).

Definition cpo_remove (o : ControlPlaneOthello) (k : Z)
    : res (OthelloUpdateResult * ControlPlaneOthello) :=
  keyId ← lookUpIndex o k; cpo_remove_at o k keyId.

(** [compose]: values through [migration], keys without an image removed; [i]
    stays after a removal. *)
Fixpoint compose_rec (fuel : nat) (migration : gmap Z Z) (i : Z) (o : ControlPlaneOthello)
    : res ControlPlaneOthello :=
  if nKeysInOthello o <=? i then Ok o
  else
    match fuel with
    | O => Err OutOfFuel
    | S fuel =>
        v ← rd (cpo_values o) i;
        match migration !! v with
        | None =>
            k ← rd (cpo_keys o) i; '(_, o') ← cpo_remove o k; compose_rec fuel migration i o'
        | Some dst =>
            vs ← wr (cpo_values o) i dst;
            compose_rec fuel migration (i + 1) (with_entries (nKeysInOthello o) (cpo_keys o) vs o)
        end
    end.

Definition compose (migration : gmap Z Z) (o : ControlPlaneOthello) : res ControlPlaneOthello :=
  o' ← compose_rec (Z.to_nat (nKeysInOthello o)) migration 0 o; fillValue true o'.

(** ** The data plane from it *)

(** [DataPlaneOthello::resizeCapacity] *)
Definition dpo_resizeCapacity (o : DataPlaneOthello) (targetCapacity : Z) (compact : bool) : DataPlaneOthello :=
  let targetCapacity := Z.max targetCapacity 256 in
  let nextMb := if compact then targetCapacity else double_until 64 256 targetCapacity in
  let nextMa := times_1_33334 nextMb in
  if (ma o <? nextMa) || below_0_8 nextMa (ma o) then
    let a := u32 nextMa in let b := u32 nextMb in
    MkDPO (resize (Z.to_nat ((a + b + 63) / 64)) 0 (o_mem o)) a b (hab o) (o_lock o)
  else o.

(** [DataPlaneOthello(cp)], [fullSync]: [prepareDP] does nothing when
    [maintainDP] is set. *)
Definition othello_to_dp (o : ControlPlaneOthello) : DataPlaneOthello :=
  MkDPO (cpo_mem o) (cpo_ma o) (cpo_mb o) (cpo_hab o) (replicate (Z.to_nat 8192) 0).
