(* ===== verification/OthelloInv.v ===== *)
(** * The invariant of the Othello control plane

    Well-formed states of OthelloCP.v: the arrays' sizes, the linked lists as
    the incidence lists of an acyclic graph, the disjoint set, and the
    exclusive-or equations that make lookups exact; and what the traversals that
    fill and fix cells do to them. *)

From Stdlib Require Import ZArith Lia.
From stdpp Require Import base numbers list gmap relations.
From S2P Require Import Prelude Words Hash OthelloMem LudoTable Forest UnionFind OthelloCP.

#[local] Open Scope Z_scope.

(** ** Cells *)

(** The bit in cell [u], and the index in [indMem[u]]. *)
Definition bit_at (m : list Z) (u : Z) : Z := match memGet 1 0 u m with Ok x => x | Err _ => 0 end.
Definition ind_at (l : list Z) (u : Z) : Z := match rd l u with Ok x => x | Err _ => 0 end.

Definition good_mem (N : Z) (m : list Z) : Prop :=
  words64 m /\ N < 2 ^ 32 /\ N <= 64 * Z.of_nat (length m).

Lemma bit_get N m u : good_mem N m -> 0 <= u < N ->
  memGet 1 0 u m = Ok (bit_at m u) /\ 0 <= bit_at m u < 2.
Proof.
  intros (Hm & HN & Hfit) Hu. unfold bit_at. unfold memGet. const_arith. const_tests.
  destruct (get_field_spec 1 (u * 1) ltac:(lia) ltac:(lia) m Hm ltac:(lia)) as (x & -> & Hx & _).
  by split.
Qed.

Lemma bit_set N m u v : good_mem N m -> 0 <= u < N ->
  exists m', memSet 1 0 u v m = Ok m' /\ good_mem N m' /\ length m' = length m /\
    bit_at m' u = v mod 2 /\ forall a, 0 <= a < N -> a <> u -> bit_at m' a = bit_at m a.
Proof.
  intros (Hm & HN & Hfit) Hu. unfold memSet. const_arith. const_tests.
  destruct (set_field_spec 1 (u * 1) ltac:(lia) ltac:(lia) m Hm ltac:(lia) v)
    as (m' & E & Hm' & Hl & _).
  exists m'. split; [done|]. split; [by split; [|split; [|rewrite Hl]]|]. split; [done|]. unfold bit_at, memGet.
  const_arith. const_tests. split.
  - by rewrite (get_set_field 1 (u * 1) m m' v ltac:(lia) ltac:(lia) Hm ltac:(lia) E).
  - intros a Ha Hne. by rewrite (get_other_field 1 (u * 1) 1 (a * 1) m m' v); try lia.
Qed.

Lemma value_get_eq kd u m : value_get kd u m = memGet 1 0 u m.
Proof.
  destruct kd; [|done]. unfold value_get, memValueGet, memGet. const_arith. const_tests.
  f_equal. lia.
Qed.

Lemma value_set_eq kd u v m : value_set kd u v m = memSet 1 0 u v m.
Proof.
  destruct kd; [|done]. unfold value_set, memValueSet, memSet. const_arith. const_tests.
  f_equal. lia.
Qed.

Lemma ind_get l u : 0 <= u < Z.of_nat (length l) -> rd l u = Ok (ind_at l u).
Proof. intros Hu. unfold ind_at. by destruct (rd_in_range l u Hu) as [x ->]. Qed.

Lemma ind_set l u v l' : wr l u v = Ok l' ->
  ind_at l' u = v /\ forall a, a <> u -> ind_at l' a = ind_at l a.
Proof.
  intros H. unfold ind_at. rewrite (rd_wr_eq _ _ _ _ H). split; [done|].
  intros a Ha. by rewrite (rd_wr_ne _ _ _ _ _ H) by congruence.
Qed.

(** ** Sizes *)

Definition nodes (o : ControlPlaneOthello) : Z := cpo_ma o + cpo_mb o.
Definition bit (o : ControlPlaneOthello) (u : Z) : Z := bit_at (cpo_mem o) u.
Definition ind (o : ControlPlaneOthello) (u : Z) : Z := ind_at (indMem o) u.

Record sized (o : ControlPlaneOthello) : Prop := {
  sz_ma : 0 < cpo_ma o;
  sz_mb : 0 < cpo_mb o;
  sz_mem : good_mem (nodes o) (cpo_mem o);
  sz_ind : Z.of_nat (length (indMem o)) = nodes o;
  sz_nonneg : Forall (Z.le 0) (indMem o);
  sz_head : Z.of_nat (length (cpo_head o)) = nodes o;
  sz_forest : Z.of_nat (length (connectivityForest o)) = nodes o;
  sz_values : length (cpo_values o) = length (cpo_keys o);
  sz_nextA : length (nextAtA o) = length (cpo_keys o);
  sz_nextB : length (nextAtB o) = length (cpo_keys o);
  sz_n : 0 <= nKeysInOthello o <= Z.of_nat (length (cpo_keys o));
  sz_keys : Z.of_nat (length (cpo_keys o)) <= NIL;
  sz_compact : compact o = true;
}.

(** Only cells and indices differ. *)
Record patched (o o' : ControlPlaneOthello) : Prop := {
  pt_eq : o' = with_indMem (indMem o') (with_mem (cpo_mem o') o);
  pt_mem : good_mem (nodes o) (cpo_mem o');
  pt_len : length (indMem o') = length (indMem o);
  pt_nonneg : Forall (Z.le 0) (indMem o');
}.

Lemma patched_refl o : sized o -> patched o o.
Proof. intros H. constructor; [by destruct o|apply H|done|apply H]. Qed.

Lemma patched_trans o1 o2 o3 : patched o1 o2 -> patched o2 o3 -> patched o1 o3.
Proof.
  intros [E1 M1 L1 P1] [E2 M2 L2 P2]. rewrite E1 in E2. constructor; [by rewrite E2| |congruence|done].
  rewrite E1 in M2. by destruct o1.
Qed.

Lemma patched_sized o o' : sized o -> patched o o' -> sized o'.
Proof.
  intros [] [E M L P]. rewrite E. clear E. unfold nodes in *. destruct o, o'; simpl in *.
  constructor; simpl; try done; unfold nodes in *; simpl in *; lia || congruence.
Qed.

(** ** Filling and fixing one cell *)

Lemma lxor_bits x y : 0 <= x < 2 -> 0 <= y < 2 -> 0 <= Z.lxor x y < 2.
Proof.
  intros Hx Hy. assert (x = 0 \/ x = 1) as [->| ->] by lia; assert (y = 0 \/ y = 1) as [->| ->] by lia;
    vm_compute; split; congruence.
Qed.

Lemma lxor_nonneg' x y : 0 <= x -> 0 <= y -> 0 <= Z.lxor x y.
Proof. intros. by apply Z.lxor_nonneg. Qed.

Lemma fixSingle_spec fv fi kd v x ix o : sized o -> 0 <= v < nodes o -> 0 <= x < 2 -> 0 <= ix ->
  exists o', fixSingle fv fi kd v x ix o = Ok o' /\ patched o o' /\
    (forall u, 0 <= u < nodes o ->
       bit o' u = if fv && (u =? v) then Z.lxor x (bit o u) else bit o u) /\
    (forall u, ind o' u = if fi && (u =? v) then Z.lxor ix (ind o u) else ind o u).
Proof.
  intros Hs Hv Hx Hix. unfold fixSingle.
  assert (exists o1, (if fv then w ← value_get kd v (cpo_mem o);
      m ← value_set kd v (Z.lxor x w) (cpo_mem o); Ok (with_mem m o) else Ok o) = Ok o1 /\
      patched o o1 /\ indMem o1 = indMem o /\
      forall u, 0 <= u < nodes o ->
        bit o1 u = if fv && (u =? v) then Z.lxor x (bit o u) else bit o u) as (o1 & -> & P1 & I1 & B1).
  { destruct fv; [|exists o; split; [done|]; split; [by apply patched_refl|]; done].
    rewrite value_get_eq. destruct (bit_get _ _ _ (sz_mem o Hs) Hv) as [-> Hb]. rewrite bind_Ok_l, value_set_eq.
    destruct (bit_set _ _ v (Z.lxor x (bit_at (cpo_mem o) v)) (sz_mem o Hs) Hv) as (m & -> & Gm & Lm & Em & Om).
    rewrite bind_Ok_l. exists (with_mem m o). split; [done|]. split; [|split; [done|]].
    - constructor; [by destruct o|done|done|apply Hs].
    - intros u Hu. unfold bit. simpl. destruct (Z.eqb_spec u v) as [->|Hne]; [|by apply Om].
      rewrite Em, Z.mod_small; [done|]. by apply lxor_bits. }
  rewrite bind_Ok_l. destruct fi; [|exists o1; unfold ind; rewrite I1; done].
  assert (Hvi : 0 <= v < Z.of_nat (length (indMem o1))) by (rewrite I1, (sz_ind o Hs); done).
  rewrite (ind_get _ _ Hvi), bind_Ok_l. pose proof (wr_in_range _ _ (Z.lxor ix (ind_at (indMem o1) v)) Hvi) as Hw.
  rewrite Hw, bind_Ok_l. destruct (ind_set _ _ _ _ Hw) as [Ev Eo]. eexists. split; [reflexivity|].
  split; [|split].
  - eapply patched_trans; [exact P1|]. pose proof (patched_sized _ _ Hs P1) as Hs1.
    constructor; simpl; [by destruct o1|apply Hs1|by apply length_insert|].
    apply Forall_insert; [apply Hs1|]. apply lxor_nonneg'; [done|]. rewrite I1.
    destruct (rd_in_range (indMem o) v) as [y Hy]; [rewrite (sz_ind o Hs); done|].
    unfold ind_at. rewrite Hy. apply rd_Ok in Hy as [_ Hy].
    exact (Forall_lookup_1 _ _ _ _ (sz_nonneg o Hs) Hy).
  - exact B1.
  - intros u. unfold ind. simpl. rewrite <-I1. destruct (Z.eqb_spec u v) as [->|Hne]; [done|by apply Eo].
Qed.

Lemma ind_nonneg o u : sized o -> 0 <= ind o u.
Proof.
  intros Hs. unfold ind, ind_at. destruct (rd (indMem o) u) as [y|] eqn:E; [|done].
  apply rd_Ok in E as [_ E]. exact (Forall_lookup_1 _ _ _ _ (sz_nonneg o Hs) E).
Qed.

Lemma fillSingle_spec fv fi kd k v u w o : sized o -> 0 <= v < nodes o -> 0 <= u < nodes o -> 0 <= k ->
  rd (cpo_values o) k = Ok w -> 0 <= w < 2 ->
  exists o', fillSingle fv fi kd k v u o = Ok o' /\ patched o o' /\
    (forall a, 0 <= a < nodes o ->
       bit o' a = if fv && (a =? v) then Z.lxor w (bit o u) else bit o a) /\
    (forall a, ind o' a = if fi && (a =? v) then Z.lxor k (ind o u) else ind o a).
Proof.
  intros Hs Hv Hu Hk Hw Hw2. unfold fillSingle.
  assert (exists o1, (if fv then w ← rd (cpo_values o) k; w0 ← value_get kd u (cpo_mem o);
      m ← value_set kd v (Z.lxor w w0) (cpo_mem o); Ok (with_mem m o) else Ok o) = Ok o1 /\
      patched o o1 /\ indMem o1 = indMem o /\
      forall a, 0 <= a < nodes o ->
        bit o1 a = if fv && (a =? v) then Z.lxor w (bit o u) else bit o a) as (o1 & -> & P1 & I1 & B1).
  { destruct fv; [|exists o; split; [done|]; split; [by apply patched_refl|]; done].
    rewrite Hw, bind_Ok_l, value_get_eq. destruct (bit_get _ _ _ (sz_mem o Hs) Hu) as [-> Hb].
    rewrite bind_Ok_l, value_set_eq.
    destruct (bit_set _ _ v (Z.lxor w (bit_at (cpo_mem o) u)) (sz_mem o Hs) Hv) as (m & -> & Gm & Lm & Em & Om).
    rewrite bind_Ok_l. exists (with_mem m o). split; [done|]. split; [|split; [done|]].
    - constructor; [by destruct o|done|done|apply Hs].
    - intros a Ha. unfold bit. simpl. destruct (Z.eqb_spec a v) as [->|Hne]; [|by apply Om].
      rewrite Em, Z.mod_small; [done|]. by apply lxor_bits. }
  rewrite bind_Ok_l. destruct fi; [|exists o1; unfold ind; rewrite I1; done].
  assert (Hui : 0 <= u < Z.of_nat (length (indMem o1))) by (rewrite I1, (sz_ind o Hs); done).
  assert (Hvi : 0 <= v < Z.of_nat (length (indMem o1))) by (rewrite I1, (sz_ind o Hs); done).
  rewrite (ind_get _ _ Hui), bind_Ok_l. pose proof (wr_in_range _ _ (Z.lxor k (ind_at (indMem o1) u)) Hvi) as Hwr.
  rewrite Hwr, bind_Ok_l. destruct (ind_set _ _ _ _ Hwr) as [Ev Eo]. eexists. split; [reflexivity|].
  split; [|split].
  - eapply patched_trans; [exact P1|]. pose proof (patched_sized _ _ Hs P1) as Hs1.
    constructor; simpl; [by destruct o1|apply Hs1|by apply length_insert|].
    apply Forall_insert; [apply Hs1|]. apply lxor_nonneg'; [done|]. by apply (ind_nonneg o1).
  - exact B1.
  - intros a. unfold ind. simpl. rewrite <-I1. destruct (Z.eqb_spec a v) as [->|Hne]; [done|by apply Eo].
Qed.

(** ** Linked lists *)

(** The cells from [c] up to, and without, [ce]. *)
Fixpoint seg (next : list OthelloCPCell) (c : OthelloCPCell) (l : list OthelloCPCell)
    (ce : OthelloCPCell) : Prop :=
  match l with
  | [] => c = ce
  | c1 :: l => c1 = c /\ fst c <> NIL /\ exists c', rd next (fst c) = Ok c' /\ seg next c' l ce
  end.

Definition chain (next : list OthelloCPCell) (c : OthelloCPCell) (l : list OthelloCPCell) : Prop :=
  exists ce, seg next c l ce /\ fst ce = NIL.

Lemma seg_app next c l1 l2 ce : seg next c (l1 ++ l2) ce <->
  exists cm, seg next c l1 cm /\ seg next cm l2 ce.
Proof.
  revert c. induction l1 as [|c1 l1 IH]; intros c; simpl.
  - split; [intros H; by exists c|intros (cm & -> & H); done].
  - setoid_rewrite IH. naive_solver.
Qed.

(** Writes outside the list do not change it. *)
Lemma seg_frame next next' c l ce : (forall k, k ∈ fst <$> l -> rd next' k = rd next k) ->
  seg next c l ce -> seg next' c l ce.
Proof.
  revert c. induction l as [|c1 l IH]; intros c Hf; simpl; [done|].
  intros (-> & Hn & c' & E & H). split; [done|]. split; [done|]. exists c'. split.
  - rewrite Hf; [done|]. simpl. left.
  - apply IH; [|done]. intros k Hk. apply Hf. simpl. by right.
Qed.

Lemma chain_frame next next' c l : (forall k, k ∈ fst <$> l -> rd next' k = rd next k) ->
  chain next c l -> chain next' c l.
Proof. intros Hf (ce & H & Hn). exists ce. split; [|done]. by eapply seg_frame. Qed.

Lemma chain_wr next next' c l k x : k ∉ fst <$> l -> wr next k x = Ok next' ->
  chain next c l -> chain next' c l.
Proof.
  intros Hk Hw. apply chain_frame. intros k' Hk'. eapply rd_wr_ne; [exact Hw|]. by intros ->.
Qed.

Lemma seg_keys next c l ce : seg next c l ce -> Forall (fun k => 0 <= k < Z.of_nat (length next)) (fst <$> l).
Proof.
  revert c. induction l as [|c1 l IH]; intros c; simpl; [constructor|].
  intros (-> & _ & c' & E & H). constructor; [by eapply rd_range|by eapply IH].
Qed.

Lemma chain_cells next fuel c l : chain next c l -> (length l <= fuel)%nat ->
  cells_from next fuel c = Ok l.
Proof.
  intros (ce & H & Hn). revert c fuel H. induction l as [|c1 l IH]; intros c fuel H Hf; simpl in H.
  - subst ce. destruct fuel; simpl; by rewrite Hn.
  - destruct H as (-> & Hc & c' & E & H). destruct fuel as [|fuel]; simpl in *; [lia|].
    destruct (Z.eqb_spec (fst c) NIL); [done|]. rewrite E, bind_Ok_l. rewrite (IH c' fuel); [done..|lia].
Qed.

(** ** The graph *)

(** [E] gives every key its cell of A and its cell of B. *)
Definition bipartite (E : Z -> option (Z * Z)) (o : ControlPlaneOthello) : Prop :=
  forall k a b, E k = Some (a, b) ->
    0 <= k < Z.of_nat (length (cpo_keys o)) /\ k <> NIL /\ 0 <= a < cpo_ma o /\ cpo_ma o <= b < nodes o.

(** The lists of [o] hold the keys of [E], each once at either end. *)
Definition list_at (E : Z -> option (Z * Z)) (o : ControlPlaneOthello) (u : Z)
    (l : list OthelloCPCell) : Prop :=
  (exists c, rd (cpo_head o) u = Ok c /\ chain (next_of o u) c l) /\ NoDup (fst <$> l) /\
  forall k v, (k, v) ∈ l <-> joins E k u v.

Definition lists_ok (E : Z -> option (Z * Z)) (o : ControlPlaneOthello) : Prop :=
  forall u, 0 <= u < nodes o -> exists l, list_at E o u l.

Record graph_ok (E : Z -> option (Z * Z)) (o : ControlPlaneOthello) : Prop := {
  gr_bip : bipartite E o;
  gr_lists : lists_ok E o;
  gr_acyclic : acyclic E;
}.

Lemma next_of_length o u : sized o -> length (next_of o u) = length (cpo_keys o).
Proof. intros Hs. unfold next_of. destruct (u <? cpo_ma o); apply Hs. Qed.

Lemma list_at_adjacent E o u l : sized o -> list_at E o u l -> adjacent o u = Ok l.
Proof.
  intros Hs ((c & Hc & Hch) & Hnd & _). unfold adjacent. rewrite Hc, bind_Ok_l.
  apply chain_cells; [done|]. destruct Hch as (ce & Hseg & _).
  pose proof (Z_range_length _ _ Hnd (seg_keys _ _ _ _ Hseg)). rewrite length_fmap in *. lia.
Qed.

Lemma graph_patched E o o' : patched o o' -> graph_ok E o -> graph_ok E o'.
Proof.
  intros [Eq _ _ _] [B L A]. rewrite Eq. clear Eq. constructor; [|intros u Hu; exact (L u Hu)|done].
  exact B.
Qed.

Lemma adjacent_patched o o' u : patched o o' -> adjacent o' u = adjacent o u.
Proof. intros [Eq _ _ _]. by rewrite Eq. Qed.

(** The incidence lists as a function, for Forest.v. *)
Definition adj_of (o : ControlPlaneOthello) (u : Z) : list OthelloCPCell :=
  if (0 <=? u) && (u <? nodes o) then match adjacent o u with Ok l => l | Err _ => [] end else [].

Lemma joins_range E o k u v : bipartite E o -> joins E k u v -> 0 <= u < nodes o.
Proof. intros Hb (a & b & Hk & H). destruct (Hb k a b Hk) as (_ & _ & ? & ?). lia. Qed.

Lemma joins_key E o k u v : bipartite E o -> joins E k u v ->
  0 <= k < Z.of_nat (length (cpo_keys o)) /\ k <> NIL.
Proof. intros Hb (a & b & Hk & H). by destruct (Hb k a b Hk) as (? & ? & _). Qed.

Section graph.
Context (E : Z -> option (Z * Z)) (o : ControlPlaneOthello) (Hs : sized o) (Hg : graph_ok E o).

Lemma adj_in u : 0 <= u < nodes o -> list_at E o u (adj_of o u) /\ adjacent o u = Ok (adj_of o u).
Proof.
  intros Hu. destruct (gr_lists E o Hg u Hu) as (l & Hl). pose proof (list_at_adjacent E o u l Hs Hl) as Ha.
  unfold adj_of. rewrite (proj2 (Z.leb_le 0 u)), (proj2 (Z.ltb_lt u _)), Ha by lia. done.
Qed.

Lemma adj_joins u k v : (k, v) ∈ adj_of o u <-> joins E k u v.
Proof.
  destruct (decide (0 <= u < nodes o)) as [Hu|Hu].
  - destruct (adj_in u Hu) as [(_ & _ & H) _]. apply H.
  - unfold adj_of. replace ((0 <=? u) && (u <? nodes o)) with false.
    + split; [by intros ?%not_elem_of_nil|]. intros H. by apply (joins_range E o) in H; [|apply Hg].
    + symmetry. apply andb_false_iff. rewrite Z.leb_gt, Z.ltb_ge. lia.
Qed.

Lemma adj_nodup u : NoDup (adj_of o u).
Proof.
  destruct (decide (0 <= u < nodes o)) as [Hu|Hu].
  - destruct (adj_in u Hu) as [(_ & H & _) _]. by eapply NoDup_fmap_1.
  - unfold adj_of. destruct ((0 <=? u) && (u <? nodes o)) eqn:Et; [|constructor].
    apply andb_true_iff in Et as [?%Z.leb_le ?%Z.ltb_lt]. lia.
Qed.

(** A traversal visits, once each and parents first, what can be reached. *)
Lemma traverse_spec {A} (o' : ControlPlaneOthello) (visit : Z -> Z -> Z -> A -> res A) p root st :
  patched o o' -> 0 <= root < nodes o ->
  exists vs, traverse o' visit p root st = foldM (run visit) vs st /\
    NoDup (root :: (v_node <$> vs)) /\ parents_first [root] vs /\
    (forall k v u, (k, v, u) ∈ vs -> joins E k u v) /\
    (forall k x y, reach E p root x -> joins E k x y -> k <> p -> (k, y, x) ∈ vs \/ (k, x, y) ∈ vs) /\
    forall x, x ∈ root :: (v_node <$> vs) <-> reach E p root x.
Proof.
  intros Hp Hr. unfold traverse.
  pose proof (fun k u v (H : joins E k u v) => joins_range E o k u v (gr_bip E o Hg) H) as HN.
  destruct (dfs_spec E (gr_acyclic E o Hg) (adj_of o) (nodes o) adj_joins HN visit (adjacent o')
      (length (cpo_head o')) [(p, root)] [root] st) as (vs & Hd & Hperm & Hpf).
  - intros u Hu. rewrite (adjacent_patched o o' u Hp). by apply adj_in.
  - constructor; [|constructor]. simpl. split; [done|left].
  - unfold below_stack. cbn. rewrite app_nil_r.
    pose proof (visits_length E (gr_acyclic E o Hg) (adj_of o) (nodes o) adj_joins adj_nodup HN p root Hr).
    destruct Hp as [-> _ _ _]. simpl. pose proof (sz_head o Hs). lia.
  - assert (vs ≡ₚ visits (adj_of o) (nodes o) p root) as Hvs
      by (rewrite Hperm; unfold below_stack; cbn; by rewrite app_nil_r).
    exists vs. split; [done|]. split; [|split; [done|split; [|split]]].
    + rewrite Hvs. by apply (visits_nodup E (gr_acyclic E o Hg) (adj_of o) (nodes o) adj_joins adj_nodup).
    + intros k v u Hin. rewrite Hvs in Hin.
      by apply (elem_of_visits E (gr_acyclic E o Hg) (adj_of o) (nodes o) adj_joins HN) in Hin as [? _].
    + intros k x y. rewrite Hvs.
      by apply (visits_edge E (gr_acyclic E o Hg) (adj_of o) (nodes o) adj_joins HN).
    + intros x. rewrite Hvs.
      by apply (visits_reach E (gr_acyclic E o Hg) (adj_of o) (nodes o) adj_joins HN).
Qed.
End graph.

(** ** Fixing half a tree *)

Lemma patched_nodes o o' : patched o o' -> nodes o' = nodes o.
Proof. intros [-> _ _ _]. done. Qed.

Definition mem_nodes (vs : list visit_t) (u : Z) : bool := bool_decide (u ∈ v_node <$> vs).

Lemma mem_nodes_cons k v w vs u :
  mem_nodes ((k, v, w) :: vs) u = (u =? v) || mem_nodes vs u.
Proof.
  unfold mem_nodes. apply eq_true_iff_eq. rewrite orb_true_iff, !bool_decide_eq_true, Z.eqb_eq.
  rewrite fmap_cons, elem_of_cons. done.
Qed.

Lemma fix_fold fv fi kd x ix vs o : sized o -> 0 <= x < 2 -> 0 <= ix ->
  NoDup (v_node <$> vs) -> Forall (fun c => 0 <= v_node c < nodes o) vs ->
  exists o', foldM (run (fun _ v _ => fixSingle fv fi kd v x ix)) vs o = Ok o' /\ patched o o' /\
    (forall u, 0 <= u < nodes o ->
       bit o' u = if fv && mem_nodes vs u then Z.lxor x (bit o u) else bit o u) /\
    (forall u, ind o' u = if fi && mem_nodes vs u then Z.lxor ix (ind o u) else ind o u).
Proof.
  intros Hs Hx Hix. revert o Hs. induction vs as [|[[k v] w] vs IH]; intros o Hs Hnd Hr.
  - assert (forall u, mem_nodes [] u = false) as Hno
      by (intros u; apply bool_decide_eq_false, not_elem_of_nil).
    exists o. split; [done|]. split; [by apply patched_refl|].
    split; intros u; [intros _|]; by rewrite Hno, andb_false_r.
  - apply NoDup_cons in Hnd as [Hv Hnd]. apply Forall_cons in Hr as [Hvr Hr]. simpl in Hvr.
    destruct (fixSingle_spec fv fi kd v x ix o Hs Hvr Hx Hix) as (o1 & E1 & P1 & B1 & I1).
    pose proof (patched_nodes _ _ P1) as Hn.
    destruct (IH o1) as (o2 & E2 & P2 & B2 & I2); [by eapply patched_sized|done|by rewrite Hn|].
    rewrite Hn in B2.
    exists o2. cbn [foldM]. change (run ?f o (k, v, w)) with (f k v w o). cbv beta. rewrite E1, bind_Ok_l.
    split; [done|]. split; [by eapply patched_trans|].
    assert (Hvn : mem_nodes vs v = false) by (by apply bool_decide_eq_false).
    split; intros u; [intros Hu; rewrite (B2 u Hu), (B1 u Hu)|rewrite (I2 u), (I1 u)]; rewrite mem_nodes_cons;
      destruct (Z.eqb_spec u v) as [->|Hne]; rewrite ?Hvn; cbn [orb];
      destruct fv, fi; cbn [andb]; done.
Qed.

Section fix_half.
Context (E : Z -> option (Z * Z)) (o : ControlPlaneOthello) (Hs : sized o) (Hg : graph_ok E o).

(** The exclusive or of a key's ends. *)
Definition bits_of (o : ControlPlaneOthello) (c d : Z) : Z := Z.lxor (bit o c) (bit o d).
Definition inds_of (o : ControlPlaneOthello) (c d : Z) : Z := Z.lxor (ind o c) (ind o d).

Lemma lxor_both x c d : Z.lxor (Z.lxor x c) (Z.lxor x d) = Z.lxor c d.
Proof. rewrite (Z.lxor_comm x c), Z.lxor_assoc, <-(Z.lxor_assoc x x d), Z.lxor_nilpotent, Z.lxor_0_l. done. Qed.

Lemma lxor_shift y z : Z.lxor (Z.lxor y z) y = z.
Proof. rewrite Z.lxor_comm, <-Z.lxor_assoc, Z.lxor_nilpotent, Z.lxor_0_l. done. Qed.

(** The half tree of key [k] at its end [a]: closed under the other keys. *)
Definition half_tree (k a b : Z) (h : Z -> bool) : Prop :=
  (forall u, h u = true <-> reach E k a u) /\
  h a = true /\ h b = false /\ forall k' c d, E k' = Some (c, d) -> k' <> k -> h c = h d.

Lemma half_tree_visits k a b vs : E k = Some (a, b) ->
  (forall x, x ∈ a :: (v_node <$> vs) <-> reach E k a x) ->
  half_tree k a b (fun u => (u =? a) || mem_nodes vs u).
Proof.
  intros Hk Hreach.
  assert (Hh : forall u, (u =? a) || mem_nodes vs u = true <-> reach E k a u).
  { intros u. rewrite <-Hreach, elem_of_cons, orb_true_iff, Z.eqb_eq. unfold mem_nodes.
    by rewrite bool_decide_eq_true. }
  split; [exact Hh|]. split; [by rewrite Z.eqb_refl|]. split.
  - apply not_true_is_false. rewrite Hh. apply (not_reach_back E (gr_acyclic E o Hg)). exists a, b. eauto.
  - intros k' c d Hk' Hne. apply eq_true_iff_eq. rewrite !Hh.
    split; intros Hc; (eapply reach_edge; [exact Hc| |exact Hne]); exists c, d; auto.
Qed.

(** The reads before the traversal. *)
Lemma fixHalf_reads (fv fi kd : bool) a b : 0 <= a < nodes o -> 0 <= b < nodes o ->
  memGet 1 0 a (cpo_mem o) = Ok (bit o a) /\ memGet 1 0 b (cpo_mem o) = Ok (bit o b) /\
  (if fv then if kd then memValueGet 1 0 a (cpo_mem o) else Ok (bit o a) else Ok 0)
    = Ok (if fv then bit o a else 0) /\
  (if fi then rd (indMem o) a else Ok 0) = Ok (if fi then ind o a else 0).
Proof.
  intros Ha Hb. destruct (bit_get _ _ _ (sz_mem o Hs) Ha) as [Ea _].
  destruct (bit_get _ _ _ (sz_mem o Hs) Hb) as [Eb _].
  split; [done|]. split; [done|]. split.
  - destruct fv; [|done]. destruct kd; [|done]. unfold bit. rewrite <-Ea. apply (value_get_eq true).
  - destruct fi; [|done]. apply ind_get. by rewrite (sz_ind o Hs).
Qed.

Lemma fixHalf_effect fv fi kd k a b w : E k = Some (a, b) -> rd (cpo_values o) k = Ok w -> 0 <= w < 2 ->
  exists o' x ix h, fixHalfTreeDFS fv fi kd k a b o = Ok (o', x) /\ patched o o' /\ half_tree k a b h /\
    (forall u, 0 <= u < nodes o -> bit o' u = if fv && h u then Z.lxor x (bit o u) else bit o u) /\
    (fv = true -> Z.lxor x (bit o a) = Z.lxor w (bit o b)) /\
    (forall u, ind o' u = if fi && h u then Z.lxor ix (ind o u) else ind o u) /\
    (fi = true -> Z.lxor ix (ind o a) = Z.lxor k (ind o b)).
Proof.
  intros Hk Hw Hw2. destruct (gr_bip E o Hg k a b Hk) as (Hk0 & Hkn & Ha & Hb).
  assert (Hna : 0 <= a < nodes o) by (unfold nodes in *; pose proof (sz_mb o Hs); lia).
  assert (Hnb : 0 <= b < nodes o) by lia. unfold fixHalfTreeDFS.
  rewrite (proj2 (Z.ltb_lt a _)), (proj2 (Z.eqb_neq k NIL)) by (done || lia). cbn [andb negb guard_ok].
  destruct (fixHalf_reads fv fi kd a b Hna Hnb) as (Ea & Eb & Ex & Ei).
  rewrite bind_Ok_l, Ea, bind_Ok_l, Eb, bind_Ok_l, Ex, bind_Ok_l, Ei, bind_Ok_l.
  destruct (fillSingle_spec fv fi kd k a b w o Hs Hna Hnb ltac:(lia) Hw Hw2) as (o1 & E1 & P1 & B1 & I1).
  rewrite E1, bind_Ok_l. pose proof (patched_sized _ _ Hs P1) as Hs1. pose proof (patched_nodes _ _ P1) as Hn1.
  assert (Hna1 : 0 <= a < nodes o1) by (rewrite Hn1; done).
  destruct (bit_get _ _ _ (sz_mem o1 Hs1) Hna1) as [Ea1 Hba1].
  destruct (bit_get _ _ _ (sz_mem o Hs) Hna) as [_ Hba].
  set (x := if fv then Z.lxor (bit o a) (bit o1 a) else 0).
  set (ix := if fi then Z.lxor (ind o a) (ind o1 a) else 0).
  assert ((if fv then y ← value_get kd a (cpo_mem o1); Ok (Z.lxor (if fv then bit o a else 0) y) else Ok 0)
    = Ok x) as -> by (unfold x; destruct fv; [by rewrite value_get_eq, Ea1|done]).
  assert ((if fi then y ← rd (indMem o1) a; Ok (Z.lxor (if fi then ind o a else 0) y) else Ok 0) = Ok ix) as ->.
  { unfold ix. destruct fi; [|done]. rewrite ind_get; [done|]. rewrite (pt_len _ _ P1), (sz_ind o Hs). done. }
  rewrite !bind_Ok_l.
  destruct (traverse_spec E o Hs Hg o1 (fun _ v _ => fixSingle fv fi kd v x ix) k a o1 P1 Hna)
    as (vs & -> & [Hav Hnd]%NoDup_cons & _ & Hjoin & _ & Hreach).
  destruct (fix_fold fv fi kd x ix vs o1 Hs1) as (o2 & E2 & P2 & B2 & I2); [| |done| |].
  { unfold x. destruct fv; [|lia]. by apply lxor_bits. }
  { unfold ix. destruct fi; [|lia]. apply lxor_nonneg'; by apply ind_nonneg. }
  { rewrite Hn1. apply Forall_forall. intros [[k' v] u] Hin. apply Hjoin in Hin.
    eapply joins_range; [apply Hg|by apply joins_sym]. }
  rewrite E2, bind_Ok_l, Hn1 in *. exists o2, x, ix, (fun u => (u =? a) || mem_nodes vs u).
  split; [done|]. split; [by eapply patched_trans|]. split; [by apply half_tree_visits|].
  assert (Hma : mem_nodes vs a = false) by (by apply bool_decide_eq_false).
  split; [|split; [|split]].
  - intros u Hu. rewrite (B2 u Hu), (B1 u Hu). unfold x. destruct fv; cbn [andb]; [|done].
    destruct (Z.eqb_spec u a) as [->|Hne]; cbn [orb]; [|done]. rewrite Hma, (B1 a Hna), Z.eqb_refl. cbn [andb].
    by rewrite lxor_shift.
  - intros Hfv. unfold x. rewrite Hfv, (B1 a Hna), Hfv, Z.eqb_refl. cbn [andb]. by rewrite lxor_shift.
  - intros u. rewrite (I2 u), (I1 u). unfold ix. destruct fi; cbn [andb]; [|done].
    destruct (Z.eqb_spec u a) as [->|Hne]; cbn [orb]; [|done]. rewrite Hma, (I1 a), Z.eqb_refl. cbn [andb].
    by rewrite lxor_shift.
  - intros Hfi. unfold ix. rewrite Hfi, (I1 a), Hfi, Z.eqb_refl. cbn [andb]. by rewrite lxor_shift.
Qed.

Lemma half_tree_sum (f f' : Z -> Z) k a b h x w : E k = Some (a, b) -> half_tree k a b h ->
  (forall u, 0 <= u < nodes o -> f' u = if h u then Z.lxor x (f u) else f u) ->
  Z.lxor x (f a) = Z.lxor w (f b) ->
  forall k' c d, E k' = Some (c, d) ->
    Z.lxor (f' c) (f' d) = if k' =? k then w else Z.lxor (f c) (f d).
Proof.
  intros Hk (_ & Hha & Hhb & Hcl) Hf Hx k' c d Hk'. destruct (gr_bip E o Hg k' c d Hk') as (_ & _ & Hc & Hd).
  rewrite (Hf c), (Hf d) by lia. destruct (Z.eqb_spec k' k) as [->|Hne].
  - assert (c = a /\ d = b) as [-> ->] by (split; congruence).
    by rewrite Hha, Hhb, Hx, Z.lxor_assoc, Z.lxor_nilpotent, Z.lxor_0_r.
  - rewrite (Hcl k' c d Hk' Hne). destruct (h d); [apply lxor_both|done].
Qed.

(** [fixHalfTreeDFS] on a key of the graph gives its ends the key's value and
    its index, and leaves every other key's as they were. *)
Lemma fixHalfTree_spec fv fi kd k a b w : E k = Some (a, b) -> rd (cpo_values o) k = Ok w -> 0 <= w < 2 ->
  exists o' x, fixHalfTreeDFS fv fi kd k a b o = Ok (o', x) /\ patched o o' /\
    (fv = false -> forall u, 0 <= u < nodes o -> bit o' u = bit o u) /\
    (fv = true -> forall k' c d, E k' = Some (c, d) ->
       bits_of o' c d = if k' =? k then w else bits_of o c d) /\
    (fi = false -> forall u, ind o' u = ind o u) /\
    (fi = true -> forall k' c d, E k' = Some (c, d) ->
       inds_of o' c d = if k' =? k then k else inds_of o c d).
Proof.
  intros Hk Hw Hw2.
  destruct (fixHalf_effect fv fi kd k a b w Hk Hw Hw2) as (o' & x & ix & h & Hr & P & Hh & B & Bx & I & Ix).
  exists o', x. split; [done|]. split; [done|]. split; [|split; [|split]].
  - intros -> u Hu. by rewrite (B u Hu).
  - intros ->. apply (half_tree_sum (bit o) (bit o') k a b h x w Hk Hh B). by apply Bx.
  - intros -> u. by rewrite (I u).
  - intros ->. apply (half_tree_sum (ind o) (ind o') k a b h ix k Hk Hh); [intros u _; apply I|]. by apply Ix.
Qed.
End fix_half.

(** ** Filling a tree *)

(** The key [k] has its bit and its index in [o']. *)
Definition filled (o o' : ControlPlaneOthello) (k c d : Z) : Prop :=
  exists w, rd (cpo_values o) k = Ok w /\ bits_of o' c d = w /\ inds_of o' c d = k.

Lemma filled_sym o o' k c d : filled o o' k c d -> filled o o' k d c.
Proof. unfold filled, bits_of, inds_of. by rewrite (Z.lxor_comm (bit o' d)), (Z.lxor_comm (ind o' d)). Qed.

Lemma lxor_cancel w z : Z.lxor (Z.lxor w z) z = w.
Proof. by rewrite Z.lxor_assoc, Z.lxor_nilpotent, Z.lxor_0_r. Qed.

Lemma fill_fold kd vs R o : sized o -> parents_first R vs -> NoDup (v_node <$> vs) ->
  (forall v, v ∈ v_node <$> vs -> v ∉ R) ->
  (forall k v u, (k, v, u) ∈ vs -> 0 <= k /\ 0 <= v < nodes o /\ 0 <= u < nodes o /\
     exists w, rd (cpo_values o) k = Ok w /\ 0 <= w < 2) ->
  exists o', foldM (run (fillSingle true true kd)) vs o = Ok o' /\ patched o o' /\
    (forall x, 0 <= x < nodes o -> x ∉ v_node <$> vs -> bit o' x = bit o x /\ ind o' x = ind o x) /\
    forall k v u, (k, v, u) ∈ vs -> filled o o' k v u.
Proof.
  intros Hs Hpf. revert o Hs. induction Hpf as [R|R k v u vs Hu Hpf IH]; intros o Hs Hnd HR Hok.
  - exists o. split; [done|]. split; [by apply patched_refl|]. split; [done|]. by intros ??? ?%not_elem_of_nil.
  - apply NoDup_cons in Hnd as [Hv Hnd]. change (v_node (k, v, u)) with v in *.
    destruct (Hok k v u) as (Hk & Hvr & Hur & w & Hw & Hw2); [left|].
    destruct (fillSingle_spec true true kd k v u w o Hs Hvr Hur Hk Hw Hw2) as (o1 & E1 & P1 & B1 & I1).
    pose proof (patched_nodes _ _ P1) as Hn.
    assert (Hvals : cpo_values o1 = cpo_values o) by (by rewrite (pt_eq _ _ P1)).
    destruct (IH o1) as (o2 & E2 & P2 & Fr & Fi); [by eapply patched_sized|done| | |].
    { intros x Hx [->|HxR]%elem_of_cons; [done|]. apply (HR x); [by right|done]. }
    { intros k' v' u' Hin. rewrite Hvals, Hn. apply Hok. by right. }
    rewrite Hn in Fr. assert (Huv : u <> v) by (intros ->; apply (HR v); [left|done]).
    assert (Hun : u ∉ v_node <$> vs) by (intros Hin; apply (HR u); [by right|done]).
    exists o2. cbn [foldM]. change (run ?f o (k, v, u)) with (f k v u o). rewrite E1, bind_Ok_l.
    split; [done|]. split; [by eapply patched_trans|]. split.
    + intros x Hx Hnin. apply not_elem_of_cons in Hnin as [Hxv Hxn]. change (v_node (k, v, u)) with v in Hxv.
      destruct (Fr x Hx Hxn) as [-> ->]. rewrite (B1 x Hx), (I1 x).
      by destruct (Z.eqb_spec x v).
    + intros k' v' u' [[= -> -> ->]|Hin]%elem_of_cons.
      * exists w. split; [done|]. unfold bits_of, inds_of. destruct (Fr v Hvr Hv) as [-> ->].
        destruct (Fr u Hur Hun) as [-> ->]. rewrite (B1 v Hvr), (B1 u Hur), (I1 v), (I1 u), Z.eqb_refl.
        cbn [andb]. rewrite (proj2 (Z.eqb_neq u v) Huv). split; apply lxor_cancel.
      * unfold filled. rewrite <-Hvals. by apply Fi.
Qed.

(** The values of the keys of [E] are bits. *)
Definition values_ok (E : Z -> option (Z * Z)) (o : ControlPlaneOthello) : Prop :=
  forall k a b, E k = Some (a, b) -> exists w, rd (cpo_values o) k = Ok w /\ 0 <= w < 2.

Lemma fillTree_spec E kd root o0 o : sized o0 -> graph_ok E o0 -> values_ok E o0 -> patched o0 o ->
  0 <= root < nodes o0 ->
  exists o', fillTreeDFS true true kd root o = Ok o' /\ patched o o' /\
    forall k c d, E k = Some (c, d) ->
      (connected E root c /\ filled o0 o' k c d) \/
      (~ connected E root c /\ bits_of o' c d = bits_of o c d /\ inds_of o' c d = inds_of o c d).
Proof.
  intros Hs Hg Hv P Hr. unfold fillTreeDFS.
  destruct (traverse_spec E o0 Hs Hg o (fillSingle true true kd) NIL root o P Hr)
    as (vs & -> & [Hrn Hnd]%NoDup_cons & Hpf & Hjoin & Hedge & Hreach).
  assert (Hvals : cpo_values o = cpo_values o0) by (by rewrite (pt_eq _ _ P)).
  pose proof (patched_nodes _ _ P) as Hn.
  destruct (fill_fold kd vs [root] o) as (o' & E' & P' & Fr & Fi).
  - by eapply patched_sized.
  - done.
  - done.
  - intros v Hin ->%list_elem_of_singleton. done.
  - intros k v u Hin. apply Hjoin in Hin. rewrite Hn, Hvals.
    pose proof (joins_range E o0 _ _ _ (gr_bip E o0 Hg) Hin).
    pose proof (joins_range E o0 _ _ _ (gr_bip E o0 Hg) (joins_sym _ _ _ _ Hin)).
    destruct Hin as (a & b & Hk & _). destruct (gr_bip E o0 Hg k a b Hk) as (? & _).
    split; [lia|]. split; [done|]. split; [done|]. by apply (Hv k a b).
  - exists o'. split; [done|]. split; [done|]. intros k c d Hk.
    destruct (gr_bip E o0 Hg k c d Hk) as (_ & Hkn & Hc & Hd).
    assert (Hnil : forall y z, ~ joins E NIL y z).
    { intros y z (a & b & Hab & _). by destruct (gr_bip E o0 Hg NIL a b Hab) as (_ & ? & _). }
    assert (Hj : joins E k c d) by (exists c, d; auto).
    destruct (decide (c ∈ root :: (v_node <$> vs))) as [Hcon%Hreach|Hcon]; [left|right].
    + split; [by eapply reach_connected|]. unfold filled. rewrite <-Hvals.
      destruct (Hedge k c d Hcon Hj Hkn) as [Hin|Hin]; [apply filled_sym|]; by apply Fi.
    + rewrite Hreach in Hcon.
      assert (~ connected E root c) as Hcon' by (by intros ?%(connected_reach E NIL)).
      clear Hcon. rename Hcon' into Hcon. split; [done|].
      assert (forall x, linked E c x \/ x = c -> x ∉ v_node <$> vs) as Hout.
      { intros x Hx Hin. apply Hcon. assert (reach E NIL root x) as Hrx by (apply Hreach; by right).
        apply reach_connected in Hrx. destruct Hx as [[k' Hk']| ->]; [|done].
        eapply rtc_r; [exact Hrx|]. exists k'. by apply joins_sym. }
      unfold bits_of, inds_of. rewrite Hn in Fr.
      destruct (Fr c) as [-> ->]; [lia|apply Hout; by right|].
      destruct (Fr d) as [-> ->]; [lia|apply Hout; left; by exists k|]. done.
Qed.

(** ** The disjoint set *)

Record dsu_ok (E : Z -> option (Z * Z)) (o : ControlPlaneOthello) : Prop := {
  du_rooted : rooted (connectivityForest o);
  du_same : forall k u v, joins E k u v -> exists r,
    root (connectivityForest o) u r /\ root (connectivityForest o) v r /\
    rd (connectivityForest o) r = Ok r;
  du_within : forall i p, rd (connectivityForest o) i = Ok p -> p <> NIL -> connected E i p;
}.

Lemma root_connected E o i r : dsu_ok E o -> root (connectivityForest o) i r -> connected E i r.
Proof.
  intros [_ _ W] [n H]. induction H as [i p Hi _|n i p r Hi H1 _ _ IH]; [constructor|].
  etransitivity; [by eapply W|exact IH].
Qed.

(** Connected nodes have the same root. *)
Lemma connected_root E o u v r : dsu_ok E o -> connected E u v ->
  root (connectivityForest o) u r -> root (connectivityForest o) v r.
Proof.
  intros D H. induction H as [u|u v w [k Hk] _ IH]; [done|]. intros Hu. apply IH.
  destruct (du_same E o D k u v Hk) as (q & Hq & Hv & _). by rewrite (root_det _ _ _ _ Hu Hq).
Qed.

Lemma dsu_refined E o f : dsu_ok E o -> refined (connectivityForest o) f -> dsu_ok E (with_forest f o).
Proof.
  intros D Hf. pose proof Hf as (L & R & P). constructor; simpl.
  - eapply refined_rooted; [apply D|done].
  - intros k u v Hk. destruct (du_same E o D k u v Hk) as (r & Hu & Hv & Hr). exists r.
    split; [by apply R|]. split; [by apply R|]. eapply refined_self; [done..|]. by eapply root_end.
  - intros i p Hi Hp. destruct (P i p Hi) as [H|H]; [by eapply du_within|by eapply root_connected].
Qed.

(** *** Filling all trees *)

Lemma isRoot_eq o i : 0 <= i < Z.of_nat (length (connectivityForest o)) -> exists p,
  rd (connectivityForest o) i = Ok p /\ DisjointSet.isRoot i (connectivityForest o) = Ok (p =? i).
Proof.
  intros Hi. destruct (rd_in_range _ _ Hi) as [p Hp]. exists p. unfold DisjointSet.isRoot. by rewrite Hp.
Qed.

Definition sums_ok (E : Z -> option (Z * Z)) (o : ControlPlaneOthello) : Prop :=
  forall k c d, E k = Some (c, d) -> filled o o k c d.

Lemma fillValue_spec E kd o0 : sized o0 -> graph_ok E o0 -> values_ok E o0 -> dsu_ok E o0 ->
  exists o', fillValue kd o0 = Ok o' /\ patched o0 o' /\ sums_ok E o'.
Proof.
  intros Hs Hg Hv Hd. unfold fillValue. fold (nodes o0).
  set (I := fun (pre : list Z) o => patched o0 o /\ forall r k c d, r ∈ pre ->
    rd (connectivityForest o0) r = Ok r -> E k = Some (c, d) -> connected E r c -> filled o0 o k c d).
  destruct (foldM_inv I (fun o i => root ← DisjointSet.isRoot i (connectivityForest o);
    if root : bool then fillTreeDFS true true kd i o else Ok o) (seqZ 0 (nodes o0)) o0) as (o' & E' & P & HI).
  - split; [by apply patched_refl|]. by intros ???? ?%not_elem_of_nil.
  - intros pre i post o Hl [P HI].
    assert (Hi : 0 <= i < nodes o0).
    { assert (i ∈ seqZ 0 (nodes o0)) as Hin%elem_of_seqZ; [|lia]. rewrite Hl. apply elem_of_app. right. left. }
    assert (Hf : connectivityForest o = connectivityForest o0) by (by rewrite (pt_eq _ _ P)).
    destruct (isRoot_eq o i) as (p & Hp & ->); [rewrite Hf, (sz_forest o0 Hs); done|].
    rewrite bind_Ok_l, Hf in *. destruct (Z.eqb_spec p i) as [->|Hne].
    + destruct (fillTree_spec E kd i o0 o Hs Hg Hv P Hi) as (o1 & E1 & P1 & H1). exists o1.
      split; [done|]. split; [by eapply patched_trans|]. intros r k c d Hr Hrr Hk Hc.
      destruct (H1 k c d Hk) as [[_ ?]|(Hn & Hb & Hx)]; [done|].
      apply elem_of_app in Hr as [Hr| ->%list_elem_of_singleton]; [|done].
      destruct (HI r k c d Hr Hrr Hk Hc) as (w & ? & ? & ?). exists w. by rewrite Hb, Hx.
    + exists o. split; [done|]. split; [done|]. intros r k c d Hr Hrr Hk Hc.
      apply elem_of_app in Hr as [Hr| ->%list_elem_of_singleton]; [by apply (HI r)|congruence].
  - exists o'. split; [done|]. split; [done|]. intros k c d Hk.
    assert (filled o0 o' k c d) as (w & Hw & ? & ?).
    { destruct (du_same E o0 Hd k c d) as (r & Hc & _ & Hrr); [by exists c, d; auto|].
      apply (HI r); [|done..|apply connected_sym; by eapply root_connected].
      apply elem_of_seqZ. apply rd_range in Hrr. rewrite (sz_forest o0 Hs) in Hrr. lia. }
    exists w. by rewrite (pt_eq _ _ P).
Qed.
