(* ===== verification/OthelloBuild.v ===== *)
(** * Building the Othello

    Adding an edge, testing a seed, filling the cells and resizing
    (OthelloCP.v): a build that ends leaves the invariant, with the keys and
    values it was given. *)

From Stdlib Require Import ZArith Lia.
From stdpp Require Import base numbers list gmap relations.
From S2P Require Import Prelude Words Hash OthelloMem LudoTable Forest UnionFind OthelloCP OthelloInv.

#[local] Open Scope Z_scope.

(** ** Adding an edge *)

Section add.
Context (E E' : Z -> option (Z * Z)) (o : ControlPlaneOthello) (key ha hb : Z).
Context (Hs : sized o) (Hg : graph_ok E o) (Hd : dsu_ok E o).
Context (Hother : forall k, k <> key -> E' k = E k) (Hnew : E key = None) (Hkey : E' key = Some (ha, hb)).
Context (Hk : 0 <= key < Z.of_nat (length (cpo_keys o))) (Hkn : key <> NIL).
Context (Ha : 0 <= ha < cpo_ma o) (Hb : cpo_ma o <= hb < nodes o).
Context (ra rb : Z) (Hra : root (connectivityForest o) ha ra) (Hrb : root (connectivityForest o) hb rb)
  (Hne : ra <> rb).

Lemma joins_add_iff k u v : joins E' k u v <->
  (k = key /\ ((u = ha /\ v = hb) \/ (u = hb /\ v = ha))) \/ joins E k u v.
Proof.
  split.
  - intros H. apply (joins_add E E' key ha hb Hother Hkey) in H as [?|[_ ?]]; auto.
  - intros [[-> H]|(a & b & Ek & H)]; [by exists ha, hb|]. exists a, b. split; [|done].
    rewrite Hother; [done|]. congruence.
Qed.

Lemma joins_not_new u v : ~ joins E key u v.
Proof. intros (a & b & H & _). congruence. Qed.

Lemma connected_new u v : connected E u v -> connected E' u v.
Proof. apply connected_mono. intros k x y H. exists k. apply joins_add_iff. by right. Qed.

(** The list of [u] gets the new cell in front. *)
Lemma list_at_new next next' u v l c : u <> v -> rd (cpo_head o) u = Ok c -> list_at E o u l ->
  next_of o u = next -> wr next key c = Ok next' -> joins E' key u v ->
  chain next' (key, v) ((key, v) :: l) /\ NoDup (fst <$> (key, v) :: l) /\
  forall k w, (k, w) ∈ (key, v) :: l <-> joins E' k u w.
Proof.
  intros Huv Hc ((c' & Hc' & Hch) & Hnd & Hin) Hnx Hw Hj. assert (c' = c) as -> by congruence. subst next.
  assert (Hfresh : key ∉ fst <$> l).
  { intros ([k w] & Ek & Hkw)%list_elem_of_fmap. simpl in Ek. subst k. apply Hin in Hkw.
    by apply joins_not_new in Hkw. }
  split; [|split].
  - pose proof (chain_wr _ _ _ _ _ _ Hfresh Hw Hch) as (ce & Hseg & Hn). exists ce. split; [|done].
    simpl. split; [done|]. split; [done|]. exists c. split; [by eapply rd_wr_eq|done].
  - rewrite fmap_cons. by apply NoDup_cons.
  - intros k w. rewrite elem_of_cons, Hin, joins_add_iff. split.
    + intros [[= -> ->]|H]; [|by right]. by apply joins_add_iff.
    + intros [[-> Hkw]|H]; [left|by right]. apply joins_add_iff in Hj as [[_ Hj]|Hj]; [|by apply joins_not_new in Hj].
      f_equal. destruct Hkw as [[? ?]|[? ?]], Hj as [[? ?]|[? ?]]; congruence.
Qed.

Lemma addEdge_lists cA cB nA nB h1 h2 f : rd (cpo_head o) ha = Ok cA -> wr (nextAtA o) key cA = Ok nA ->
  wr (cpo_head o) ha (key, hb) = Ok h1 -> rd h1 hb = Ok cB -> wr (nextAtB o) key cB = Ok nB ->
  wr h1 hb (key, ha) = Ok h2 -> lists_ok E' (with_forest f (with_lists h2 nA nB o)).
Proof.
  intros HcA HnA Hh1 HcB HnB Hh2 u Hu. change (nodes (with_forest f (with_lists h2 nA nB o))) with (nodes o) in Hu.
  assert (Hab : ha <> hb) by lia.
  rewrite (rd_wr_ne _ _ _ _ _ Hh1) in HcB by done.
  destruct (gr_lists E o Hg u Hu) as (l & Hl).
  destruct (decide (u = ha)) as [->|Hua]; [|destruct (decide (u = hb)) as [->|Hub]].
  - exists ((key, hb) :: l). assert (next_of o ha = nextAtA o) as Hn
      by (unfold next_of; by rewrite (proj2 (Z.ltb_lt ha _)) by lia).
    destruct (list_at_new _ nA ha hb l cA Hab HcA Hl Hn HnA) as (Hch & Hnd & Hin); [by exists ha, hb; auto|].
    split; [|done]. exists (key, hb). simpl. split; [|by unfold next_of; simpl; rewrite (proj2 (Z.ltb_lt ha _)) by lia].
    rewrite (rd_wr_ne _ _ _ _ _ Hh2) by done. by eapply rd_wr_eq.
  - exists ((key, ha) :: l). assert (next_of o hb = nextAtB o) as Hn
      by (unfold next_of; by rewrite (proj2 (Z.ltb_ge hb _)) by lia).
    destruct (list_at_new _ nB hb ha l cB Hua HcB Hl Hn HnB) as (Hch & Hnd & Hin); [by exists ha, hb; auto|].
    split; [|done]. exists (key, ha). simpl. split; [|by unfold next_of; simpl; rewrite (proj2 (Z.ltb_ge hb _)) by lia].
    by eapply rd_wr_eq.
  - exists l. destruct Hl as ((c & Hc & Hch) & Hnd & Hin).
    assert (Hfresh : key ∉ fst <$> l).
    { intros ([k w] & Ek & Hkw)%list_elem_of_fmap. simpl in Ek. subst k. apply Hin in Hkw.
      by apply joins_not_new in Hkw. }
    split; [|split; [done|]].
    + exists c. simpl. rewrite (rd_wr_ne _ _ _ _ _ Hh2), (rd_wr_ne _ _ _ _ _ Hh1) by done. split; [done|].
      unfold next_of in *. simpl. destruct (u <? cpo_ma o); by eapply chain_wr.
    + intros k v. rewrite Hin, joins_add_iff. split; [by right|]. intros [[_ [[? ?]|[? ?]]]|?]; congruence || done.
Qed.

Lemma addEdge_dsu g o' : dsu_ok E o -> DisjointSet.merge ha hb (connectivityForest o) = Ok g ->
  dsu_ok E' (with_forest g o').
Proof.
  intros D Hm. destruct (merge_spec _ _ _ _ _ (du_rooted E o D) Hra Hrb) as (g' & Hm' & L & Sa & R & P).
  assert (g' = g) as -> by congruence. pose proof (du_rooted E o D) as [Hnil Htot].
  assert (Hac : connected E' ra ha) by (apply connected_sym, connected_new; by eapply root_connected).
  assert (Hbc : connected E' hb rb) by (apply connected_new; by eapply root_connected).
  constructor; simpl.
  - split; [lia|]. intros i Hi. rewrite L in Hi. destruct (Htot i Hi) as [r Hr]. eexists. by apply R.
  - intros k u v [[_ Huv]|Hj]%joins_add_iff.
    + exists ra. pose proof (R _ _ Hra) as Ga. rewrite decide_False in Ga by done.
      pose proof (R _ _ Hrb) as Gb. rewrite decide_True in Gb by done.
      destruct Huv as [[-> ->]|[-> ->]]; done.
    + destruct (du_same E o D k u v Hj) as (r & Hu & Hv & Hr).
      exists (if decide (r = rb) then ra else r). split; [by apply R|]. split; [by apply R|].
      destruct (decide (r = rb)) as [_|Hrrb]; [done|].
      destruct (rd_in_range g r) as [p Hp]; [rewrite L; by eapply rd_range|]. rewrite Hp. f_equal.
      destruct (P r p Hp) as [Ep|[Ep|[? _]]]; [congruence| |done].
      eapply root_det; [exact Ep|by eapply root_end].
  - intros i p Hi Hp. destruct (P i p Hi) as [Ep|[Ep|[-> ->]]].
    + apply connected_new. by eapply du_within.
    + apply connected_new. by eapply root_connected.
    + etransitivity; [by apply connected_sym|]. etransitivity; [|by apply connected_sym].
      apply rtc_once. exists key. apply joins_add_iff. auto.
Qed.

Lemma addEdge_spec : exists o', addEdge key ha hb o = Ok o' /\ sized o' /\ graph_ok E' o' /\ dsu_ok E' o' /\
  o' = with_forest (connectivityForest o') (with_lists (cpo_head o') (nextAtA o') (nextAtB o') o).
Proof.
  unfold addEdge. pose proof (sz_head o Hs) as HN. pose proof (sz_mb o Hs) as Hmb. assert (Hna : 0 <= ha < nodes o) by (unfold nodes in *; lia).
  destruct (rd_in_range (cpo_head o) ha) as [cA HcA]; [lia|]. rewrite HcA, bind_Ok_l.
  assert (HkA : 0 <= key < Z.of_nat (length (nextAtA o))) by (rewrite (sz_nextA o Hs); done).
  assert (HkB : 0 <= key < Z.of_nat (length (nextAtB o))) by (rewrite (sz_nextB o Hs); done).
  pose proof (wr_in_range _ _ cA HkA) as HnA. rewrite HnA, bind_Ok_l.
  pose proof (wr_in_range (cpo_head o) ha (key, hb) ltac:(lia)) as Hh1. rewrite Hh1, bind_Ok_l.
  set (h1 := <[Z.to_nat ha:=(key, hb)]> (cpo_head o)) in *. pose proof (wr_length _ _ _ _ Hh1) as L1.
  destruct (rd_in_range h1 hb) as [cB HcB]; [lia|]. rewrite HcB, bind_Ok_l.
  pose proof (wr_in_range _ _ cB HkB) as HnB. rewrite HnB, bind_Ok_l.
  pose proof (wr_in_range h1 hb (key, ha) ltac:(lia)) as Hh2. rewrite Hh2, bind_Ok_l.
  pose proof (wr_length _ _ _ _ Hh2) as L2.
  destruct (merge_spec _ _ _ _ _ (du_rooted E o Hd) Hra Hrb) as (g & Hm & Lg & _).
  rewrite Hm, bind_Ok_l. eexists. split; [reflexivity|]. split; [|split; [constructor|split; [|by destruct o]]].
  - destruct Hs. constructor; simpl; rewrite ?length_insert; unfold nodes in *; simpl in *; try done; lia.
  - intros k a b Hkab. destruct (decide (k = key)) as [->|Hkk].
    + assert (a = ha /\ b = hb) as [-> ->] by (split; congruence). by simpl.
    + rewrite Hother in Hkab by done. by apply (gr_bip E o Hg).
  - by eapply addEdge_lists.
  - apply (acyclic_add E E' key ha hb Hother Hkey); [apply Hg|]. intros Hc.
    pose proof (connected_root E o _ _ _ Hd Hc Hra) as H. apply Hne. by eapply root_det.
  - by apply addEdge_dsu.
Qed.
End add.

(** ** The graph of the first keys *)

Definition ends_by (a b h : Z) (ks : list Z) (m k : Z) : option (Z * Z) :=
  if (0 <=? k) && (k <? m) then
    match rd ks k with Ok key => Some (getIndices (MkDPO [] a b h []) key) | Err _ => None end
  else None.

Definition ends_upto (o : ControlPlaneOthello) : Z -> Z -> option (Z * Z) :=
  ends_by (cpo_ma o) (cpo_mb o) (cpo_hab o) (cpo_keys o).

Definition ends (o : ControlPlaneOthello) : Z -> option (Z * Z) := ends_upto o (nKeysInOthello o).

(** The invariant. *)
Record othello_inv (o : ControlPlaneOthello) : Prop := {
  oi_sized : sized o;
  oi_graph : graph_ok (ends o) o;
  oi_dsu : dsu_ok (ends o) o;
  oi_values : values_ok (ends o) o;
  oi_sums : sums_ok (ends o) o;
}.

(** The keys, their values and where they hash to are as before. *)
Record kept (o o' : ControlPlaneOthello) : Prop := {
  kp_n : nKeysInOthello o' = nKeysInOthello o;
  kp_keys : cpo_keys o' = cpo_keys o;
  kp_values : cpo_values o' = cpo_values o;
  kp_ma : cpo_ma o' = cpo_ma o;
  kp_mb : cpo_mb o' = cpo_mb o;
  kp_hab : cpo_hab o' = cpo_hab o;
  kp_rands : rands o' = rands o;
}.

Lemma kept_refl o : kept o o.
Proof. by constructor. Qed.

Lemma kept_trans o1 o2 o3 : kept o1 o2 -> kept o2 o3 -> kept o1 o3.
Proof. intros [] []. constructor; congruence. Qed.

Lemma kept_ends_upto o o' : kept o o' -> ends_upto o' = ends_upto o.
Proof. intros []. unfold ends_upto. congruence. Qed.

Lemma kept_ends o o' : kept o o' -> ends o' = ends o.
Proof. intros H. unfold ends. by rewrite (kept_ends_upto _ _ H), (kp_n _ _ H). Qed.

Lemma patched_kept o o' : patched o o' -> kept o o'.
Proof. intros [-> _ _ _]. by constructor. Qed.

Lemma values_kept E o o' : kept o o' -> values_ok E o -> values_ok E o'.
Proof. intros H Hv k a b Hk. rewrite (kp_values _ _ H). by apply (Hv k a b). Qed.

Lemma nodes_range o k : sized o -> 0 <= fst (nodes_of o k) < cpo_ma o /\
  cpo_ma o <= snd (nodes_of o k) < nodes o.
Proof.
  intros Hs. pose proof (sz_mem o Hs) as (Hm & HN & Hfit). unfold nodes in *.
  apply (getIndices_range (MkDPO (cpo_mem o) (cpo_ma o) (cpo_mb o) (cpo_hab o) (replicate (Z.to_nat 8192) 0))).
  split; [done|]. cbn [o_lock o_mem ma mb]. rewrite length_replicate. pose proof (sz_ma o Hs). pose proof (sz_mb o Hs). done.
Qed.

Lemma ends_upto_Some o m k e : ends_upto o m k = Some e <->
  0 <= k < m /\ exists key, rd (cpo_keys o) k = Ok key /\ e = nodes_of o key.
Proof.
  unfold ends_upto, ends_by. destruct ((0 <=? k) && (k <? m)) eqn:Et.
  - apply andb_true_iff in Et as [?%Z.leb_le ?%Z.ltb_lt]. destruct (rd (cpo_keys o) k) as [key|].
    + split; [intros [= <-]; split; [done|by exists key]|]. intros (_ & key' & E & ->).
      assert (key' = key) as -> by congruence. reflexivity.
    + split; [done|]. intros (_ & key' & E & _). congruence.
  - split; [done|]. intros [? _]. apply andb_false_iff in Et. rewrite Z.leb_gt, Z.ltb_ge in Et. lia.
Qed.

Lemma ends_upto_succ o m : 0 <= m < Z.of_nat (length (cpo_keys o)) ->
  (forall k, k <> m -> ends_upto o (m + 1) k = ends_upto o m k) /\ ends_upto o m m = None.
Proof.
  intros Hm. split.
  - intros k Hk. unfold ends_upto, ends_by. replace (k <? m + 1) with (k <? m); [done|].
    destruct (Z.ltb_spec k m), (Z.ltb_spec k (m + 1)); lia || done.
  - unfold ends_upto, ends_by. by rewrite Z.ltb_irrefl, andb_false_r.
Qed.

(** ** Building *)

Lemma clear_cells_spec o : sized o -> exists m, clear_cells o = Ok m /\ good_mem (nodes o) m.
Proof.
  intros Hs. unfold clear_cells. fold (nodes o).
  destruct (foldM_inv (fun _ m => good_mem (nodes o) m) (fun m i => memSet 1 0 i 0 m)
    (seqZ 0 (nodes o)) (cpo_mem o)) as (m & E & Hm); [apply Hs| |by exists m].
  intros pre i post m Hl Hm.
  assert (i ∈ seqZ 0 (nodes o)) as Hi%elem_of_seqZ by (rewrite Hl; apply elem_of_app; right; left).
  destruct (bit_set (nodes o) m i 0 Hm) as (m' & -> & Hm' & _); [lia|]. by exists m'.
Qed.

Lemma reset_spec o : sized o -> exists o', resetBuildState o = Ok o' /\ sized o' /\ kept o o' /\
  forall E, (forall k, E k = None) -> graph_ok E o' /\ dsu_ok E o'.
Proof.
  intros Hs. unfold resetBuildState. destruct (clear_cells_spec o Hs) as (m & -> & Hm). rewrite bind_Ok_l.
  eexists. split; [reflexivity|]. split; [|split; [by constructor|]].
  - destruct Hs. constructor; simpl; rewrite ?length_replicate; unfold nodes, DisjointSet.reset in *; simpl;
      rewrite ?length_replicate; done.
  - intros E HE. assert (Hnj : forall k u v, ~ joins E k u v) by (intros k u v (a & b & Hk & _); congruence).
    split.
    + constructor.
      * intros k a b Hk. congruence.
      * intros u Hu. exists []. split; [|split; [constructor|]].
        -- exists (NIL, NIL). simpl. split; [|by exists (NIL, NIL)].
           apply rd_Ok. split; [lia|]. apply lookup_replicate. split; [done|].
           change (0 <= u < nodes o) in Hu. pose proof (sz_head o Hs). lia.
        -- intros k v. split; [by intros ?%not_elem_of_nil|]. by intros ?%Hnj.
      * intros p u [|[k v] l] Hl; [done|]. intros (Hj & _). by apply Hnj in Hj.
    + assert (HL : Z.of_nat (length (DisjointSet.reset (connectivityForest o))) = nodes o)
        by (unfold DisjointSet.reset; rewrite length_replicate; apply Hs).
      pose proof (sz_mem o Hs) as (_ & HN & _).
      assert (Hnil : forall i p, rd (DisjointSet.reset (connectivityForest o)) i = Ok p -> p = NIL).
      { intros i p [_ Hi]%rd_Ok. by apply lookup_replicate in Hi as [-> _]. }
      constructor; simpl.
      * split; [rewrite HL; unfold NIL; lia|]. intros i Hi. destruct (rd_in_range _ _ Hi) as [p Hp].
        exists i, 0%nat. econstructor; [exact Hp|]. left. by eapply Hnil.
      * intros k u v Hj. by apply Hnj in Hj.
      * intros i p Hi Hp. by apply Hnil in Hi.
Qed.

Lemma relisted_kept o o' :
  o' = with_forest (connectivityForest o') (with_lists (cpo_head o') (nextAtA o') (nextAtB o') o) ->
  kept o o' /\ nodes o' = nodes o.
Proof. intros ->. split; [by constructor|done]. Qed.

Lemma sized_forest o f : sized o -> length f = length (connectivityForest o) -> sized (with_forest f o).
Proof.
  intros [] Hl. constructor; simpl; unfold nodes in *; simpl in *; try done. by rewrite Hl.
Qed.

Lemma dsu_root E o u : sized o -> dsu_ok E o -> 0 <= u < nodes o ->
  exists r, root (connectivityForest o) u r.
Proof. intros Hs Hd Hu. apply (du_rooted E o Hd). by rewrite (sz_forest o Hs). Qed.

(** The keys tested so far are in the lists, unless a cycle was found. *)
Definition tested (o0 : ControlPlaneOthello) (pre : list Z) (st : bool * ControlPlaneOthello) : Prop :=
  sized (snd st) /\ kept o0 (snd st) /\
  (fst st = true -> graph_ok (ends_upto o0 (Z.of_nat (length pre))) (snd st) /\
                    dsu_ok (ends_upto o0 (Z.of_nat (length pre))) (snd st)).

Lemma test_key_step o0 pre i st : tested o0 pre st -> i = Z.of_nat (length pre) ->
  i < Z.of_nat (length (cpo_keys o0)) ->
  exists st', test_key st i = Ok st' /\ tested o0 (pre ++ [i]) st'.
Proof.
  intros (Hs & Hk & Hg) Hi Hlt. destruct st as [[] o]; simpl in Hs, Hk, Hg; unfold test_key; cbn [negb].
  2: { eexists. split; [done|]. split; [done|]. by split. }
  destruct (Hg eq_refl) as [G D]. clear Hg.
  destruct (rd_in_range (cpo_keys o) i) as [k Hkey]; [rewrite (kp_keys _ _ Hk); lia|].
  rewrite Hkey, bind_Ok_l. pose proof (nodes_range o k Hs) as [Hra Hrb].
  destruct (nodes_of o k) as [ha hb] eqn:Eab. cbn [fst snd] in Hra, Hrb.
  pose proof (sz_mb o Hs) as Hmb.
  destruct (dsu_root _ o ha Hs D) as [ra Ha]; [unfold nodes in *; lia|].
  destruct (dsu_root _ o hb Hs D) as [rb Hb]; [unfold nodes in *; pose proof (sz_ma o Hs); lia|].
  destruct (sameSet_spec _ ha hb ra rb (du_rooted _ o D) Ha Hb) as (f & -> & Hf). rewrite bind_Ok_l.
  pose proof (dsu_refined _ o f D Hf) as D1. pose proof Hf as (Lf & Rf & _).
  pose proof (sized_forest o f Hs Lf) as Hs1.
  assert (G1 : graph_ok (ends_upto o0 (Z.of_nat (length pre))) (with_forest f o)) by (destruct G; by constructor).
  assert (K1 : kept o0 (with_forest f o)) by (eapply kept_trans; [exact Hk|by constructor]).
  destruct (Z.eqb_spec ra rb) as [->|Hne].
  { eexists. split; [reflexivity|]. split; [done|]. by split. }
  destruct (ends_upto_succ o0 i) as [Hoth Hnew]; [lia|].
  destruct (addEdge_spec (ends_upto o0 i) (ends_upto o0 (i + 1)) (with_forest f o) i ha hb)
    with (ra := ra) (rb := rb) as (o2 & E2 & Hs2 & G2 & D2 & Eq2); try done.
  - by rewrite Hi.
  - by rewrite Hi.
  - apply ends_upto_Some. split; [lia|]. exists k. rewrite <-(kp_keys _ _ Hk). split; [done|].
    rewrite <-Eab. unfold nodes_of, getIndices, common. simpl. by rewrite (kp_ma _ _ Hk), (kp_mb _ _ Hk), (kp_hab _ _ Hk).
  - simpl. rewrite (kp_keys _ _ Hk). lia.
  - pose proof (sz_keys o Hs) as Hnk. rewrite (kp_keys _ _ Hk) in Hnk. lia.
  - by apply Rf.
  - by apply Rf.
  - rewrite E2, bind_Ok_l. eexists. split; [reflexivity|]. split; [done|]. cbn [fst snd].
    split; [eapply kept_trans; [exact K1|by apply relisted_kept in Eq2 as [? _]]|]. intros _.
    rewrite length_app, Nat2Z.inj_add. cbn [length]. by rewrite <-Hi.
Qed.

Lemma testHash_spec o : sized o -> (forall E, (forall k, E k = None) -> graph_ok E o /\ dsu_ok E o) ->
  exists ok o', testHash o = Ok (ok, o') /\ sized o' /\ kept o o' /\
    (ok = true -> graph_ok (ends o') o' /\ dsu_ok (ends o') o').
Proof.
  intros Hs H0. unfold testHash. pose proof (sz_n o Hs) as Hn.
  destruct (foldM_inv (tested o) test_key (seqZ 0 (nKeysInOthello o)) (true, o)) as ([ok o'] & E & Hs' & Hk & Hg).
  - split; [done|]. split; [apply kept_refl|]. intros _. apply H0. intros k.
    destruct (ends_upto o _ k) eqn:Ek; [|done]. apply ends_upto_Some in Ek as [? _]. simpl in *. lia.
  - intros pre i post st Hl Ht.
    assert (Hi : i = Z.of_nat (length pre) /\ i < nKeysInOthello o).
    { assert (seqZ 0 (nKeysInOthello o) !! length pre = Some i) as Hp by (rewrite Hl; apply list_lookup_middle; done).
      apply lookup_seqZ in Hp. lia. }
    apply test_key_step; [done|lia..].
  - exists ok, o'. split; [done|]. split; [done|]. split; [done|]. intros ->. cbn [fst snd] in *.
    rewrite length_seqZ in Hg. rewrite (kept_ends _ _ Hk). unfold ends.
    replace (nKeysInOthello o) with (Z.of_nat (Z.to_nat (nKeysInOthello o))) by lia. by apply Hg.
Qed.

(** The stored values of the counted keys are bits. *)
Definition bits_stored (o : ControlPlaneOthello) : Prop :=
  forall k, 0 <= k < nKeysInOthello o -> exists w, rd (cpo_values o) k = Ok w /\ 0 <= w < 2.

Lemma bits_stored_values o : bits_stored o -> values_ok (ends o) o.
Proof. intros H k a b Hk. apply ends_upto_Some in Hk as [Hk _]. by apply H. Qed.

Lemma values_bits_stored o : sized o -> values_ok (ends o) o -> bits_stored o.
Proof.
  intros Hs H k Hk. pose proof (sz_n o Hs). destruct (rd_in_range (cpo_keys o) k) as [key Hkey]; [lia|].
  destruct (nodes_of o key) as [a b] eqn:Eab. apply (H k a b). apply ends_upto_Some. split; [done|].
  exists key. by rewrite Eab.
Qed.

Lemma bits_stored_kept o o' : kept o o' -> bits_stored o -> bits_stored o'.
Proof. intros H Hb k. rewrite (kp_n _ _ H), (kp_values _ _ H). apply Hb. Qed.

Lemma inv_patched o o' : patched o o' -> othello_inv o -> sums_ok (ends o) o' -> othello_inv o'.
Proof.
  intros P [Hs G D V _] S. pose proof (patched_kept _ _ P) as K. pose proof (kept_ends _ _ K) as Ee.
  constructor; rewrite ?Ee; [by eapply patched_sized|by eapply graph_patched| |by eapply values_kept|done].
  clear Ee K. destruct P as [-> _ _ _]. destruct D. by constructor.
Qed.

Lemma inv_intact o i : othello_inv o -> othello_inv (with_intact i o).
Proof.
  intros [[] [] [] V S]. constructor; [by constructor|by constructor|by constructor|exact V|exact S].
Qed.

Theorem tryBuild_spec o : sized o -> bits_stored o ->
  exists ok o', tryBuild o = Ok (ok, o') /\ sized o' /\ kept o o' /\ (ok = true -> othello_inv o').
Proof.
  intros Hs Hb. unfold tryBuild. destruct (reset_spec o Hs) as (o1 & -> & Hs1 & K1 & H1). rewrite bind_Ok_l.
  pose proof (bits_stored_kept _ _ K1 Hb) as Hb1.
  destruct (Z.eqb_spec (nKeysInOthello o1) 0) as [Hn|Hn].
  - exists true, o1. split; [done|]. split; [done|]. split; [done|]. intros _.
    assert (HE : forall k, ends o1 k = None).
    { intros k. destruct (ends o1 k) eqn:Ek; [|done]. apply ends_upto_Some in Ek as [? _]. lia. }
    destruct (H1 _ HE). constructor; try done; [by apply bits_stored_values|]. intros k c d Hk. congruence.
  - destruct (testHash_spec o1 Hs1 H1) as (ok & o2 & -> & Hs2 & K2 & H2). rewrite bind_Ok_l.
    pose proof (kept_trans _ _ _ K1 K2) as K12. pose proof (bits_stored_kept _ _ K2 Hb1) as Hb2.
    destruct ok; [|exists false, o2; done]. destruct (H2 eq_refl) as [G D].
    destruct (fillValue_spec (ends o2) false o2 Hs2 G (bits_stored_values _ Hb2) D) as (o3 & -> & P & S).
    rewrite bind_Ok_l. exists true, (with_intact true o3). split; [done|].
    assert (Hs3 : sized o3) by (by eapply patched_sized).
    split; [destruct Hs3; by constructor|].
    split; [eapply kept_trans; [exact K12|]; eapply kept_trans; [by apply patched_kept|by constructor]|].
    intros _. apply inv_intact. pose proof (kept_ends _ _ (patched_kept _ _ P)) as Ee.
    constructor; [done|rewrite Ee; by eapply graph_patched| |rewrite Ee|by rewrite Ee].
    + rewrite Ee. clear Ee Hs3. destruct P as [-> _ _ _]. destruct D. by constructor.
    + apply (values_kept _ o2); [by apply patched_kept|]. by apply bits_stored_values.
Qed.

(** ** Seeds, rebuilding and resizing *)

(** The counted items are as before; where they hash to may differ. *)
Definition same_items (o o' : ControlPlaneOthello) : Prop :=
  nKeysInOthello o' = nKeysInOthello o /\ forall k, 0 <= k < nKeysInOthello o ->
    rd (cpo_keys o') k = rd (cpo_keys o) k /\ rd (cpo_values o') k = rd (cpo_values o) k.

Lemma same_items_refl o : same_items o o.
Proof. by split. Qed.

Lemma same_items_trans o1 o2 o3 : same_items o1 o2 -> same_items o2 o3 -> same_items o1 o3.
Proof.
  intros [N1 I1] [N2 I2]. split; [congruence|]. intros k Hk.
  destruct (I1 k Hk) as [<- <-]. apply I2. by rewrite N1.
Qed.

Lemma kept_same_items o o' : kept o o' -> same_items o o'.
Proof. intros []. split; [done|]. intros k _. split; congruence. Qed.

Lemma same_items_bits o o' : same_items o o' -> bits_stored o -> bits_stored o'.
Proof.
  intros [N I] Hb k Hk. rewrite N in Hk. destruct (I k Hk) as [_ ->]. by apply Hb.
Qed.

(** What a build leaves, or how it fails. *)
Definition builds (f : ControlPlaneOthello -> res ControlPlaneOthello) : Prop :=
  forall o, sized o -> bits_stored o ->
    (exists o', f o = Ok o' /\ othello_inv o' /\ same_items o o') \/ (exists e, f o = Err e /\ build_fault e).

Lemma try_seeds_spec n o : sized o -> bits_stored o ->
  (exists ok o', try_seeds n o = Ok (ok, o') /\ sized o' /\ same_items o o' /\ (ok = true -> othello_inv o')) \/
  try_seeds n o = Err OutOfFuel.
Proof.
  revert o. induction n as [|n IH]; intros o Hs Hb; cbn [try_seeds].
  - left. exists false, o. split; [done|]. split; [done|]. split; [apply same_items_refl|done].
  - unfold reseed. destruct (rands o) as [|r0 [|r1 r]]; [by right..|]. rewrite bind_Ok_l.
    set (o1 := with_hab (Z.lor (u64 (Z.shiftl r0 32)) r1) r o).
    assert (Hs1 : sized o1) by (destruct Hs; by constructor).
    assert (K1 : same_items o o1) by (by split).
    destruct (tryBuild_spec o1 Hs1 (same_items_bits _ _ K1 Hb)) as (ok & o2 & -> & Hs2 & K2 & H2).
    rewrite bind_Ok_l. pose proof (same_items_trans _ _ _ K1 (kept_same_items _ _ K2)) as K12.
    destruct ok; [left; exists true, o2; by auto|].
    destruct (IH o2 Hs2 (same_items_bits _ _ K12 Hb)) as [(ok & o3 & -> & ? & K3 & ?)|E]; [left|by right].
    exists ok, o3. split; [done|]. split; [done|]. split; [by eapply same_items_trans|done].
Qed.

Lemma round53_lower p : 0 <= p -> p - 2 ^ (Z.log2 p - 52) <= round53 p.
Proof.
  intros Hp. unfold round53. destruct (Z.ltb_spec p (2 ^ 53)) as [|Hge].
  - pose proof (Z.pow_nonneg 2 (Z.log2 p - 52)). lia.
  - assert (53 <= Z.log2 p) by (apply Z.log2_le_pow2; lia).
    cbv zeta. set (s := Z.log2 p - 52). assert (0 < 2 ^ s) by (apply Z.pow_pos_nonneg; unfold s; lia).
    pose proof (Z.div_mod p (2 ^ s)). pose proof (Z.mod_pos_bound p (2 ^ s)).
    destruct (_ || _); nia.
Qed.

Lemma times_1_33334_ge n : 0 < n -> n <= times_1_33334 n.
Proof.
  intros Hn. unfold times_1_33334. set (p := n * 0x15555c52e72da1). apply Z.div_le_lower_bound; [lia|].
  pose proof (round53_lower p). assert (0 < p) by (unfold p; lia).
  destruct (Z.log2_spec p ltac:(lia)) as [Hlog _].
  assert (2 ^ (Z.log2 p - 52) <= 2 * n).
  { destruct (Z.lt_ge_cases (Z.log2 p) 52).
    - rewrite Z.pow_neg_r by lia. lia.
    - assert (2 ^ Z.log2 p = 2 ^ 52 * 2 ^ (Z.log2 p - 52)) as Hsplit
        by (rewrite <-Z.pow_add_r by lia; f_equal; lia).
      change (2 ^ 52) with 4503599627370496 in Hsplit. unfold p in *. lia. }
  change (2 ^ 52) with 4503599627370496. unfold p in *. lia.
Qed.

Lemma lookup_resize_old {A} (l : list A) n x k : (k < length l)%nat -> (length l <= n)%nat ->
  resize n x l !! k = l !! k.
Proof. intros. by rewrite lookup_resize by lia. Qed.

Lemma rd_resize {A} (l : list A) n x k : 0 <= k < Z.of_nat (length l) -> (length l <= n)%nat ->
  rd (resize n x l) k = rd l k.
Proof.
  intros Hk Hn. destruct (rd_in_range l k Hk) as [y Hy]. rewrite Hy. apply rd_Ok in Hy as [_ Hy].
  apply rd_Ok. split; [lia|]. by rewrite lookup_resize_old by lia.
Qed.

(** Room for more keys. *)
Definition extended (n : nat) (o : ControlPlaneOthello) : ControlPlaneOthello :=
  with_lists (cpo_head o) (resize n (0, 0) (nextAtA o)) (resize n (0, 0) (nextAtB o))
    (with_entries (nKeysInOthello o) (resize n 0 (cpo_keys o)) (resize n 0 (cpo_values o)) o).

Lemma extended_sized n o : sized o -> (length (cpo_keys o) <= n)%nat -> Z.of_nat n <= NIL ->
  sized (extended n o) /\ same_items o (extended n o).
Proof.
  intros [] Hl Hn. split.
  - constructor; simpl; rewrite ?length_resize; unfold nodes in *; simpl in *; done || lia.
  - split; [done|]. intros k Hk. simpl. split; apply rd_resize; lia.
Qed.

Lemma extended_ends n o : sized o -> (length (cpo_keys o) <= n)%nat ->
  forall k, ends (extended n o) k = ends o k.
Proof.
  intros Hs Hl k. unfold ends, ends_upto, ends_by. simpl. destruct ((0 <=? k) && _) eqn:Et; [|done].
  apply andb_true_iff in Et as [?%Z.leb_le ?%Z.ltb_lt]. rewrite rd_resize; [done| |done].
  pose proof (sz_n o Hs). lia.
Qed.

Lemma joins_ext E E' k u v : (forall k, E' k = E k) -> joins E' k u v <-> joins E k u v.
Proof. intros H. unfold joins. by setoid_rewrite H. Qed.

Lemma acyclic_ext E E' : (forall k, E' k = E k) -> acyclic E -> acyclic E'.
Proof.
  intros H Hac. apply (acyclic_map E E' id Hac); [|done]. intros k u v. by apply joins_ext.
Qed.

Lemma connected_ext E E' u v : (forall k, E' k = E k) -> connected E u v -> connected E' u v.
Proof. intros H. apply connected_mono. intros k x y Hj. exists k. by apply (joins_ext E E'). Qed.

Lemma dsu_ext E E' o : (forall k, E' k = E k) -> dsu_ok E o -> dsu_ok E' o.
Proof.
  intros H [R S W]. constructor; [done| |].
  - intros k u v Hj. apply (S k). by apply (joins_ext E E').
  - intros i p Hi Hp. apply (connected_ext E E' _ _ H). by apply W.
Qed.

Lemma extended_inv n o : othello_inv o -> (length (cpo_keys o) <= n)%nat -> Z.of_nat n <= NIL ->
  othello_inv (extended n o).
Proof.
  intros [Hs G D V S] Hl Hn. destruct (extended_sized n o Hs Hl Hn) as [Hs' [_ Hi]].
  pose proof (extended_ends n o Hs Hl) as HE.
  assert (Hb : forall k a b, ends o k = Some (a, b) -> 0 <= k < nKeysInOthello o)
    by (intros k a b Hk; by apply ends_upto_Some in Hk as [? _]).
  assert (Hlist : forall u l, list_at (ends o) o u l -> list_at (ends (extended n o)) (extended n o) u l).
  { intros u l ((c & Hc & Hch) & Hnd & Hin). split; [|split; [done|]].
    - exists c. split; [done|].
      assert (Hr : forall k, k ∈ fst <$> l -> 0 <= k < Z.of_nat (length (cpo_keys o))).
      { intros k Hk. destruct Hch as (ce & Hseg & _). pose proof (seg_keys _ _ _ _ Hseg) as Hall.
        rewrite (next_of_length o u Hs) in Hall. exact (proj1 (Forall_forall _ _) Hall k Hk). }
      eapply chain_frame; [|exact Hch]. intros k Hk. apply Hr in Hk. unfold next_of. simpl.
      destruct (u <? cpo_ma o); apply rd_resize; rewrite ?(sz_nextA o Hs), ?(sz_nextB o Hs); lia.
    - intros k v. rewrite Hin. symmetry. by apply joins_ext. }
  constructor; [done|constructor| | |].
  - intros k a b Hk. rewrite HE in Hk. destruct (gr_bip _ _ G k a b Hk) as (? & ? & ?). simpl.
    rewrite length_resize. split; [lia|]. done.
  - intros u Hu. destruct (gr_lists _ _ G u Hu) as (l & Hl'). exists l. by apply Hlist.
  - apply (acyclic_ext (ends o)); [done|apply G].
  - apply (dsu_ext (ends o)); [done|]. destruct D. by constructor.
  - intros k a b Hk. rewrite HE in Hk. destruct (V k a b Hk) as (w & Hw & ?). exists w. split; [|done].
    destruct (Hi k (Hb _ _ _ Hk)) as [_ ->]. done.
  - intros k c d Hk. rewrite HE in Hk. destruct (S k c d Hk) as (w & Hw & ?). exists w. split; [|done].
    destruct (Hi k (Hb _ _ _ Hk)) as [_ ->]. done.
Qed.

(** The arrays for [a] and [b] cells. *)
Definition resized (a b : Z) (o : ControlPlaneOthello) : ControlPlaneOthello :=
  let n := Z.to_nat (a + b) in
  MkCPO (resize (Z.to_nat ((a + b + 63) / 64)) 0 (cpo_mem o)) a b (cpo_hab o)
    (nKeysInOthello o) (cpo_keys o) (cpo_values o) (resize n 0 (indMem o))
    (resize n (0, 0) (cpo_head o)) (nextAtA o) (nextAtB o)
    (DisjointSet.resize_set n (connectivityForest o)) (compact o) false (rands o).

Lemma resized_sized a b o : sized o -> 0 < a -> 0 < b -> a + b < 2 ^ 32 ->
  sized (resized a b o) /\ same_items o (resized a b o).
Proof.
  intros Hs Ha Hb Hab. split; [|by split]. pose proof (sz_mem o Hs) as (Hwords & _ & _). destruct Hs.
  constructor; simpl; unfold nodes, DisjointSet.resize_set in *; simpl in *; rewrite ?length_resize; try done; try lia.
  - split; [|split; [done|]].
    + apply Forall_resize; [unfold is_word; lia|done].
    + rewrite length_resize. pose proof (Z.div_mod (a + b + 63) 64). pose proof (Z.mod_pos_bound (a + b + 63) 64). lia.
  - by apply Forall_resize.
Qed.

Lemma resize_with_eq bld o target force : compact o = true ->
  resize_with bld o target force =
    (let t := Z.max (nKeysInOthello o) (Z.max target 256) in let a := times_1_33334 t in
     _ ← guard_ok (a + t <? 2 ^ 32) Thrown;
     let o1 := if Z.of_nat (length (cpo_keys o)) <? t
               then extended (Z.to_nat (Z.max 256 (u32 (t * 1)))) o else o in
     if (cpo_ma o <? a) || below_0_8 a (cpo_ma o) then bld (resized a t o1)
     else if force then bld o1 else Ok o1).
Proof. intros Hc. unfold resize_with. rewrite Hc. reflexivity. Qed.

(** [resizeCapacity] keeps the items; it leaves the invariant when it builds, and
    keeps it otherwise. *)
Lemma resize_with_spec bld o target force : builds bld -> sized o -> bits_stored o -> target < 2 ^ 32 ->
  force = true \/ othello_inv o ->
  (exists o', resize_with bld o target force = Ok o' /\ othello_inv o' /\ same_items o o') \/
  (exists e, resize_with bld o target force = Err e /\ build_fault e).
Proof.
  intros Hbld Hs Hb Ht Hf. rewrite (resize_with_eq _ _ _ _ (sz_compact o Hs)). cbv zeta.
  pose proof (sz_n o Hs) as Hn. pose proof (sz_keys o Hs) as Hk. unfold NIL in Hk.
  set (t := Z.max (nKeysInOthello o) (Z.max target 256)).
  assert (Hge : t <= times_1_33334 t) by (apply times_1_33334_ge; lia).
  destruct (Z.ltb_spec (times_1_33334 t + t) (2 ^ 32)) as [Hlt|]; cbn [guard_ok];
    [rewrite bind_Ok_l|right; exists Thrown; split; [done|by right]].
  set (n := Z.to_nat (Z.max 256 (u32 (t * 1)))).
  assert (Hnt : Z.of_nat n = t) by (unfold n; rewrite Z.mul_1_r, wrap_id by (unfold is_word; lia); lia).
  set (o1 := if Z.of_nat (length (cpo_keys o)) <? t then extended n o else o).
  assert (sized o1 /\ same_items o o1 /\ (othello_inv o -> othello_inv o1)) as (Hs1 & I1 & Hi1).
  { unfold o1. destruct (Z.ltb_spec (Z.of_nat (length (cpo_keys o))) t) as [Hl|]; [|split; [done|]; by split].
    destruct (extended_sized n o Hs) as [? ?]; [lia|unfold NIL; lia|]. split; [done|]. split; [done|].
    intros Hi. apply extended_inv; [done|lia|unfold NIL; lia]. }
  pose proof (same_items_bits _ _ I1 Hb) as Hb1.
  destruct ((cpo_ma o <? times_1_33334 t) || below_0_8 (times_1_33334 t) (cpo_ma o)).
  - destruct (resized_sized (times_1_33334 t) t o1 Hs1) as [Hs2 I2]; [lia..|].
    destruct (Hbld _ Hs2 (same_items_bits _ _ I2 Hb1)) as [(o' & -> & Hi & I3)|(e & -> & He)]; [left|right; eauto].
    exists o'. split; [done|]. split; [done|]. eapply same_items_trans; [exact I1|]. by eapply same_items_trans.
  - destruct force.
    + destruct (Hbld _ Hs1 Hb1) as [(o' & -> & Hi & I3)|(e & -> & He)]; [left|right; eauto].
      exists o'. split; [done|]. split; [done|]. by eapply same_items_trans.
    + destruct Hf as [?|Hi]; [done|]. left. exists o1. auto.
Qed.

Lemma build_rec_spec fuel : builds (build_rec fuel).
Proof.
  induction fuel as [|fuel IH]; intros o Hs Hb; cbn [build_rec].
  { right. exists OutOfFuel. split; [done|by left]. }
  destruct (try_seeds_spec MAX_REHASH o Hs Hb) as [(ok & o1 & -> & Hs1 & I1 & H1)| ->];
    [rewrite bind_Ok_l|right; exists OutOfFuel; split; [done|by left]].
  destruct ok.
  { left. exists (with_intact true o1). split; [done|]. split; [by apply inv_intact, H1|].
    eapply same_items_trans; [exact I1|by split]. }
  pose proof (same_items_bits _ _ I1 Hb) as Hb1.
  destruct (resize_with_spec (build_rec fuel) o1 (u32 (times_1_33 (Z.of_nat (length (cpo_keys o1))))) true IH Hs1 Hb1)
    as [(o2 & -> & Hi2 & I2)|(e & -> & He)]; [apply wrap_is_word; lia|by left| |by right; exists e].
  rewrite bind_Ok_l. pose proof (same_items_trans _ _ _ I1 I2) as I12.
  destruct (IH o2 (oi_sized o2 Hi2) (same_items_bits _ _ I12 Hb)) as [(o3 & -> & Hi3 & I3)|(e & -> & He)].
  - left. exists o3. split; [done|]. split; [done|]. by eapply same_items_trans.
  - by right; exists e.
Qed.

Lemma build_spec : builds build.
Proof. intros o. apply build_rec_spec. Qed.

(** The first seed that separates the keys ends a build. *)
Lemma build_first_seed o r0 r1 r : sized o -> bits_stored o -> rands o = r0 :: r1 :: r ->
  forall o1, tryBuild (with_hab (Z.lor (u64 (Z.shiftl r0 32)) r1) r o) = Ok (true, o1) ->
  build o = Ok (with_intact true o1).
Proof.
  intros Hs Hb Hr o1 E. unfold build. cbn [build_rec]. unfold MAX_REHASH. cbn [try_seeds].
  unfold reseed. rewrite Hr, bind_Ok_l, E. reflexivity.
Qed.
