(* ===== verification/OthelloOps.v ===== *)
(** * Lookups, changes and insertions of the Othello control plane

    On states with the invariant: lookups are exact on members, membership is
    decided, and changing a value and inserting a key (OthelloCP.v) do exactly
    that. *)

From Stdlib Require Import ZArith Lia.
From stdpp Require Import base numbers list gmap relations.
From S2P Require Import Prelude Words Hash OthelloMem LudoTable Forest UnionFind OthelloCP OthelloInv OthelloBuild.

#[local] Open Scope Z_scope.

(** ** The contents *)

Definition item (o : ControlPlaneOthello) (i k w : Z) : Prop :=
  0 <= i < nKeysInOthello o /\ rd (cpo_keys o) i = Ok k /\ rd (cpo_values o) i = Ok w.

Definition othello_map (o : ControlPlaneOthello) : gmap Z Z :=
  let n := Z.to_nat (nKeysInOthello o) in list_to_map (zip (take n (cpo_keys o)) (take n (cpo_values o))).

Lemma ends_item o i k w : item o i k w -> ends o i = Some (nodes_of o k).
Proof. intros (Hi & Hk & _). apply ends_upto_Some. split; [done|]. by exists k. Qed.

Lemma lookUpIndex_total o k : sized o -> lookUpIndex o k =
  Ok (Z.lxor (ind o (fst (nodes_of o k))) (ind o (snd (nodes_of o k)))).
Proof.
  intros Hs. pose proof (nodes_range o k Hs) as [Ha Hb]. unfold lookUpIndex.
  destruct (nodes_of o k) as [a b]. cbn [fst snd] in *. pose proof (sz_ind o Hs) as Hl.
  pose proof (sz_ma o Hs). pose proof (sz_mb o Hs). unfold nodes in *.
  rewrite (ind_get (indMem o) a), bind_Ok_l, (ind_get (indMem o) b), bind_Ok_l by lia. done.
Qed.

Lemma lookUpIndex_item o i k w : othello_inv o -> item o i k w -> lookUpIndex o k = Ok i.
Proof.
  intros Hi Hit. rewrite (lookUpIndex_total o k (oi_sized o Hi)). pose proof (ends_item _ _ _ _ Hit) as He.
  destruct (nodes_of o k) as [a b]. destruct (oi_sums o Hi i a b He) as (? & _ & _ & H).
  cbn [fst snd]. f_equal. exact H.
Qed.

Lemma othello_item_fun o i j k w v : othello_inv o -> item o i k w -> item o j k v -> i = j /\ w = v.
Proof.
  intros Hi H1 H2. pose proof (lookUpIndex_item _ _ _ _ Hi H1) as E1.
  pose proof (lookUpIndex_item _ _ _ _ Hi H2) as E2. assert (i = j) as -> by congruence.
  split; [done|]. destruct H1 as (_ & _ & ?), H2 as (_ & _ & ?). congruence.
Qed.

Lemma item_values o i k : othello_inv o -> 0 <= i < nKeysInOthello o -> rd (cpo_keys o) i = Ok k ->
  exists w, item o i k w /\ 0 <= w < 2.
Proof.
  intros Hi Hr Hk. destruct (values_bits_stored o (oi_sized o Hi) (oi_values o Hi) i Hr) as (w & Hw & ?).
  by exists w.
Qed.

Lemma lookup_take_Some {A} (l : list A) n i x : take n l !! i = Some x <-> (i < n)%nat /\ l !! i = Some x.
Proof.
  rewrite lookup_take. destruct (decide (i < n)%nat); naive_solver lia.
Qed.

Lemma keys_nodup o : othello_inv o -> NoDup (take (Z.to_nat (nKeysInOthello o)) (cpo_keys o)).
Proof.
  intros Hi. apply NoDup_alt. intros i j k Hik Hjk.
  apply lookup_take_Some in Hik as [Hin Hik]. apply lookup_take_Some in Hjk as [Hjn Hjk].
  destruct (item_values o (Z.of_nat i) k Hi) as (w & Hw & _); [lia|by apply rd_Ok; rewrite Nat2Z.id; split; [lia|]|].
  destruct (item_values o (Z.of_nat j) k Hi) as (v & Hv & _); [lia|by apply rd_Ok; rewrite Nat2Z.id; split; [lia|]|].
  destruct (othello_item_fun _ _ _ _ _ _ Hi Hw Hv). lia.
Qed.

Lemma othello_map_item o k w : othello_inv o -> othello_map o !! k = Some w <-> exists i, item o i k w.
Proof.
  intros Hi. unfold othello_map. set (n := Z.to_nat (nKeysInOthello o)).
  assert (Hlen : length (take n (cpo_keys o)) = length (take n (cpo_values o)))
    by (rewrite !length_take; by rewrite (sz_values o (oi_sized o Hi))).
  rewrite <-elem_of_list_to_map by (rewrite fst_zip by lia; by apply keys_nodup).
  rewrite list_elem_of_lookup. setoid_rewrite lookup_zip_Some. setoid_rewrite lookup_take_Some.
  pose proof (sz_n o (oi_sized o Hi)). unfold item. setoid_rewrite rd_Ok. split.
  - intros (i & [? ?] & [? ?]). exists (Z.of_nat i). rewrite Nat2Z.id. unfold n in *.
    split; [lia|]. split; (split; [lia|done]).
  - intros (i & Hr & [_ ?] & [_ ?]). exists (Z.to_nat i). unfold n. split; (split; [lia|done]).
Qed.

Lemma othello_map_bits o k w : othello_inv o -> othello_map o !! k = Some w -> w = 0 \/ w = 1.
Proof.
  intros Hi H. apply othello_map_item in H as (i & Hr & Hk & Hw); [|done].
  destruct (values_bits_stored o (oi_sized o Hi) (oi_values o Hi) i Hr) as (w' & Hw' & ?).
  assert (w' = w) as -> by congruence. lia.
Qed.

Lemma cpo_isMember_spec o k : othello_inv o ->
  cpo_isMember o k = Ok (bool_decide (is_Some (othello_map o !! k))).
Proof.
  intros Hi. pose proof (oi_sized o Hi) as Hs. unfold cpo_isMember. rewrite (lookUpIndex_total o k Hs), bind_Ok_l.
  set (i := Z.lxor _ _). assert (0 <= i) by (apply lxor_nonneg'; by apply ind_nonneg).
  assert (Hmem : forall w j, item o j k w -> j = i).
  { intros w j Hj. pose proof (lookUpIndex_item _ _ _ _ Hi Hj) as E. rewrite (lookUpIndex_total o k Hs) in E.
    apply Ok_inj in E. by rewrite <-E. }
  pose proof (sz_n o Hs). destruct (Z.ltb_spec i (nKeysInOthello o)) as [Hlt|Hge].
  - destruct (rd_in_range (cpo_keys o) i) as [k' Hk']; [lia|]. rewrite Hk', bind_Ok_l. f_equal.
    apply eq_true_iff_eq. rewrite Z.eqb_eq, bool_decide_eq_true. split.
    + intros ->. destruct (item_values o i k Hi ltac:(lia) Hk') as (w & Hw & _). exists w.
      apply othello_map_item; [done|]. by exists i.
    + intros [w Hw]. apply othello_map_item in Hw as (j & Hj); [|done].
      pose proof (Hmem _ _ Hj) as ->. destruct Hj as (_ & ? & _). congruence.
  - f_equal. symmetry. apply bool_decide_eq_false. intros [w Hw].
    apply othello_map_item in Hw as (j & Hj); [|done]. pose proof (Hmem _ _ Hj) as ->. destruct Hj. lia.
Qed.

Lemma bit_read o u : sized o -> 0 <= u < nodes o -> memGet 1 0 u (cpo_mem o) = Ok (bit o u).
Proof. intros Hs Hu. by destruct (bit_get _ _ _ (sz_mem o Hs) Hu). Qed.

Lemma cpo_lookUp_item o i k w : othello_inv o -> item o i k w -> cpo_lookUp o k = Ok w.
Proof.
  intros Hi Hit. pose proof (oi_sized o Hi) as Hs. pose proof (ends_item _ _ _ _ Hit) as He.
  pose proof (nodes_range o k Hs) as [Ha Hb]. unfold cpo_lookUp. destruct (nodes_of o k) as [a b].
  cbn [fst snd] in *. destruct (oi_sums o Hi i a b He) as (w' & Hw' & H & _).
  destruct Hit as (Hr & _ & Hw). assert (w' = w) as -> by congruence.
  pose proof (sz_ma o Hs). pose proof (sz_mb o Hs). unfold nodes in *.
  rewrite (bit_read o a Hs), bind_Ok_l, (bit_read o b Hs), bind_Ok_l by (unfold nodes; lia).
  unfold bits_of in H. rewrite H, Z.shiftr_0_r.
  destruct (values_bits_stored o Hs (oi_values o Hi) i Hr) as (w' & Hw2 & ?).
  assert (w' = w) as -> by congruence. rewrite wrap_id; [done|]. unfold is_word. lia.
Qed.

(** ** Half trees are computed *)

Lemma foldM_total {A B} (f : A -> B -> res A) l a : (forall a b, exists a', f a b = Ok a') ->
  exists a', foldM f l a = Ok a'.
Proof.
  intros Hf. revert a. induction l as [|b l IH]; intros a; simpl; [by exists a|].
  destruct (Hf a b) as [a' ->]. cbn [mbind res_bind]. apply IH.
Qed.

Lemma getHalfTree_total o k fromA pre : othello_inv o -> exists l, getHalfTree o k fromA pre = Ok l.
Proof.
  intros Hi. pose proof (oi_sized o Hi) as Hs. pose proof (nodes_range o k Hs) as [Ha Hb]. unfold getHalfTree.
  destruct (nodes_of o k) as [a b] eqn:Eab. rewrite (lookUpIndex_total o k Hs), bind_Ok_l, Eab.
  cbn [fst snd] in *. pose proof (sz_ma o Hs). pose proof (sz_mb o Hs).
  edestruct (traverse_spec (ends o) o Hs (oi_graph o Hi) o
    (fun _ v _ result => Ok (result ++ [v])) (Z.lxor (ind o a) (ind o b)) (if fromA then a else b))
    as (vs & -> & _); [by apply patched_refl|unfold nodes in *; destruct fromA; lia|].
  apply foldM_total. intros l [[? ?] ?]. unfold run. eauto.
Qed.

(** ** Changing a value *)

Lemma map_insert_eq o o' k w : othello_inv o -> othello_inv o' ->
  (forall k' w', (exists i, item o' i k' w') <-> (k' = k /\ w' = w) \/ (k' <> k /\ exists i, item o i k' w')) ->
  othello_map o' = <[k := w]> (othello_map o).
Proof.
  intros Hi Hi' H. apply map_eq. intros k'. apply option_eq. intros w'.
  rewrite (othello_map_item o' k' w' Hi'), H, lookup_insert_Some, (othello_map_item o k' w' Hi). naive_solver.
Qed.

Lemma map_delete_eq o o' k : othello_inv o -> othello_inv o' ->
  (forall k' w', (exists i, item o' i k' w') <-> k' <> k /\ exists i, item o i k' w') ->
  othello_map o' = delete k (othello_map o).
Proof.
  intros Hi Hi' H. apply map_eq. intros k'. apply option_eq. intros w'.
  rewrite (othello_map_item o' k' w' Hi'), H, lookup_delete_Some, (othello_map_item o k' w' Hi). naive_solver.
Qed.

Lemma same_items_item o o' i k w : same_items o o' -> item o' i k w <-> item o i k w.
Proof.
  intros [N I]. unfold item. rewrite N. split; intros (Hr & Hk & Hw); destruct (I i Hr) as [E1 E2];
    (split; [done|]); split; congruence.
Qed.

Lemma map_same_eq o o' : othello_inv o -> othello_inv o' -> same_items o o' -> othello_map o' = othello_map o.
Proof.
  intros Hi Hi' H. apply map_eq. intros k. apply option_eq. intros w.
  rewrite (othello_map_item o' k w Hi'), (othello_map_item o k w Hi). by setoid_rewrite (same_items_item o o' _ k w H).
Qed.

(** The state in which [values[i]] was overwritten. *)
Definition set_value_at (vs : list Z) (o : ControlPlaneOthello) : ControlPlaneOthello :=
  with_entries (nKeysInOthello o) (cpo_keys o) vs o.

Lemma change_spec o i k w w' vs : othello_inv o -> item o i k w -> 0 <= w' < 2 ->
  wr (cpo_values o) i w' = Ok vs ->
  exists o' x, fixHalfTreeDFS true false true i (fst (nodes_of o k)) (snd (nodes_of o k)) (set_value_at vs o)
    = Ok (o', x) /\ othello_inv o' /\ othello_map o' = <[k := w']> (othello_map o).
Proof.
  intros Hi Hit Hw' Hvs. pose proof (oi_sized o Hi) as Hs. pose proof (ends_item _ _ _ _ Hit) as He.
  pose proof (wr_length _ _ _ _ Hvs) as Hl. set (o1 := set_value_at vs o).
  assert (Hs1 : sized o1) by (destruct Hs; constructor; try done; simpl; congruence).
  assert (G1 : graph_ok (ends o) o1) by (destruct (oi_graph o Hi); by constructor).
  destruct (nodes_of o k) as [a b]. cbn [fst snd].
  destruct (fixHalfTree_spec (ends o) o1 Hs1 G1 true false true i a b w' He) as (o' & x & E & P & _ & HB & HI & _).
  { simpl. by eapply rd_wr_eq. } { done. }
  exists o', x. split; [done|]. specialize (HB eq_refl). specialize (HI eq_refl).
  pose proof (patched_kept _ _ P) as K. pose proof (kept_ends _ _ K) as Ee. change (ends o1) with (ends o) in Ee.
  assert (Hvals : cpo_values o' = vs) by (by rewrite (kp_values _ _ K)).
  assert (Hinv : othello_inv o').
  { constructor; rewrite ?Ee; [by eapply patched_sized|by eapply graph_patched| | |].
    - clear - P Hi. destruct P as [-> _ _ _]. destruct (oi_dsu o Hi). by constructor.
    - intros j c d Hj. rewrite Hvals. destruct (decide (j = i)) as [->|Hne].
      + exists w'. split; [by eapply rd_wr_eq|done].
      + rewrite (rd_wr_ne _ _ _ _ _ Hvs) by congruence. by apply (oi_values o Hi j c d).
    - intros j c d Hj. unfold filled. rewrite Hvals, (HB j c d Hj). unfold inds_of. rewrite !HI.
      destruct (oi_sums o Hi j c d Hj) as (v & Hv & Hbv & Hiv).
      destruct (Z.eqb_spec j i) as [->|Hne].
      + exists w'. split; [by eapply rd_wr_eq|]. split; [done|exact Hiv].
      + exists v. rewrite (rd_wr_ne _ _ _ _ _ Hvs) by congruence. split; [done|]. split; [exact Hbv|exact Hiv]. }
  split; [done|]. apply map_insert_eq; [done..|]. intros k' v'. unfold item.
  rewrite Hvals, (kp_n _ _ K), (kp_keys _ _ K). change (nKeysInOthello o1) with (nKeysInOthello o).
  change (cpo_keys o1) with (cpo_keys o). destruct Hit as (Hr & Hk & Hw). split.
  - intros (j & Hj & Hk' & Hv'). destruct (decide (j = i)) as [->|Hne].
    + left. split; [congruence|]. rewrite (rd_wr_eq _ _ _ _ Hvs) in Hv'. congruence.
    + right. rewrite (rd_wr_ne _ _ _ _ _ Hvs) in Hv' by congruence. split; [|by exists j].
      intros ->. apply Hne. by destruct (othello_item_fun o j i k v' w Hi).
  - intros [[-> ->]|(Hne & j & Hj & Hk' & Hv')].
    + exists i. split; [done|]. split; [done|]. by eapply rd_wr_eq.
    + exists j. split; [done|]. split; [done|]. rewrite (rd_wr_ne _ _ _ _ _ Hvs); [done|]. intros ->. congruence.
Qed.

Lemma member_item o k w : othello_inv o -> othello_map o !! k = Some w ->
  exists i, item o i k w /\ cpo_isMember o k = Ok true /\ lookUpIndex o k = Ok i.
Proof.
  intros Hi H. pose proof H as (i & Hit)%othello_map_item; [|done]. exists i. split; [done|].
  rewrite cpo_isMember_spec, H by done. split; [by rewrite bool_decide_eq_true_2|].
  by eapply lookUpIndex_item.
Qed.

Lemma cpo_changeValue_spec o k w w' : othello_inv o -> othello_map o !! k = Some w -> 0 <= w' < 2 ->
  exists r o', cpo_changeValue o k w' = Ok (r, o') /\ othello_inv o' /\ o_status r = 0 /\
    othello_map o' = <[k := w']> (othello_map o).
Proof.
  intros Hi Hm Hw'. destruct (member_item o k w Hi Hm) as (i & Hit & Hmem & Hidx).
  pose proof Hit as (Hr & Hk & Hw). unfold cpo_changeValue, changeValueAt.
  rewrite Hmem, bind_Ok_l. cbn [guard_ok]. rewrite bind_Ok_l, Hidx, bind_Ok_l.
  rewrite (proj2 (Z.ltb_lt i _)) by lia. cbn [guard_ok]. rewrite bind_Ok_l.
  pose proof (wr_in_range _ _ w' (rd_range _ _ _ Hw)) as Hvs. rewrite Hvs, bind_Ok_l, Hk, bind_Ok_l.
  destruct (change_spec o i k w w' _ Hi Hit Hw' Hvs) as (o' & x & E & Hi' & Hmap).
  destruct (nodes_of o k) as [a b]. cbn [fst snd] in E. unfold set_value_at in E. rewrite E, bind_Ok_l.
  assert (exists cc, (if x =? 0 then Ok [] else changed_cells o' k x) = Ok cc) as [cc ->].
  { destruct (x =? 0); [by exists []|]. exact (getHalfTree_total o' k (0 <? x) false Hi'). }
  rewrite bind_Ok_l. eexists _, o'. split; [reflexivity|]. split; [exact Hi'|]. split; [reflexivity|exact Hmap].
Qed.

Lemma toggleInOthello_spec o k w : othello_inv o -> othello_map o !! k = Some w ->
  exists r o', toggleInOthello o k = Ok (r, o') /\ othello_inv o' /\ o_status r = 0 /\
    othello_map o' = <[k := 1 - w]> (othello_map o).
Proof.
  intros Hi Hm. destruct (member_item o k w Hi Hm) as (i & Hit & Hmem & Hidx).
  pose proof Hit as (Hr & Hk & Hw). unfold toggleInOthello.
  rewrite Hmem, bind_Ok_l. cbn [guard_ok]. rewrite bind_Ok_l, Hidx, bind_Ok_l, Hw, bind_Ok_l.
  pose proof (othello_map_bits o k w Hi Hm) as Hb.
  assert ((if w =? 0 then 1 else 0) = 1 - w) as -> by (destruct Hb as [->| ->]; done).
  pose proof (wr_in_range _ _ (1 - w) (rd_range _ _ _ Hw)) as Hvs. rewrite Hvs, bind_Ok_l.
  destruct (change_spec o i k w (1 - w) _ Hi Hit ltac:(lia) Hvs) as (o' & x & E & Hi' & Hmap).
  destruct (nodes_of o k) as [a b]. cbn [fst snd] in E. unfold set_value_at in E. rewrite E, bind_Ok_l.
  destruct (getHalfTree_total o' k (0 <? x) false Hi') as [cc Hcc].
  unfold changed_cells. rewrite Hcc, bind_Ok_l. eexists _, o'. split; [reflexivity|]. split; [exact Hi'|]. split; [reflexivity|exact Hmap].
Qed.

(** ** Inserting *)

(** What a call that inserts [k] may leave. *)
Definition inserted (o : ControlPlaneOthello) (k v : Z) (online : bool) (r : OthelloUpdateResult)
    (o' : ControlPlaneOthello) : Prop :=
  othello_inv o' /\
  ((0 <= o_status r /\ othello_map o' = <[k := v]> (othello_map o)) \/
   (online = true /\ o_status r < 0 /\ othello_map o' = othello_map o)).

Lemma append_spec o m k v : sized o -> nKeysInOthello o < Z.of_nat (length (cpo_keys o)) ->
  nKeysInOthello o <= m <= nKeysInOthello o + 1 ->
  exists o', append_key m k v o = Ok o' /\ sized o' /\ nKeysInOthello o' = m /\
    rd (cpo_keys o') (nKeysInOthello o) = Ok k /\ rd (cpo_values o') (nKeysInOthello o) = Ok v /\
    (forall i, i <> nKeysInOthello o -> rd (cpo_keys o') i = rd (cpo_keys o) i /\
       rd (cpo_values o') i = rd (cpo_values o) i) /\
    o' = with_entries m (cpo_keys o') (cpo_values o') o /\ length (cpo_keys o') = length (cpo_keys o).
Proof.
  intros Hs Hn Hm. pose proof (sz_n o Hs) as Hn0. unfold append_key.
  pose proof (wr_in_range (cpo_keys o) (nKeysInOthello o) k ltac:(lia)) as Hk. rewrite Hk, bind_Ok_l.
  pose proof (wr_in_range (cpo_values o) (nKeysInOthello o) v ltac:(rewrite (sz_values o Hs); lia)) as Hv.
  rewrite Hv, bind_Ok_l. eexists. split; [reflexivity|]. simpl.
  split; [|split; [done|split; [by eapply rd_wr_eq|split; [by eapply rd_wr_eq|split; [|split]]]]].
  - destruct Hs. constructor; simpl; rewrite ?length_insert; unfold nodes in *; simpl in *; done || lia.
  - intros i Hi. by rewrite (rd_wr_ne _ _ _ _ _ Hk), (rd_wr_ne _ _ _ _ _ Hv) by congruence.
  - done.
  - apply length_insert.
Qed.

(** The graph and the items with the appended key. *)
Lemma append_ends o o' k : sized o ->
  cpo_ma o' = cpo_ma o -> cpo_mb o' = cpo_mb o -> cpo_hab o' = cpo_hab o ->
  rd (cpo_keys o') (nKeysInOthello o) = Ok k ->
  (forall i, i <> nKeysInOthello o -> rd (cpo_keys o') i = rd (cpo_keys o) i) ->
  ends_upto o' (nKeysInOthello o + 1) (nKeysInOthello o) = Some (nodes_of o k) /\
  forall i, i <> nKeysInOthello o -> ends_upto o' (nKeysInOthello o + 1) i = ends o i.
Proof.
  intros Hs Ea Eb Eh Hk Hoth. pose proof (sz_n o Hs). split.
  - apply ends_upto_Some. split; [lia|]. exists k. split; [done|].
    unfold nodes_of, getIndices, common. simpl. by rewrite Ea, Eb, Eh.
  - intros i Hi. unfold ends, ends_upto, ends_by. rewrite Ea, Eb, Eh, (Hoth i Hi).
    replace (i <? nKeysInOthello o + 1) with (i <? nKeysInOthello o); [done|].
    destruct (Z.ltb_spec i (nKeysInOthello o)), (Z.ltb_spec i (nKeysInOthello o + 1)); lia || done.
Qed.

Lemma append_map o o' k v : othello_inv o -> othello_inv o' -> othello_map o !! k = None ->
  nKeysInOthello o' = nKeysInOthello o + 1 ->
  rd (cpo_keys o') (nKeysInOthello o) = Ok k -> rd (cpo_values o') (nKeysInOthello o) = Ok v ->
  (forall i, 0 <= i < nKeysInOthello o -> rd (cpo_keys o') i = rd (cpo_keys o) i /\
     rd (cpo_values o') i = rd (cpo_values o) i) ->
  othello_map o' = <[k := v]> (othello_map o).
Proof.
  intros Hi Hi' Hnew Hn Hk Hv Hoth. pose proof (sz_n o (oi_sized o Hi)).
  apply map_insert_eq; [done..|]. intros k' w'. unfold item at 1. rewrite Hn. split.
  - intros (i & Hr & Hk' & Hw'). destruct (decide (i = nKeysInOthello o)) as [->|Hne].
    + left. split; congruence.
    + right. destruct (Hoth i ltac:(lia)) as [E1 E2]. rewrite E1 in Hk'. rewrite E2 in Hw'.
      assert (item o i k' w') as Hit by (split; [lia|done]). split; [|by exists i].
      intros ->. assert (othello_map o !! k = Some w') as Hm by (apply othello_map_item; [done|by exists i]).
      congruence.
  - intros [[-> ->]|(Hne & i & Hr & Hk' & Hw')].
    + exists (nKeysInOthello o). split; [lia|done].
    + exists i. destruct (Hoth i Hr) as [E1 E2]. split; [lia|]. split; congruence.
Qed.

(** The new key is stored and its edge added, its cells not yet fixed. *)
Record edge_added (o : ControlPlaneOthello) (k v : Z) (o3 : ControlPlaneOthello) : Prop := {
  ea_sized : sized o3;
  ea_graph : graph_ok (ends_upto o3 (nKeysInOthello o + 1)) o3;
  ea_dsu : dsu_ok (ends_upto o3 (nKeysInOthello o + 1)) o3;
  ea_new : ends_upto o3 (nKeysInOthello o + 1) (nKeysInOthello o) = Some (nodes_of o k);
  ea_old : forall i, i <> nKeysInOthello o -> ends_upto o3 (nKeysInOthello o + 1) i = ends o i;
  ea_key : rd (cpo_keys o3) (nKeysInOthello o) = Ok k;
  ea_value : rd (cpo_values o3) (nKeysInOthello o) = Ok v;
  ea_others : forall i, i <> nKeysInOthello o -> rd (cpo_keys o3) i = rd (cpo_keys o) i /\
    rd (cpo_values o3) i = rd (cpo_values o) i;
  ea_mem : cpo_mem o3 = cpo_mem o;
  ea_ind : indMem o3 = indMem o;
  ea_room : nKeysInOthello o < Z.of_nat (length (cpo_keys o3));
}.

Lemma add_key_edge o f k v ra rb : othello_inv o ->
  nKeysInOthello o < Z.of_nat (length (cpo_keys o)) -> refined (connectivityForest o) f ->
  root f (fst (nodes_of o k)) ra -> root f (snd (nodes_of o k)) rb -> ra <> rb ->
  exists o2 o3, append_key (nKeysInOthello o) k v (with_forest f o) = Ok o2 /\
    addEdge (nKeysInOthello o) (fst (nodes_of o k)) (snd (nodes_of o k)) o2 = Ok o3 /\ edge_added o k v o3.
Proof.
  intros Hi Hcap Hf Hra Hrb Hne. pose proof (oi_sized o Hi) as Hs.
  pose proof (nodes_range o k Hs) as [Ha Hb]. destruct (nodes_of o k) as [ha hb] eqn:Eab.
  cbn [fst snd] in *. set (n := nKeysInOthello o) in *. pose proof (sz_n o Hs) as Hn.
  pose proof (sized_forest o f Hs (proj1 Hf)) as Hs1.
  destruct (append_spec (with_forest f o) n k v Hs1 Hcap) as (o2 & E2 & Hs2 & N2 & K2 & V2 & Oth & Eq2 & L2);
    [simpl; unfold n; lia|]. simpl in K2, V2, Oth, L2. fold n in K2, V2, Oth.
  assert (Hcom : cpo_ma o2 = cpo_ma o /\ cpo_mb o2 = cpo_mb o /\ cpo_hab o2 = cpo_hab o /\
    connectivityForest o2 = f /\ cpo_mem o2 = cpo_mem o /\ indMem o2 = indMem o) by (by rewrite Eq2).
  destruct Hcom as (Ea & Eb & Eh & Ef & Em & Ei).
  assert (G2 : graph_ok (ends o) o2).
  { destruct (oi_graph o Hi) as [B L A]. constructor; [|rewrite Eq2; intros u Hu; exact (L u Hu)|done].
    intros j a b Hj. destruct (B j a b Hj) as (? & ? & ? & ?). unfold nodes in *. rewrite L2, Ea, Eb. done. }
  assert (D2 : dsu_ok (ends o) o2).
  { pose proof (dsu_refined (ends o) o f (oi_dsu o Hi) Hf) as []. constructor; by rewrite Ef. }
  destruct (append_ends o o2 k Hs Ea Eb Eh K2) as [Hnend Hoend]; [intros i Hin; by apply Oth|].
  rewrite Eab in Hnend. fold n in Hnend, Hoend.
  assert (Hnone : ends o n = None).
  { destruct (ends o n) eqn:En; [|done]. apply ends_upto_Some in En as [? _]. unfold n in *. lia. }
  assert (Hnodes : nodes o2 = nodes o) by (unfold nodes; by rewrite Ea, Eb).
  destruct (addEdge_spec (ends o) (ends_upto o2 (n + 1)) o2 n ha hb Hs2 G2 D2 Hoend Hnone Hnend)
    with (ra := ra) (rb := rb) as (o3 & E3 & Hs3 & G3 & D3 & Eq3).
  { rewrite L2. unfold n in *. lia. } { pose proof (sz_keys o Hs). unfold n in *. lia. }
  { by rewrite Ea. } { by rewrite Ea, Hnodes. } { by rewrite Ef. } { by rewrite Ef. } { exact Hne. }
  exists o2, o3. split; [done|]. split; [done|]. destruct (relisted_kept _ _ Eq3) as [K3 _].
  pose proof (kept_ends_upto _ _ K3) as Ee.
  constructor; rewrite ?Ee, ?(kp_keys _ _ K3), ?(kp_values _ _ K3), ?Eab; try done.
  - by rewrite Eq3.
  - by rewrite Eq3.
  - rewrite L2. unfold n in *. lia.
Qed.

(** The acyclic case: no rebuild, whatever [DoNotRebuild]. *)
Lemma insert_acyclic o k v o3 : othello_inv o -> othello_map o !! k = None -> 0 <= v < 2 ->
  edge_added o k v o3 ->
  exists o4 x, fixHalfTreeDFS true true false (nKeysInOthello o) (fst (nodes_of o k)) (snd (nodes_of o k)) o3
      = Ok (o4, x) /\
    let o5 := with_entries (nKeysInOthello o + 1) (cpo_keys o4) (cpo_values o4) o4 in
    othello_inv o5 /\ othello_map o5 = <[k := v]> (othello_map o).
Proof.
  intros Hi Hnew Hv []. destruct (nodes_of o k) as [ha hb]. cbn [fst snd]. set (n := nKeysInOthello o) in *.
  pose proof (sz_n o (oi_sized o Hi)) as Hn. set (E' := ends_upto o3 (n + 1)) in *.
  destruct (fixHalfTree_spec E' o3 ea_sized0 ea_graph0 true true false n ha hb v ea_new0 ea_value0 Hv)
    as (o4 & x & E4 & P4 & _ & HB & _ & HI).
  specialize (HB eq_refl). specialize (HI eq_refl). exists o4, x. split; [done|].
  pose proof (patched_kept _ _ P4) as K4. pose proof (patched_sized _ _ ea_sized0 P4) as Hs4.
  set (o5 := with_entries (n + 1) (cpo_keys o4) (cpo_values o4) o4). cbv zeta.
  assert (Eends : ends o5 = E').
  { unfold ends, E', ends_upto, o5. simpl. by rewrite (kp_ma _ _ K4), (kp_mb _ _ K4), (kp_hab _ _ K4), (kp_keys _ _ K4). }
  assert (Hinv : othello_inv o5).
  { constructor; rewrite ?Eends.
    - destruct Hs4. constructor; simpl; try done. rewrite (kp_keys _ _ K4). unfold n in *. lia.
    - pose proof (graph_patched E' _ _ P4 ea_graph0) as []. by constructor.
    - clear Eends E4 HB HI K4 Hs4. subst o5. destruct P4 as [-> _ _ _]. destruct ea_dsu0. by constructor.
    - intros j c d Hj. simpl. rewrite (kp_values _ _ K4). destruct (decide (j = n)) as [->|Hne]; [by exists v|].
      rewrite (ea_old0 j Hne) in Hj. destruct (ea_others0 j Hne) as [_ ->]. by apply (oi_values o Hi j c d).
    - intros j c d Hj. unfold filled. change (cpo_values o5) with (cpo_values o4). rewrite (kp_values _ _ K4).
      change (bits_of o5 c d) with (bits_of o4 c d). change (inds_of o5 c d) with (inds_of o4 c d).
      rewrite (HB j c d Hj), (HI j c d Hj). destruct (Z.eqb_spec j n) as [->|Hne]; [by exists v|].
      rewrite (ea_old0 j Hne) in Hj. destruct (ea_others0 j Hne) as [_ ->].
      destruct (oi_sums o Hi j c d Hj) as (w & Hw & Hb & Hx). exists w. split; [done|].
      unfold bits_of, inds_of, bit, ind. rewrite ea_mem0, ea_ind0. done. }
  assert (Hk5 : cpo_keys o5 = cpo_keys o3) by exact (kp_keys _ _ K4).
  assert (Hv5 : cpo_values o5 = cpo_values o3) by exact (kp_values _ _ K4).
  split; [done|]. apply append_map; [done..|reflexivity| | |].
  - by rewrite Hk5.
  - by rewrite Hv5.
  - intros i Hir. rewrite Hk5, Hv5. apply ea_others0. unfold n in *. lia.
Qed.

(** The cyclic case: the key is stored and everything rebuilt. *)
Lemma insert_cyclic o f k v : othello_inv o -> othello_map o !! k = None -> 0 <= v < 2 ->
  nKeysInOthello o < Z.of_nat (length (cpo_keys o)) -> length f = length (connectivityForest o) ->
  exists o2, append_key (nKeysInOthello o + 1) k v (with_forest f o) = Ok o2 /\
    ((exists o3, build o2 = Ok o3 /\ othello_inv o3 /\ othello_map o3 = <[k := v]> (othello_map o)) \/
     exists e, build o2 = Err e /\ build_fault e).
Proof.
  intros Hi Hnew Hv Hcap Hf. pose proof (oi_sized o Hi) as Hs. pose proof (sz_n o Hs) as Hn.
  destruct (append_spec (with_forest f o) (nKeysInOthello o + 1) k v (sized_forest o f Hs Hf) Hcap)
    as (o2 & E2 & Hs2 & N2 & K2 & V2 & Oth & _); [simpl; lia|]. simpl in *.
  exists o2. split; [done|]. destruct (build_spec o2 Hs2) as [(o3 & -> & Hi3 & N3 & I3)|?]; [|left|by right].
  - intros i Hir. rewrite N2 in Hir. destruct (decide (i = nKeysInOthello o)) as [->|Hne]; [by exists v|].
    destruct (Oth i Hne) as [_ ->]. apply (values_bits_stored o Hs (oi_values o Hi)). lia.
  - exists o3. split; [done|]. split; [done|]. rewrite N2 in I3.
    apply append_map; [done..|by rewrite N3| | |].
    + destruct (I3 (nKeysInOthello o)) as [-> _]; [lia|done].
    + destruct (I3 (nKeysInOthello o)) as [_ ->]; [lia|done].
    + intros i Hir. destruct (I3 i) as [-> ->]; [lia|]. apply Oth. lia.
Qed.

Lemma sameSet_nodes o k : othello_inv o -> exists f ra rb,
  DisjointSet.sameSet (fst (nodes_of o k)) (snd (nodes_of o k)) (connectivityForest o) = Ok (ra =? rb, f) /\
  refined (connectivityForest o) f /\ root f (fst (nodes_of o k)) ra /\ root f (snd (nodes_of o k)) rb.
Proof.
  intros Hi. pose proof (oi_sized o Hi) as Hs. pose proof (nodes_range o k Hs) as [Ha Hb].
  pose proof (sz_ma o Hs). pose proof (sz_mb o Hs).
  destruct (dsu_root _ o (fst (nodes_of o k)) Hs (oi_dsu o Hi)) as [ra Hra]; [unfold nodes; lia|].
  destruct (dsu_root _ o (snd (nodes_of o k)) Hs (oi_dsu o Hi)) as [rb Hrb]; [lia|].
  destruct (sameSet_spec _ _ _ ra rb (du_rooted _ o (oi_dsu o Hi)) Hra Hrb) as (f & E & Hf).
  exists f, ra, rb. split; [done|]. split; [done|]. split; by apply Hf.
Qed.

Lemma inv_refined o f : othello_inv o -> refined (connectivityForest o) f -> othello_inv (with_forest f o).
Proof.
  intros [Hs G D V S] Hf. constructor.
  - apply sized_forest; [done|apply Hf].
  - destruct G. by constructor.
  - exact (dsu_refined (ends o) o f D Hf).
  - exact V.
  - exact S.
Qed.

(** Room for the key: it is added without a rebuild, or everything is rebuilt
    with it, or the caller does not want that. *)
Lemma insert_room fuel o k v online : othello_inv o -> othello_map o !! k = None -> 0 <= v < 2 ->
  nKeysInOthello o < Z.of_nat (length (cpo_keys o)) -> nKeysInOthello o < cpo_mb o ->
  (exists r o', insert_rec fuel o k v online = Ok (r, o') /\ inserted o k v online r o') \/
  (online = false /\ exists e, insert_rec fuel o k v online = Err e /\ build_fault e).
Proof.
  intros Hi Hnew Hv Hcap Hmb.
  assert (E0 : insert_rec fuel o k v online =
    let '(ha, hb) := nodes_of o k in
    '(same, o1) ← isConnectedDFS ha hb o;
    if same : bool then
      if online then Ok (MkOUR (-1) 0 (-1, -1) [], o1)
      else o2 ← append_key (nKeysInOthello o + 1) k v o1; o3 ← build o2; Ok (MkOUR 1 0 (-1, -1) [], o3)
    else
      o2 ← append_key (nKeysInOthello o) k v o1;
      o3 ← addEdge (nKeysInOthello o) ha hb o2;
      '(o4, x) ← fixHalfTreeDFS true true false (nKeysInOthello o) ha hb o3;
      let o5 := with_entries (nKeysInOthello o + 1) (cpo_keys o4) (cpo_values o4) o4 in
      cc ← changed_cells o5 k x; Ok (MkOUR 0 x (-1, -1) cc, o5)).
  { destruct fuel; cbn [insert_rec]; rewrite (cpo_isMember_spec o k Hi), Hnew, bind_Ok_l, bool_decide_eq_false_2
      by (by intros [? ?]); rewrite (proj2 (Z.leb_gt _ _) Hcap), (proj2 (Z.leb_gt _ _) Hmb); reflexivity. }
  rewrite E0. clear E0. destruct (sameSet_nodes o k Hi) as (f & ra & rb & Hss & Hf & Hra & Hrb).
  assert (Hcon : isConnectedDFS (fst (nodes_of o k)) (snd (nodes_of o k)) o = Ok (ra =? rb, with_forest f o))
    by (unfold isConnectedDFS; by rewrite Hss).
  destruct (Z.eqb_spec ra rb) as [_|Hne].
  - destruct online.
    + left. destruct (nodes_of o k) as [ha hb]. cbn [fst snd] in Hcon. rewrite Hcon, bind_Ok_l.
      eexists _, _. split; [reflexivity|]. split; [by apply inv_refined|]. right. split; [done|]. split; [done|].
      apply map_same_eq; [done|by apply inv_refined|by split].
    + destruct (insert_cyclic o f k v Hi Hnew Hv Hcap (proj1 Hf)) as (o2 & E2 & [(o3 & E3 & Hi3 & M3)|(e & E3 & He)]);
        destruct (nodes_of o k) as [ha hb]; cbn [fst snd] in Hcon; rewrite Hcon, bind_Ok_l, E2, bind_Ok_l, E3.
      * left. rewrite bind_Ok_l. eexists _, o3. split; [reflexivity|]. split; [exact Hi3|]. left. split; [done|exact M3].
      * right. split; [done|]. exists e. split; [reflexivity|exact He].
  - destruct (add_key_edge o f k v ra rb Hi Hcap Hf Hra Hrb Hne) as (o2 & o3 & E2 & E3 & Hea).
    destruct (insert_acyclic o k v o3 Hi Hnew Hv Hea) as (o4 & x & E4 & Hi5 & M5).
    destruct (getHalfTree_total _ k (0 <? x) false Hi5) as [cc Hcc]. left.
    destruct (nodes_of o k) as [ha hb]. cbn [fst snd] in *.
    rewrite Hcon, bind_Ok_l, E2, bind_Ok_l, E3, bind_Ok_l, E4, bind_Ok_l. cbv zeta. unfold changed_cells.
    rewrite Hcc, bind_Ok_l. eexists _, _. split; [reflexivity|]. split; [exact Hi5|]. left. split; [done|exact M5].
Qed.

Lemma insert_rec_spec fuel o k v online : othello_inv o -> 0 <= v < 2 ->
  (exists r o', insert_rec fuel o k v online = Ok (r, o') /\ inserted o k v online r o') \/
  (online = false /\ exists e, insert_rec fuel o k v online = Err e /\ build_fault e).
Proof.
  revert o online. induction fuel as [|fuel IH]; intros o online Hi Hv.
  all: destruct (othello_map o !! k) as [w|] eqn:Hm.
  1,3: left; destruct (cpo_changeValue_spec o k w v Hi Hm Hv) as (r & o' & E & Hi' & Hst & Hmap);
    exists r, o'; cbn [insert_rec]; rewrite (cpo_isMember_spec o k Hi), Hm, bind_Ok_l, bool_decide_eq_true_2 by (by exists w);
    split; [exact E|]; split; [exact Hi'|]; left; split; [rewrite Hst; lia|exact Hmap].
  all: destruct (decide (nKeysInOthello o < Z.of_nat (length (cpo_keys o)) /\ nKeysInOthello o < cpo_mb o))
    as [[Hcap Hmb]|Hfull]; [by apply insert_room|].
  all: cbn [insert_rec]; rewrite (cpo_isMember_spec o k Hi), Hm, bind_Ok_l, bool_decide_eq_false_2 by (by intros [? ?]).
  all: replace ((Z.of_nat (length (cpo_keys o)) <=? nKeysInOthello o) || (cpo_mb o <=? nKeysInOthello o)) with true
    by (symmetry; apply orb_true_iff; rewrite !Z.leb_le; lia).
  all: destruct online; [left; eexists _, o; split; [reflexivity|]; split; [exact Hi|]; right; done|].
  { right. split; [done|]. exists OutOfFuel. split; [done|by left]. }
  destruct (resize_with_spec build o (u32 (nKeysInOthello o * 4)) true build_spec (oi_sized o Hi)
    (values_bits_stored o (oi_sized o Hi) (oi_values o Hi))) as [(o1 & E1 & Hi1 & I1)|(e & E1 & He)];
    [apply wrap_is_word; lia|by left| |right; split; [done|]; exists e; unfold cpo_resizeCapacity; by rewrite E1].
  unfold cpo_resizeCapacity. rewrite E1, bind_Ok_l. pose proof (map_same_eq o o1 Hi Hi1 I1) as Hmap.
  destruct (IH o1 false Hi1 Hv) as [(r & o2 & -> & Hi2 & [[Hst M2]|(? & _)])|(_ & e & -> & He)]; [| |right]; [|done|].
  - left. rewrite bind_Ok_l, (proj2 (Z.ltb_ge _ _) Hst). eexists _, o2. split; [reflexivity|].
    split; [exact Hi2|]. left. split; [done|]. by rewrite M2, Hmap.
  - split; [done|]. by exists e.
Qed.
