(* ===== verification/OthelloRemove.v ===== *)
(** * Removing a key from the Othello control plane

    The linked lists lose the key, the last key takes its index, and the two
    components that remain get representatives of their own (OthelloCP.v):
    [remove] keeps the invariant and takes out exactly its key. *)

From Stdlib Require Import ZArith Lia.
From stdpp Require Import base numbers list gmap relations.
From S2P Require Import Prelude Words Hash OthelloMem LudoTable Forest UnionFind OthelloCP OthelloInv OthelloBuild OthelloOps.

#[local] Open Scope Z_scope.

(** ** Linked lists *)

Lemma find_before_spec next key ce l c fuel : seg next c l ce -> fst c <> key -> key ∈ fst <$> l ->
  (length l <= S fuel)%nat ->
  exists l1 t z y l2, l = l1 ++ (t, z) :: (key, y) :: l2 /\ find_before fuel next (fst c) key = Ok t.
Proof.
  revert c fuel. induction l as [|c0 l IH]; intros c fuel Hseg Hne Hin Hf; [by apply not_elem_of_nil in Hin|].
  destruct Hseg as (-> & Hn & c' & E & Hseg). simpl in Hin. apply elem_of_cons in Hin as [?|Hin]; [congruence|].
  destruct c as [t z]. simpl in *. destruct l as [|c1 l]; [by apply not_elem_of_nil in Hin|].
  pose proof Hseg as (-> & _). destruct (decide (fst c' = key)) as [<-|Hne'].
  - exists [], t, z, (snd c'), l. split; [by destruct c'|].
    destruct fuel; cbn [find_before fst]; rewrite E, bind_Ok_l, Z.eqb_refl; done.
  - destruct fuel as [|fuel]; [simpl in Hf; lia|].
    destruct (IH c' fuel Hseg Hne' Hin) as (l1 & t' & z' & y & l2 & El & Ef); [simpl in *; lia|].
    exists ((t, z) :: l1), t', z', y, l2. split; [by rewrite El|]. cbn [find_before fst].
    rewrite E, bind_Ok_l, (proj2 (Z.eqb_neq _ _) Hne'). exact Ef.
Qed.

Lemma chain_length next c l : chain next c l -> NoDup (fst <$> l) -> (length l <= length next)%nat.
Proof.
  intros (ce & Hseg & _) Hnd. pose proof (Z_range_length _ _ Hnd (seg_keys _ _ _ _ Hseg)) as H.
  rewrite length_fmap in H. lia.
Qed.

Lemma filter_key_id key (l : list OthelloCPCell) : key ∉ fst <$> l -> filter (fun c => fst c <> key) l = l.
Proof.
  induction l as [|[k v] l IH]; [done|]. simpl. rewrite not_elem_of_cons. intros [Hne Hn].
  rewrite filter_cons_True by (simpl; congruence). by rewrite IH.
Qed.

Lemma filter_key_one key y (l1 l2 : list OthelloCPCell) : NoDup (fst <$> l1 ++ (key, y) :: l2) ->
  filter (fun c => fst c <> key) (l1 ++ (key, y) :: l2) = l1 ++ l2.
Proof.
  rewrite fmap_app, fmap_cons. intros (_ & Hd & [Hn _]%NoDup_cons)%NoDup_app.
  rewrite filter_app, filter_cons_False by (simpl; tauto). rewrite !filter_key_id; [done|done|].
  intros Hin. apply (Hd key Hin). left.
Qed.

(** What an operation on the list of node [u] leaves: its list is [l'], and
    other lists of the same array are untouched. *)
Definition relists (head next : list OthelloCPCell) (u : Z) (l l' : list OthelloCPCell)
    (head' next' : list OthelloCPCell) : Prop :=
  (exists c, rd head' u = Ok c /\ chain next' c l') /\
  (forall u', u' <> u -> rd head' u' = rd head u') /\
  (forall j, j ∉ fst <$> l -> rd next' j = rd next j) /\
  length head' = length head /\ length next' = length next.

Lemma unlink_spec head next u key c l : rd head u = Ok c -> chain next c l -> NoDup (fst <$> l) ->
  key ∈ fst <$> l ->
  exists head' next', unlink head next u key = Ok (head', next') /\
    relists head next u l (filter (fun c => fst c <> key) l) head' next'.
Proof.
  intros Hc Hch Hnd Hin. pose proof (chain_length _ _ _ Hch Hnd) as Hlen.
  destruct Hch as (ce & Hseg & Hce). unfold unlink. rewrite Hc, bind_Ok_l.
  destruct (Z.eqb_spec (fst c) key) as [<-|Hne].
  - destruct l as [|c0 l]; [by apply not_elem_of_nil in Hin|]. destruct Hseg as (-> & Hn & c' & E & Hseg).
    rewrite E, bind_Ok_l. pose proof (wr_in_range head u c' (rd_range _ _ _ Hc)) as Hw. rewrite Hw, bind_Ok_l.
    eexists _, next. split; [reflexivity|]. rewrite fmap_cons in Hnd. apply NoDup_cons in Hnd as [Hfresh Hnd].
    rewrite filter_cons_False by tauto. rewrite filter_key_id by done. split; [|split; [|split; [done|split; [|done]]]].
    + exists c'. split; [by eapply rd_wr_eq|]. by exists ce.
    + intros u' Hu'. by eapply rd_wr_ne.
    + by eapply wr_length.
  - destruct (find_before_spec next key ce l c (length next) Hseg Hne Hin ltac:(lia))
      as (l1 & t & z & y & l2 & -> & ->). rewrite bind_Ok_l.
    change (l1 ++ (t, z) :: (key, y) :: l2) with (l1 ++ [(t, z)] ++ (key, y) :: l2) in *.
    rewrite (assoc_L (++)) in Hnd |- *. rewrite filter_key_one by done.
    apply seg_app in Hseg as (cm & S1 & <- & Hm & c1 & E1 & <- & _ & c2 & E2 & S2). simpl in E1, E2, Hm.
    rewrite E2, bind_Ok_l. pose proof (wr_in_range next t c2 (rd_range _ _ _ E1)) as Hw. rewrite Hw, bind_Ok_l.
    eexists head, _. split; [reflexivity|].
    rewrite <-(assoc_L (++)), !fmap_app in Hnd. simpl in Hnd.
    apply NoDup_app in Hnd as (_ & Hd1 & [Ht [_ Hn2]%NoDup_cons]%NoDup_cons).
    split; [|split; [done|split; [|split; [done|by eapply wr_length]]]].
    + exists c. split; [done|]. exists ce. split; [|done]. rewrite <-(assoc_L (++)). apply seg_app. exists (t, z).
      split; [|simpl; split; [done|]; split; [done|]; exists c2; split; [by eapply rd_wr_eq|]].
      * eapply seg_frame; [|exact S1]. intros k Hk. eapply rd_wr_ne; [exact Hw|]. intros <-. apply (Hd1 t Hk). left.
      * eapply seg_frame; [|exact S2]. intros k Hk. eapply rd_wr_ne; [exact Hw|]. intros <-. apply Ht. by right.
    + intros j Hj. eapply rd_wr_ne; [exact Hw|]. intros <-. apply Hj. rewrite !fmap_app.
      apply elem_of_app. left. apply elem_of_app. right. left.
Qed.

(** The list with the key [old] replaced by [cell]. *)
Definition renamed (old : Z) (cell : OthelloCPCell) (l : list OthelloCPCell) : list OthelloCPCell :=
  (fun c => if decide (fst c = old) then cell else c) <$> l.

Lemma renamed_id old cell l : old ∉ fst <$> l -> renamed old cell l = l.
Proof.
  unfold renamed. induction l as [|[k v] l IH]; [done|]. simpl. rewrite not_elem_of_cons. intros [Hne Hn].
  rewrite decide_False by (simpl; congruence). f_equal. by apply IH.
Qed.

Lemma relink_spec head next u old cell c l : rd head u = Ok c -> chain next c l -> NoDup (fst <$> l) ->
  old ∈ fst <$> l -> fst cell ∉ fst <$> l -> fst cell <> NIL -> rd next (fst cell) = rd next old ->
  exists head' next', relink head next u old cell = Ok (head', next') /\
    relists head next u l (renamed old cell l) head' next'.
Proof.
  intros Hc Hch Hnd Hin Hnew Hnil Hsame. pose proof (chain_length _ _ _ Hch Hnd) as Hlen.
  destruct Hch as (ce & Hseg & Hce). unfold relink. rewrite Hc, bind_Ok_l.
  destruct (Z.eqb_spec (fst c) old) as [<-|Hne].
  - destruct l as [|c0 l]; [by apply not_elem_of_nil in Hin|]. destruct Hseg as (-> & Hn & c' & E & Hseg).
    pose proof (wr_in_range head u cell (rd_range _ _ _ Hc)) as Hw. rewrite Hw, bind_Ok_l.
    eexists _, next. split; [reflexivity|]. rewrite fmap_cons in Hnd. apply NoDup_cons in Hnd as [Hfresh Hnd].
    split; [|split; [|split; [done|split; [|done]]]].
    + exists cell. split; [by eapply rd_wr_eq|]. exists ce. split; [|done].
      change (renamed (fst c) cell (c :: l)) with ((if decide (fst c = fst c) then cell else c) :: renamed (fst c) cell l).
      rewrite decide_True, renamed_id by done. simpl. split; [done|]. split; [done|]. exists c'.
      split; [by rewrite Hsame|done].
    + intros u' Hu'. by eapply rd_wr_ne.
    + by eapply wr_length.
  - destruct (find_before_spec next old ce l c (length next) Hseg Hne Hin ltac:(lia))
      as (l1 & t & z & y & l2 & -> & ->). rewrite bind_Ok_l.
    apply seg_app in Hseg as (cm & S1 & <- & Hm & c1 & E1 & <- & _ & c2 & E2 & S2). simpl in E1, E2, Hm.
    pose proof (wr_in_range next t cell (rd_range _ _ _ E1)) as Hw. rewrite Hw, bind_Ok_l.
    eexists head, _. split; [reflexivity|]. rewrite fmap_app in Hnd, Hnew. simpl in Hnd, Hnew.
    apply NoDup_app in Hnd as (_ & Hd1 & [Ht [Hold Hn2]%NoDup_cons]%NoDup_cons).
    rewrite not_elem_of_app, !not_elem_of_cons in Hnew. destruct Hnew as (Hn1 & Hnt & Hno & Hn2').
    split; [|split; [done|split; [|split; [done|by eapply wr_length]]]].
    + exists c. split; [done|]. exists ce. split; [|done].
      replace (renamed old cell (l1 ++ (t, z) :: (old, y) :: l2)) with (l1 ++ (t, z) :: cell :: l2).
      2: { assert (Hto : t <> old) by (intros ->; apply Ht; left).
           assert (Ho1 : old ∉ fst <$> l1) by (intros Hk; apply (Hd1 old Hk); right; left).
           rewrite <-(renamed_id old cell l1 Ho1), <-(renamed_id old cell l2 Hold) at 1.
           unfold renamed. rewrite fmap_app, !fmap_cons. cbn [fst].
           rewrite (decide_False (P := t = old)) by exact Hto. rewrite (decide_True (P := old = old)) by reflexivity.
           reflexivity. }
      apply seg_app. exists (t, z). split.
      * eapply seg_frame; [|exact S1]. intros k Hk. eapply rd_wr_ne; [exact Hw|]. intros <-. apply (Hd1 t Hk). left.
      * simpl. split; [done|]. split; [done|]. exists cell. split; [by eapply rd_wr_eq|]. split; [done|].
        split; [done|]. exists c2. rewrite (rd_wr_ne _ _ _ _ _ Hw), Hsame by congruence. split; [done|].
        eapply seg_frame; [|exact S2]. intros k Hk. eapply rd_wr_ne; [exact Hw|]. intros <-. apply Ht. by right.
    + intros j Hj. eapply rd_wr_ne; [exact Hw|]. intros <-. apply Hj. rewrite !fmap_app.
      apply elem_of_app. right. left.
Qed.


(** ** One representative for a component *)

Definition label_one (r : Z) (v : Z) (o : ControlPlaneOthello) : res ControlPlaneOthello :=
  f ← wr (connectivityForest o) v r; Ok (with_forest f o).

Lemma label_fold r (vs : list visit_t) o : Forall (fun x => 0 <= v_node x < Z.of_nat (length (connectivityForest o))) vs ->
  exists f, foldM (run (fun _ v _ o => label_one r v o)) vs o = Ok (with_forest f o) /\
    length f = length (connectivityForest o) /\
    (forall x, x ∈ v_node <$> vs -> rd f x = Ok r) /\
    forall x, x ∉ v_node <$> vs -> rd f x = rd (connectivityForest o) x.
Proof.
  revert o. induction vs as [|[[k v] u] vs IH]; intros o Hr.
  - exists (connectivityForest o). split; [by destruct o|]. split; [done|]. split; [|done]. by intros x ?%not_elem_of_nil.
  - apply Forall_cons in Hr as [Hv Hr]. cbn [v_node fst snd] in Hv. cbn [foldM].
    change (run ?f o (k, v, u)) with (f k v u o). cbv beta.
    pose proof (wr_in_range _ _ r Hv) as Hw. pose proof (wr_length _ _ _ _ Hw) as L.
    set (g := <[Z.to_nat v:=r]> (connectivityForest o)) in *.
    assert (label_one r v o = Ok (with_forest g o)) as -> by (unfold label_one; by rewrite Hw). rewrite bind_Ok_l.
    destruct (IH (with_forest g o)) as (f & Ef & Lf & In & Out); [cbn [connectivityForest with_forest]; by rewrite L|].
    exists f. split; [exact Ef|]. cbn [connectivityForest with_forest] in *. split; [congruence|]. rewrite fmap_cons. split.
    + intros x Hx. destruct (decide (x ∈ v_node <$> vs)) as [Hin|Hn]; [by apply In|].
      apply elem_of_cons in Hx as [->|Hx]; [|done]. rewrite (Out _ Hn). by eapply rd_wr_eq.
    + intros x [Hx Hn]%not_elem_of_cons. rewrite (Out _ Hn). by eapply rd_wr_ne.
Qed.

Lemma connected_both E h x y : connected E h x -> connected E h y -> connected E x y.
Proof. intros Hx Hy. etransitivity; [exact (connected_sym _ _ _ Hx)|exact Hy]. Qed.

(** The forest [f] after [connectDFS u]: the nodes of [u]'s component, [S],
    have the parent [r], one of them. *)
Record relabelled (E : Z -> option (Z * Z)) (u : Z) (f f' : list Z) (r : Z) (S : list Z) : Prop := {
  rl_length : length f' = length f;
  rl_in : forall x, x ∈ S <-> connected E u x;
  rl_r : r ∈ S;
  rl_set : forall x, x ∈ S -> rd f' x = Ok r;
  rl_out : forall x, x ∉ S -> rd f' x = rd f x;
}.

Lemma connectDFS_spec E o u : sized o -> graph_ok E o -> 0 <= u < nodes o ->
  exists f r S, connectDFS u o = Ok (with_forest f o) /\ relabelled E u (connectivityForest o) f r S.
Proof.
  intros Hs Hg Hu. unfold connectDFS. pose proof (sz_forest o Hs) as HF.
  destruct (gr_lists E o Hg u Hu) as (l & (c & Hc & Hch) & _ & Hin). rewrite Hc, bind_Ok_l.
  assert (Hnil : forall y z, ~ joins E NIL y z).
  { intros y z Hj. by destruct (joins_key E o NIL y z (gr_bip E o Hg) Hj). }
  destruct (Z.eqb_spec (fst c) NIL) as [Hn|Hn].
  - assert (l = []) as -> by (destruct l as [|c1 l]; [done|]; destruct Hch as (ce & (_ & ? & _) & _); done).
    pose proof (wr_in_range (connectivityForest o) u u ltac:(lia)) as Hw. rewrite Hw, bind_Ok_l.
    eexists _, u, [u]. split; [reflexivity|]. constructor.
    + by eapply wr_length.
    + intros x. rewrite list_elem_of_singleton. split; [intros ->; constructor|]. intros H.
      destruct H as [|x y z [k Hk] _]; [done|]. apply Hin in Hk. by apply not_elem_of_nil in Hk.
    + left.
    + intros x ->%list_elem_of_singleton. by eapply rd_wr_eq.
    + intros x Hx. eapply rd_wr_ne; [exact Hw|]. intros <-. apply Hx. left.
  - assert (Hcl : joins E (fst c) u (snd c)).
    { apply Hin. destruct l as [|c1 l]; [destruct Hch as (ce & <- & ?); done|].
      destruct Hch as (ce & (-> & _) & _). destruct c. left. }
    set (root := if cpo_ma o <? u then snd c else u).
    assert (Hcr : connected E u root) by (unfold root; destruct (cpo_ma o <? u); [apply rtc_once; by exists (fst c)|constructor]).
    assert (Hroot : 0 <= root < nodes o).
    { unfold root. destruct (cpo_ma o <? u); [|done]. eapply joins_range; [apply Hg|by apply joins_sym]. }
    pose proof (wr_in_range (connectivityForest o) root root ltac:(lia)) as Hw. rewrite Hw, bind_Ok_l.
    pose proof (wr_length _ _ _ _ Hw) as L. set (g := <[Z.to_nat root:=root]> (connectivityForest o)) in *.
    destruct (traverse_spec E (with_forest g o) (sized_forest o g Hs L) ltac:(destruct Hg; by constructor) (with_forest g o)
      (fun _ v _ o => label_one root v o) NIL root (with_forest g o)) as (vs & Ht & _ & _ & Hj & _ & Hreach);
      [apply patched_refl, (sized_forest o g Hs L)|done|].
    destruct (label_fold root vs (with_forest g o)) as (f & Ef & Lf & In & Out).
    { apply Forall_forall. intros [[k v] w] Hkv. apply Hj, joins_sym in Hkv.
      apply (joins_range E o _ _ _ (gr_bip E o Hg)) in Hkv. cbn [connectivityForest with_forest v_node fst snd]. rewrite L, HF. exact Hkv. }
    cbn [connectivityForest with_forest] in *.
    exists f, root, (root :: (v_node <$> vs)). split; [etransitivity; [exact Ht|exact Ef]|]. constructor.
    + congruence.
    + intros x. rewrite Hreach. split.
      * intros Hx%reach_connected. etransitivity; eassumption.
      * intros Hx. apply connected_reach; [done|]. by apply (connected_both E u).
    + left.
    + intros x Hx. destruct (decide (x ∈ v_node <$> vs)) as [?|Hnx]; [by apply In|].
      apply elem_of_cons in Hx as [->|?]; [|done]. rewrite (Out _ Hnx). by eapply rd_wr_eq.
    + intros x [Hx Hnx]%not_elem_of_cons. rewrite (Out _ Hnx). by eapply rd_wr_ne.
Qed.

(** ** Both components of a removed edge *)

Section split.
Context (E E' : Z -> option (Z * Z)) (ha hb : Z).
Context (Hsub : forall k u v, joins E' k u v -> linked E u v).
Context (Hcut : forall k u v, joins E k u v -> linked E' u v \/ (u = ha /\ v = hb) \/ (u = hb /\ v = ha)).

Definition touched (x : Z) : Prop := connected E' ha x \/ connected E' hb x.

Lemma touched_link u v : linked E u v -> touched v -> touched u.
Proof.
  intros [k Hk] Hv. destruct (Hcut k u v Hk) as [[k' Hk']|[[-> _]|[-> _]]]; [|left; constructor|right; constructor].
  assert (linked E' v u) as Hvu by (exists k'; by apply joins_sym).
  destruct Hv; [left|right]; by eapply rtc_r.
Qed.

Lemma touched_connected u v : connected E u v -> touched v -> touched u.
Proof. intros H. induction H as [|u v w Huv _ IH]; [done|]. intros ?. eapply touched_link; [exact Huv|auto]. Qed.

Lemma untouched_connected u v : connected E u v -> ~ touched u -> connected E' u v.
Proof.
  intros H. induction H as [|u v w Huv _ IH]; [constructor|]. intros Hn.
  assert (Hv : ~ touched v) by (intros ?; apply Hn; by eapply touched_link).
  destruct Huv as [k Hk]. destruct (Hcut k u v Hk) as [Hl|[[-> _]|[-> _]]].
  - eapply rtc_l; [exact Hl|exact (IH Hv)].
  - destruct Hn. left. constructor.
  - destruct Hn. right. constructor.
Qed.

Lemma joins_linked u v k : joins E' k u v -> connected E' u v.
Proof. intros H. apply rtc_once. by exists k. Qed.

Lemma connect_both o : sized o -> graph_ok E' o -> dsu_ok E o -> 0 <= ha < nodes o -> 0 <= hb < nodes o ->
  exists f3 f, connectDFS ha o = Ok (with_forest f3 o) /\ connectDFS hb (with_forest f3 o) = Ok (with_forest f o) /\
    length f = length (connectivityForest o) /\ dsu_ok E' (with_forest f o).
Proof.
  intros Hs Hg Hd Ha Hb.
  destruct (connectDFS_spec E' o ha Hs Hg Ha) as (f3 & ra & SA & E3 & [L3 InA RA SetA OutA]).
  pose proof (sized_forest o f3 Hs L3) as Hs3.
  destruct (connectDFS_spec E' (with_forest f3 o) hb Hs3 ltac:(destruct Hg; by constructor) Hb)
    as (f & rb & SB & E4 & [L4 InB RB SetB OutB]).
  cbn [connectivityForest with_forest] in *. exists f3, f. split; [done|]. split; [exact E4|]. split; [congruence|].
  set (S := fun x => x ∈ SA ++ SB). set (lab := fun x => if decide (x ∈ SB) then rb else ra).
  assert (HSt : forall x, S x <-> touched x) by (intros x; unfold S; rewrite elem_of_app, InA, InB; done).
  assert (Hlab : forall x, S x -> rd f x = Ok (lab x) /\ S (lab x) /\ lab (lab x) = lab x /\ connected E' x (lab x)).
  { intros x Hx. assert (HlabB : forall y, y ∈ SB -> lab y = rb) by (intros y Hy; unfold lab; by rewrite decide_True).
    assert (HlabA : forall y, y ∉ SB -> lab y = ra) by (intros y Hy; unfold lab; by rewrite decide_False).
    destruct (decide (x ∈ SB)) as [HB|HB]; [rewrite (HlabB x HB)|rewrite (HlabA x HB)].
    - split; [by apply SetB|]. split; [apply elem_of_app; by right|]. split; [by apply HlabB|].
      apply InB in HB. apply InB in RB. by apply (connected_both E' hb).
    - apply elem_of_app in Hx as [HA|]; [|done]. split; [by rewrite (OutB _ HB), (SetA _ HA)|].
      apply InA in HA. pose proof (proj1 (InA _) RA) as RA'. split; [apply elem_of_app; by left|]. split.
      + apply HlabA. intros HrB. apply HB, InB. apply InB in HrB.
        etransitivity; [exact HrB|]. by apply (connected_both E' ha).
      + by apply (connected_both E' ha). }
  assert (Hout : forall x, ~ S x -> rd f x = rd (connectivityForest o) x).
  { intros x Hx. unfold S in Hx. rewrite not_elem_of_app in Hx. destruct Hx as [HA HB].
    by rewrite (OutB _ HB), (OutA _ HA). }
  pose proof (du_rooted E o Hd) as [Hnil Htot].
  destruct (relabel_root (connectivityForest o) f S lab) as [RS RN].
  { intros x. unfold S. apply _. } { congruence. }
  { intros x Hx. destruct (Hlab x Hx) as (? & HS & ? & _). split; [done|]. split; [done|]. split; [done|].
    destruct (Hlab _ HS) as (Hr & _). apply rd_range in Hr. rewrite L4, L3 in Hr. lia. }
  { done. }
  { intros x p Hx Hp Hpn HSp. apply Hx, HSt. eapply touched_connected; [by eapply du_within|by apply HSt]. }
  constructor; cbn [connectivityForest with_forest].
  - split; [rewrite L4, L3; done|]. intros i Hi. destruct (decide (i ∈ SA ++ SB)) as [HS|HS]; [by exists (lab i); apply RS|].
    destruct (Htot i) as [q Hq]; [rewrite L4, L3 in Hi; done|]. exists q. by apply RN.
  - intros k u v Hk. pose proof (joins_linked _ _ _ Hk) as Huv. destruct (decide (u ∈ SA ++ SB)) as [HS|HS].
    + assert (HSv : S v).
      { apply HSt. apply HSt in HS as [?|?]; [left|right]; etransitivity; eassumption. }
      assert (lab v = lab u) as Elab.
      { unfold lab. apply decide_ext. rewrite !InB. split; intros ?; [etransitivity; [eassumption|by apply connected_sym]|etransitivity; eassumption]. }
      exists (lab u). split; [by apply RS|]. split; [rewrite <-Elab; by apply RS|].
      destruct (Hlab u HS) as (_ & HSl & Ell & _). destruct (Hlab _ HSl) as (El & _). by rewrite El, Ell.
    + destruct (Hsub k u v Hk) as [k' Hk']. destruct (du_same E o Hd k' u v Hk') as (r & Hu & Hv & Hr).
      assert (HSv : ~ S v) by (intros ?; apply HS, HSt; eapply touched_link; [by exists k'|by apply HSt]).
      exists r. split; [by apply RN|]. split; [by apply RN|]. rewrite Hout; [done|]. intros HSr. apply HS, HSt.
      eapply touched_connected; [by eapply root_connected|by apply HSt].
  - intros i p Hi Hp. destruct (decide (i ∈ SA ++ SB)) as [HS|HS].
    + destruct (Hlab i HS) as (Ei & _ & _ & Hc). assert (p = lab i) as -> by congruence. done.
    + rewrite (Hout i HS) in Hi. apply untouched_connected; [by eapply du_within|]. by intros ?%HSt.
Qed.
End split.

(** ** Changing the two lists of an edge *)

Lemma joins_side E o k u v u' v' : bipartite E o -> joins E k u v -> joins E k u' v' ->
  (u <? cpo_ma o) = (u' <? cpo_ma o) -> u' = u.
Proof.
  intros Hb (a & b & Hk & H) (a' & b' & Hk' & H') Hside. assert (a' = a /\ b' = b) as [-> ->] by (split; congruence).
  destruct (Hb k a b Hk) as (_ & _ & Ha & Hbr). rewrite (Z.ltb_compare u), (Z.ltb_compare u') in Hside.
  destruct H as [[-> ->]|[-> ->]], H' as [[-> ->]|[-> ->]]; [done| | |done]; exfalso;
    destruct (Z.compare_spec a (cpo_ma o)), (Z.compare_spec b (cpo_ma o)); lia || done.
Qed.

Section two_lists.
Context (E E' : Z -> option (Z * Z)) (o : ControlPlaneOthello) (a b : Z) (Hbip : bipartite E o) (Hlists : lists_ok E o).
Context (Ha : 0 <= a < cpo_ma o) (Hb : cpo_ma o <= b < nodes o).
Context (l m l' m' h1 nA h2 nB : list OthelloCPCell).
Context (Hl : list_at E o a l) (Hm : list_at E o b m).
Context (HA : relists (cpo_head o) (nextAtA o) a l l' h1 nA) (HB : relists h1 (nextAtB o) b m m' h2 nB).
Context (Hl' : NoDup (fst <$> l') /\ forall k v, (k, v) ∈ l' <-> joins E' k a v).
Context (Hm' : NoDup (fst <$> m') /\ forall k v, (k, v) ∈ m' <-> joins E' k b v).
Context (Hother : forall k u v, u <> a -> u <> b -> joins E' k u v <-> joins E k u v).

Lemma apart u w (l0 lw : list OthelloCPCell) k : list_at E o w lw -> (u <? cpo_ma o) = (w <? cpo_ma o) -> u <> w ->
  (forall k v, (k, v) ∈ l0 <-> joins E k u v) -> k ∈ fst <$> l0 -> k ∉ fst <$> lw.
Proof.
  intros (_ & _ & Hw) Hside Hne H0 ([k1 v1] & -> & H1)%list_elem_of_fmap ([k2 v2] & Ek & H2)%list_elem_of_fmap.
  simpl in Ek. subst k2. apply H0 in H1. apply Hw in H2. apply Hne. by eapply joins_side.
Qed.

Lemma relists_both : lists_ok E' (with_lists h2 nA nB o).
Proof.
  destruct HA as ((ca & Hca & Cha) & HhA & HnA & _), HB as ((cb & Hcb & Chb) & HhB & HnB & _).
  intros u Hu. change (nodes (with_lists h2 nA nB o)) with (nodes o) in Hu.
  destruct (decide (u = a)) as [->|Hua]; [|destruct (decide (u = b)) as [->|Hub]].
  - exists l'. split; [|done]. exists ca. unfold next_of. simpl. rewrite (proj2 (Z.ltb_lt a _)), HhB by lia. done.
  - exists m'. split; [|done]. exists cb. unfold next_of. simpl. rewrite (proj2 (Z.ltb_ge b _)) by lia. done.
  - destruct (Hlists u Hu) as (l0 & (c & Hc & Hch) & Hnd & Hin). exists l0. split; [|split; [done|]].
    + exists c. simpl. rewrite HhB, HhA by done. split; [done|]. revert Hch. unfold next_of. simpl.
      destruct (u <? cpo_ma o) eqn:Eu; apply chain_frame; intros k Hk; [apply HnA|apply HnB].
      * apply (apart u a l0 l k); [done| |done..]. rewrite Eu. symmetry. apply Z.ltb_lt. lia.
      * apply (apart u b l0 m k); [done| |done..]. rewrite Eu. symmetry. apply Z.ltb_ge. lia.
    + intros k v. rewrite Hin. symmetry. by apply Hother.
Qed.
End two_lists.

Lemma prewrite_lists E o key cA cB nA nB : lists_ok E o -> (forall u v, ~ joins E key u v) ->
  wr (nextAtA o) key cA = Ok nA -> wr (nextAtB o) key cB = Ok nB ->
  lists_ok E (with_lists (cpo_head o) nA nB o).
Proof.
  intros Hl Hn HA HB u Hu. destruct (Hl u Hu) as (l & (c & Hc & Hch) & Hnd & Hin). exists l. split; [|done].
  exists c. split; [done|]. assert (Hk : key ∉ fst <$> l).
  { intros ([k v] & Ek & Hkv)%list_elem_of_fmap. simpl in Ek. subst k. apply Hin in Hkv. by apply Hn in Hkv. }
  revert Hch. unfold next_of. simpl. destruct (u <? cpo_ma o); intros Hch; by eapply chain_wr.
Qed.

(** ** The graph without a key *)

Definition without (E E' : Z -> option (Z * Z)) (key : Z) : Prop :=
  E' key = None /\ forall k, k <> key -> E' k = E k.

Lemma joins_without E E' key k u v : without E E' key -> joins E' k u v <-> joins E k u v /\ k <> key.
Proof.
  intros [Hn Ho]. unfold joins. destruct (decide (k = key)) as [->|Hne].
  - rewrite Hn. naive_solver.
  - rewrite (Ho k Hne). naive_solver.
Qed.

Lemma acyclic_without E E' key : without E E' key -> acyclic E -> acyclic E'.
Proof.
  intros H Hac. apply (acyclic_map E E' id Hac); [|done]. intros k u v Hj.
  by apply (joins_without E E' key k u v H) in Hj as [? _].
Qed.

Lemma filter_row E E' key u (l : list OthelloCPCell) : without E E' key -> NoDup (fst <$> l) ->
  (forall k v, (k, v) ∈ l <-> joins E k u v) ->
  NoDup (fst <$> filter (fun c => fst c <> key) l) /\
  forall k v, (k, v) ∈ filter (fun c => fst c <> key) l <-> joins E' k u v.
Proof.
  intros H Hnd Hin. split.
  - clear Hin. induction l as [|[k v] l IH]; [constructor|]. apply NoDup_cons in Hnd as [Hk Hnd].
    rewrite filter_cons. case_decide; [|by apply IH]. rewrite fmap_cons. apply NoDup_cons. split; [|by apply IH].
    intros (c & Ec & [_ Hc]%list_elem_of_filter)%list_elem_of_fmap. apply Hk. rewrite Ec. by apply list_elem_of_fmap_2.
  - intros k v. rewrite list_elem_of_filter, Hin, (joins_without E E' key k u v H). simpl. tauto.
Qed.

(** Unlinking a key from both of its lists. *)
Lemma unlink_both E E' o key a b : sized o -> graph_ok E o -> E key = Some (a, b) -> without E E' key ->
  exists h1 nA h2 nB, unlink (cpo_head o) (nextAtA o) a key = Ok (h1, nA) /\
    unlink h1 (nextAtB o) b key = Ok (h2, nB) /\
    sized (with_lists h2 nA nB o) /\ graph_ok E' (with_lists h2 nA nB o).
Proof.
  intros Hs [Hbip Hlists Hac] Hkey Hw. destruct (Hbip key a b Hkey) as (Hkr & Hkn & Ha & Hb).
  pose proof (sz_mb o Hs). assert (Hna : 0 <= a < nodes o) by (unfold nodes; lia).
  destruct (Hlists a Hna) as (l & Hl). pose proof Hl as ((ca & Hca & Cha) & Hnl & Hil).
  destruct (Hlists b ltac:(lia)) as (m & Hm). pose proof Hm as ((cb & Hcb & Chb) & Hnm & Him).
  assert (Ea : next_of o a = nextAtA o) by (unfold next_of; by rewrite (proj2 (Z.ltb_lt a _)) by lia).
  assert (Eb : next_of o b = nextAtB o) by (unfold next_of; by rewrite (proj2 (Z.ltb_ge b _)) by lia).
  rewrite Ea in Cha. rewrite Eb in Chb.
  destruct (unlink_spec _ _ _ key _ _ Hca Cha Hnl) as (h1 & nA & E1 & RA).
  { apply list_elem_of_fmap. exists (key, b). split; [done|]. apply Hil. exists a, b. auto. }
  pose proof RA as (_ & Hh1 & _ & L1 & LA).
  destruct (unlink_spec h1 (nextAtB o) b key cb m) as (h2 & nB & E2 & RB); [rewrite Hh1 by lia; done|done..| |].
  { apply list_elem_of_fmap. exists (key, a). split; [done|]. apply Him. exists a, b. auto. }
  pose proof RB as (_ & _ & _ & L2 & LB).
  exists h1, nA, h2, nB. split; [done|]. split; [done|]. split.
  - destruct Hs. constructor; simpl; unfold nodes in *; simpl in *; lia || done.
  - constructor.
    + intros k c d Hk. destruct Hw as [Hn Ho]. rewrite Ho in Hk by congruence. by apply Hbip.
    + eapply (relists_both E E' o a b Hbip Hlists Ha Hb l m); [done..|by eapply filter_row|by eapply filter_row|].
      intros k u v Hua Hub. rewrite (joins_without E E' key k u v Hw). split; [tauto|]. intros Hj. split; [done|].
      intros ->. destruct Hj as (c & d & Hcd & H'). assert (c = a /\ d = b) as [-> ->] by (split; congruence). lia.
    + by eapply acyclic_without.
Qed.

(** ** The last key under the index of the removed one *)

(** In [E'] the key [last] of [E] is called [key]. *)
Record moved (E E' : Z -> option (Z * Z)) (key last : Z) (a b : Z) : Prop := {
  mv_ne : key <> last;
  mv_old : E last = Some (a, b);
  mv_free : E key = None;
  mv_new : E' key = Some (a, b);
  mv_gone : E' last = None;
  mv_other : forall k, k <> key -> k <> last -> E' k = E k;
}.

Lemma joins_moved E E' key last a b k u v : moved E E' key last a b ->
  joins E' k u v <-> (k = key /\ joins E last u v) \/ (k <> key /\ k <> last /\ joins E k u v).
Proof.
  intros [Hne Ho Hf Hn Hg Hoth]. unfold joins. destruct (decide (k = key)) as [->|Hk]; [|destruct (decide (k = last)) as [->|Hl]].
  - rewrite Ho, Hn. naive_solver.
  - rewrite Hg. naive_solver.
  - rewrite (Hoth k Hk Hl). naive_solver.
Qed.

Lemma acyclic_moved E E' key last a b : moved E E' key last a b -> acyclic E -> acyclic E'.
Proof.
  intros H Hac. apply (acyclic_map E E' (fun k => if decide (k = key) then last else k) Hac).
  - intros k u v Hj. apply (joins_moved _ _ _ _ _ _ _ _ _ H) in Hj as [[-> Hj]|(Hk & _ & Hj)].
    + by rewrite decide_True.
    + by rewrite decide_False.
  - destruct H as [_ _ _ _ Hg _]. intros k k' [? Hk] [? Hk']. repeat case_decide; congruence.
Qed.

Lemma renamed_row E E' key last a b u v0 l : moved E E' key last a b -> NoDup (fst <$> l) ->
  (forall k v, (k, v) ∈ l <-> joins E k u v) -> (last, v0) ∈ l ->
  NoDup (fst <$> renamed last (key, v0) l) /\
  forall k v, (k, v) ∈ renamed last (key, v0) l <-> joins E' k u v.
Proof.
  intros H Hnd Hin Hl. assert (Hfree : key ∉ fst <$> l).
  { intros ([k v] & Ek & Hkv)%list_elem_of_fmap. simpl in Ek. subst k. apply Hin in Hkv as (? & ? & E1 & _).
    pose proof (mv_free _ _ _ _ _ _ H). congruence. }
  assert (Hone : forall v, (last, v) ∈ l -> v = v0).
  { intros v Hv. apply list_elem_of_lookup in Hv as [i Hi]. apply list_elem_of_lookup in Hl as [j Hj].
    assert (i = j) as ->; [|congruence]. apply (NoDup_lookup (fst <$> l) i j last Hnd);
      rewrite list_lookup_fmap; [by rewrite Hi|by rewrite Hj]. }
  split.
  - assert (fst <$> renamed last (key, v0) l = (fun k => if decide (k = last) then key else k) <$> (fst <$> l)) as ->.
    { unfold renamed. rewrite <-!list_fmap_compose. apply list_fmap_ext. intros i c _.
      unfold Basics.compose. by case_decide. }
    apply NoDup_fmap_2_strong; [|done]. intros x y Hx Hy. repeat case_decide; congruence.
  - intros k v. rewrite (joins_moved _ _ _ _ _ _ _ _ _ H). unfold renamed. rewrite list_elem_of_fmap. split.
    + intros ([k1 v1] & E1 & Hc). simpl in E1. case_decide as Hd.
      * injection E1 as -> ->. left. split; [done|]. subst k1. rewrite (Hone v1 Hc) in Hc. by apply Hin.
      * injection E1 as -> ->. right. assert (Hk : k1 <> key) by (intros ->; apply Hfree; by apply (list_elem_of_fmap_2 fst) in Hc).
        split; [done|]. split; [done|]. by apply Hin.
    + intros [[-> Hj]|(Hk & Hkl & Hj)].
      * apply Hin in Hj. rewrite (Hone v Hj). exists (last, v0). simpl. by rewrite decide_True.
      * exists (k, v). simpl. rewrite decide_False by done. split; [done|]. by apply Hin.
Qed.

(** Relinking both lists of the last key. *)
Lemma relink_both E E' o key last a b : sized o -> graph_ok E o -> moved E E' key last a b ->
  0 <= key < Z.of_nat (length (cpo_keys o)) ->
  exists cA nA cB nB h1 nA' h2 nB', rd (nextAtA o) last = Ok cA /\ wr (nextAtA o) key cA = Ok nA /\
    relink (cpo_head o) nA a last (key, b) = Ok (h1, nA') /\
    rd (nextAtB o) last = Ok cB /\ wr (nextAtB o) key cB = Ok nB /\
    relink h1 nB b last (key, a) = Ok (h2, nB') /\
    sized (with_lists h2 nA' nB' o) /\ graph_ok E' (with_lists h2 nA' nB' o).
Proof.
  intros Hs Hg Hmv Hkey. pose proof Hg as [Hbip Hlists Hac]. pose proof Hmv as [Hne Hold Hfree _ _ _].
  destruct (Hbip last a b Hold) as (Hlr & Hln & Ha & Hb). pose proof (sz_keys o Hs) as HK.
  assert (Hkn : key <> NIL) by lia. pose proof (sz_mb o Hs). assert (Hna : 0 <= a < nodes o) by (unfold nodes; lia).
  destruct (rd_in_range (nextAtA o) last) as [cA HcA]; [rewrite (sz_nextA o Hs); done|].
  destruct (rd_in_range (nextAtB o) last) as [cB HcB]; [rewrite (sz_nextB o Hs); done|].
  pose proof (wr_in_range (nextAtA o) key cA ltac:(rewrite (sz_nextA o Hs); done)) as HwA.
  pose proof (wr_in_range (nextAtB o) key cB ltac:(rewrite (sz_nextB o Hs); done)) as HwB.
  set (nA := <[Z.to_nat key:=cA]> (nextAtA o)) in *. set (nB := <[Z.to_nat key:=cB]> (nextAtB o)) in *.
  assert (Hfresh : forall u v, ~ joins E key u v) by (intros u v (? & ? & ? & _); congruence).
  pose proof (prewrite_lists E o key cA cB nA nB Hlists Hfresh HwA HwB) as Hpre.
  set (o1 := with_lists (cpo_head o) nA nB o) in *.
  destruct (Hpre a Hna) as (l & Hl). pose proof Hl as ((ca & Hca & Cha) & Hnl & Hil).
  destruct (Hpre b ltac:(change (nodes o1) with (nodes o); lia)) as (m & Hm). pose proof Hm as ((cb & Hcb & Chb) & Hnm & Him).
  assert (Ea : next_of o1 a = nA) by (unfold next_of; simpl; by rewrite (proj2 (Z.ltb_lt a _)) by lia).
  assert (Eb : next_of o1 b = nB) by (unfold next_of; simpl; by rewrite (proj2 (Z.ltb_ge b _)) by lia).
  rewrite Ea in Cha. rewrite Eb in Chb.
  assert (Hnot : forall u (l0 : list OthelloCPCell), (forall k v, (k, v) ∈ l0 <-> joins E k u v) -> key ∉ fst <$> l0).
  { intros u l0 H0 ([k v] & Ek & Hkv)%list_elem_of_fmap. simpl in Ek. subst k. by apply H0, Hfresh in Hkv. }
  assert (Hla : (last, b) ∈ l) by (apply Hil; exists a, b; auto).
  assert (Hma : (last, a) ∈ m) by (apply Him; exists a, b; auto).
  destruct (relink_spec _ nA _ last (key, b) _ _ Hca Cha Hnl (list_elem_of_fmap_2 fst _ _ Hla) (Hnot a l Hil) Hkn)
    as (h1 & nA' & E1 & RA).
  { cbn [fst]. rewrite (rd_wr_eq _ _ _ _ HwA), (rd_wr_ne _ _ _ _ _ HwA) by congruence. done. }
  pose proof RA as (_ & Hh1 & _ & L1 & LA).
  destruct (relink_spec h1 nB b last (key, a) cb m) as (h2 & nB' & E2 & RB);
    [rewrite Hh1 by lia; exact Hcb|done|done|exact (list_elem_of_fmap_2 fst _ _ Hma)|exact (Hnot b m Him)|done| |].
  { cbn [fst]. rewrite (rd_wr_eq _ _ _ _ HwB), (rd_wr_ne _ _ _ _ _ HwB) by congruence. done. }
  pose proof RB as (_ & _ & _ & L2 & LB). pose proof (wr_length _ _ _ _ HwA). pose proof (wr_length _ _ _ _ HwB).
  exists cA, nA, cB, nB, h1, nA', h2, nB'. do 6 (split; [done|]). split.
  - destruct Hs. constructor; simpl; unfold nodes in *; simpl in *; lia || done.
  - constructor.
    + intros k c d Hk. destruct (decide (k = key)) as [->|Hk1].
      * rewrite (mv_new _ _ _ _ _ _ Hmv) in Hk. injection Hk as <- <-. done.
      * destruct (decide (k = last)) as [->|Hk2]; [rewrite (mv_gone _ _ _ _ _ _ Hmv) in Hk; done|].
        rewrite (mv_other _ _ _ _ _ _ Hmv k Hk1 Hk2) in Hk. by apply Hbip.
    + apply (relists_both E E' o1 a b Hbip Hpre Ha Hb l m (renamed last (key, b) l) (renamed last (key, a) m) h1 nA' h2 nB');
        [done|done|done|done|by eapply renamed_row|by eapply renamed_row|].
      intros k u v Hua Hub. rewrite (joins_moved _ _ _ _ _ _ _ _ _ Hmv).
      assert (Hlast : ~ joins E last u v) by (intros (c & d & Hcd & H'); assert (c = a /\ d = b) as [-> ->] by (split; congruence); lia).
      split; [by intros [[_ ?]|(_ & _ & ?)]|]. intros Hj. right.
      split; [intros ->; by apply Hfresh in Hj|]. split; [by intros ->|done].
    + by eapply acyclic_moved.
Qed.

(** ** Removing a key *)

(** The state before [connectDFS]: the key with index [i] is gone, and only
    the disjoint set still has its edge. *)
Record shrunk (o : ControlPlaneOthello) (i : Z) (o' : ControlPlaneOthello) : Prop := {
  sh_sized : sized o';
  sh_graph : graph_ok (ends o') o';
  sh_values : values_ok (ends o') o';
  sh_sums : sums_ok (ends o') o';
  sh_forest : connectivityForest o' = connectivityForest o;
  sh_nodes : nodes o' = nodes o;
  sh_sub : forall k u v, joins (ends o') k u v -> linked (ends o) u v;
  sh_cut : forall k u v, joins (ends o) k u v -> k <> i -> linked (ends o') u v;
  sh_items : forall k w, (exists j, item o' j k w) <-> exists j, j <> i /\ item o j k w;
}.

(** After both [unlink]s. *)
Definition unlinked (o : ControlPlaneOthello) (h a b : list OthelloCPCell) : ControlPlaneOthello :=
  with_lists h a b (with_entries (nKeysInOthello o - 1) (cpo_keys o) (cpo_values o) o).

Lemma unlinked_sized o h a b : sized (with_lists h a b o) -> 0 < nKeysInOthello o -> sized (unlinked o h a b).
Proof. intros [] Hn. constructor; simpl in *; try done. lia. Qed.

(** All items but the one with index [i] are as in [o]. *)
Lemma ends_lt o k : ends o k <> None -> 0 <= k < nKeysInOthello o.
Proof. intros H. destruct (ends o k) as [e|] eqn:E; [|done]. by apply ends_upto_Some in E as [? _]. Qed.

Lemma unlink_last_shrunk o h a b : othello_inv o -> 0 < nKeysInOthello o ->
  (forall E', without (ends o) E' (nKeysInOthello o - 1) -> graph_ok E' (with_lists h a b o)) ->
  sized (with_lists h a b o) -> shrunk o (nKeysInOthello o - 1) (unlinked o h a b).
Proof.
  intros Hi Hn HG Hs. set (o' := unlinked o h a b). set (last := nKeysInOthello o - 1) in *.
  assert (Hw : without (ends o) (ends o') last).
  { destruct (ends_upto_succ o last) as [Ho Hl]; [pose proof (sz_n o (oi_sized o Hi)); unfold last; lia|].
    replace (last + 1) with (nKeysInOthello o) in Ho by (unfold last; lia). split; [exact Hl|].
    intros k Hk. symmetry. exact (Ho k Hk). }
  pose proof Hw as [Hlast Hoth].
  assert (Hends : forall k c d, ends o' k = Some (c, d) -> ends o k = Some (c, d)).
  { intros k c d Hk. rewrite Hoth in Hk; [done|]. intros ->. congruence. }
  constructor.
  - by apply unlinked_sized.
  - destruct (HG (ends o') Hw). by constructor.
  - intros k c d Hk. apply (oi_values o Hi k c d). by apply Hends.
  - intros k c d Hk. exact (oi_sums o Hi k c d (Hends _ _ _ Hk)).
  - done.
  - done.
  - intros k u v Hj. apply (joins_without _ _ _ _ _ _ Hw) in Hj as [Hj _]. by exists k.
  - intros k u v Hj Hk. exists k. by apply (joins_without _ _ _ _ _ _ Hw).
  - intros k w. unfold item. change (nKeysInOthello o') with last. simpl. split.
    + intros (j & Hj & H). exists j. unfold last in *. split; [lia|]. split; [lia|done].
    + intros (j & Hne & Hj & H). exists j. unfold last in *. split; [lia|done].
Qed.

(** The entries with the last one copied to [i]. *)
Record copied (o : ControlPlaneOthello) (i : Z) (ks vs : list Z) (lastKey lastValue : Z) : Prop := {
  co_key : rd (cpo_keys o) (nKeysInOthello o - 1) = Ok lastKey;
  co_ks : wr (cpo_keys o) i lastKey = Ok ks;
  co_value : rd (cpo_values o) (nKeysInOthello o - 1) = Ok lastValue;
  co_vs : wr (cpo_values o) i lastValue = Ok vs;
}.

Lemma copied_moved o o' i ks vs lk lv E1 : sized o -> 0 <= i < nKeysInOthello o - 1 -> copied o i ks vs lk lv ->
  without (ends o) E1 i -> cpo_ma o' = cpo_ma o -> cpo_mb o' = cpo_mb o -> cpo_hab o' = cpo_hab o ->
  cpo_keys o' = ks -> nKeysInOthello o' = nKeysInOthello o - 1 ->
  moved E1 (ends o') i (nKeysInOthello o - 1) (fst (nodes_of o lk)) (snd (nodes_of o lk)).
Proof.
  intros Hs Hi [Hk Hks _ _] [HE1 HE] Ea Eb Eh Ek En. set (last := nKeysInOthello o - 1) in *.
  assert (Hnodes : forall k, nodes_of o' k = nodes_of o k)
    by (intros k; unfold nodes_of, getIndices, common; simpl; by rewrite Ea, Eb, Eh).
  constructor; rewrite <-?surjective_pairing.
  - lia.
  - rewrite HE by lia. apply ends_upto_Some. split; [unfold last in *; lia|]. by exists lk.
  - done.
  - apply ends_upto_Some. split; [lia|]. exists lk. rewrite Ek, Hnodes. split; [by eapply rd_wr_eq|done].
  - destruct (ends o' last) as [e|] eqn:Ee; [|done]. apply ends_upto_Some in Ee as [? _]. lia.
  - intros k Hki Hkl. rewrite (HE k Hki). unfold ends, ends_upto, ends_by.
    rewrite Ea, Eb, Eh, Ek, En, (rd_wr_ne _ _ _ _ _ Hks) by congruence.
    replace (k <? nKeysInOthello o) with (k <? last); [reflexivity|]. unfold last in *.
    destruct (Z.ltb_spec k (nKeysInOthello o - 1)), (Z.ltb_spec k (nKeysInOthello o)); lia || done.
Qed.

Lemma copied_items o o' i ks vs lk lv : sized o -> 0 <= i < nKeysInOthello o - 1 -> copied o i ks vs lk lv ->
  cpo_keys o' = ks -> cpo_values o' = vs -> nKeysInOthello o' = nKeysInOthello o - 1 ->
  forall k w, (exists j, item o' j k w) <-> exists j, j <> i /\ item o j k w.
Proof.
  intros Hs Hi [Hk Hks Hv Hvs] Ek Ev En k w. set (last := nKeysInOthello o - 1) in *. unfold item. rewrite En, Ek, Ev.
  split.
  - intros (j & Hj & Hjk & Hjv). destruct (decide (j = i)) as [->|Hne].
    + rewrite (rd_wr_eq _ _ _ _ Hks) in Hjk. rewrite (rd_wr_eq _ _ _ _ Hvs) in Hjv.
      exists last. split; [lia|]. split; [unfold last in *; lia|]. split; congruence.
    + rewrite (rd_wr_ne _ _ _ _ _ Hks) in Hjk by congruence. rewrite (rd_wr_ne _ _ _ _ _ Hvs) in Hjv by congruence.
      exists j. split; [done|]. split; [unfold last in *; lia|done].
  - intros (j & Hne & Hj & Hjk & Hjv). destruct (decide (j = last)) as [->|Hnl].
    + exists i. split; [lia|]. rewrite (rd_wr_eq _ _ _ _ Hks), (rd_wr_eq _ _ _ _ Hvs). split; congruence.
    + exists j. rewrite (rd_wr_ne _ _ _ _ _ Hks), (rd_wr_ne _ _ _ _ _ Hvs) by congruence.
      split; [unfold last in *; lia|done].
Qed.

Lemma last_entry o i : othello_inv o -> 0 <= i < nKeysInOthello o - 1 ->
  exists ks vs lk lv, copied o i ks vs lk lv /\ 0 <= lv < 2.
Proof.
  intros Hi Hr. pose proof (oi_sized o Hi) as Hs. pose proof (sz_n o Hs). pose proof (sz_values o Hs).
  destruct (rd_in_range (cpo_keys o) (nKeysInOthello o - 1)) as [lk Hk]; [lia|].
  destruct (item_values o (nKeysInOthello o - 1) lk Hi) as (lv & (_ & _ & Hv) & Hb); [lia|done|].
  pose proof (wr_in_range (cpo_keys o) i lk ltac:(lia)). pose proof (wr_in_range (cpo_values o) i lv ltac:(lia)).
  by exists (<[Z.to_nat i:=lk]> (cpo_keys o)), (<[Z.to_nat i:=lv]> (cpo_values o)), lk, lv.
Qed.

Section move.
Context (o : ControlPlaneOthello) (i : Z) (h a b : list OthelloCPCell) (Hi : othello_inv o).
Context (Hr : 0 <= i < nKeysInOthello o - 1) (Hs : sized (with_lists h a b o)).
Context (HG : forall E', without (ends o) E' i -> graph_ok E' (with_lists h a b o)).
Context (ks vs : list Z) (lk lv : Z) (Hco : copied o i ks vs lk lv) (Hlv : 0 <= lv < 2).

Definition overwritten : ControlPlaneOthello :=
  with_entries (nKeysInOthello o - 1) ks vs (unlinked o h a b).

Definition cut (k : Z) : option (Z * Z) := if decide (k = i) then None else ends o k.

Lemma cut_without : without (ends o) cut i.
Proof. split; [unfold cut; by rewrite decide_True|]. intros k Hk. unfold cut. by rewrite decide_False. Qed.

Lemma overwritten_ok : sized overwritten /\ graph_ok cut overwritten /\
  moved cut (ends overwritten) i (nKeysInOthello o - 1) (fst (nodes_of o lk)) (snd (nodes_of o lk)).
Proof.
  pose proof (wr_length _ _ _ _ (co_ks _ _ _ _ _ _ Hco)) as Lk. pose proof (wr_length _ _ _ _ (co_vs _ _ _ _ _ _ Hco)) as Lv.
  split; [|split].
  - destruct Hs. constructor; simpl in *; rewrite ?Lk, ?Lv; try done. lia.
  - destruct (HG cut cut_without) as [B L A]. constructor; [|exact L|exact A].
    intros k c d Hk. simpl. rewrite Lk. by apply B.
  - by apply (copied_moved o overwritten i ks vs lk lv cut (oi_sized o Hi) Hr Hco cut_without).
Qed.

(** What the keys of the new graph were before. *)
Lemma overwritten_ends k c d : ends overwritten k = Some (c, d) ->
  exists j, ends o j = Some (c, d) /\ rd vs k = rd (cpo_values o) j /\ (k = i \/ (k <> i /\ j = k)).
Proof.
  destruct overwritten_ok as (_ & _ & Hmv). intros Hk. destruct Hco as [Hk0 _ Hv0 Hvs]. destruct (decide (k = i)) as [->|Hne].
  - exists (nKeysInOthello o - 1). pose proof (mv_old _ _ _ _ _ _ Hmv) as Ho. rewrite (mv_new _ _ _ _ _ _ Hmv) in Hk.
    rewrite <-Hk, <-Ho. unfold cut. rewrite decide_False by lia. split; [done|].
    rewrite (rd_wr_eq _ _ _ _ Hvs). split; [done|by left].
  - exists k. rewrite (rd_wr_ne _ _ _ _ _ Hvs) by congruence. split; [|split; [done|by right]].
    destruct (decide (k = nKeysInOthello o - 1)) as [->|Hl]; [rewrite (mv_gone _ _ _ _ _ _ Hmv) in Hk; done|].
    rewrite (mv_other _ _ _ _ _ _ Hmv k Hne Hl) in Hk. unfold cut in Hk. by rewrite decide_False in Hk.
Qed.

Lemma moved_shrunk h2 nA nB o2 : sized (with_lists h2 nA nB overwritten) ->
  graph_ok (ends overwritten) (with_lists h2 nA nB overwritten) ->
  patched (with_lists h2 nA nB overwritten) o2 ->
  (forall u, 0 <= u < nodes o -> bit o2 u = bit o u) ->
  (forall k c d, ends overwritten k = Some (c, d) -> inds_of o2 c d = if k =? i then i else inds_of o c d) ->
  shrunk o i o2.
Proof.
  intros Hs2 G2 P HB HI. destruct overwritten_ok as (_ & _ & Hmv). pose proof (patched_kept _ _ P) as K.
  pose proof (kept_ends _ _ K) as Ee. change (ends (with_lists h2 nA nB overwritten)) with (ends overwritten) in Ee.
  assert (Hvals : cpo_values o2 = vs) by exact (kp_values _ _ K).
  assert (Hrange : forall k c d, ends overwritten k = Some (c, d) -> 0 <= c < nodes o /\ 0 <= d < nodes o).
  { intros k c d Hk. destruct (gr_bip _ _ G2 k c d Hk) as (_ & _ & Hc & Hd).
    change (nodes (with_lists h2 nA nB overwritten)) with (nodes o) in Hd. simpl in Hc, Hd. lia. }
  constructor; rewrite ?Ee.
  - by eapply patched_sized.
  - by eapply graph_patched.
  - intros k c d Hk. destruct (overwritten_ends k c d Hk) as (j & Hj & Hv & _).
    rewrite Hvals, Hv. by apply (oi_values o Hi j c d).
  - intros k c d Hk. destruct (overwritten_ends k c d Hk) as (j & Hj & Hv & Hkj).
    destruct (oi_sums o Hi j c d Hj) as (w & Hw & Hb & Hx). exists w. rewrite Hvals, Hv. split; [done|].
    destruct (Hrange k c d Hk) as [Hc Hd]. split; [unfold bits_of; rewrite !HB by done; exact Hb|].
    rewrite (HI k c d Hk). destruct (Z.eqb_spec k i) as [->|Hne]; [done|]. destruct Hkj as [?| [_ ->]]; [done|exact Hx].
  - rewrite (pt_eq _ _ P). done.
  - by rewrite (patched_nodes _ _ P).
  - intros k u v [[_ Hj]|(_ & _ & Hj)]%(joins_moved _ _ _ _ _ _ _ _ _ Hmv);
      apply (joins_without _ _ _ _ _ _ cut_without) in Hj as [Hj _]; eexists; exact Hj.
  - intros k u v Hj Hne. assert (Hj' : joins cut k u v) by (by apply (joins_without _ _ _ _ _ _ cut_without)).
    destruct (decide (k = nKeysInOthello o - 1)) as [->|Hl].
    + exists i. apply (joins_moved _ _ _ _ _ _ _ _ _ Hmv). by left.
    + exists k. apply (joins_moved _ _ _ _ _ _ _ _ _ Hmv). by right.
  - apply (copied_items o o2 i ks vs lk lv (oi_sized o Hi) Hr Hco); [exact (kp_keys _ _ K)|done|exact (kp_n _ _ K)].
Qed.

Lemma move_last_shrunk : exists o2, move_last i (unlinked o h a b) = Ok o2 /\ shrunk o i o2.
Proof.
  destruct overwritten_ok as (Hso & Go & Hmv). destruct (nodes_of o lk) as [hal hbl] eqn:Eab. cbn [fst snd] in Hmv.
  destruct (relink_both cut (ends overwritten) overwritten i _ hal hbl Hso Go Hmv)
    as (cA & nA & cB & nB & h1 & nA' & h2 & nB' & RA & WA & LA & RB & WB & LB & Hs2 & G2).
  { simpl. rewrite (wr_length _ _ _ _ (co_ks _ _ _ _ _ _ Hco)). pose proof (sz_n o (oi_sized o Hi)). lia. }
  destruct (fixHalfTree_spec (ends overwritten) (with_lists h2 nA' nB' overwritten) Hs2 G2 false true true i hal hbl lv)
    as (o2 & x & EF & P & HB & _ & _ & HI); [apply Hmv|simpl; eapply rd_wr_eq, Hco|exact Hlv|].
  exists o2. split; [|apply (moved_shrunk h2 nA' nB' o2 Hs2 G2 P (HB eq_refl) (HI eq_refl))].
  destruct Hco as [E1 E2 E3 E4]. unfold move_last.
  change (nKeysInOthello (unlinked o h a b)) with (nKeysInOthello o - 1). cbv zeta.
  change (cpo_keys (unlinked o h a b)) with (cpo_keys o). change (cpo_values (unlinked o h a b)) with (cpo_values o).
  rewrite E1, bind_Ok_l, E2, bind_Ok_l, E3, bind_Ok_l, E4, bind_Ok_l.
  change (nodes_of (unlinked o h a b) lk) with (nodes_of o lk). rewrite Eab.
  change (nextAtA (unlinked o h a b)) with (nextAtA overwritten).
  change (nextAtB (unlinked o h a b)) with (nextAtB overwritten).
  change (cpo_head (unlinked o h a b)) with (cpo_head overwritten).
  rewrite RA, bind_Ok_l, WA, bind_Ok_l, LA, bind_Ok_l, RB, bind_Ok_l, WB, bind_Ok_l, LB, bind_Ok_l.
  change (with_entries (nKeysInOthello o - 1) ks vs (unlinked o h a b)) with overwritten.
  rewrite EF. reflexivity.
Qed.
End move.

(** [connectDFS] at both ends restores the invariant. *)
Lemma shrunk_connected o i o2 ha hb : othello_inv o -> shrunk o i o2 -> ends o i = Some (ha, hb) ->
  exists f3 f, connectDFS ha o2 = Ok (with_forest f3 o2) /\ connectDFS hb (with_forest f3 o2) = Ok (with_forest f o2) /\
    othello_inv (with_forest f o2) /\
    forall k w, (exists j, item (with_forest f o2) j k w) <-> exists j, j <> i /\ item o j k w.
Proof.
  intros Hi [Hs G V S F N Hsub Hcut Hit] He. destruct (gr_bip _ _ (oi_graph o Hi) i ha hb He) as (_ & _ & Ha & Hb).
  pose proof (sz_mb o (oi_sized o Hi)). assert (Hna : 0 <= ha < nodes o) by (unfold nodes; lia).
  assert (Hd : dsu_ok (ends o) o2) by (destruct (oi_dsu o Hi); constructor; by rewrite F).
  destruct (connect_both (ends o) (ends o2) ha hb) with (o := o2) as (f3 & f & E3 & E4 & L & D);
    [exact Hsub| |done|done|done|rewrite N; lia|rewrite N; lia|].
  { intros k u v Hj. destruct (decide (k = i)) as [->|Hne]; [right|left; by apply (Hcut k)].
    destruct Hj as (c & d & Hcd & H'). assert (c = ha /\ d = hb) as [-> ->] by (split; congruence). tauto. }
  exists f3, f. split; [done|]. split; [done|]. split; [|exact Hit].
  constructor; [by apply sized_forest|destruct G; by constructor|exact D|exact V|exact S].
Qed.

Lemma isEmpty_total o u : sized o -> 0 <= u < nodes o -> exists e, isEmpty 1 0 u (cpo_mem o) = Ok e.
Proof. intros Hs Hu. unfold isEmpty. rewrite (bit_read o u Hs Hu), bind_Ok_l. by eexists. Qed.

(** The unlinked state, with the last key moved when it is not the removed one. *)
Lemma unlink_move o i k w : othello_inv o -> item o i k w ->
  exists h1 nA h2 nB o2, unlink (cpo_head o) (nextAtA o) (fst (nodes_of o k)) i = Ok (h1, nA) /\
    unlink h1 (nextAtB o) (snd (nodes_of o k)) i = Ok (h2, nB) /\
    (if i =? nKeysInOthello o - 1 then Ok (unlinked o h2 nA nB) else move_last i (unlinked o h2 nA nB)) = Ok o2 /\
    shrunk o i o2.
Proof.
  intros Hi Hit. pose proof (ends_item _ _ _ _ Hit) as He. destruct Hit as (Hr & _).
  destruct (nodes_of o k) as [a b]. cbn [fst snd].
  destruct (unlink_both (ends o) (cut o i) o i a b (oi_sized o Hi) (oi_graph o Hi) He (cut_without o i))
    as (h1 & nA & h2 & nB & E1 & E2 & Hs & _).
  assert (HG : forall E', without (ends o) E' i -> graph_ok E' (with_lists h2 nA nB o)).
  { intros E' Hw. destruct (unlink_both (ends o) E' o i a b (oi_sized o Hi) (oi_graph o Hi) He Hw)
      as (h1' & nA' & h2' & nB' & E1' & E2' & _ & G).
    rewrite E1 in E1'. apply Ok_inj in E1'. injection E1' as <- <-.
    rewrite E2 in E2'. apply Ok_inj in E2'. by injection E2' as <- <-. }
  exists h1, nA, h2, nB. destruct (Z.eqb_spec i (nKeysInOthello o - 1)) as [->|Hne].
  - eexists. split; [exact E1|]. split; [exact E2|]. split; [reflexivity|]. apply unlink_last_shrunk; [done|lia|done..].
  - destruct (last_entry o i Hi ltac:(lia)) as (ks & vs & lk & lv & Hco & Hlv).
    destruct (move_last_shrunk o i h2 nA nB Hi ltac:(lia) Hs HG ks vs lk lv Hco Hlv) as (o2 & E3 & Hsh).
    exists o2. split; [exact E1|]. split; [exact E2|]. by split.
Qed.

Lemma cpo_remove_at_member o i k w : othello_inv o -> item o i k w ->
  exists r o', cpo_remove_at o k i = Ok (r, o') /\ othello_inv o' /\ othello_map o' = delete k (othello_map o).
Proof.
  intros Hi Hit. pose proof (ends_item _ _ _ _ Hit) as He.
  destruct (unlink_move o i k w Hi Hit) as (h1 & nA & h2 & nB & o2 & E1 & E2 & E3 & Hsh).
  pose proof Hit as (Hr & Hk & Hw). pose proof (sh_nodes _ _ _ Hsh) as N.
  destruct (nodes_range o k (oi_sized o Hi)) as [Ha Hb]. pose proof (sz_mb o (oi_sized o Hi)).
  unfold cpo_remove_at. rewrite (proj2 (Z.leb_gt _ _)) by lia. rewrite Hk, bind_Ok_l, Z.eqb_refl. cbn [negb].
  destruct (nodes_of o k) as [a b]. cbn [fst snd] in *.
  destruct (shrunk_connected o i o2 a b Hi Hsh He) as (f3 & f & E4 & E5 & Hi' & Hit').
  set (o4 := with_forest f o2) in *. pose proof (oi_sized o4 Hi') as Hs4. change (nodes o4) with (nodes o2) in *.
  destruct (isEmpty_total o4 a Hs4) as [ea Ea]; [change (nodes o4) with (nodes o2); rewrite N; unfold nodes; lia|].
  destruct (isEmpty_total o4 b Hs4) as [eb Eb]; [change (nodes o4) with (nodes o2); rewrite N; lia|].
  eexists _, o4. split; [|split; [exact Hi'|]].
  - rewrite E1, bind_Ok_l, E2, bind_Ok_l. cbv zeta.
    change (with_lists h2 nA nB (with_entries (nKeysInOthello o - 1) (cpo_keys o) (cpo_values o) o))
      with (unlinked o h2 nA nB).
    rewrite E3, bind_Ok_l, E4, bind_Ok_l, E5, bind_Ok_l, Ea, bind_Ok_l, Eb, bind_Ok_l. reflexivity.
  - apply map_delete_eq; [done..|]. intros k' w'. rewrite Hit'. split.
    + intros (j & Hne & Hj). split; [|by exists j]. intros ->. by destruct (othello_item_fun _ _ _ _ _ _ Hi Hj Hit).
    + intros (Hne & j & Hj). exists j. split; [|done]. intros ->. destruct Hj as (_ & ? & _). congruence.
Qed.

(** A key that is not a member: its index is out of range or another key's. *)
Definition not_at (o : ControlPlaneOthello) (k i : Z) : Prop :=
  nKeysInOthello o <= i \/ i < nKeysInOthello o /\ exists k', rd (cpo_keys o) i = Ok k' /\ k' <> k.

Lemma absent_index o k : othello_inv o -> othello_map o !! k = None ->
  exists i, lookUpIndex o k = Ok i /\ not_at o k i.
Proof.
  intros Hi Hm. pose proof (oi_sized o Hi) as Hs. rewrite (lookUpIndex_total o k Hs).
  eexists. split; [reflexivity|]. set (i := Z.lxor _ _).
  assert (0 <= i) by (apply lxor_nonneg'; by apply ind_nonneg). pose proof (sz_n o Hs).
  destruct (Z.le_gt_cases (nKeysInOthello o) i) as [Hge|Hlt]; [by left|right]. split; [exact Hlt|].
  destruct (rd_in_range (cpo_keys o) i) as [k' Hk']; [lia|]. exists k'. split; [exact Hk'|]. intros ->.
  destruct (item_values o i k Hi ltac:(lia) Hk') as (w & Hw & _).
  assert (othello_map o !! k = Some w) as E by (apply othello_map_item; [exact Hi|by exists i]). congruence.
Qed.

Lemma cpo_remove_at_absent o k i : not_at o k i -> cpo_remove_at o k i = Ok (MkOUR 0 0 (-1, -1) [], o).
Proof.
  unfold cpo_remove_at. intros [Hge|(Hlt & k' & Hk' & Hne)].
  - rewrite (proj2 (Z.leb_le _ _) Hge). reflexivity.
  - rewrite (proj2 (Z.leb_gt _ _) Hlt), Hk', bind_Ok_l, (proj2 (Z.eqb_neq _ _) Hne). reflexivity.
Qed.

(** [remove] takes out its key, and leaves the structure alone when it is not
    a member. *)
Lemma cpo_remove_spec o k : othello_inv o ->
  exists r o', cpo_remove o k = Ok (r, o') /\ othello_inv o' /\ othello_map o' = delete k (othello_map o).
Proof.
  intros Hi. unfold cpo_remove. destruct (othello_map o !! k) as [w|] eqn:Hm.
  - destruct (member_item o k w Hi Hm) as (i & Hit & _ & ->). rewrite bind_Ok_l. exact (cpo_remove_at_member o i k w Hi Hit).
  - destruct (absent_index o k Hi Hm) as (i & -> & Hno). rewrite bind_Ok_l, (cpo_remove_at_absent o k i Hno).
    eexists _, o. split; [reflexivity|]. split; [exact Hi|]. symmetry. exact (delete_id _ _ Hm).
Qed.
