(* ===== verification/OthelloLocator.v ===== *)
(** * The Othello as the locator of the Ludo table

    The control-plane Othello (OthelloCP.v) keeps the contract that Ludo's
    theorems assume of their locator ([LocatorOk], LudoInv.v), and the data
    plane copied from it answers as it does, so that those theorems hold of the
    table with its real locator.  Also: runs of operations as runs of a map,
    the nodes a half-tree traversal visits, and what [clear] leaves behind. *)

From Stdlib Require Import ZArith Lia.
From stdpp Require Import base numbers list gmap relations.
From S2P Require Import Prelude Words Hash OthelloMem LudoTable LudoInv LudoDP Forest UnionFind OthelloCP OthelloInv OthelloBuild OthelloOps OthelloRemove.

#[local] Open Scope Z_scope.
#[local] Opaque Hash64WithSeed multiply_high_u32.

(** ** The contract *)

#[export] Instance othello_locator : Locator ControlPlaneOthello := {
  loc_isMember := cpo_isMember;
  loc_lookUp := cpo_lookUp;
  loc_insert := cpo_insert;
  loc_changeValue := cpo_changeValue;
  loc_toggleInOthello := toggleInOthello;
  loc_remove o k := '(_, o') ← cpo_remove o k; Ok o';
  loc_getHalfTree o k fromA := getHalfTree o k fromA false;
  loc_clear := cpo_clear;
  loc_resizeCapacity o n := cpo_resizeCapacity o n false;
}.

Lemma bit_range w : w = 0 \/ w = 1 -> 0 <= w < 2.
Proof. lia. Qed.

Lemma cpo_resize_spec o n force : othello_inv o -> n < 2 ^ 32 ->
  (exists o', cpo_resizeCapacity o n force = Ok o' /\ othello_inv o' /\ othello_map o' = othello_map o) \/
  (exists e, cpo_resizeCapacity o n force = Err e /\ build_fault e).
Proof.
  intros Hi Hn. unfold cpo_resizeCapacity.
  destruct (resize_with_spec build o n force build_spec (oi_sized o Hi)
    (values_bits_stored o (oi_sized o Hi) (oi_values o Hi)) Hn) as [(o' & E & Hi' & I)|?]; [by right| |by right].
  left. exists o'. split; [exact E|]. split; [exact Hi'|]. exact (map_same_eq o o' Hi Hi' I).
Qed.

#[export] Program Instance othello_locator_ok : LocatorOk ControlPlaneOthello := {
  loc_inv := othello_inv;
  loc_map := othello_map;
}.
Next Obligation. exact cpo_isMember_spec. Qed.
Next Obligation.
  intros o k w Hi Hm. apply othello_map_item in Hm as (i & Hit); [|exact Hi]. exact (cpo_lookUp_item o i k w Hi Hit).
Qed.
Next Obligation. exact othello_map_bits. Qed.
Next Obligation.
  intros o k w online Hi _ Hw. exact (insert_rec_spec (length (rands o)) o k w online Hi (bit_range w Hw)).
Qed.
Next Obligation. intros o k w w' Hi Hm Hw. exact (cpo_changeValue_spec o k w w' Hi Hm (bit_range w' Hw)). Qed.
Next Obligation. exact toggleInOthello_spec. Qed.
Next Obligation.
  intros o k Hi. destruct (cpo_remove_spec o k Hi) as (r & o' & E & H). exists o'.
  cbn [loc_remove othello_locator]. rewrite E. by split.
Qed.
Next Obligation. intros o n Hi Hn. apply cpo_resize_spec; [exact Hi|lia]. Qed.

(** ** The data plane *)

Lemma getIndices_lock m a b h l l' k : getIndices (MkDPO m a b h l) k = getIndices (MkDPO m a b h l') k.
Proof. unfold getIndices. cbn [ma mb hab]. reflexivity. Qed.

(** A round while no writer is active. *)
Lemma lookUp_round_quiet d a b x y : (forall i, rd (o_lock d) (Z.land i 8191) = Ok 0) ->
  memGet 1 0 a (o_mem d) = Ok x -> memGet 1 0 b (o_mem d) = Ok y ->
  lookUp_round (fun _ => d) a b = Ok (Some (u8 (Z.shiftr (Z.lxor x y) 0))).
Proof.
  intros Hl Ea Eb. unfold lookUp_round. rewrite !Hl, !bind_Ok_l.
  change ((0 mod 2 =? 1) || (0 mod 2 =? 1)) with false. cbv iota. by rewrite Ea, bind_Ok_l, Eb.
Qed.

Lemma othello_lookUp_quiet d k w : (forall i, rd (o_lock d) (Z.land i 8191) = Ok 0) ->
  (let '(a, b) := getIndices d k in
   x ← memGet 1 0 a (o_mem d); y ← memGet 1 0 b (o_mem d); Ok (u8 (Z.shiftr (Z.lxor x y) 0))) = Ok w ->
  othello_lookUp d k = Ok (Some w).
Proof.
  intros Hl. unfold othello_lookUp. destruct (getIndices d k) as [a b]. intros E.
  apply bind_Ok in E as (x & Ex & E). apply bind_Ok in E as (y & Ey & E). apply Ok_inj in E as <-.
  by apply lookUp_round_quiet.
Qed.

Lemma othello_dp_lookUp o i k w : othello_inv o -> item o i k w ->
  othello_lookUp (othello_to_dp o) k = Ok (Some w).
Proof.
  intros Hi Hit. apply othello_lookUp_quiet; [exact rd_lock|].
  unfold othello_to_dp. rewrite (getIndices_lock _ _ _ _ _ []). cbn [o_mem].
  pose proof (cpo_lookUp_item o i k w Hi Hit) as E. unfold cpo_lookUp, nodes_of, common in E. exact E.
Qed.

(** Copying the Othello to the data plane keeps the bits of its members. *)
Lemma othello_synced o : othello_inv o -> synced othello_to_dp o.
Proof.
  intros Hi k w Hm. apply othello_map_item in Hm as (i & Hit); [|exact Hi]. exact (othello_dp_lookUp o i k w Hi Hit).
Qed.
