(* ===== verification/OthelloProps.v ===== *)
(** * Properties of the Othello control plane

    The statements that the files on the Othello lead to: a run of operations
    from the constructor is a run of a map and its copies answer exactly;
    removal; the half tree that an update reports; the data plane of a Ludo
    table with this locator; and an insertion after [clear]. *)

From Stdlib Require Import ZArith Lia.
From stdpp Require Import base numbers list gmap relations.
From S2P Require Import Prelude Words Hash LudoSlot OthelloMem LudoTable LudoInv LudoProps LudoDP Forest UnionFind OthelloCP OthelloInv OthelloBuild OthelloOps OthelloRemove OthelloLocator.

#[local] Open Scope Z_scope.
#[local] Opaque Hash64WithSeed multiply_high_u32.

(** ** Runs *)

Inductive othello_op :=
  | OpInsert (k v : Z) (DoNotRebuild : bool)
  | OpRemove (k : Z)
  | OpChangeValue (k v : Z)
  | OpToggle (k : Z)
  | OpResize (targetCapacity : Z) (forceBuild : bool).

Definition othello_step (o : ControlPlaneOthello) (op : othello_op)
    : res (OthelloUpdateResult * ControlPlaneOthello) :=
  match op with
  | OpInsert k v online => cpo_insert o k v online
  | OpRemove k => cpo_remove o k
  | OpChangeValue k v => cpo_changeValue o k v
  | OpToggle k => toggleInOthello o k
  | OpResize n force => o' ← cpo_resizeCapacity o n force; Ok (map_result 0, o')
  end.

(** The statuses, in order, and the last state. *)
Fixpoint othello_run (o : ControlPlaneOthello) (ops : list othello_op) : res (list Z * ControlPlaneOthello) :=
  match ops with
  | [] => Ok ([], o)
  | op :: ops =>
      '(r, o1) ← othello_step o op; '(sts, o') ← othello_run o1 ops; Ok (o_status r :: sts, o')
  end.

(** The arguments the operations are called with: values are bits. *)
Definition op_ok (op : othello_op) : Prop :=
  match op with
  | OpInsert _ v _ | OpChangeValue _ v => 0 <= v < 2
  | OpResize n _ => n < 2 ^ 32
  | _ => True
  end.

(** The map, with the status that is returned. *)
Inductive map_op (m : gmap Z Z) : othello_op -> Z -> gmap Z Z -> Prop :=
  | mo_insert k v online st : 0 <= st -> map_op m (OpInsert k v online) st (<[k := v]> m)
  | mo_refused k v st : m !! k = None -> st < 0 -> map_op m (OpInsert k v true) st m
  | mo_remove k st : map_op m (OpRemove k) st (delete k m)
  | mo_change k v w : m !! k = Some w -> map_op m (OpChangeValue k v) 0 (<[k := v]> m)
  | mo_toggle k w : m !! k = Some w -> map_op m (OpToggle k) 0 (<[k := 1 - w]> m)
  | mo_resize n force : map_op m (OpResize n force) 0 m.

Inductive map_ops (m : gmap Z Z) : list othello_op -> list Z -> gmap Z Z -> Prop :=
  | mos_nil : map_ops m [] [] m
  | mos_cons op st m1 ops sts m2 : map_op m op st m1 -> map_ops m1 ops sts m2 ->
      map_ops m (op :: ops) (st :: sts) m2.

(** How an operation may fail: a rebuild without a seed, or an update of a key
    that is not a member, which the code asserts. *)
Definition op_fault (m : gmap Z Z) (op : othello_op) (e : fault) : Prop :=
  match op with
  | OpInsert _ _ online => online = false /\ build_fault e
  | OpRemove _ => False
  | OpChangeValue k _ | OpToggle k => m !! k = None /\ e = AssertFailed
  | OpResize _ _ => build_fault e
  end.

Lemma not_member o k : othello_inv o -> othello_map o !! k = None -> cpo_isMember o k = Ok false.
Proof. intros Hi Hm. rewrite (cpo_isMember_spec o k Hi), Hm, bool_decide_eq_false_2; [done|by intros [? ?]]. Qed.

Lemma insert_step o k v online : othello_inv o -> 0 <= v < 2 ->
  (exists r o', cpo_insert o k v online = Ok (r, o') /\ othello_inv o' /\
     map_op (othello_map o) (OpInsert k v online) (o_status r) (othello_map o')) \/
  (exists e, cpo_insert o k v online = Err e /\ op_fault (othello_map o) (OpInsert k v online) e).
Proof.
  intros Hi Hv. destruct (othello_map o !! k) as [w|] eqn:Hm.
  - left. destruct (cpo_changeValue_spec o k w v Hi Hm Hv) as (r & o' & E & Hi' & Hst & Hmap).
    exists r, o'. split; [|split; [exact Hi'|]].
    + unfold cpo_insert. destruct (length (rands o)); cbn [insert_rec];
        rewrite (cpo_isMember_spec o k Hi), Hm, bind_Ok_l, bool_decide_eq_true_2 by (by exists w); exact E.
    + rewrite Hmap. constructor. lia.
  - destruct (insert_rec_spec (length (rands o)) o k v online Hi Hv) as [(r & o' & E & Hi' & H)|(-> & e & E & He)].
    + left. exists r, o'. split; [exact E|]. split; [exact Hi'|].
      destruct H as [[Hst ->]|(-> & Hst & ->)]; by constructor.
    + right. exists e. split; [exact E|]. by split.
Qed.

Lemma othello_step_spec o op : othello_inv o -> op_ok op ->
  (exists r o', othello_step o op = Ok (r, o') /\ othello_inv o' /\
     map_op (othello_map o) op (o_status r) (othello_map o')) \/
  (exists e, othello_step o op = Err e /\ op_fault (othello_map o) op e).
Proof.
  intros Hi Hok. destruct op as [k v online|k|k v|k|n force]; simpl in Hok |- *.
  - by apply insert_step.
  - left. destruct (cpo_remove_spec o k Hi) as (r & o' & E & Hi' & Hm). exists r, o'.
    split; [exact E|]. split; [exact Hi'|]. rewrite Hm. constructor.
  - destruct (othello_map o !! k) as [w|] eqn:Hm; [left|right].
    + destruct (cpo_changeValue_spec o k w v Hi Hm Hok) as (r & o' & E & Hi' & Hst & Hmap). exists r, o'.
      split; [exact E|]. split; [exact Hi'|]. rewrite Hst, Hmap. by econstructor.
    + exists AssertFailed. split; [|done]. unfold cpo_changeValue. by rewrite (not_member o k Hi Hm).
  - destruct (othello_map o !! k) as [w|] eqn:Hm; [left|right].
    + destruct (toggleInOthello_spec o k w Hi Hm) as (r & o' & E & Hi' & Hst & Hmap). exists r, o'.
      split; [exact E|]. split; [exact Hi'|]. rewrite Hst, Hmap. by econstructor.
    + exists AssertFailed. split; [|done]. unfold toggleInOthello. by rewrite (not_member o k Hi Hm).
  - destruct (cpo_resize_spec o n force Hi Hok) as [(o' & -> & Hi' & Hm)|(e & -> & He)]; [left|right; by exists e].
    exists (map_result 0), o'. split; [done|]. split; [exact Hi'|]. rewrite Hm. constructor.
Qed.

(** The errors that end a run. *)
Definition run_fault (e : fault) : Prop := build_fault e \/ e = AssertFailed.

Lemma op_fault_run m op e : op_fault m op e -> run_fault e.
Proof. destruct op; simpl; unfold run_fault; tauto. Qed.

Lemma othello_run_spec ops o : othello_inv o -> Forall op_ok ops ->
  match othello_run o ops with
  | Ok (sts, o') => othello_inv o' /\ map_ops (othello_map o) ops sts (othello_map o')
  | Err e => run_fault e
  end.
Proof.
  revert o. induction ops as [|op ops IH]; intros o Hi Hok; cbn [othello_run].
  - split; [exact Hi|constructor].
  - apply Forall_cons in Hok as [Hop Hok].
    destruct (othello_step_spec o op Hi Hop) as [(r & o1 & -> & Hi1 & Hm1)|(e & -> & He)];
      [|by eapply op_fault_run].
    rewrite bind_Ok_l. specialize (IH o1 Hi1 Hok). destruct (othello_run o1 ops) as [[sts o']|e]; [|exact IH].
    rewrite bind_Ok_l. destruct IH as [Hi' Hm']. split; [exact Hi'|]. by econstructor.
Qed.

(** ** The constructor *)

Definition blank (rs : list Z) : ControlPlaneOthello :=
  MkCPO [] 0 0 default_hash_seed 0 [] [] [] [] [] [] [] true true rs.

Definition first_arrays (rs : list Z) : ControlPlaneOthello :=
  resized (times_1_33334 256) 256 (extended 256 (blank rs)).

Lemma new_othello_eq rs : new_othello rs = build (first_arrays rs).
Proof. unfold new_othello, cpo_resizeCapacity. fold (blank rs). rewrite resize_with_eq; reflexivity. Qed.

Lemma first_arrays_sized rs : sized (first_arrays rs).
Proof.
  constructor; try done.
  - split; [apply Forall_resize; [unfold is_word; lia|constructor]|].
    split; [vm_compute; reflexivity|]. vm_compute. discriminate.
  - apply Forall_resize; [lia|constructor].
Qed.

Lemma tryBuild_empty o : sized o -> nKeysInOthello o = 0 -> exists o', tryBuild o = Ok (true, o').
Proof.
  intros Hs Hn. unfold tryBuild. destruct (reset_spec o Hs) as (o1 & -> & _ & K & _). rewrite bind_Ok_l.
  rewrite (kp_n _ _ K), Hn. by exists o1.
Qed.

(** Two answers of [rand()] are enough to construct an empty Othello. *)
Lemma new_othello_spec r0 r1 rs : exists o, new_othello (r0 :: r1 :: rs) = Ok o /\ othello_inv o /\ othello_map o = ∅.
Proof.
  rewrite new_othello_eq. set (o0 := first_arrays (r0 :: r1 :: rs)).
  pose proof (first_arrays_sized (r0 :: r1 :: rs)) as Hs. fold o0 in Hs.
  assert (Hb : bits_stored o0) by (intros k Hk; change (nKeysInOthello o0) with 0 in Hk; lia).
  destruct (tryBuild_empty (with_hab (Z.lor (u64 (Z.shiftl r0 32)) r1) rs o0)) as [o1 E1]; [destruct Hs; by constructor|done|].
  pose proof (build_first_seed o0 r0 r1 rs Hs Hb eq_refl o1 E1) as E.
  destruct (build_spec o0 Hs Hb) as [(o' & E' & Hi & I)|(e & E' & _)]; [|congruence].
  exists o'. split; [exact E'|]. split; [exact Hi|]. destruct I as [N _]. unfold othello_map. by rewrite N.
Qed.

(** ** Runs from the constructor *)

(** What the structure answers is the map: membership and the bits of members,
    read from the control plane and from a copy of it. *)
Definition answers (o : ControlPlaneOthello) : Prop :=
  forall k, cpo_isMember o k = Ok (bool_decide (is_Some (othello_map o !! k))) /\
    forall w, othello_map o !! k = Some w ->
      cpo_lookUp o k = Ok w /\ othello_lookUp (othello_to_dp o) k = Ok (Some w).

Lemma inv_answers o : othello_inv o -> answers o.
Proof.
  intros Hi k. split; [exact (cpo_isMember_spec o k Hi)|]. intros w Hm.
  split; [|exact (othello_synced o Hi k w Hm)].
  apply othello_map_item in Hm as (i & Hit); [|exact Hi]. exact (cpo_lookUp_item o i k w Hi Hit).
Qed.

(** C18: The control-plane Othello refines a map from keys to bits: any sequence
    of insertions, removals, changes, toggles and resizes from the constructor
    that ends is a run of the map with the returned statuses (only an insertion
    that must not rebuild is ever refused), and afterwards membership and the
    bit of every member are answered exactly, by the control plane and by a
    data plane copied from it.  It fails to end only when the seeds of [rand()]
    are used up or the arrays overflow, or on the assertion that a changed key
    is a member. *)
Theorem othello_ops_refine r0 r1 rs ops : Forall op_ok ops ->
  exists o, new_othello (r0 :: r1 :: rs) = Ok o /\ othello_map o = ∅ /\
    match othello_run o ops with
    | Ok (sts, o') => othello_inv o' /\ map_ops ∅ ops sts (othello_map o') /\ answers o'
    | Err e => run_fault e
    end.
Proof.
  intros Hok. destruct (new_othello_spec r0 r1 rs) as (o & E & Hi & Hm). exists o. split; [exact E|].
  split; [exact Hm|]. pose proof (othello_run_spec ops o Hi Hok) as H. rewrite Hm in H.
  destruct (othello_run o ops) as [[sts o']|e]; [|exact H]. destruct H as [Hi' Hm'].
  split; [exact Hi'|]. split; [exact Hm'|]. by apply inv_answers.
Qed.

Definition demo_ops : list othello_op :=
  [OpInsert 9 1 false; OpInsert 16 0 true; OpToggle 16; OpRemove 9; OpChangeValue 16 0].

(** The run of [demo_ops] ends, with these statuses and this content. *)
Example demo_run :
  match new_othello [1; 2] with
  | Ok o => match othello_run o demo_ops with
            | Ok (sts, o') => sts = [0; 0; 0; 0; 0] /\ cpo_lookUp o' 16 = Ok 0 /\ cpo_isMember o' 9 = Ok false
            | Err _ => False
            end
  | Err _ => False
  end.
Proof. vm_compute. auto. Qed.

Lemma othello_ops_refine_witness :
  exists o, new_othello [1; 2] = Ok o /\ othello_map o = ∅ /\
    match othello_run o demo_ops with
    | Ok (sts, o') => othello_inv o' /\ map_ops ∅ demo_ops sts (othello_map o') /\ answers o'
    | Err e => run_fault e
    end.
Proof.
  apply (othello_ops_refine 1 2 [] demo_ops). unfold demo_ops. repeat constructor; simpl; lia.
Defined.

(** ** Removal *)

(** C20: [remove] of the Othello takes out exactly its key, and nothing when the
    key is not a member: the last key moves to the index that was freed, the
    lists lose and rename their cells, the two parts of the split component get
    representatives of their own, and the structure is well-formed again. *)
Theorem othello_remove_exact o k : othello_inv o ->
  exists r o', cpo_remove o k = Ok (r, o') /\ othello_inv o' /\ othello_map o' = delete k (othello_map o).
Proof. apply cpo_remove_spec. Qed.

(** *** A state to apply the theorems to *)

Definition demo_cpo : ControlPlaneOthello :=
  match new_othello [1; 2] with
  | Ok o => match othello_run o [OpInsert 9 1 false; OpInsert 16 0 false; OpInsert 30 1 false] with
            | Ok (_, o') => o'
            | Err _ => o
            end
  | Err _ => blank []
  end.

Lemma demo_cpo_inv : othello_inv demo_cpo.
Proof.
  unfold demo_cpo. destruct (new_othello_spec 1 2 []) as (o & E & Hi & _). rewrite E.
  pose proof (othello_run_spec [OpInsert 9 1 false; OpInsert 16 0 false; OpInsert 30 1 false] o Hi) as H.
  destruct (othello_run o _) as [[sts o']|e]; [|exact Hi]. apply H. repeat constructor; simpl; lia.
Qed.

Example demo_cpo_keys : take 3 (cpo_keys demo_cpo) = [9; 16; 30] /\ nKeysInOthello demo_cpo = 3.
Proof. vm_compute. auto. Qed.

Lemma othello_remove_exact_witness :
  exists r o', cpo_remove demo_cpo 9 = Ok (r, o') /\ othello_inv o' /\
    othello_map o' = delete 9 (othello_map demo_cpo).
Proof. apply (othello_remove_exact demo_cpo 9 demo_cpo_inv). Defined.

(** ** Half trees *)

Lemma run_collect (vs : list visit_t) l :
  foldM (run (fun _ v _ result => Ok (result ++ [v]))) vs l = Ok (l ++ (v_node <$> vs)).
Proof.
  revert l. induction vs as [|[[k v] u] vs IH]; intros l; cbn [foldM]; [by rewrite app_nil_r|].
  change (run ?f l (k, v, u)) with (f k v u l). cbv beta. rewrite bind_Ok_l, IH, fmap_cons.
  change (v_node (k, v, u)) with v. by rewrite <-(assoc_L (++)).
Qed.

Lemma getHalfTree_nodes o k fromA other : othello_inv o ->
  exists i l, lookUpIndex o k = Ok i /\
    getHalfTree o k fromA other =
      Ok ((if other then [if fromA then snd (nodes_of o k) else fst (nodes_of o k)] else []) ++ l) /\
    NoDup l /\ Z.of_nat (length l) <= nodes o /\
    forall x, x ∈ l <-> reach (ends o) i (if fromA then fst (nodes_of o k) else snd (nodes_of o k)) x.
Proof.
  intros Hi. pose proof (oi_sized o Hi) as Hs. pose proof (nodes_range o k Hs) as [Ha Hb].
  unfold getHalfTree. rewrite (lookUpIndex_total o k Hs). set (i := Z.lxor _ _).
  set (start := if fromA then fst (nodes_of o k) else snd (nodes_of o k)).
  assert (Hr : 0 <= start < nodes o) by (pose proof (sz_ma o Hs); pose proof (sz_mb o Hs);
    unfold start, nodes in *; destruct fromA; lia).
  set (init := if other then [if fromA then snd (nodes_of o k) else fst (nodes_of o k); start] else [start]).
  destruct (traverse_spec (ends o) o Hs (oi_graph o Hi) o (fun _ v _ result => Ok (result ++ [v])) i start init
    (patched_refl o Hs) Hr) as (vs & E & Hnd & _ & Hj & _ & Hreach).
  exists i, (start :: (v_node <$> vs)). split; [reflexivity|]. split; [|split; [exact Hnd|split; [|exact Hreach]]].
  - rewrite run_collect in E. unfold start, init in E. clear - E. unfold start. destruct (nodes_of o k) as [a b].
    cbn [fst snd] in *. rewrite bind_Ok_l. destruct fromA, other; exact E.
  - pose proof (Z_range_length _ (nodes o) Hnd) as Hl. rewrite Z.max_r in Hl by lia. apply Hl.
    apply Forall_forall. intros x [->|Hx]%elem_of_cons; [exact Hr|].
    apply list_elem_of_fmap in Hx as ([[k' v] u] & -> & Hin). apply Hj in Hin. cbn [v_node fst snd].
    exact (joins_range (ends o) o _ _ _ (gr_bip _ _ (oi_graph o Hi)) (joins_sym _ _ _ _ Hin)).
Qed.

(** C21: The traversal behind [getHalfTree] ends on every well-formed Othello,
    within as many rounds as there are cells, for every key: it returns the
    start node followed by the other nodes that can be reached from it without
    the key's own edge, each exactly once; with a prefix when the other end is
    asked for. *)
Theorem half_tree_exact o k fromA other : othello_inv o ->
  exists i l, lookUpIndex o k = Ok i /\
    getHalfTree o k fromA other =
      Ok ((if other then [if fromA then snd (nodes_of o k) else fst (nodes_of o k)] else []) ++ l) /\
    NoDup l /\ Z.of_nat (length l) <= nodes o /\
    forall x, x ∈ l <-> reach (ends o) i (if fromA then fst (nodes_of o k) else snd (nodes_of o k)) x.
Proof. apply getHalfTree_nodes. Qed.

Lemma half_tree_exact_witness :
  exists i l, lookUpIndex demo_cpo 9 = Ok i /\
    getHalfTree demo_cpo 9 true false = Ok ([] ++ l) /\
    NoDup l /\ Z.of_nat (length l) <= nodes demo_cpo /\
    forall x, x ∈ l <-> reach (ends demo_cpo) i (fst (nodes_of demo_cpo 9)) x.
Proof. apply (half_tree_exact demo_cpo 9 true false demo_cpo_inv). Defined.

(** ** The data plane of a Ludo table *)

(** A Ludo table with its real locator: the data plane and the index cells
    built from a well-formed control plane ([DataPlaneLudo(cp, buckets)], with
    the locator copied by [fullSync]) lead every stored key to its row and slot,
    and the cell there has the key's value as its address.  No assumption on
    the conversion of the locator is left. *)
Theorem bulk_load_othello (cp : ControlPlaneLudo ControlPlaneOthello) j : wf_table cp j ->
  exists d cells, DataPlaneLudo_with_buckets othello_to_dp cp = Ok (d, cells) /\
    length cells = Z.to_nat (2 ^ j) /\ getBucketsNum d = 2 ^ j /\
    forall k v, holds cp k v -> 0 <= v < 2 ^ 40 ->
      exists row slot c, lookup_slot d k = Ok (Some (row, slot)) /\
        rd2 cells row slot = Ok c /\ read_addr cells row slot = Ok v /\
        toLength c = 16384 /\ toFinger c = 0.
Proof. intros Hwf. apply (bulk_load_main othello_to_dp cp j Hwf). apply othello_synced, (wt_shape cp j Hwf). Qed.

(** 64 empty buckets with a new Othello, and the table after an insertion. *)
Definition othello_table0 : ControlPlaneLudo ControlPlaneOthello :=
  MkCP 64 default_hash_seed default_hash_seed 0
    (match new_othello [1; 2] with Ok o => o | Err _ => blank [] end) (replicate 64 empty_bucket) [] 243 true 0.

Definition othello_table : ControlPlaneLudo ControlPlaneOthello :=
  match insert_body (fun t _ _ _ => Ok (t, no_update)) (fun t _ _ => Ok t) othello_table0 5 50 false with
  | Ok (t, _) => t
  | Err _ => othello_table0
  end.

Lemma othello_table0_empty i s k v : ~ at_pos othello_table0 i s k v.
Proof.
  intros (b & [_ Hb]%rd_Ok & _ & Ho & _). cbn [othello_table0 buckets_] in Hb.
  apply lookup_replicate in Hb as [-> _]. unfold occupied, empty_bucket in Ho.
  cbn [occupiedMask] in Ho. by rewrite Z.bits_0 in Ho.
Qed.

Lemma othello_table0_wf : wf_table othello_table0 6.
Proof.
  constructor; [constructor|].
  - lia.
  - done.
  - done.
  - intros i b [_ Hb]%rd_Ok. cbn [othello_table0 buckets_] in Hb.
    apply lookup_replicate in Hb as [-> _]. apply empty_bucket_ok.
  - cbn [othello_table0 cp_locator]. destruct (new_othello_spec 1 2 []) as (o & -> & Hi & _). exact Hi.
  - intros i s k v H. by apply othello_table0_empty in H.
Qed.

Lemma othello_table_wf : wf_table othello_table 6.
Proof.
  unfold othello_table.
  destruct (insert_body_new othello_table0 6 (fun t _ _ _ => Ok (t, no_update)) (fun t _ _ => Ok t) 5 50)
    as [(t' & u & -> & _ & Hwf & _)|[[-> _]|(w & e & -> & _)]].
  - exact othello_table0_wf.
  - vm_compute. discriminate.
  - vm_compute. reflexivity.
  - intros v' (i & s & H). by apply othello_table0_empty in H.
  - exists 0, empty_bucket, 0. split; [by left|]. split; [lia|]. split; [|done]. vm_compute. reflexivity.
  - exact Hwf.
  - exact othello_table0_wf.
  - exact othello_table0_wf.
Qed.

(** The key went through the Othello. *)
Example othello_table_lookUp : cp_lookUp othello_table 5 = Ok (Some 50) /\ nKeysInOthello (cp_locator othello_table) = 1.
Proof. vm_compute. auto. Qed.

Lemma bulk_load_othello_witness :
  exists d cells, DataPlaneLudo_with_buckets othello_to_dp othello_table = Ok (d, cells) /\
    length cells = Z.to_nat (2 ^ 6) /\ getBucketsNum d = 2 ^ 6 /\
    forall k v, holds othello_table k v -> 0 <= v < 2 ^ 40 ->
      exists row slot c, lookup_slot d k = Ok (Some (row, slot)) /\
        rd2 cells row slot = Ok c /\ read_addr cells row slot = Ok v /\
        toLength c = 16384 /\ toFinger c = 0.
Proof. apply (bulk_load_othello othello_table 6 othello_table_wf). Defined.

(** ** After [clear] *)

(** A cell that is its own successor: walking the list never ends. *)
Lemma self_loop next x y z fuel : rd next x = Ok (x, y) -> x <> NIL -> cells_from next fuel (x, z) = Err OutOfFuel.
Proof.
  intros E Hn. revert z. induction fuel as [|fuel IH]; intros z; cbn [cells_from fst];
    rewrite (proj2 (Z.eqb_neq x NIL) Hn); [done|]. by rewrite E, bind_Ok_l, IH.
Qed.

Definition one_key : ControlPlaneOthello :=
  match new_othello [1; 2] with
  | Ok o => match cpo_insert o 9 1 false with Ok (_, o') => o' | Err _ => o end
  | Err _ => blank []
  end.

Lemma one_key_inv : othello_inv one_key.
Proof.
  unfold one_key. destruct (new_othello_spec 1 2 []) as (o & E & Hi & _). rewrite E.
  destruct (insert_step o 9 1 false Hi ltac:(lia)) as [(r & o' & E' & Hi' & _)|(e & E' & _)]; rewrite E'; [exact Hi'|exact Hi].
Qed.

(** [insert] of key 16 on the cleared structure, up to its traversal. *)
Definition edge_after_clear : res ControlPlaneOthello :=
  let '(ha, hb) := nodes_of one_key 16 in
  '(same, o1) ← isConnectedDFS ha hb (cpo_clear one_key);
  _ ← guard_ok (negb same) AssertFailed;
  o2 ← append_key 0 16 0 o1;
  addEdge 0 ha hb o2.

Definition looped : ControlPlaneOthello := match edge_after_clear with Ok o => o | Err _ => one_key end.

Lemma looped_ok : edge_after_clear = Ok looped.
Proof. vm_compute. reflexivity. Qed.

Lemma looped_cells : rd (cpo_head looped) 197 = Ok (0, 366) /\ rd (nextAtA looped) 0 = Ok (0, 497).
Proof. vm_compute. auto. Qed.

(** [clear] only resets the count: the lists and the disjoint set keep the
    edges of the old keys.  On a well-formed Othello with one key, an insertion
    after [clear] of a key that shares the first key's cell of array A adds its
    edge with the index 0 again, so that the cell with index 0 becomes its own
    successor, and the traversal that follows walks this list for ever: no
    amount of fuel ends it. *)
Theorem clear_then_insert_loops :
  othello_inv one_key /\ cpo_isMember (cpo_clear one_key) 16 = Ok false /\
  cpo_insert (cpo_clear one_key) 16 0 false = Err OutOfFuel /\
  exists o3 cell, edge_after_clear = Ok o3 /\ rd (cpo_head o3) (fst (nodes_of one_key 16)) = Ok cell /\
    forall fuel, cells_from (nextAtA o3) fuel cell = Err OutOfFuel.
Proof.
  split; [exact one_key_inv|]. split; [vm_compute; reflexivity|]. split; [vm_compute; reflexivity|].
  exists looped, (0, 366). split; [exact looped_ok|]. destruct looped_cells as [Eh En].
  assert (Ha : fst (nodes_of one_key 16) = 197) by (vm_compute; reflexivity). rewrite Ha.
  split; [exact Eh|]. intros fuel. exact (self_loop _ 0 497 366 fuel En ltac:(done)).
Qed.
