(* ===== verification/OthelloSync.v ===== *)
(** * Keeping a data plane in step with the Othello

    An update of the control plane reports the cells it flipped
    ([OthelloUpdateResult]); a data plane that was a copy and applies the report
    ([fixHalfTreeByConnectedComponent]) is a copy again. *)

From Stdlib Require Import ZArith Lia.
From stdpp Require Import base numbers list gmap relations.
From S2P Require Import Prelude Words Hash OthelloMem LudoTable LudoInv LudoDP Forest UnionFind OthelloCP OthelloInv OthelloBuild OthelloOps OthelloRemove OthelloLocator OthelloProps.

#[local] Open Scope Z_scope.
#[local] Opaque Hash64WithSeed multiply_high_u32.

(** ** Copies *)

(** No writer is active: all versions are even. *)
Definition quiet (l : list Z) : Prop :=
  length l = Z.to_nat 8192 /\ Forall (fun v => v mod 2 = 0) l.

Record copies (d : DataPlaneOthello) (o : ControlPlaneOthello) : Prop := {
  cp_same : ma d = cpo_ma o /\ mb d = cpo_mb o /\ hab d = cpo_hab o;
  cp_good : good_mem (nodes o) (o_mem d);
  cp_bits : forall u, 0 <= u < nodes o -> bit_at (o_mem d) u = bit o u;
  cp_quiet : quiet (o_lock d);
}.

Lemma fresh_copy o : sized o -> copies (othello_to_dp o) o.
Proof.
  intros Hs. constructor; [done|apply Hs|done|]. split; [apply length_replicate|].
  apply Forall_replicate. reflexivity.
Qed.

Lemma quiet_rd l i : quiet l -> exists v, rd l (Z.land i 8191) = Ok v /\ v mod 2 = 0.
Proof.
  intros [Hl Hq]. pose proof (land_8191 i). destruct (rd_in_range l (Z.land i 8191)) as [v Hv]; [lia|].
  exists v. split; [done|]. apply rd_Ok in Hv as [_ Hv]. exact (Forall_lookup_1 _ _ _ _ Hq Hv).
Qed.

(** A copy answers as the control plane does. *)
Lemma copies_lookUp d o k w : copies d o -> othello_inv o -> othello_map o !! k = Some w ->
  othello_lookUp d k = Ok (Some w).
Proof.
  intros [(Ea & Eb & Eh) Hg Hbits Hq] Hi Hm. apply othello_map_item in Hm as (i & Hit); [|exact Hi].
  pose proof (cpo_lookUp_item o i k w Hi Hit) as E. pose proof (oi_sized o Hi) as Hs.
  destruct (nodes_range o k Hs) as [Ha Hb]. pose proof (sz_ma o Hs). pose proof (sz_mb o Hs).
  unfold cpo_lookUp in E. unfold othello_lookUp.
  assert (En : getIndices d k = nodes_of o k) by (unfold getIndices, nodes_of, common, getIndices; cbn [ma mb hab]; by rewrite Ea, Eb, Eh).
  rewrite En. destruct (nodes_of o k) as [a b]. cbn [fst snd] in *.
  assert (Hna : 0 <= a < nodes o) by (unfold nodes in *; lia). assert (Hnb : 0 <= b < nodes o) by lia.
  rewrite (bit_read o a Hs Hna), bind_Ok_l, (bit_read o b Hs Hnb), bind_Ok_l in E.
  destruct (quiet_rd _ a Hq) as (va & Hva & Pa), (quiet_rd _ b Hq) as (vb & Hvb & Pb).
  unfold lookUp_round. rewrite Hva, bind_Ok_l, Hvb, bind_Ok_l, Pa, Pb. change (0 =? 1) with false. cbn [orb].
  destruct (bit_get _ _ a Hg Hna) as [-> _]. destruct (bit_get _ _ b Hg Hnb) as [-> _].
  rewrite !bind_Ok_l, !Z.eqb_refl, (Hbits a Hna), (Hbits b Hnb). cbn [negb orb]. apply Ok_inj in E. by rewrite E.
Qed.

(** ** Applying a report *)

Lemma bump_spec d i : length (o_lock d) = Z.to_nat 8192 -> exists v, rd (o_lock d) (Z.land i 8191) = Ok v /\
  bump_lock d i = Ok (MkDPO (o_mem d) (ma d) (mb d) (hab d) (<[Z.to_nat (Z.land i 8191) := u8 (v + 1)]> (o_lock d))).
Proof.
  intros Hl. pose proof (land_8191 i). destruct (rd_in_range (o_lock d) (Z.land i 8191)) as [v Hv]; [lia|].
  exists v. split; [done|]. unfold bump_lock. rewrite Hv, bind_Ok_l, (wr_in_range _ _ _ (rd_range _ _ _ Hv)). reflexivity.
Qed.

(** Two increments of a version keep it even. *)
Lemma bump_twice v : v mod 2 = 0 -> u8 (u8 (v + 1) + 1) mod 2 = 0.
Proof. intros Hv. unfold u8, wrap. change (2 ^ 8) with 256. Z.div_mod_to_equations. lia. Qed.

(** [x] flips the cells of [l]. *)
Definition flipped (x : Z) (l : list Z) (N : Z) (m m' : list Z) : Prop :=
  forall u, 0 <= u < N -> bit_at m' u = if decide (u ∈ l) then Z.lxor x (bit_at m u) else bit_at m u.

Lemma dp_fix_spec d N i x : good_mem N (o_mem d) -> quiet (o_lock d) -> 0 <= i < N -> 0 <= x < 2 ->
  exists d', dp_fixSingle_value d i x = Ok d' /\ good_mem N (o_mem d') /\ quiet (o_lock d') /\
    ma d' = ma d /\ mb d' = mb d /\ hab d' = hab d /\ flipped x [i] N (o_mem d) (o_mem d').
Proof.
  intros Hg [Hl Hq] Hi Hx. unfold dp_fixSingle_value, dp_memValueSet.
  rewrite (value_get_eq true i (o_mem d) : memValueGet 1 0 i (o_mem d) = memGet 1 0 i (o_mem d)).
  destruct (bit_get _ _ i Hg Hi) as [-> Hb]. rewrite bind_Ok_l.
  destruct (bump_spec d i Hl) as (v & Hv & ->). rewrite bind_Ok_l. cbn [o_mem].
  rewrite (value_set_eq true i _ (o_mem d) : memValueSet 1 0 i _ (o_mem d) = memSet 1 0 i _ (o_mem d)).
  destruct (bit_set _ _ i (Z.lxor x (bit_at (o_mem d) i)) Hg Hi) as (m & -> & Gm & _ & Em & Om). rewrite bind_Ok_l.
  set (l1 := <[Z.to_nat (Z.land i 8191) := u8 (v + 1)]> (o_lock d)).
  set (d1 := MkDPO m (ma d) (mb d) (hab d) l1).
  destruct (bump_spec d1 i) as (v1 & Hv1 & E1); [cbn [d1 o_lock]; unfold l1; by rewrite length_insert|].
  unfold d1 in E1 at 1. cbn [ma mb hab o_lock] in *. rewrite E1. eexists. split; [reflexivity|]. cbn [o_mem o_lock ma mb hab d1].
  split; [exact Gm|]. split; [split|].
  - unfold l1. by rewrite !length_insert.
  - apply rd_Ok in Hv as [Hir Hv]. apply rd_Ok in Hv1 as [_ Hv1]. cbn [d1 o_lock] in Hv1. unfold l1 in *.
    rewrite list_lookup_insert_eq in Hv1 by (by apply lookup_lt_Some in Hv). injection Hv1 as <-.
    rewrite list_insert_insert_eq. apply Forall_insert; [exact Hq|]. apply bump_twice. exact (Forall_lookup_1 _ _ _ _ Hq Hv).
  - do 3 (split; [done|]). intros u Hu. destruct (decide (u ∈ [i])) as [->%list_elem_of_singleton|Hn].
    + rewrite Em, Z.mod_small; [done|]. by apply lxor_bits.
    + apply Om; [done|]. intros ->. apply Hn. left.
Qed.

Lemma dp_fix_all l d N x : good_mem N (o_mem d) -> quiet (o_lock d) -> NoDup l ->
  Forall (fun i => 0 <= i < N) l -> 0 <= x < 2 ->
  exists d', fixHalfTreeByConnectedComponent d l x = Ok d' /\ good_mem N (o_mem d') /\ quiet (o_lock d') /\
    ma d' = ma d /\ mb d' = mb d /\ hab d' = hab d /\ flipped x l N (o_mem d) (o_mem d').
Proof.
  unfold fixHalfTreeByConnectedComponent. revert d. induction l as [|i l IH]; intros d Hg Hq Hnd Hr Hx; cbn [foldM].
  - exists d. do 6 (split; [done|]). intros u _. rewrite decide_False; [done|apply not_elem_of_nil].
  - apply NoDup_cons in Hnd as [Hi Hnd]. apply Forall_cons in Hr as [Hir Hr].
    destruct (dp_fix_spec d N i x Hg Hq Hir Hx) as (d1 & -> & Hg1 & Hq1 & A1 & B1 & H1 & F1). rewrite bind_Ok_l.
    destruct (IH d1 Hg1 Hq1 Hnd Hr Hx) as (d2 & -> & Hg2 & Hq2 & A2 & B2 & H2 & F2).
    exists d2. split; [done|]. split; [done|]. split; [done|]. do 3 (split; [congruence|]).
    intros u Hu. rewrite (F2 u Hu), (F1 u Hu). destruct (decide (u = i)) as [->|Hne].
    + rewrite (decide_False (P := i ∈ l)) by done. rewrite (decide_True (P := i ∈ [i])) by left.
      by rewrite decide_True by left.
    + rewrite (decide_False (P := u ∈ [i])) by (by intros ?%list_elem_of_singleton).
      apply decide_ext. rewrite elem_of_cons. naive_solver.
Qed.

(** ** What an update reports *)

Lemma lxor_solve x p q : Z.lxor x p = q -> x = Z.lxor q p.
Proof. intros <-. by rewrite Z.lxor_assoc, Z.lxor_nilpotent, Z.lxor_0_r. Qed.

Lemma bit_01 o u : sized o -> 0 <= u < nodes o -> 0 <= bit o u < 2.
Proof. intros Hs Hu. by destruct (bit_get _ _ u (sz_mem o Hs) Hu). Qed.

(** [o1]: the key's value is stored, its cells not yet fixed; [oF]: afterwards. *)
Lemma report_spec fi kd i k w o1 o' x oF d : sized o1 -> graph_ok (ends oF) o1 ->
  ends oF i = Some (nodes_of oF k) -> rd (cpo_values o1) i = Ok w -> 0 <= w < 2 ->
  fixHalfTreeDFS true fi kd i (fst (nodes_of oF k)) (snd (nodes_of oF k)) o1 = Ok (o', x) ->
  othello_inv oF -> lookUpIndex oF k = Ok i -> cpo_mem oF = cpo_mem o' ->
  cpo_ma oF = cpo_ma o1 /\ cpo_mb oF = cpo_mb o1 /\ cpo_hab oF = cpo_hab o1 -> copies d o1 ->
  (x = 0 -> copies d oF) /\
  exists l d', changed_cells oF k x = Ok l /\ fixHalfTreeByConnectedComponent d l x = Ok d' /\ copies d' oF.
Proof.
  intros Hs Hg He Hw Hw2 Hfix Hi Hidx Hmem (Ea & Eb & Eh) [(Da & Db & Dh) Dg Dbits Dq].
  assert (Hn : nodes oF = nodes o1) by (unfold nodes; by rewrite Ea, Eb).
  destruct (nodes_range oF k (oi_sized oF Hi)) as [Hra Hrb]. pose proof (sz_mb oF (oi_sized oF Hi)) as Hmb.
  destruct (getHalfTree_nodes oF k (0 <? x) false Hi) as (i' & l & Ei & El & Hnd & _ & Hl).
  assert (i' = i) as -> by (rewrite Hidx in Ei; by apply Ok_inj in Ei).
  destruct (nodes_of oF k) as [a b] eqn:Eab. cbn [fst snd] in *. unfold nodes in Hrb.
  assert (Hna : 0 <= a < nodes o1) by (rewrite <-Hn; unfold nodes; lia).
  assert (Hnb : 0 <= b < nodes o1) by (rewrite <-Hn; unfold nodes; lia).
  destruct (fixHalf_effect (ends oF) o1 Hs Hg true fi kd i a b w He Hw Hw2)
    as (o2 & x2 & ix & h & E2 & P & (Hh & _) & HB & Hx & _).
  rewrite Hfix in E2. apply Ok_inj, pair_equal_spec in E2 as [<- <-]. specialize (Hx eq_refl). cbn [andb] in HB.
  assert (Hx2 : 0 <= x < 2) by (rewrite (lxor_solve _ _ _ Hx); apply lxor_bits; [apply lxor_bits; [done|]|]; by apply bit_01).
  assert (HbF : forall u, 0 <= u < nodes o1 -> bit oF u = if h u then Z.lxor x (bit o1 u) else bit o1 u).
  { intros u Hu. rewrite <-(HB u Hu). unfold bit. by rewrite Hmem. }
  split.
  - intros ->. constructor; [split; [congruence|split; congruence]|by rewrite Hn| |done].
    intros u Hu. rewrite Hn in Hu. rewrite (Dbits u Hu), (HbF u Hu). by destruct (h u); rewrite ?Z.lxor_0_l.
  - exists l. destruct (dp_fix_all l d (nodes o1) x Dg Dq Hnd) as (d' & Ed & Gd & Qd & A & B & C & F); [|done|].
    { apply Forall_forall. intros u Hu. apply Hl in Hu as (p & Hwalk & <-). destruct (0 <? x); destruct p as [|c p _] using rev_ind;
        [exact Hna| |exact Hnb|]; apply walk_app in Hwalk as [_ Hj]; destruct c as [k' v]; destruct Hj as (Hj & _);
        rewrite target_app; cbn [target]; exact (joins_range _ _ _ _ _ (gr_bip _ _ Hg) (joins_sym _ _ _ _ Hj)). }
    exists d'. split; [exact El|]. split; [exact Ed|]. constructor; [split; [congruence|split; congruence]|by rewrite Hn| |done].
    intros u Hu. rewrite Hn in Hu. rewrite (F u Hu), (Dbits u Hu), (HbF u Hu).
    destruct (Z.ltb_spec 0 x) as [Hpos|Hzero].
    + destruct (h u) eqn:Ehu; [rewrite decide_True; [done|]|rewrite decide_False; [done|]].
      * apply Hl, Hh, Ehu.
      * intros Hin. apply Hl, Hh in Hin. congruence.
    + assert (x = 0) as -> by lia. rewrite !Z.lxor_0_l. by destruct (decide (u ∈ l)), (h u).
Qed.

(** [changeValueAt] and [toggleInOthello] once the new value is stored. *)
Lemma stored_report d o i k w w' vs : othello_inv o -> item o i k w -> 0 <= w' < 2 ->
  wr (cpo_values o) i w' = Ok vs -> copies d o ->
  exists o' x, fixHalfTreeDFS true false true i (fst (nodes_of o k)) (snd (nodes_of o k)) (set_value_at vs o)
      = Ok (o', x) /\ (w' = 1 - w -> x = 1) /\ (x = 0 -> copies d o') /\
    exists l d', changed_cells o' k x = Ok l /\ fixHalfTreeByConnectedComponent d l x = Ok d' /\ copies d' o'.
Proof.
  intros Hi Hit Hw' Hvs Hd. pose proof (oi_sized o Hi) as Hs. pose proof (ends_item _ _ _ _ Hit) as He.
  destruct (change_spec o i k w w' vs Hi Hit Hw' Hvs) as (o' & x & E & Hi' & _). exists o', x. split; [exact E|].
  pose proof (wr_length _ _ _ _ Hvs) as Hl. set (o1 := set_value_at vs o) in *.
  assert (Hs1 : sized o1) by (destruct Hs; constructor; try done; simpl; congruence).
  assert (G1 : graph_ok (ends o) o1) by (destruct (oi_graph o Hi); by constructor).
  assert (Hv1 : rd (cpo_values o1) i = Ok w') by (simpl; by eapply rd_wr_eq).
  destruct (fixHalf_effect (ends o) o1 Hs1 G1 true false true i (fst (nodes_of o k)) (snd (nodes_of o k)) w')
    as (o2 & x2 & ix & h & E2 & P & Hh & HB & Hx & _); [by rewrite <-surjective_pairing|done|done|].
  rewrite E in E2. apply Ok_inj, pair_equal_spec in E2 as [<- <-]. specialize (Hx eq_refl).
  pose proof (patched_kept _ _ P) as K. pose proof (kept_ends _ _ K) as Ee. change (ends o1) with (ends o) in Ee.
  assert (En : nodes_of o' k = nodes_of o k)
    by (unfold nodes_of, getIndices, common; cbn [ma mb hab]; by rewrite (kp_ma _ _ K), (kp_mb _ _ K), (kp_hab _ _ K)).
  split.
  - intros ->. destruct (nodes_of o k) as [a b]. cbn [fst snd] in Hx. destruct (oi_sums o Hi i a b He) as (v & Hv & Hb & _).
    destruct Hit as (Hr & Hk & Hw). assert (v = w) as -> by congruence. change (bit o1) with (bit o) in Hx.
    rewrite (lxor_solve _ _ _ Hx), Z.lxor_assoc, (Z.lxor_comm (bit o b)). unfold bits_of in Hb. rewrite Hb.
    destruct (values_bits_stored o Hs (oi_values o Hi) i Hr) as (v & Hv' & ?). assert (v = w) as -> by congruence.
    assert (w = 0 \/ w = 1) as [->| ->] by lia; reflexivity.
  - apply (report_spec false true i k w' o1 o' x o' d Hs1); rewrite ?Ee, ?En; try done.
    + assert (item o' i k w') as Hit'.
      { destruct Hit as (Hr & Hk & _). split; [by rewrite (kp_n _ _ K)|]. rewrite (kp_keys _ _ K), (kp_values _ _ K). done. }
      exact (lookUpIndex_item o' i k w' Hi' Hit').
    + split; [exact (kp_ma _ _ K)|]. split; [exact (kp_mb _ _ K)|exact (kp_hab _ _ K)].
    + destruct Hd. by constructor.
Qed.

Lemma change_report d o k w w' r o' : othello_inv o -> othello_map o !! k = Some w -> 0 <= w' < 2 -> copies d o ->
  cpo_changeValue o k w' = Ok (r, o') ->
  exists d', fixHalfTreeByConnectedComponent d (o_cc r) (xorTemplate r) = Ok d' /\ copies d' o'.
Proof.
  intros Hi Hm Hw' Hd. destruct (member_item o k w Hi Hm) as (i & Hit & Hmem & Hidx).
  pose proof Hit as (Hr & Hk & Hw). unfold cpo_changeValue, changeValueAt.
  rewrite Hmem, bind_Ok_l. cbn [guard_ok]. rewrite bind_Ok_l, Hidx, bind_Ok_l.
  rewrite (proj2 (Z.ltb_lt i _)) by lia. cbn [guard_ok]. rewrite bind_Ok_l.
  pose proof (wr_in_range _ _ w' (rd_range _ _ _ Hw)) as Hvs. rewrite Hvs, bind_Ok_l, Hk, bind_Ok_l.
  destruct (stored_report d o i k w w' _ Hi Hit Hw' Hvs Hd) as (o2 & x & E & _ & Hx0 & l & d' & El & Ed & Hc).
  destruct (nodes_of o k) as [a b]. cbn [fst snd] in E. unfold set_value_at in E. rewrite E, bind_Ok_l.
  destruct (Z.eqb_spec x 0) as [->|Hne].
  - rewrite bind_Ok_l. intros [<- <-]%Ok_inj%pair_equal_spec. exists d. cbn [o_cc]. split; [reflexivity|auto].
  - rewrite El, bind_Ok_l. intros [<- <-]%Ok_inj%pair_equal_spec. exists d'. cbn [o_cc xorTemplate]. by split.
Qed.

Lemma toggle_report d o k w r o' : othello_inv o -> othello_map o !! k = Some w -> copies d o ->
  toggleInOthello o k = Ok (r, o') ->
  exists d', fixHalfTreeByConnectedComponent d (o_cc r) (xorTemplate r) = Ok d' /\ copies d' o'.
Proof.
  intros Hi Hm Hd. destruct (member_item o k w Hi Hm) as (i & Hit & Hmem & Hidx).
  pose proof Hit as (Hr & Hk & Hw). unfold toggleInOthello.
  rewrite Hmem, bind_Ok_l. cbn [guard_ok]. rewrite bind_Ok_l, Hidx, bind_Ok_l, Hw, bind_Ok_l.
  pose proof (othello_map_bits o k w Hi Hm) as Hb.
  assert ((if w =? 0 then 1 else 0) = 1 - w) as -> by (destruct Hb as [->| ->]; done).
  pose proof (wr_in_range _ _ (1 - w) (rd_range _ _ _ Hw)) as Hvs. rewrite Hvs, bind_Ok_l.
  destruct (stored_report d o i k w (1 - w) _ Hi Hit ltac:(lia) Hvs Hd) as (o2 & x & E & Hx & _ & l & d' & El & Ed & Hc).
  rewrite (Hx eq_refl) in *. destruct (nodes_of o k) as [a b]. cbn [fst snd] in E. unfold set_value_at in E.
  rewrite E, bind_Ok_l, El, bind_Ok_l. intros [<- <-]%Ok_inj%pair_equal_spec. exists d'. cbn [o_cc xorTemplate]. by split.
Qed.

(** An insertion that neither rebuilt nor enlarged. *)
Lemma acyclic_report d o k v o3 : othello_inv o -> othello_map o !! k = None -> 0 <= v < 2 -> copies d o ->
  edge_added o k v o3 -> (cpo_ma o3 = cpo_ma o /\ cpo_mb o3 = cpo_mb o /\ cpo_hab o3 = cpo_hab o) ->
  exists o4 x l d', fixHalfTreeDFS true true false (nKeysInOthello o) (fst (nodes_of o k)) (snd (nodes_of o k)) o3
      = Ok (o4, x) /\
    let o5 := with_entries (nKeysInOthello o + 1) (cpo_keys o4) (cpo_values o4) o4 in
    changed_cells o5 k x = Ok l /\ fixHalfTreeByConnectedComponent d l x = Ok d' /\ copies d' o5.
Proof.
  intros Hi Hnew Hv Hd Hea (Ea & Eb & Eh). destruct (insert_acyclic o k v o3 Hi Hnew Hv Hea) as (o4 & x & E & Hi5 & Hmap).
  cbv zeta in *. set (o5 := with_entries (nKeysInOthello o + 1) (cpo_keys o4) (cpo_values o4) o4) in *.
  set (n := nKeysInOthello o) in *. pose proof (sz_n o (oi_sized o Hi)).
  destruct Hea as [S3 G3 D3 N3 O3 K3 V3 Ot3 M3 I3 R3]. fold n in N3, G3, V3, K3.
  destruct (fixHalf_effect (ends_upto o3 (n + 1)) o3 S3 G3 true true false n
    (fst (nodes_of o k)) (snd (nodes_of o k)) v) as (o2 & x2 & ix & h & E2 & P & _);
    [rewrite N3; by rewrite <-surjective_pairing|done|done|].
  rewrite E in E2. apply Ok_inj, pair_equal_spec in E2 as [<- <-]. pose proof (patched_kept _ _ P) as K.
  assert (Ee : ends o5 = ends_upto o3 (n + 1))
    by (unfold ends, ends_upto, o5; simpl; by rewrite (kp_ma _ _ K), (kp_mb _ _ K), (kp_hab _ _ K), (kp_keys _ _ K)).
  assert (En : nodes_of o5 k = nodes_of o k)
    by (unfold nodes_of, getIndices, common, o5; cbn [ma mb hab cpo_ma cpo_mb cpo_hab with_entries];
        by rewrite (kp_ma _ _ K), (kp_mb _ _ K), (kp_hab _ _ K), Ea, Eb, Eh).
  destruct (report_spec true false n k v o3 o4 x o5 d) as (_ & l & d' & El & Ed & Hc); rewrite ?Ee, ?En; try done.
  - assert (item o5 n k v) as Hit.
    { split; [change (nKeysInOthello o5) with (n + 1); unfold n; lia|].
      change (cpo_keys o5) with (cpo_keys o4). change (cpo_values o5) with (cpo_values o4).
      rewrite (kp_keys _ _ K), (kp_values _ _ K). done. }
    exact (lookUpIndex_item o5 n k v Hi5 Hit).
  - split; [exact (kp_ma _ _ K)|]. split; [exact (kp_mb _ _ K)|exact (kp_hab _ _ K)].
  - assert (Hn3 : nodes o3 = nodes o) by (unfold nodes; by rewrite Ea, Eb).
    destruct Hd as [Hsame Hg Hbits Hq]. constructor; rewrite ?Hn3, ?Ea, ?Eb, ?Eh; try done.
    intros u Hu. rewrite (Hbits u Hu). unfold bit. by rewrite M3.
  - by exists o4, x, l, d'.
Qed.

Lemma edge_same o k v f o2 o3 : append_key (nKeysInOthello o) k v (with_forest f o) = Ok o2 ->
  addEdge (nKeysInOthello o) (fst (nodes_of o k)) (snd (nodes_of o k)) o2 = Ok o3 ->
  cpo_ma o3 = cpo_ma o /\ cpo_mb o3 = cpo_mb o /\ cpo_hab o3 = cpo_hab o.
Proof.
  unfold append_key, addEdge. intros E2 E3. apply bind_Ok in E2 as (ks & _ & E2). apply bind_Ok in E2 as (vs & _ & E2).
  apply Ok_inj in E2 as <-. do 7 (apply bind_Ok in E3 as (? & _ & E3)). by apply Ok_inj in E3 as <-.
Qed.

Lemma has_room a b n : (a <=? n) || (b <=? n) = false -> n < a.
Proof. by intros [?%Z.leb_gt _]%orb_false_iff. Qed.

Lemma insert_report d o k v online r o' : othello_inv o -> 0 <= v < 2 -> copies d o ->
  cpo_insert o k v online = Ok (r, o') -> o_status r = 0 ->
  exists d', fixHalfTreeByConnectedComponent d (o_cc r) (xorTemplate r) = Ok d' /\ copies d' o'.
Proof.
  intros Hi Hv Hd E Hst. unfold cpo_insert in E.
  assert (Hstep : exists fuel, insert_rec fuel o k v online = Ok (r, o')) by (by eexists). clear E.
  destruct Hstep as [fuel E]. destruct (othello_map o !! k) as [w|] eqn:Hm.
  - apply (change_report d o k w v r o' Hi Hm Hv Hd). revert E.
    destruct fuel; cbn [insert_rec]; rewrite (cpo_isMember_spec o k Hi), Hm, bind_Ok_l, bool_decide_eq_true_2 by (by exists w);
      exact id.
  - revert E. assert (Hmem : cpo_isMember o k = Ok false) by (by apply not_member).
    destruct (sameSet_nodes o k Hi) as (f & ra & rb & Hss & Hf & Hra & Hrb).
    assert (Hcon : isConnectedDFS (fst (nodes_of o k)) (snd (nodes_of o k)) o = Ok (ra =? rb, with_forest f o))
      by (unfold isConnectedDFS; by rewrite Hss).
    destruct fuel as [|fuel]; cbn [insert_rec]; rewrite Hmem, bind_Ok_l;
      destruct (_ || _) eqn:Hcap.
    1,3: destruct online; [intros [<- _]%Ok_inj%pair_equal_spec; discriminate Hst|].
    1: discriminate.
    1: { intros E. apply bind_Ok in E as (o1 & _ & E). apply bind_Ok in E as ([r1 o2] & _ & E).
         destruct (o_status r1 <? 0); [discriminate|]. apply Ok_inj, pair_equal_spec in E as [<- _]. discriminate Hst. }
    all: destruct (Z.eqb_spec ra rb) as [Hab|Hne].
    1,3: destruct (nodes_of o k) as [ha hb]; cbn [fst snd] in Hcon; rewrite Hcon, bind_Ok_l;
      destruct online; intros E; [apply Ok_inj, pair_equal_spec in E as [<- _]; discriminate Hst|];
      apply bind_Ok in E as (o2 & _ & E); apply bind_Ok in E as (o3 & _ & E);
      apply Ok_inj, pair_equal_spec in E as [<- _]; discriminate Hst.
    all: destruct (add_key_edge o f k v ra rb Hi (has_room _ _ _ Hcap) Hf Hra Hrb Hne) as (o2 & o3 & E2 & E3 & Hea);
      assert (Hsame : cpo_ma o3 = cpo_ma o /\ cpo_mb o3 = cpo_mb o /\ cpo_hab o3 = cpo_hab o)
        by (exact (edge_same o k v f o2 o3 E2 E3));
      destruct (acyclic_report d o k v o3 Hi Hm Hv Hd Hea Hsame) as (o4 & x & l & d' & E4 & El & Ed & Hc);
      destruct (nodes_of o k) as [ha hb]; cbn [fst snd] in *;
      rewrite Hcon, bind_Ok_l, E2, bind_Ok_l, E3, bind_Ok_l, E4, bind_Ok_l; cbv zeta in El |- *; rewrite El, bind_Ok_l;
      intros [<- <-]%Ok_inj%pair_equal_spec; exists d'; cbn [o_cc xorTemplate]; by split.
Qed.

(** The operations whose reports are applied. *)
Definition reports (op : othello_op) : Prop :=
  match op with OpInsert _ _ _ | OpChangeValue _ _ | OpToggle _ => True | OpRemove _ | OpResize _ _ => False end.

(** C19: The report of an update is exact: when an insertion, a change or a
    toggle of the control plane succeeds without a rebuild (status 0), a data
    plane that was a copy of it and flips the reported cells by the reported
    template, under their versions, is a copy of the new state: every cell
    agrees, all versions are even again, and it answers every member exactly. *)
Theorem reported_update_exact o op r o' d : othello_inv o -> op_ok op -> reports op -> copies d o ->
  othello_step o op = Ok (r, o') -> o_status r = 0 ->
  exists d', fixHalfTreeByConnectedComponent d (o_cc r) (xorTemplate r) = Ok d' /\ copies d' o' /\
    forall k w, othello_map o' !! k = Some w -> othello_lookUp d' k = Ok (Some w).
Proof.
  intros Hi Hok Hrep Hd E Hst.
  assert (Hi' : othello_inv o').
  { destruct (othello_step_spec o op Hi Hok) as [(r1 & o1 & E1 & Hi1 & _)|(e & E1 & _)]; rewrite E in E1; [|done].
    by apply Ok_inj, pair_equal_spec in E1 as [_ ->]. }
  assert (exists d', fixHalfTreeByConnectedComponent d (o_cc r) (xorTemplate r) = Ok d' /\ copies d' o')
    as (d' & Ed & Hc); [|exists d'; split; [exact Ed|]; split; [exact Hc|]; intros k w; by apply copies_lookUp].
  destruct op as [k v online|k|k v|k|n force]; try done; simpl in E, Hok.
  - by apply (insert_report d o k v online r o').
  - destruct (othello_map o !! k) as [w|] eqn:Hm; [by apply (change_report d o k w v)|].
    unfold cpo_changeValue in E. by rewrite (not_member o k Hi Hm) in E.
  - destruct (othello_map o !! k) as [w|] eqn:Hm; [by apply (toggle_report d o k w)|].
    unfold toggleInOthello in E. by rewrite (not_member o k Hi Hm) in E.
Qed.

(** Toggling key 9 of [demo_cpo]. *)
Definition demo_toggled : res (OthelloUpdateResult * ControlPlaneOthello) := othello_step demo_cpo (OpToggle 9).

Definition demo_report : OthelloUpdateResult := match demo_toggled with Ok (r, _) => r | Err _ => map_result 1 end.
Definition demo_after : ControlPlaneOthello := match demo_toggled with Ok (_, o) => o | Err _ => demo_cpo end.

(** The half tree of 9 at its end in A also holds the other end of key 16. *)
Example demo_report_cells : o_cc demo_report = [197; 366] /\ xorTemplate demo_report = 1.
Proof. vm_compute. auto. Qed.

Lemma demo_toggled_ok : demo_toggled = Ok (demo_report, demo_after).
Proof. vm_compute. reflexivity. Qed.

Lemma reported_update_exact_witness :
  exists d', fixHalfTreeByConnectedComponent (othello_to_dp demo_cpo) (o_cc demo_report) (xorTemplate demo_report) = Ok d' /\
    copies d' demo_after /\ forall k w, othello_map demo_after !! k = Some w -> othello_lookUp d' k = Ok (Some w).
Proof.
  apply (reported_update_exact demo_cpo (OpToggle 9) demo_report demo_after (othello_to_dp demo_cpo) demo_cpo_inv I I).
  - exact (fresh_copy demo_cpo (oi_sized demo_cpo demo_cpo_inv)).
  - exact demo_toggled_ok.
  - vm_compute. reflexivity.
Defined.
