(* ===== verification/NumaTable.v ===== *)
(** * The table as the NUMA side uses it

    Over NUMA memory a key may be in any slot of its row, so the contents of a
    table are a map from cells to items.  This file holds what the server's
    direct operations, the replay of deferred operations and the clients share:
    the loop over a row for an empty cell, that view of an index and an entry
    array, and the three changes the code makes to it. *)

From Stdlib Require Import ZArith Lia.
From stdpp Require Import base numbers gmap list.
From S2P Require Import Prelude Words Hash PackedData LudoSlot LruCache ServerRdma ServerInv.

#[local] Open Scope Z_scope.

(** [for (s = 0; s < 4; s++) if (check_slots(key, row, s) == 0) ...; break] *)
Fixpoint first_empty (sl : list Z) (b : list ludo_bucket) (k row : Z) : res (option Z) :=
  match sl with
  | [] => Ok None
  | s :: sl =>
      st ← check_slots b k row s;
      if st =? 0 then Ok (Some s) else first_empty sl b k row
  end.

Definition row_slots : list Z := [0; 1; 2; 3].

(** The item of the non-empty cell [(row, slot)]. *)
Definition cell_item (b : list ludo_bucket) (m : region) (row slot k v : Z) : Prop :=
  exists c e, rd2 b row slot = Ok c /\ nonempty c /\ rd m (toAddr c) = Ok e /\
    pkey e = k /\ data e = v.

(** No two non-empty cells share an entry. *)
Definition addrs_inj (b : list ludo_bucket) : Prop := forall row slot row' slot' c c',
  rd2 b row slot = Ok c -> rd2 b row' slot' = Ok c' -> nonempty c -> nonempty c' ->
  toAddr c = toAddr c' -> row = row' /\ slot = slot'.

Definition index_ok (b : list ludo_bucket) : Prop := wf_buckets b /\ addrs_inj b.

(** No non-empty cell refers to entry [a]. *)
Definition unused (b : list ludo_bucket) (a : Z) : Prop := forall row slot c,
  rd2 b row slot = Ok c -> nonempty c -> toAddr c <> a.

(** The cells of [b'], [m'] are those of [b], [m] but for [(row, slot)], which
    holds [it]. *)
Definition cell_updated (b : list ludo_bucket) (m : region) (b' : list ludo_bucket) (m' : region)
    (row slot : Z) (it : option (Z * Z)) : Prop := forall row' slot' k v,
  cell_item b' m' row' slot' k v <->
    (row' = row /\ slot' = slot /\ it = Some (k, v)) \/
    ((row', slot') <> (row, slot) /\ cell_item b m row' slot' k v).

Lemma cell_item_fun b m row slot k v k' v' :
  cell_item b m row slot k v -> cell_item b m row slot k' v' -> k = k' /\ v = v'.
Proof.
  intros (c & e & Hc & _ & He & <- & <-) (c' & e' & Hc' & _ & He' & <- & <-).
  assert (c' = c) as -> by congruence. by assert (e' = e) as -> by congruence.
Qed.

Lemma cell_range b row slot c : wf_buckets b -> rd2 b row slot = Ok c ->
  0 <= row < Z.of_nat (length b) /\ 0 <= slot < 4.
Proof.
  intros Hb H. apply bind_Ok in H as (r & Hr & Hc). split; [by eapply rd_range|].
  destruct (row_cells b row r Hb Hr) as (?&?&?&?&->). by apply rd_range in Hc.
Qed.

Lemma cell_exists b row slot : wf_buckets b -> 0 <= row < Z.of_nat (length b) -> 0 <= slot < 4 ->
  exists c, rd2 b row slot = Ok c.
Proof. intros. by apply (rd2_in_range b 4). Qed.

Lemma check_slots_empty b k row slot st : wf_buckets b -> check_slots b k row slot = Ok st ->
  exists c, rd2 b row slot = Ok c /\ (st = 0 <-> toLength c = 0).
Proof.
  intros Hb H. pose proof H as H0. unfold check_slots in H0. apply bind_Ok in H0 as (c & Hc & H0).
  exists c. split; [done|]. pose proof Hc as Hc'. apply bind_Ok in Hc' as (r & Hr & Hc').
  destruct (check_slots_spec b row r Hb Hr k slot st H) as (c1 & Hc1 & ->).
  assert (c1 = c) as -> by congruence.
  destruct (Z.eqb_spec (toLength c) 0); [done|]. destruct (_ =? _); [done|].
  by destruct (existsb _ _).
Qed.

Lemma first_empty_spec sl b k row : wf_buckets b -> 0 <= row < Z.of_nat (length b) ->
  Forall (fun s => 0 <= s < 4) sl ->
  exists r, first_empty sl b k row = Ok r /\
  match r with
  | Some s => s ∈ sl /\ exists c, rd2 b row s = Ok c /\ toLength c = 0
  | None => forall s c, s ∈ sl -> rd2 b row s = Ok c -> nonempty c
  end.
Proof.
  intros Hb Hrow. induction sl as [|s sl IH]; intros Hsl; cbn [first_empty].
  { exists None. split; [done|]. by intros s c ?%not_elem_of_nil. }
  apply Forall_cons in Hsl as [Hs Hsl].
  destruct (rd_in_range b row Hrow) as [r0 Hr0].
  destruct (check_slots_total b row r0 Hb Hr0 k s Hs) as [st Hst]. rewrite Hst, bind_Ok_l.
  destruct (check_slots_empty b k row s st Hb Hst) as (c & Hc & Hiff).
  destruct (Z.eqb_spec st 0) as [E|E].
  - eexists. split; [done|]. split; [apply list_elem_of_here|]. exists c. by rewrite <-Hiff.
  - destruct (IH Hsl) as (r & -> & Hr). exists r. split; [done|]. destruct r as [s'|].
    + destruct Hr as [? ?]. split; [by apply list_elem_of_further|done].
    + intros s' c' [->|Hin]%elem_of_cons Hc'; [|by eapply Hr].
      assert (c' = c) as -> by congruence. unfold nonempty. by rewrite <-Hiff.
Qed.

Lemma row_slots_range : Forall (fun s => 0 <= s < 4) row_slots.
Proof. unfold row_slots. repeat constructor; lia. Qed.

Lemma elem_of_row_slots s : s ∈ row_slots <-> 0 <= s < 4.
Proof. unfold row_slots. set_unfold. lia. Qed.

Lemma row_slots_before l1 l2 s s' : row_slots = l1 ++ s :: l2 -> 0 <= s' < s -> s' ∈ l1.
Proof.
  unfold row_slots. intros E Hlt.
  destruct l1 as [|? [|? [|? [|? l1]]]]; simplify_eq/=; [lia|set_unfold; lia..|by destruct l1].
Qed.

(** Before the slot it finds every cell is occupied. *)
Lemma first_empty_first sl b k row s : wf_buckets b -> first_empty sl b k row = Ok (Some s) ->
  exists l1 l2 c, sl = l1 ++ s :: l2 /\ rd2 b row s = Ok c /\ toLength c = 0 /\
    forall s' c', s' ∈ l1 -> rd2 b row s' = Ok c' -> nonempty c'.
Proof.
  intros Hb. induction sl as [|x sl IH]; cbn [first_empty]; intros H; [done|].
  apply bind_Ok in H as (st & Hst & H).
  destruct (check_slots_empty b k row x st Hb Hst) as (c & Hc & Hiff).
  destruct (Z.eqb_spec st 0) as [E|E].
  - apply Ok_inj in H as [= <-]. exists [], sl, c. split; [done|]. split; [done|]. split; [by apply Hiff|].
    by intros s' c' ?%not_elem_of_nil.
  - destruct (IH H) as (l1 & l2 & c0 & -> & Hc0 & H0 & Hl). exists (x :: l1), l2, c0.
    do 3 (split; [done|]). intros s' c' [->|Hin]%elem_of_cons Hc'; [|by eapply Hl].
    assert (c' = c) as -> by congruence. unfold nonempty. by rewrite <-Hiff.
Qed.

(** ** What a put finds in a row

    The four cases of [check_slots] for a key whose own cell is [slot]: that
    cell is free; it has the key's fingerprint and refers to entry [a]; it has
    another one and [s] is the first free cell of the row; the row is full. *)
Inductive row_case :=
  | HomeFree
  | HomeMatch (a : Z)
  | OtherFree (s : Z)
  | RowFull.

Definition row_is (b : list ludo_bucket) (k row slot : Z) (pc : row_case) : Prop :=
  exists c, rd2 b row slot = Ok c /\
  match pc with
  | HomeFree => toLength c = 0
  | HomeMatch a => nonempty c /\ toFinger c = fingerprint k /\ a = toAddr c
  | OtherFree s => nonempty c /\ toFinger c <> fingerprint k /\ 0 <= s < 4 /\
      (exists c', rd2 b row s = Ok c' /\ toLength c' = 0) /\
      forall s' c', 0 <= s' < s -> rd2 b row s' = Ok c' -> nonempty c'
  | RowFull => nonempty c /\ toFinger c <> fingerprint k /\
      forall s c', rd2 b row s = Ok c' -> nonempty c'
  end.

Lemma check_slots_case b k row slot : wf_buckets b -> 0 <= row < Z.of_nat (length b) -> 0 <= slot < 4 ->
  exists st pc, check_slots b k row slot = Ok st /\ row_is b k row slot pc /\
    match pc with
    | HomeFree => st = 0
    | HomeMatch _ => st = 1
    | OtherFree s => st = 2 /\ first_empty row_slots b k row = Ok (Some s)
    | RowFull => st = 3
    end.
Proof.
  intros Hb Hrow Hs. destruct (rd_in_range b row Hrow) as [r Hr].
  destruct (check_slots_total b row r Hb Hr k slot Hs) as [st Hst].
  destruct (check_slots_spec b row r Hb Hr k slot st Hst) as (c & Hc & E).
  assert (Hcell : forall s c', rd2 b row s = Ok c' <-> rd r s = Ok c').
  { intros s c'. unfold rd2. by rewrite Hr, bind_Ok_l. }
  apply Hcell in Hc. exists st.
  destruct (Z.eqb_spec (toLength c) 0) as [H0|H0].
  { exists HomeFree. split; [done|]. split; [by exists c|done]. }
  destruct (Z.eqb_spec (toFinger c) (fingerprint k)) as [Hf|Hf].
  { exists (HomeMatch (toAddr c)). split; [done|]. split; [by exists c|done]. }
  destruct (first_empty_spec row_slots b k row Hb Hrow row_slots_range) as (found & Hfound & Hspec).
  assert (Hex : existsb (fun c => toLength c =? 0) r = true <-> exists s c', rd2 b row s = Ok c' /\ toLength c' = 0).
  { rewrite existsb_exists. split.
    - intros (c' & [i Hi]%list_elem_of_In%list_elem_of_lookup & Hz%Z.eqb_eq). exists (Z.of_nat i), c'.
      split; [|done]. apply Hcell, rd_Ok. split; [lia|]. by rewrite Nat2Z.id.
    - intros (s & c' & Hc'%Hcell & Hz). exists c'. split; [|by apply Z.eqb_eq].
      apply rd_Ok in Hc' as [_ Hc']. apply list_elem_of_In. by apply list_elem_of_lookup_2 in Hc'. }
  destruct found as [s|].
  - destruct (first_empty_first row_slots b k row s Hb Hfound) as (l1 & l2 & c' & El & Hc' & Hz & Hall).
    destruct Hspec as [Hin _]. apply elem_of_row_slots in Hin.
    rewrite (proj2 Hex) in E by (by exists s, c'). exists (OtherFree s). split; [done|]. split; [|done].
    exists c. do 4 (split; [done|]). split; [by exists c'|]. intros s' c'' Hlt. apply Hall.
    by apply (row_slots_before l1 l2 s).
  - assert (Hfull : forall s c', rd2 b row s = Ok c' -> nonempty c').
    { intros s c' Hc'. apply (Hspec s c'); [|done]. apply elem_of_row_slots.
      by apply (cell_range b row s c' Hb). }
    destruct (existsb _ r) eqn:Ex.
    + destruct (proj1 Hex eq_refl) as (s & c' & Hc' & Hz). by destruct (Hfull s c' Hc').
    + exists RowFull. split; [done|]. split; [by exists c|done].
Qed.

Lemma new_buckets_cell n row slot c : rd2 (new_buckets n) row slot = Ok c -> c = 0.
Proof.
  unfold rd2, new_buckets. intros H. apply bind_Ok in H as (r & Hr & Hc).
  apply rd_Ok in Hr as [_ Hr]. apply lookup_replicate in Hr as [-> _].
  apply rd_Ok in Hc as [_ Hc].
  by apply lookup_replicate in Hc as [-> _].
Qed.

(** *** The three changes *)

Section changes.
Context (b : list ludo_bucket) (m : region) (row slot : Z) (Hb : index_ok b).

(** A cell other than [(row, slot)] is read as before. *)
Lemma other_cell b' c x row' slot' : wr2 b row slot x = Ok b' -> (row', slot') <> (row, slot) ->
  rd2 b' row' slot' = Ok c <-> rd2 b row' slot' = Ok c.
Proof. intros Hw Hne. by rewrite (rd2_wr2_ne _ _ _ _ _ _ _ Hw). Qed.

(** A fresh entry is written and linked. *)
Lemma link_fresh m' b' k v len a : 0 <= a < 2 ^ 40 -> unused b a ->
  wr m a (PackedStruct k len v) = Ok m' -> write_addr b k row slot a 64 = Ok b' ->
  index_ok b' /\ cell_updated b m b' m' row slot (Some (k, v)) /\
  forall a', a' <> a -> unused b a' -> unused b' a'.
Proof.
  intros Ha Hun Hm Hw. unfold write_addr in Hw. destruct (new_cell_fields k a Ha) as (Hl & _ & Hta).
  revert Hw Hl Hta. generalize (combine (fingerprint k) 64 a) as nc. intros nc Hw Hl Hta.
  assert (Hnn : nonempty nc) by (unfold nonempty; lia). clear Hl.
  assert (Hnew : rd2 b' row slot = Ok nc) by (by eapply rd2_wr2_eq).
  destruct Hb as [Hwf Hinj]. split; [split|split].
  - by eapply wf_buckets_wr2.
  - intros row1 slot1 row2 slot2 c1 c2 H1 H2 Hn1 Hn2 E.
    destruct (decide ((row1, slot1) = (row, slot))) as [[= -> ->]|Hne1];
      destruct (decide ((row2, slot2) = (row, slot))) as [[= -> ->]|Hne2]; [done|..].
    + apply (other_cell b' c2 nc) in H2; [|done..]. assert (c1 = nc) as -> by congruence.
      exfalso. apply (Hun row2 slot2 c2); congruence.
    + apply (other_cell b' c1 nc) in H1; [|done..]. assert (c2 = nc) as -> by congruence.
      exfalso. apply (Hun row1 slot1 c1); congruence.
    + apply (other_cell b' c1 nc) in H1; [|done..]. apply (other_cell b' c2 nc) in H2; [|done..].
      by apply (Hinj row1 slot1 row2 slot2 c1 c2).
  - intros row' slot' k' v'. destruct (decide ((row', slot') = (row, slot))) as [[= -> ->]|Hne].
    + split.
      * intros (c & e & Hc & _ & He & <- & <-). left. do 2 (split; [done|]).
        assert (c = nc) as -> by congruence. rewrite Hta, (rd_wr_eq _ _ _ _ Hm) in He.
        by apply Ok_inj in He as <-.
      * intros [(_ & _ & [= <- <-])|[? _]]; [|done]. exists nc, (PackedStruct k len v).
        by rewrite Hta, (rd_wr_eq _ _ _ _ Hm).
    + split.
      * intros (c & e & Hc & Hn & He & <- & <-). right. split; [done|].
        apply (other_cell b' c nc) in Hc; [|done..].
        rewrite (rd_wr_ne _ _ _ _ _ Hm) in He by (intros E; by apply (Hun row' slot' c)).
        by exists c, e.
      * intros [(-> & -> & _)|[_ (c & e & Hc & Hn & He & <- & <-)]]; [done|]. exists c, e.
        rewrite (other_cell b' c nc) by done.
        rewrite (rd_wr_ne _ _ _ _ _ Hm) by (intros E; by apply (Hun row' slot' c)). done.
  - intros a' Hne Hun' row' slot' c Hc Hn.
    destruct (decide ((row', slot') = (row, slot))) as [[= -> ->]|Hne'].
    + assert (c = nc) as -> by congruence. congruence.
    + apply (other_cell b' c nc) in Hc; [|done..]. by apply (Hun' row' slot').
Qed.

(** The entry of a non-empty cell is overwritten. *)
Lemma update_entry m' c k v len : rd2 b row slot = Ok c -> nonempty c ->
  wr m (toAddr c) (PackedStruct k len v) = Ok m' ->
  cell_updated b m b m' row slot (Some (k, v)).
Proof.
  intros Hc Hn Hm. destruct Hb as [_ Hinj]. intros row' slot' k' v'.
  destruct (decide ((row', slot') = (row, slot))) as [[= -> ->]|Hne].
  - split.
    + intros (c' & e & Hc' & _ & He & <- & <-). left. do 2 (split; [done|]).
      assert (c' = c) as -> by congruence. rewrite (rd_wr_eq _ _ _ _ Hm) in He.
      by apply Ok_inj in He as <-.
    + intros [(_ & _ & [= <- <-])|[? _]]; [|done]. exists c, (PackedStruct k len v).
      by rewrite (rd_wr_eq _ _ _ _ Hm).
  - assert (Hent : forall c', rd2 b row' slot' = Ok c' -> nonempty c' ->
      rd m' (toAddr c') = rd m (toAddr c')).
    { intros c' Hc' Hn'. apply (rd_wr_ne _ _ _ _ _ Hm). intros E. apply Hne.
      by destruct (Hinj _ _ _ _ _ _ Hc' Hc Hn' Hn) as [-> ->]. }
    split.
    + intros (c' & e & Hc' & Hn' & He & <- & <-). right. split; [done|].
      rewrite Hent in He by done. by exists c', e.
    + intros [(-> & -> & _)|[_ (c' & e & Hc' & Hn' & He & <- & <-)]]; [done|].
      exists c', e. by rewrite Hent.
Qed.

(** The entry of a non-empty cell is cleared and the cell emptied. *)
Lemma drop_cell m' b' c : rd2 b row slot = Ok c -> nonempty c ->
  wr m (toAddr c) zero_struct = Ok m' -> remove_addr b row slot = Ok b' ->
  index_ok b' /\ cell_updated b m b' m' row slot None /\
  (forall a, unused b a -> unused b' a).
Proof.
  intros Hc Hn Hm Hw. destruct Hb as [Hwf Hinj]. unfold remove_addr in Hw.
  assert (Hnew : rd2 b' row slot = Ok 0) by (by eapply rd2_wr2_eq).
  assert (Hz : ~ nonempty 0) by (unfold nonempty; rewrite toLength_0; lia).
  assert (Hold : forall row' slot' c', rd2 b' row' slot' = Ok c' -> nonempty c' ->
    (row', slot') <> (row, slot) /\ rd2 b row' slot' = Ok c').
  { intros row' slot' c' Hc' Hn'. assert (Hne : (row', slot') <> (row, slot)).
    { intros [= -> ->]. by assert (c' = 0) as -> by congruence. }
    split; [done|]. by apply (other_cell b' c' 0) in Hc'. }
  assert (Hent : forall row' slot' c', rd2 b row' slot' = Ok c' -> nonempty c' ->
    (row', slot') <> (row, slot) -> rd m' (toAddr c') = rd m (toAddr c')).
  { intros row' slot' c' Hc' Hn' Hne. apply (rd_wr_ne _ _ _ _ _ Hm). intros E. apply Hne.
    by destruct (Hinj _ _ _ _ _ _ Hc' Hc Hn' Hn) as [-> ->]. }
  split; [split|split].
  - by eapply wf_buckets_wr2.
  - intros row1 slot1 row2 slot2 c1 c2 H1 H2 Hn1 Hn2 E.
    apply Hold in H1 as [_ H1]; [|done]. apply Hold in H2 as [_ H2]; [|done].
    by apply (Hinj row1 slot1 row2 slot2 c1 c2).
  - intros row' slot' k v. split.
    + intros (c' & e & Hc' & Hn' & He & <- & <-). right.
      apply Hold in Hc' as [Hne Hc']; [|done]. rewrite (Hent row' slot') in He by done.
      split; [done|]. by exists c', e.
    + intros [(_ & _ & [=])|[Hne (c' & e & Hc' & Hn' & He & <- & <-)]].
      exists c', e. rewrite (other_cell b' c' 0) by done. by rewrite (Hent row' slot').
  - intros a Hun row' slot' c' Hc' Hn'. apply Hold in Hc' as [_ Hc']; [|done]. by apply (Hun row' slot').
Qed.

(** Setting the flag of a cell changes no item. *)
Lemma set_cachebit_items b' c : rd2 b row slot = Ok c -> set_cachebit b row slot = Ok b' ->
  index_ok b' /\ (forall row' slot' k v, cell_item b' m row' slot' k v <-> cell_item b m row' slot' k v) /\
  (forall a, unused b a -> unused b' a).
Proof.
  intros Hc Hw. rewrite (set_cachebit_eq _ _ _ _ Hc) in Hw. destruct Hb as [Hwf Hinj].
  assert (Hcell : forall row' slot' c', rd2 b' row' slot' = Ok c' ->
    exists c0, rd2 b row' slot' = Ok c0 /\ toAddr c' = toAddr c0 /\ (nonempty c' <-> nonempty c0)).
  { intros row' slot' c' Hc'. destruct (decide ((row', slot') = (row, slot))) as [[= -> ->]|Hne].
    - exists c. split; [done|]. rewrite (rd2_wr2_eq _ _ _ _ _ Hw) in Hc'. apply Ok_inj in Hc' as <-.
      by rewrite set_flag_addr, set_flag_nonempty.
    - exists c'. by apply (other_cell b' c' (set_flag c)) in Hc'. }
  assert (Hcell' : forall row' slot' c0, rd2 b row' slot' = Ok c0 ->
    exists c', rd2 b' row' slot' = Ok c' /\ toAddr c' = toAddr c0 /\ (nonempty c' <-> nonempty c0)).
  { intros row' slot' c0 Hc0. destruct (decide ((row', slot') = (row, slot))) as [[= -> ->]|Hne].
    - exists (set_flag c). rewrite (rd2_wr2_eq _ _ _ _ _ Hw). split; [done|].
      assert (c0 = c) as -> by congruence. by rewrite set_flag_addr, set_flag_nonempty.
    - exists c0. by rewrite (other_cell b' c0 (set_flag c)). }
  split; [split|split].
  - by eapply wf_buckets_wr2.
  - intros row1 slot1 row2 slot2 c1 c2 H1 H2 Hn1 Hn2 E.
    apply Hcell in H1 as (d1 & H1 & E1 & N1), H2 as (d2 & H2 & E2 & N2).
    apply (Hinj row1 slot1 row2 slot2 d1 d2); [done..|by apply N1|by apply N2|congruence].
  - intros row' slot' k v. split; intros (c1 & e & Hc1 & Hn1 & He & Hk & Hv).
    + apply Hcell in Hc1 as (c0 & Hc0 & E & N). exists c0, e. rewrite <-E. by rewrite <-N.
    + apply Hcell' in Hc1 as (c0 & Hc0 & E & N). exists c0, e. rewrite E. by rewrite N.
  - intros a Hun row' slot' c' Hc' Hn'. apply Hcell in Hc' as (c0 & Hc0 & E & N).
    rewrite E. apply (Hun row' slot'); [done|by apply N].
Qed.
End changes.
