(* ===== verification/NumaTransport.v ===== *)
(** * Shared-memory transport (xcomm/src/transport/numa_transport.hh)

    The control plane that server and clients map: names of the shared-memory
    objects, the registry with its epoch, client and lane tables, the byte
    locks of the data region, and the in-process table of servers.  What
    [shm_open], [ftruncate] and [mmap] answer is the environment's choice and
    an argument of the functions that call them. *)

From Stdlib Require Import ZArith Lia Ascii.
From stdpp Require Import base numbers strings pretty gmap list.
From S2P Require Import Prelude Words PackedData LudoSlot.

#[local] Open Scope Z_scope.

Definition kNumaMetaMagic : Z := 0x4F55544241434B4E.
Definition kMaxNumaLanes : nat := 64.
Definition kMaxClients : nat := 256.
Definition kMaxEpochSlots : Z := 16.

(** ** Names *)

Definition numa_meta_name (server_name : string) : string :=
  "/outback_numa_meta_" +:+ server_name.

(** [std::to_string] of a [uint64_t] *)
Definition to_string (v : Z) : string := pretty (Z.to_N v).

Definition numa_region_name (server_name : string) (version : Z) : string :=
  if version =? 0 then "/outback_numa_region_" +:+ server_name
  else "/outback_numa_region_" +:+ server_name +:+ "_v" +:+ to_string version.

(** [std::isalnum(c) || c == '_' || c == '-'] in the "C" locale. *)
Definition name_char (c : Ascii.ascii) : bool :=
  let n := Ascii.N_of_ascii c in
  (((48 <=? n) && (n <=? 57)) || ((65 <=? n) && (n <=? 90)) || ((97 <=? n) && (n <=? 122))
   || (n =? 95) || (n =? 45))%N.

Fixpoint clean_name (s : string) : string :=
  match s with
  | EmptyString => EmptyString
  | String c s => String (if name_char c then c else "_"%char) (clean_name s)
  end.

Definition make_numa_server_name (server_addr : string) : string :=
  match clean_name server_addr with EmptyString => "default" | name => name end.

(** [(value + alignment - 1) & ~(alignment - 1)] on [size_t] *)
Definition align_up (value alignment : Z) : Z :=
  Z.land (u64 (value + alignment - 1)) (Z.lxor (u64 (alignment - 1)) (mask 64)).

(** ** Status codes and the states of a resize *)

Inductive OpStatus :=
  | OK | NOT_FOUND | OP_PRE_RESIZE | RETRY_LATER | DEFERRED | STALE_VERSION | INTERNAL_ERROR.

Definition OpStatus_code (s : OpStatus) : Z :=
  match s with
  | OK => 0 | NOT_FOUND => 1 | OP_PRE_RESIZE => 2 | RETRY_LATER => 3 | DEFERRED => 4
  | STALE_VERSION => 5 | INTERNAL_ERROR => 6
  end.

Inductive ResizeState :=
  | NORMAL | PRE_RESIZE | COPYING | READY_TO_SWITCH | DRAIN_OLD | GC_PENDING.

#[export] Instance ResizeState_eq_dec : EqDecision ResizeState.
Proof. solve_decision. Defined.

Definition ResizeState_code (s : ResizeState) : Z :=
  match s with
  | NORMAL => 0 | PRE_RESIZE => 1 | COPYING => 2 | READY_TO_SWITCH => 3 | DRAIN_OLD => 4
  | GC_PENDING => 5
  end.

(** [static_cast<ResizeState>] of a stored word, where the enum has it. *)
Definition ResizeState_of (n : Z) : option ResizeState :=
  match n with
  | 0 => Some NORMAL | 1 => Some PRE_RESIZE | 2 => Some COPYING | 3 => Some READY_TO_SWITCH
  | 4 => Some DRAIN_OLD | 5 => Some GC_PENDING | _ => None
  end.

(** ** The registry

    Atomics are words; [set_f v r] is the store of [v] in the field [f]. *)

Record ClientLiveness := MkClient {
  last_heartbeat_ns : Z;
  last_seen_generation : Z;
  active : Z;  (* 1 = registered, 0 = gone *)
}.

Definition set_last_heartbeat_ns (v : _) (r : ClientLiveness) : ClientLiveness :=
  MkClient v (last_seen_generation r) (active r).
Definition set_last_seen_generation (v : _) (r : ClientLiveness) : ClientLiveness :=
  MkClient (last_heartbeat_ns r) v (active r).
Definition set_active (v : _) (r : ClientLiveness) : ClientLiveness :=
  MkClient (last_heartbeat_ns r) (last_seen_generation r) v.

Record ResizeEpoch := MkEpoch {
  version : Z;
  publish_ts_ns : Z;
  region_size : Z;
  num_buckets : Z;
  num_data_entries : Z;
  packed_array_offset : Z;
  ludo_buckets_offset : Z;
  lock_array_offset : Z;
  epoch_global_depth : Z;  (* global_depth *)
  directory_size : Z;
  epoch_directory_version : Z;  (* directory_version *)
  clients_pending_ack : Z;
  active_readers : Z;
  active_writers : Z;
  published : Z;
  cleanup_allowed : Z;
}.

Definition set_clients_pending_ack (v : _) (r : ResizeEpoch) : ResizeEpoch :=
    MkEpoch (version r) (publish_ts_ns r) (region_size r) (num_buckets r) (num_data_entries r)
    (packed_array_offset r) (ludo_buckets_offset r) (lock_array_offset r) (epoch_global_depth r)
    (directory_size r) (epoch_directory_version r) v (active_readers r) (active_writers r)
    (published r) (cleanup_allowed r).
Definition set_published (v : _) (r : ResizeEpoch) : ResizeEpoch :=
    MkEpoch (version r) (publish_ts_ns r) (region_size r) (num_buckets r) (num_data_entries r)
    (packed_array_offset r) (ludo_buckets_offset r) (lock_array_offset r) (epoch_global_depth r)
    (directory_size r) (epoch_directory_version r) (clients_pending_ack r) (active_readers r)
    (active_writers r) v (cleanup_allowed r).
Definition set_cleanup_allowed (v : _) (r : ResizeEpoch) : ResizeEpoch :=
    MkEpoch (version r) (publish_ts_ns r) (region_size r) (num_buckets r) (num_data_entries r)
    (packed_array_offset r) (ludo_buckets_offset r) (lock_array_offset r) (epoch_global_depth r)
    (directory_size r) (epoch_directory_version r) (clients_pending_ack r) (active_readers r)
    (active_writers r) (published r) v.

Record SharedNumaRegistry := MkRegistry {
  magic : Z;
  protocol_version : Z;
  resize_state : Z;
  current_version : Z;
  previous_version : Z;
  generation : Z;
  ready : Z;
  numa_node : Z;
  s_slow : Z;
  s_stop : Z;
  registered_clients : Z;
  deferred_insert_count : Z;
  deferred_delete_count : Z;
  global_depth : Z;
  directory_version : Z;
  epoch : list ResizeEpoch;  (* kMaxEpochSlots of them *)
  clients : list ClientLiveness;  (* kMaxClients of them *)
  mem_threads : Z;
  lane_next_free_index : list Z;  (* kMaxNumaLanes of them *)
}.

Definition set_resize_state (v : _) (r : SharedNumaRegistry) : SharedNumaRegistry :=
    MkRegistry (magic r) (protocol_version r) v (current_version r) (previous_version r)
    (generation r) (ready r) (numa_node r) (s_slow r) (s_stop r) (registered_clients r)
    (deferred_insert_count r) (deferred_delete_count r) (global_depth r) (directory_version r)
    (epoch r) (clients r) (mem_threads r) (lane_next_free_index r).
Definition set_current_version (v : _) (r : SharedNumaRegistry) : SharedNumaRegistry :=
    MkRegistry (magic r) (protocol_version r) (resize_state r) v (previous_version r)
    (generation r) (ready r) (numa_node r) (s_slow r) (s_stop r) (registered_clients r)
    (deferred_insert_count r) (deferred_delete_count r) (global_depth r) (directory_version r)
    (epoch r) (clients r) (mem_threads r) (lane_next_free_index r).
Definition set_previous_version (v : _) (r : SharedNumaRegistry) : SharedNumaRegistry :=
    MkRegistry (magic r) (protocol_version r) (resize_state r) (current_version r) v (generation
    r) (ready r) (numa_node r) (s_slow r) (s_stop r) (registered_clients r)
    (deferred_insert_count r) (deferred_delete_count r) (global_depth r) (directory_version r)
    (epoch r) (clients r) (mem_threads r) (lane_next_free_index r).
Definition set_generation (v : _) (r : SharedNumaRegistry) : SharedNumaRegistry :=
    MkRegistry (magic r) (protocol_version r) (resize_state r) (current_version r)
    (previous_version r) v (ready r) (numa_node r) (s_slow r) (s_stop r) (registered_clients r)
    (deferred_insert_count r) (deferred_delete_count r) (global_depth r) (directory_version r)
    (epoch r) (clients r) (mem_threads r) (lane_next_free_index r).
Definition set_ready (v : _) (r : SharedNumaRegistry) : SharedNumaRegistry :=
    MkRegistry (magic r) (protocol_version r) (resize_state r) (current_version r)
    (previous_version r) (generation r) v (numa_node r) (s_slow r) (s_stop r)
    (registered_clients r) (deferred_insert_count r) (deferred_delete_count r) (global_depth r)
    (directory_version r) (epoch r) (clients r) (mem_threads r) (lane_next_free_index r).
Definition set_registered_clients (v : _) (r : SharedNumaRegistry) : SharedNumaRegistry :=
    MkRegistry (magic r) (protocol_version r) (resize_state r) (current_version r)
    (previous_version r) (generation r) (ready r) (numa_node r) (s_slow r) (s_stop r) v
    (deferred_insert_count r) (deferred_delete_count r) (global_depth r) (directory_version r)
    (epoch r) (clients r) (mem_threads r) (lane_next_free_index r).
Definition set_deferred_insert_count (v : _) (r : SharedNumaRegistry) : SharedNumaRegistry :=
    MkRegistry (magic r) (protocol_version r) (resize_state r) (current_version r)
    (previous_version r) (generation r) (ready r) (numa_node r) (s_slow r) (s_stop r)
    (registered_clients r) v (deferred_delete_count r) (global_depth r) (directory_version r)
    (epoch r) (clients r) (mem_threads r) (lane_next_free_index r).
Definition set_deferred_delete_count (v : _) (r : SharedNumaRegistry) : SharedNumaRegistry :=
    MkRegistry (magic r) (protocol_version r) (resize_state r) (current_version r)
    (previous_version r) (generation r) (ready r) (numa_node r) (s_slow r) (s_stop r)
    (registered_clients r) (deferred_insert_count r) v (global_depth r) (directory_version r)
    (epoch r) (clients r) (mem_threads r) (lane_next_free_index r).
Definition set_epoch (v : _) (r : SharedNumaRegistry) : SharedNumaRegistry :=
    MkRegistry (magic r) (protocol_version r) (resize_state r) (current_version r)
    (previous_version r) (generation r) (ready r) (numa_node r) (s_slow r) (s_stop r)
    (registered_clients r) (deferred_insert_count r) (deferred_delete_count r) (global_depth r)
    (directory_version r) v (clients r) (mem_threads r) (lane_next_free_index r).
Definition set_clients (v : _) (r : SharedNumaRegistry) : SharedNumaRegistry :=
    MkRegistry (magic r) (protocol_version r) (resize_state r) (current_version r)
    (previous_version r) (generation r) (ready r) (numa_node r) (s_slow r) (s_stop r)
    (registered_clients r) (deferred_insert_count r) (deferred_delete_count r) (global_depth r)
    (directory_version r) (epoch r) v (mem_threads r) (lane_next_free_index r).
Definition set_lane_next_free_index (v : _) (r : SharedNumaRegistry) : SharedNumaRegistry :=
    MkRegistry (magic r) (protocol_version r) (resize_state r) (current_version r)
    (previous_version r) (generation r) (ready r) (numa_node r) (s_slow r) (s_stop r)
    (registered_clients r) (deferred_insert_count r) (deferred_delete_count r) (global_depth r)
    (directory_version r) (epoch r) (clients r) (mem_threads r) v.

Definition zero_epoch : ResizeEpoch := MkEpoch 0 0 0 0 0 0 0 0 0 0 0 0 0 0 0 0.
Definition zero_client : ClientLiveness := MkClient 0 0 0.

(** The registry after [memset(mapped, 0, sizeof(SharedNumaRegistry))]. *)
Definition zero_registry : SharedNumaRegistry :=
  MkRegistry 0 0 0 0 0 0 0 0 0 0 0 0 0 0 0 (replicate (Z.to_nat kMaxEpochSlots) zero_epoch)
    (replicate kMaxClients zero_client) 0 (replicate kMaxNumaLanes 0).

(** The slot of a version in the epoch table. *)
Definition epoch_slot (v : Z) : Z := v mod kMaxEpochSlots.

Definition current_epoch (reg : SharedNumaRegistry) : res ResizeEpoch :=
  rd (epoch reg) (epoch_slot (current_version reg)).

(** A store in the epoch slot of version [v]. *)
Definition put_epoch (v : Z) (e : ResizeEpoch) (reg : SharedNumaRegistry)
    : res SharedNumaRegistry :=
  l ← wr (epoch reg) (epoch_slot v) e; Ok (set_epoch l reg).

(** [generation.fetch_add(1)] *)
Definition bump_generation (reg : SharedNumaRegistry) : SharedNumaRegistry :=
  set_generation (u64 (generation reg + 1)) reg.

(** ** Shared-memory objects

    A data region holds the entry array, the bucket array and the lock
    bytes; [r_size] is its size in bytes.  The offsets at which the arrays lie
    are the epoch's; that they are disjoint and inside the region is proved
    where the offsets are computed. *)

Record shm_region := MkRegion {
  r_size : Z;
  r_packed : list packed_struct;
  r_ludo : list ludo_bucket;
  r_locks : list Z;
}.

(** What the operating system answers. *)
Record os_env := MkOs { shm_open_ok : bool; ftruncate_ok : bool; mmap_ok : bool }.

Notation metas := (gmap string SharedNumaRegistry).
Notation regions := (gmap string shm_region).

(** The registry [create] leaves in the fresh object. *)
Definition new_registry : SharedNumaRegistry :=
  MkRegistry kNumaMetaMagic 1 (ResizeState_code NORMAL) 1 0 0 0 0 0 0 0 0 0 0 0
    (replicate (Z.to_nat kMaxEpochSlots) zero_epoch)
    (replicate kMaxClients zero_client) 0 (replicate kMaxNumaLanes 0).

(** The mapped registry, or [None] for [false].  Mapping an object that
    exists gives its content. *)
Definition map_numa_registry (os : os_env) (server_name : string) (create : bool) (shm : metas)
    : option (metas * SharedNumaRegistry) :=
  let name := numa_meta_name server_name in
  if negb (shm_open_ok os) then None
  else if create then
    if negb (ftruncate_ok os) then None
    else if negb (mmap_ok os) then None
    else Some (<[name := new_registry]> shm, new_registry)
  else
    reg ← shm !! name;
    if negb (mmap_ok os) then None else Some (shm, reg).

(** The zeroed region: [entries], [buckets] and [locks] are the numbers of
    elements the caller lays out in its [size] bytes. *)
Definition zero_region (size : Z) (entries buckets locks : nat) : shm_region :=
  MkRegion size (replicate entries zero_struct) (new_buckets buckets) (replicate locks 0).

Definition create_shared_numa_region (os : os_env) (server_name : string) (size : Z)
    (version : Z) (entries buckets locks : nat) (shm : regions) : option (regions * shm_region) :=
  let name := numa_region_name server_name version in
  if negb (shm_open_ok os) then None
  else if negb (ftruncate_ok os) then None
  else if negb (mmap_ok os) then None
  else let r := zero_region size entries buckets locks in Some (<[name := r]> shm, r).

Definition open_shared_numa_region (os : os_env) (server_name : string) (version : Z)
    (shm : regions) : option shm_region :=
  if negb (shm_open_ok os) then None
  else r ← shm !! numa_region_name server_name version;
       if negb (mmap_ok os) then None else Some r.

Definition unlink_numa_region (server_name : string) (version : Z) (shm : regions) : regions :=
  delete (numa_region_name server_name version) shm.

(** ** Byte locks

    [__sync_lock_test_and_set] stores 1 and returns the old byte; the caller
    holds the lock when that was 0 and spins otherwise. *)

Definition test_and_set (locks : list Z) (i : Z) : res (list Z * Z) :=
  old ← rd locks i; l ← wr locks i 1; Ok (l, old).

(** One attempt of [numa_lock_byte]; [false]: the loop goes on. *)
Definition numa_try_lock_byte (locks : list Z) (i : Z) : res (list Z * bool) :=
  '(l, old) ← test_and_set locks i; Ok (l, old =? 0).

Definition numa_unlock_byte (locks : list Z) (i : Z) : res (list Z) := wr locks i 0.

(** ** The servers of this process *)

Section server_manager.
Context {S : Type}.

Definition register_server_state (name : string) (state : S) (m : gmap string S)
    : gmap string S := <[name := state]> m.
Definition get_server_state (name : string) (m : gmap string S) : option S := m !! name.
Definition unregister_server_state (name : string) (m : gmap string S) : gmap string S :=
  delete name m.
End server_manager.

(** ** Laws *)

(** *** Alignment *)

Lemma align_up_eq k value : 0 <= k < 64 -> 0 <= value -> value + 2 ^ k <= 2 ^ 64 ->
  align_up value (2 ^ k) = (value + 2 ^ k - 1) / 2 ^ k * 2 ^ k.
Proof.
  intros Hk Hv Hb. assert (0 < 2 ^ k) by (by apply Z.pow_pos_nonneg; lia).
  unfold align_up. set (x := value + 2 ^ k - 1).
  assert (Hx : is_word 64 x) by (unfold is_word, x; lia).
  rewrite (wrap_id 64 x) by done.
  rewrite (wrap_id 64 (2 ^ k - 1)).
  2: { unfold is_word. split; [lia|]. pose proof (Z.pow_lt_mono_r 2 k 64). lia. }
  replace (2 ^ k - 1) with (mask k) by (unfold mask; rewrite Z.ones_equiv; lia).
  rewrite <-Z.shiftl_mul_pow2, <-Z.shiftr_div_pow2 by lia.
  apply Z.bits_inj'. intros i Hi.
  rewrite Z.land_spec, Z.lxor_spec, !mask_testbit, Z.shiftl_spec by lia.
  destruct (Z.ltb_spec i k).
  - rewrite (Z.testbit_neg_r _ (i - k)) by lia.
    destruct (Z.ltb_spec i 64); [|lia]. by rewrite andb_false_r.
  - rewrite Z.shiftr_spec by lia. replace (i - k + k) with i by lia.
    destruct (Z.ltb_spec i 64); [by rewrite andb_true_r|].
    by rewrite (is_word_bit_high 64 x i Hx) by lia.
Qed.

Lemma align_up_bounds k value : 0 <= k < 64 -> 0 <= value -> value + 2 ^ k <= 2 ^ 64 ->
  (2 ^ k | align_up value (2 ^ k)) /\ value <= align_up value (2 ^ k) < value + 2 ^ k.
Proof.
  intros Hk Hv Hb. assert (0 < 2 ^ k) by (by apply Z.pow_pos_nonneg; lia).
  rewrite align_up_eq by done. split; [apply Z.divide_factor_r|].
  pose proof (Z.div_mod (value + 2 ^ k - 1) (2 ^ k)).
  pose proof (Z.mod_pos_bound (value + 2 ^ k - 1) (2 ^ k)). lia.
Qed.

(** [align_up] to a power of two gives the least multiple of the
    alignment that is not below the value, as long as the sum stays below
    2^64. *)
Theorem align_up_least k value : 0 <= k < 64 -> 0 <= value -> value + 2 ^ k <= 2 ^ 64 ->
  (2 ^ k | align_up value (2 ^ k)) /\ value <= align_up value (2 ^ k) /\
  forall m, (2 ^ k | m) -> value <= m -> align_up value (2 ^ k) <= m.
Proof.
  intros Hk Hv Hb. pose proof (align_up_bounds k value Hk Hv Hb) as [Hd Hr].
  split; [done|]. split; [lia|]. intros m [q ->] Hm. destruct Hd as [p Hp].
  rewrite Hp in *. assert (0 < 2 ^ k) by (by apply Z.pow_pos_nonneg; lia).
  assert (p < q + 1) by (apply (Z.mul_lt_mono_pos_r (2 ^ k)); lia).
  apply Z.mul_le_mono_nonneg_r; lia.
Qed.

Lemma align_up_least_witness :
  (2 ^ 12 | align_up 5000 (2 ^ 12)) /\ 5000 <= align_up 5000 (2 ^ 12) /\
  forall m, (2 ^ 12 | m) -> 5000 <= m -> align_up 5000 (2 ^ 12) <= m.
Proof. apply (align_up_least 12 5000); lia. Defined.

(** *** Names *)

Lemma list_ascii_app s1 s2 :
  String.list_ascii_of_string (s1 +:+ s2) = String.list_ascii_of_string s1 ++ String.list_ascii_of_string s2.
Proof. induction s1 as [|c s1 IH]; simpl; [done|]. by rewrite IH. Qed.

Lemma list_ascii_inj s1 s2 :
  String.list_ascii_of_string s1 = String.list_ascii_of_string s2 -> s1 = s2.
Proof.
  intros H. rewrite <-(String.string_of_list_ascii_of_string s1), H.
  apply String.string_of_list_ascii_of_string.
Qed.

Lemma split_last_occurrence {A} (x : A) l1 l2 d1 d2 :
  x ∉ d1 -> x ∉ d2 -> l1 ++ x :: d1 = l2 ++ x :: d2 -> l1 = l2 /\ d1 = d2.
Proof.
  intros H1 H2. revert l2. induction l1 as [|y l1 IH]; intros [|z l2]; simpl.
  - by intros [= ->].
  - intros [= -> ->]. exfalso. apply H1. set_solver.
  - intros [= -> <-]. exfalso. apply H2. set_solver.
  - intros [= -> H]. by apply IH in H as [-> ->].
Qed.

Lemma pretty_N_go_no_v x s :
  "v"%char ∉ String.list_ascii_of_string s -> "v"%char ∉ String.list_ascii_of_string (pretty_N_go x s).
Proof.
  revert s. induction (N.lt_wf_0 x) as [x _ IH]. intros s Hs.
  destruct (decide (x = 0%N)) as [->|Hx]; [by rewrite pretty_N_go_0|].
  rewrite pretty_N_go_step by lia. apply IH; [by apply N.div_lt; lia|].
  simpl. apply not_elem_of_cons. split; [|done].
  unfold pretty_N_char. destruct (x `mod` 10)%N as [|p]; [done|].
  by repeat (destruct p as [p|p|]; try done).
Qed.

Lemma to_string_no_v v : "v"%char ∉ String.list_ascii_of_string (to_string v).
Proof.
  unfold to_string, pretty, pretty_N. destruct (decide _); [set_solver|].
  apply pretty_N_go_no_v. set_solver.
Qed.

Lemma region_name_inj s1 s2 v1 v2 : 1 <= v1 -> 1 <= v2 ->
  numa_region_name s1 v1 = numa_region_name s2 v2 -> s1 = s2 /\ v1 = v2.
Proof.
  intros H1 H2. unfold numa_region_name.
  destruct (Z.eqb_spec v1 0) as [->|_]; [lia|]. destruct (Z.eqb_spec v2 0) as [->|_]; [lia|].
  intros H. apply (f_equal String.list_ascii_of_string) in H. rewrite !list_ascii_app in H.
  apply (inj (app _)) in H.
  change (String.list_ascii_of_string "_v") with (["_"%char] ++ ["v"%char]) in H.
  rewrite <-!(assoc_L (++)) in H. simpl in H.
  rewrite !(cons_middle "_"%char), !(assoc_L (++)) in H.
  apply split_last_occurrence in H as [Hs Hv]; [|apply to_string_no_v..].
  apply (inj (fun l => l ++ _)) in Hs. apply list_ascii_inj in Hs, Hv. split; [done|].
  unfold to_string in Hv. apply (inj pretty) in Hv. lia.
Qed.

(** Versioned regions never share a name: the name determines the server
    and the version, for all server names and all versions from 1 on. *)
Theorem numa_region_name_inj s1 s2 v1 v2 : 1 <= v1 -> 1 <= v2 ->
  numa_region_name s1 v1 = numa_region_name s2 v2 -> s1 = s2 /\ v1 = v2.
Proof. apply region_name_inj. Qed.

Lemma numa_region_name_inj_witness :
  "s" = "s" /\ 3 = 3.
Proof. apply (numa_region_name_inj "s" "s" 3 3); [lia|lia|reflexivity]. Defined.

Lemma clean_name_chars s : Forall (fun c => name_char c = true)
  (String.list_ascii_of_string (clean_name s)).
Proof.
  induction s as [|c s IH]; simpl; [done|]. constructor; [|done].
  by destruct (name_char c) eqn:E.
Qed.

Lemma clean_name_id s : Forall (fun c => name_char c = true) (String.list_ascii_of_string s) ->
  clean_name s = s.
Proof.
  induction s as [|c s IH]; simpl; [done|]. intros [Hc Hs]%Forall_cons.
  by rewrite Hc, IH.
Qed.

(** [make_numa_server_name] always gives a non-empty name of letters,
    digits, [_] and [-] (so that it can be part of a shared-memory name), and
    leaves such names as they are. *)
Theorem make_numa_server_name_safe s :
  let name := make_numa_server_name s in
  name <> EmptyString /\
  Forall (fun c => name_char c = true) (String.list_ascii_of_string name) /\
  make_numa_server_name name = name.
Proof.
  cbn zeta. pose proof (clean_name_chars s) as H. unfold make_numa_server_name at 1 2 4 5.
  destruct (clean_name s) as [|c t] eqn:E.
  - split; [done|]. split; [repeat constructor|reflexivity].
  - split; [done|]. split; [done|]. unfold make_numa_server_name.
    by rewrite (clean_name_id (String c t)).
Qed.

(** *** Mutual exclusion

    Threads take and release byte locks in any interleaving; [held] maps a
    thread to the lock it holds. *)

Definition lock_state : Type := list Z * gmap nat Z.

Inductive lock_step : lock_state -> lock_state -> Prop :=
  | LockAcquire l l' held t i : held !! t = None ->
      numa_try_lock_byte l i = Ok (l', true) -> lock_step (l, held) (l', <[t := i]> held)
  | LockSpin l l' held i :
      numa_try_lock_byte l i = Ok (l', false) -> lock_step (l, held) (l', held)
  | LockRelease l l' held t i : held !! t = Some i ->
      numa_unlock_byte l i = Ok l' -> lock_step (l, held) (l', delete t held).

(** A byte is 1 when its lock is held, by one thread, and 0 otherwise. *)
Definition locks_ok (s : lock_state) : Prop :=
  (forall t t' i, snd s !! t = Some i -> snd s !! t' = Some i -> t = t') /\
  (forall t i, snd s !! t = Some i -> rd (fst s) i = Ok 1) /\
  (forall i x, rd (fst s) i = Ok x -> x = 0 \/ exists t, x = 1 /\ snd s !! t = Some i).

Lemma numa_try_lock_inv l i l' b : numa_try_lock_byte l i = Ok (l', b) ->
  exists old, rd l i = Ok old /\ wr l i 1 = Ok l' /\ b = (old =? 0).
Proof.
  unfold numa_try_lock_byte, test_and_set. intros H.
  apply bind_Ok in H as ([l1 old] & H1 & H). apply bind_Ok in H1 as (old' & Hrd & H1).
  apply bind_Ok in H1 as (l2 & Hwr & H1). apply Ok_inj, pair_equal_spec in H1 as [<- <-].
  apply Ok_inj, pair_equal_spec in H as [<- <-]. eauto.
Qed.

Lemma lock_step_ok s s' : locks_ok s -> lock_step s s' -> locks_ok s'.
Proof.
  intros (Huniq & Hheld & Hbyte) Hst.
  destruct Hst as [l l' held t i Ht Htry|l l' held i Htry|l l' held t i Ht Hun];
    unfold locks_ok; simpl in *.
  - apply numa_try_lock_inv in Htry as (old & Hrd & Hwr & Hb). symmetry in Hb.
    apply Z.eqb_eq in Hb as ->.
    assert (Hfree : forall t', held !! t' <> Some i).
    { intros t' Ht'. apply Hheld in Ht'. congruence. }
    split; [|split].
    + intros t1 t2 j. rewrite !lookup_insert_Some. naive_solver.
    + intros t1 j [[-> ->]|[Hne H1]]%lookup_insert_Some; [by eapply rd_wr_eq|].
      rewrite (rd_wr_ne _ _ _ _ _ Hwr); [by eapply Hheld|]. intros ->. by eapply Hfree.
    + intros j x Hx. destruct (decide (i = j)) as [<-|Hne].
      * rewrite (rd_wr_eq _ _ _ _ Hwr) in Hx. apply Ok_inj in Hx as <-. right.
        exists t. by rewrite lookup_insert_eq.
      * rewrite (rd_wr_ne _ _ _ _ _ Hwr Hne) in Hx.
        destruct (Hbyte j x Hx) as [|(t' & -> & Ht')]; [by left|right]. exists t'.
        split; [done|]. rewrite lookup_insert_ne; [done|]. congruence.
  - apply numa_try_lock_inv in Htry as (old & Hrd & Hwr & Hb). symmetry in Hb.
    apply Z.eqb_neq in Hb. destruct (Hbyte i old Hrd) as [|(t & -> & Ht)]; [done|].
    assert (l' = l) as ->; [|by split].
    apply wr_Ok in Hwr as [? ->]. apply rd_Ok in Hrd as [? Hrd].
    by apply list_insert_id.
  - assert (Hheld' : forall t' j, delete t held !! t' = Some j -> i <> j /\ held !! t' = Some j).
    { intros t' j [Hne Ht']%lookup_delete_Some. split; [|done]. intros ->.
      apply Hne. by eapply Huniq. }
    split; [|split].
    + intros t1 t2 j [_ H1]%Hheld' [_ H2]%Hheld'. by eapply Huniq.
    + intros t1 j [Hne H1]%Hheld'. rewrite (rd_wr_ne _ _ _ _ _ Hun Hne). by eapply Hheld.
    + intros j x Hx. destruct (decide (i = j)) as [<-|Hne].
      * rewrite (rd_wr_eq _ _ _ _ Hun) in Hx. apply Ok_inj in Hx as <-. by left.
      * rewrite (rd_wr_ne _ _ _ _ _ Hun Hne) in Hx.
        destruct (Hbyte j x Hx) as [|(t' & -> & Ht')]; [by left|right]. exists t'.
        split; [done|]. apply lookup_delete_Some. split; [congruence|done].
Qed.

(** The byte locks exclude each other and are never lost: after any
    interleaving of lock attempts and releases on a zeroed lock array, no two
    threads hold the same lock, and a byte is set exactly while a thread holds
    its lock, so that the next attempt succeeds exactly on a free lock. *)
Theorem byte_lock_exclusion n l held :
  rtc lock_step (replicate n 0, ∅) (l, held) ->
  (forall t t' i, held !! t = Some i -> held !! t' = Some i -> t = t') /\
  forall i, 0 <= i < Z.of_nat n -> exists l' b, numa_try_lock_byte l i = Ok (l', b) /\
    (b = false <-> exists t, held !! t = Some i).
Proof.
  intros Hrtc.
  assert (Hlen : forall s s', rtc lock_step s s' -> length (fst s') = length (fst s)).
  { induction 1 as [|s1 s2 s3 Hst _ IH]; [done|]. rewrite IH.
    destruct Hst as [???? i _ Htry|???? Htry|????? _ Hun]; simpl;
      [apply numa_try_lock_inv in Htry as (?&_&Hun&_)..|]; by apply wr_length in Hun. }
  specialize (Hlen _ _ Hrtc). simpl in Hlen. rewrite length_replicate in Hlen.
  assert (Hok : locks_ok (l, held)).
  { remember (l, held) as s eqn:E. clear E. revert Hrtc.
    apply rtc_ind_r; [|intros; by eapply lock_step_ok].
    split; [|split]; simpl; [by intros|by intros|].
    intros i x [_ Hx]%rd_Ok. apply lookup_replicate in Hx as [-> _]. by left. }
  destruct Hok as (Huniq & Hheld & Hbyte). split; [exact Huniq|]. intros i Hi.
  simpl in *. destruct (rd_in_range l i) as [x Hx]; [lia|].
  unfold numa_try_lock_byte, test_and_set. rewrite Hx. cbn [mbind res_bind].
  rewrite wr_in_range by lia. cbn [mbind res_bind]. do 2 eexists. split; [reflexivity|].
  rewrite Z.eqb_neq. split.
  - intros Hne. destruct (Hbyte i x Hx) as [|(t & _ & Ht)]; [done|eauto].
  - intros [t Ht]. apply Hheld in Ht. intros ->. congruence.
Qed.

Lemma byte_lock_exclusion_witness :
  (forall t t' i, ({[1%nat := 2]} : gmap nat Z) !! t = Some i ->
     ({[1%nat := 2]} : gmap nat Z) !! t' = Some i -> t = t') /\
  forall i, 0 <= i < Z.of_nat 4 -> exists l' b, numa_try_lock_byte [0; 0; 1; 0] i = Ok (l', b) /\
    (b = false <-> exists t, ({[1%nat := 2]} : gmap nat Z) !! t = Some i).
Proof.
  apply (byte_lock_exclusion 4). eapply rtc_l; [|apply rtc_refl].
  apply LockAcquire; reflexivity.
Defined.
