(* ===== verification/ServerNuma.v ===== *)
(** * The NUMA server's direct operations (outback/outback_server_numa.hh)

    The same state as the RDMA server's, and what the operations need of the
    resize orchestrator: the interface [Intercept], the globals of
    numa_transport.hh that it installs. *)

From Stdlib Require Import ZArith Lia.
From stdpp Require Import base numbers strings gmap list.
From S2P Require Import Prelude Words Hash PackedData LudoSlot LruCache.
From S2P Require Import ServerRdma ServerInv NumaTransport NumaTable.

#[local] Open Scope Z_scope.

(** [g_structural_mutations_blocked], [g_resize_orch_ptr] with its functions,
    and the calls through them. *)
Class Intercept (O : Type) := {
  mutations_blocked : O -> bool;
  hooks_installed : O -> bool;
  call_defer_insert : O -> Z -> Z -> O * bool;
  call_defer_delete : O -> Z -> O * bool;
}.

Definition deferred_reply : ReplyValue := MkReply false (OpStatus_code DEFERRED).

Section ops.
Context {O : Type} `{!Intercept O}.
(** Whether the global [lru_cache] points to a cache. *)
Context (has_lru : bool).

Definition get_direct (s : server) (loc : Z) : res ReplyValue :=
  addr ← read_addr (bks s) (loc / SLOTS_NUM_BUCKET) (loc mod SLOTS_NUM_BUCKET);
  e ← rd (mem s) addr;
  Ok (MkReply true (data e)).

(** The switch of [outback_put_direct]; [reply0] is the reply the caller passed. *)
Definition put_row (s : server) (row k v : Z) (reply0 : ReplyValue) : res (server * ReplyValue) :=
  seed ← rd (seeds s) row;
  let slot := slot_of seed k in
  st ← check_slots (bks s) k row slot;
  if st =? 0 then
    '(s1, addr) ← load_entry s k sizeof_ValType v;
    b ← write_addr (bks s1) k row slot addr 64;
    Ok (set_bks s1 b, MkReply true 0)
  else if st =? 1 then
    addr ← read_addr (bks s) row slot;
    k' ← read_key (mem s) addr;
    if k' =? k then
      '(m, _) ← update_data (mem s) addr k 64 v;
      Ok (set_mem s m, MkReply true 1)
    else Ok (s, MkReply false 0)
  else if st =? 2 then
    found ← first_empty row_slots (bks s) k row;
    match found with
    | Some slot' =>
        '(s1, addr) ← load_entry s k sizeof_ValType v;
        b ← write_addr (bks s1) k row slot' addr 64;
        Ok (set_bks s1 b, MkReply true 2)
    | None => Ok (s, reply0)
    end
  else if st =? 3 then
    s2 ← (if has_lru then
            s1 ← lru_insert s k v;
            b ← set_cachebit (bks s1) row slot; Ok (set_bks s1 b)
          else Ok s);
    Ok (s2, MkReply true (Z.lor (Z.shiftl 1 8) seed))
  else Ok (s, MkReply false 0).

Definition put_direct (o : O) (s : server) (loc k v : Z) (reply0 : ReplyValue)
    : res (O * server * ReplyValue) :=
  if mutations_blocked o then
    Ok (if hooks_installed o then fst (call_defer_insert o k v) else o, s, deferred_reply)
  else
    '(s', reply) ← put_row s (loc / SLOTS_NUM_BUCKET) k v reply0;
    Ok (o, s', reply).

Definition update_direct (s : server) (loc k v : Z) : res (server * ReplyValue) :=
  let row := loc / SLOTS_NUM_BUCKET in
  addr ← read_addr (bks s) row (loc mod SLOTS_NUM_BUCKET);
  k' ← read_key (mem s) addr;
  if k' =? k then
    '(m, _) ← update_data (mem s) addr k 64 v;
    Ok (set_mem s m, MkReply true 1)
  else Ok (s, MkReply false 0).

Definition remove_direct (o : O) (s : server) (loc k : Z) : res (O * server * ReplyValue) :=
  if mutations_blocked o then
    Ok (if hooks_installed o then fst (call_defer_delete o k) else o, s, deferred_reply)
  else
    let row := loc / SLOTS_NUM_BUCKET in
    addr ← read_addr (bks s) row (loc mod SLOTS_NUM_BUCKET);
    '(m, ok) ← remove_data_with_key_check (mem s) addr k;
    b ← (if ok : bool then remove_addr (bks s) row (loc mod SLOTS_NUM_BUCKET) else Ok (bks s));
    Ok (o, set_bks (set_mem s m) b, MkReply true 0).

(** [result->clear()] and nothing else. *)
Definition scan_direct (k n : Z) : list Z := [].

(** ** The invariant *)

Record wf_numa (s : server) : Prop := {
  wn_len : length (seeds s) = length (bks s);
  wn_index : index_ok (bks s);
  wn_num : 0 <= num (pd s) <= numElements (pd s);
  wn_mem : numElements (pd s) = Z.of_nat (length (mem s));
  wn_cap : numElements (pd s) <= 2 ^ 32;
  wn_alloc : forall a, num (pd s) <= a -> unused (bks s) a;
  wn_lru : cache_inv (lru s);
}.

(** The content of the table: [updated_cell s s' row slot it] says that only
    cell [(row, slot)] changed, to [it]. *)
Definition holds_cell (s : server) := cell_item (bks s) (mem s).
Definition updated_cell (s s' : server) (row slot : Z) (it : option (Z * Z)) : Prop :=
  cell_updated (bks s) (mem s) (bks s') (mem s') row slot it.

(** ** Laws *)

(** Appending an entry and linking it. *)
Lemma append_link s row slot k v s1 a b : wf_numa s ->
  load_entry s k sizeof_ValType v = Ok (s1, a) ->
  write_addr (bks s1) k row slot a 64 = Ok b ->
  wf_numa (set_bks s1 b) /\ updated_cell s (set_bks s1 b) row slot (Some (k, v)).
Proof.
  intros Hwf Hl Hw. unfold load_entry in Hl. apply bind_Ok in Hl as ([[w m] a1] & Hl & E).
  apply Ok_inj, pair_equal_spec in E as [<- <-]. simpl in Hw.
  apply bulk_load_data_Ok in Hl as (Hlt & Hr & Hm & -> & ->).
  destruct (wn_num s Hwf) as [Hn1 Hn2]. pose proof (wn_cap s Hwf) as Hcap.
  pose proof (wn_mem s Hwf) as Hmem.
  rewrite (wrap_id 32) in Hw by (unfold is_word; lia).
  assert (Hwm : wr (mem s) (num (pd s)) (PackedStruct k sizeof_ValType v) = Ok m)
    by (by apply wr_Ok).
  destruct (link_fresh (bks s) (mem s) row slot (wn_index s Hwf) m b k v sizeof_ValType (num (pd s)))
    as (Hidx & Hupd & Hfree); [lia|by apply (wn_alloc s Hwf)|done|done|].
  split; [|done]. constructor; simpl; try done.
  - rewrite (wn_len s Hwf). symmetry. unfold write_addr in Hw. by eapply wr2_length.
  - rewrite (wrap_id 64); [lia|]. unfold is_word. lia.
  - by rewrite (wr_length _ _ _ _ Hwm).
  - rewrite (wrap_id 64) by (unfold is_word; lia). intros a Ha. apply Hfree; [lia|].
    apply (wn_alloc s Hwf). lia.
  - apply (wn_lru s Hwf).
Qed.

(** Overwriting the entry of a non-empty cell. *)
Lemma overwrite s row slot c k v m n n' : wf_numa s -> rd2 (bks s) row slot = Ok c -> nonempty c ->
  update_data (mem s) (toAddr c) k n v = Ok (m, n') ->
  wf_numa (set_mem s m) /\ updated_cell s (set_mem s m) row slot (Some (k, v)).
Proof.
  intros Hwf Hc Hn Hu. unfold update_data in Hu. apply bind_Ok in Hu as (m' & Hw & E).
  apply Ok_inj, pair_equal_spec in E as [<- _]. split.
  - destruct Hwf. constructor; simpl; try done. by rewrite (wr_length _ _ _ _ Hw).
  - by apply (update_entry (bks s) (mem s) row slot (wn_index s Hwf) m' c k v n).
Qed.

(** What the overflow of a full row does: no item of a cell changes, the pair
    goes to the cache, if there is one. *)
Definition overflowed (s s' : server) (k v : Z) : Prop :=
  if has_lru then
    mem s' = mem s /\ pd s' = pd s /\ seeds s' = seeds s /\
    (forall row' slot' k' v', holds_cell s' row' slot' k' v' <-> holds_cell s row' slot' k' v') /\
    exists c, cache_insert (lru s) k v = Ok c /\ lru s' = c
  else s' = s.

(** The outcome of a put: its effect and its reply, by what it finds in the row. *)
Definition put_outcome (s s' : server) (row seed k v : Z) (reply : ReplyValue) : Prop :=
  exists pc, row_is (bks s) k row (slot_of seed k) pc /\
  match pc with
  | HomeFree => reply = MkReply true 0 /\ updated_cell s s' row (slot_of seed k) (Some (k, v))
  | HomeMatch a => exists e, rd (mem s) a = Ok e /\
      if pkey e =? k
      then reply = MkReply true 1 /\ updated_cell s s' row (slot_of seed k) (Some (k, v))
      else reply = MkReply false 0 /\ s' = s
  | OtherFree slot => reply = MkReply true 2 /\ updated_cell s s' row slot (Some (k, v))
  | RowFull => reply = MkReply true (Z.lor 256 seed) /\ overflowed s s' k v
  end.

(** An entry can be appended, or the process exits because the array is full. *)
Lemma load_or_exit s k v : wf_numa s ->
  (exists s1 a, load_entry s k sizeof_ValType v = Ok (s1, a) /\ bks s1 = bks s /\ lru s1 = lru s) \/
  (load_entry s k sizeof_ValType v = Err ProcessExit /\ num (pd s) = numElements (pd s)).
Proof.
  intros Hwf. destruct (wn_num s Hwf) as [Hn1 Hn2]. pose proof (wn_mem s Hwf) as Hmem.
  unfold load_entry, bulk_load_data. destruct (Z.leb_spec (numElements (pd s)) (num (pd s))).
  - right. split; [done|lia].
  - left. rewrite wr_in_range by lia. rewrite !bind_Ok_l. do 2 eexists. done.
Qed.

Lemma put_append s row slot k v n : wf_numa s ->
  0 <= row < Z.of_nat (length (bks s)) -> 0 <= slot < 4 ->
  (exists s', ('(s1, addr) ← load_entry s k sizeof_ValType v;
     b ← write_addr (bks s1) k row slot addr 64;
     Ok (set_bks s1 b, MkReply true n)) = Ok (s', MkReply true n) /\
     wf_numa s' /\ updated_cell s s' row slot (Some (k, v))) \/
  (('(s1, addr) ← load_entry s k sizeof_ValType v;
     b ← write_addr (bks s1) k row slot addr 64;
     Ok (set_bks s1 b, MkReply true n)) = Err ProcessExit /\ num (pd s) = numElements (pd s)).
Proof.
  intros Hwf Hrow Hs.
  destruct (load_or_exit s k v Hwf) as [(s1 & a & Hl & Hb1 & _)|[-> ?]]; [left|by right].
  rewrite Hl, bind_Ok_l. cbv beta iota.
  assert (exists b, write_addr (bks s1) k row slot a 64 = Ok b) as [b Hb].
  { unfold write_addr. rewrite Hb1. apply (wr2_in_range _ 4); [apply (wn_index s Hwf)|done|done]. }
  rewrite Hb, bind_Ok_l. eexists. split; [reflexivity|]. by eapply append_link.
Qed.

Lemma overflow_put s row seed k v : wf_numa s -> 0 <= row < Z.of_nat (length (bks s)) ->
  exists s', (s2 ← (if has_lru then
            s1 ← lru_insert s k v;
            b ← set_cachebit (bks s1) row (slot_of seed k); Ok (set_bks s1 b)
          else Ok s);
    Ok (s2, MkReply true (Z.lor (Z.shiftl 1 8) seed))) = Ok (s', MkReply true (Z.lor 256 seed)) /\
    wf_numa s' /\ overflowed s s' k v.
Proof.
  intros Hwf Hrow. change (Z.shiftl 1 8) with 256. unfold overflowed. destruct has_lru.
  - unfold lru_insert. destruct (cache_insert_spec (lru s) k v (wn_lru s Hwf)) as (c & Ec & Hc & _).
    rewrite Ec, !bind_Ok_l. simpl bks.
    destruct (cell_exists (bks s) row (slot_of seed k)) as [x Hx];
      [apply (wn_index s Hwf)|done|apply slot_of_range|].
    assert (exists b, set_cachebit (bks s) row (slot_of seed k) = Ok b) as [b Hb].
    { rewrite (set_cachebit_eq _ _ _ _ Hx). apply (wr2_in_range _ 4);
        [apply (wn_index s Hwf)|done|apply slot_of_range]. }
    rewrite Hb, !bind_Ok_l. eexists. split; [reflexivity|].
    destruct (set_cachebit_items (bks s) (mem s) row (slot_of seed k) (wn_index s Hwf) b x Hx Hb)
      as (Hidx & Hit & Hun). split.
    + destruct Hwf. constructor; simpl; try done; [|by intros a Ha; apply Hun, wn_alloc0].
      rewrite wn_len0. symmetry. rewrite (set_cachebit_eq _ _ _ _ Hx) in Hb. by eapply wr2_length.
    + do 4 (split; [done|]). by exists c.
  - rewrite bind_Ok_l. by eexists.
Qed.

Lemma cell_entry s row slot c : wf_numa s -> rd2 (bks s) row slot = Ok c -> nonempty c ->
  exists e, rd (mem s) (toAddr c) = Ok e.
Proof.
  intros Hwf Hc Hn. apply rd_in_range. rewrite <-(wn_mem s Hwf).
  destruct (wn_num s Hwf). pose proof (toAddr_range c). split; [lia|].
  destruct (Z.lt_ge_cases (toAddr c) (num (pd s))) as [|Hge]; [lia|].
  by destruct (wn_alloc s Hwf (toAddr c) Hge row slot c).
Qed.

(** Case 1: the fingerprints agree. *)
Lemma put_match s row slot c k v : wf_numa s -> rd2 (bks s) row slot = Ok c -> nonempty c ->
  exists s' r e, (addr ← read_addr (bks s) row slot;
    k' ← read_key (mem s) addr;
    if k' =? k then '(m, _) ← update_data (mem s) addr k 64 v; Ok (set_mem s m, MkReply true 1)
    else Ok (s, MkReply false 0)) = Ok (s', r) /\ wf_numa s' /\ rd (mem s) (toAddr c) = Ok e /\
    if pkey e =? k then r = MkReply true 1 /\ updated_cell s s' row slot (Some (k, v))
    else r = MkReply false 0 /\ s' = s.
Proof.
  intros Hwf Hc Hn. unfold read_addr. rewrite Hc, !bind_Ok_l.
  destruct (cell_entry s row _ c Hwf Hc Hn) as [e He]. unfold read_key. rewrite He, !bind_Ok_l.
  destruct (Z.eqb_spec (pkey e) k) as [Hk|Hk].
  - assert (exists m n, update_data (mem s) (toAddr c) k 64 v = Ok (m, n)) as (m & n & Hu).
    { unfold update_data. rewrite wr_in_range by (by eapply rd_range). do 2 eexists. done. }
    rewrite Hu, bind_Ok_l. do 2 eexists. exists e. split; [reflexivity|].
    destruct (overwrite s row slot c k v m 64 n Hwf Hc Hn Hu) as [Hwf' Hupd].
    do 2 (split; [done|]). by rewrite (proj2 (Z.eqb_eq (pkey e) k) Hk).
  - exists s, (MkReply false 0), e. do 3 (split; [done|]). by rewrite (proj2 (Z.eqb_neq (pkey e) k) Hk).
Qed.

Lemma holds_entry s row slot c k v : rd2 (bks s) row slot = Ok c -> holds_cell s row slot k v ->
  nonempty c /\ exists e, rd (mem s) (toAddr c) = Ok e /\ pkey e = k /\ data e = v.
Proof.
  intros Hc (c' & e & Hc' & Hn & He & Hk & Hv). assert (c' = c) as -> by congruence.
  split; [done|]. by exists e.
Qed.

Lemma update_direct_spec s loc k v k0 v0 : wf_numa s ->
  holds_cell s (loc / 4) (loc mod 4) k0 v0 ->
  exists s' r, update_direct s loc k v = Ok (s', r) /\ wf_numa s' /\
    if decide (k0 = k) then r = MkReply true 1 /\
      updated_cell s s' (loc / 4) (loc mod 4) (Some (k, v))
    else s' = s /\ r = MkReply false 0.
Proof.
  intros Hwf Hit. unfold update_direct. change SLOTS_NUM_BUCKET with 4.
  revert Hit. generalize (loc / 4) (loc mod 4). intros row slot Hit.
  pose proof Hit as (c & _ & Hc & _). destruct (holds_entry s row slot c k0 v0 Hc Hit) as (Hn & e & He & <- & _).
  unfold read_addr, read_key. rewrite Hc, !bind_Ok_l, He, !bind_Ok_l.
  destruct (Z.eqb_spec (pkey e) k) as [->|Hne].
  - unfold update_data. rewrite wr_in_range by (by eapply rd_range). rewrite !bind_Ok_l.
    do 2 eexists. split; [reflexivity|]. rewrite decide_True by done.
    destruct (overwrite s row slot c k v (<[Z.to_nat (toAddr c) := PackedStruct k 64 v]> (mem s)) 64 64
      Hwf Hc Hn) as [Hwf' Hupd]; [|done].
    unfold update_data. by rewrite wr_in_range by (by eapply rd_range).
  - do 2 eexists. split; [reflexivity|]. by rewrite decide_False.
Qed.

Lemma remove_direct_spec (o : O) s loc k k0 v0 : wf_numa s -> mutations_blocked o = false ->
  holds_cell s (loc / 4) (loc mod 4) k0 v0 ->
  exists s', remove_direct o s loc k = Ok (o, s', MkReply true 0) /\ wf_numa s' /\
    if decide (k0 = k) then updated_cell s s' (loc / 4) (loc mod 4) None else s' = s.
Proof.
  intros Hwf Hbl Hit. unfold remove_direct. rewrite Hbl. cbv zeta. change SLOTS_NUM_BUCKET with 4.
  revert Hit. generalize (loc / 4) (loc mod 4). intros row slot Hit.
  pose proof Hit as (c & _ & Hc & _). destruct (holds_entry s row slot c k0 v0 Hc Hit) as (Hn & e & He & <- & _).
  unfold read_addr, remove_data_with_key_check. rewrite Hc, !bind_Ok_l, He, !bind_Ok_l.
  destruct (Z.eqb_spec (pkey e) k) as [->|Hne]; cbn [negb].
  - pose proof (wr_in_range (mem s) (toAddr c) zero_struct (rd_range _ _ _ He)) as Hw.
    rewrite Hw, !bind_Ok_l.
    destruct (cell_range _ _ _ _ (proj1 (wn_index s Hwf)) Hc) as [Hrow Hs].
    assert (exists b, remove_addr (bks s) row slot = Ok b) as [b Hb].
    { unfold remove_addr. apply (wr2_in_range _ 4); [apply (wn_index s Hwf)|done|done]. }
    rewrite Hb, bind_Ok_l. eexists. split; [reflexivity|]. rewrite decide_True by done.
    destruct (drop_cell (bks s) (mem s) row slot (wn_index s Hwf) _ b c Hc Hn Hw Hb)
      as (Hidx & Hupd & Hun).
    split; [|exact Hupd]. destruct Hwf. constructor; cbn [bks mem pd lru seeds set_bks set_mem]; try done.
    + rewrite wn_len0. symmetry. unfold remove_addr in Hb. by eapply wr2_length.
    + by rewrite (wr_length _ _ _ _ Hw).
    + intros a Ha. by apply Hun, wn_alloc0.
  - rewrite !bind_Ok_l. eexists. rewrite decide_False by done. split; [reflexivity|].
    destruct s. by split.
Qed.

(** The array is full, and the put would have to append. *)
Definition no_room (s : server) (row seed k : Z) : Prop :=
  num (pd s) = numElements (pd s) /\
  exists pc, row_is (bks s) k row (slot_of seed k) pc /\
    match pc with HomeFree | OtherFree _ => True | _ => False end.

Lemma put_row_spec s row seed k v reply0 : wf_numa s -> rd (seeds s) row = Ok seed ->
  (exists s' r, put_row s row k v reply0 = Ok (s', r) /\ wf_numa s' /\ put_outcome s s' row seed k v r) \/
  (put_row s row k v reply0 = Err ProcessExit /\ no_room s row seed k).
Proof.
  intros Hwf Hseed. assert (Hrow : 0 <= row < Z.of_nat (length (bks s)))
    by (rewrite <-(wn_len s Hwf); by eapply rd_range).
  unfold put_row. rewrite Hseed, bind_Ok_l. cbv zeta. pose proof (proj1 (wn_index s Hwf)) as Hb.
  destruct (check_slots_case (bks s) k row (slot_of seed k) Hb Hrow (slot_of_range _ _))
    as (st & pc & Hst & Hpc & Hcase). rewrite Hst, bind_Ok_l. pose proof Hpc as (c & Hc & Hcell).
  destruct pc as [|a|slot|].
  - rewrite Hcase. cbn [Z.eqb Pos.eqb].
    destruct (put_append s row (slot_of seed k) k v 0 Hwf Hrow (slot_of_range _ _))
      as [(s' & E & Hwf' & Hupd)|[E Hfull]]; 
      [left|right; split; [done|split; [done|by exists HomeFree]]]. exists s', (MkReply true 0).
    do 2 (split; [done|]). by exists HomeFree.
  - rewrite Hcase. cbn [Z.eqb Pos.eqb]. destruct Hcell as (Hne & _ & ->). left.
    destruct (put_match s row (slot_of seed k) c k v Hwf Hc Hne) as (s' & r & e & E & Hwf' & He & Hout).
    exists s', r. do 2 (split; [done|]). exists (HomeMatch (toAddr c)). split; [done|]. by exists e.
  - destruct Hcase as [-> Hfound]. cbn [Z.eqb Pos.eqb]. rewrite Hfound, bind_Ok_l.
    destruct Hcell as (_ & _ & Hs & _). destruct (put_append s row slot k v 2 Hwf Hrow Hs)
      as [(s' & E & Hwf' & Hupd)|[E Hfull]]; 
      [left|right; split; [done|split; [done|by exists (OtherFree slot)]]]. exists s', (MkReply true 2).
    do 2 (split; [done|]). by exists (OtherFree slot).
  - rewrite Hcase. cbn [Z.eqb Pos.eqb]. left.
    destruct (overflow_put s row seed k v Hwf Hrow) as (s' & E & Hwf' & Hover).
    exists s', (MkReply true (Z.lor 256 seed)). do 2 (split; [done|]). by exists RowFull.
Qed.

Lemma put_direct_main (o : O) s loc k v reply0 :
  wf_numa s -> mutations_blocked o = false -> 0 <= loc < 4 * Z.of_nat (length (bks s)) ->
  exists seed, rd (seeds s) (loc / 4) = Ok seed /\
  ((exists s' r, put_direct o s loc k v reply0 = Ok (o, s', r) /\ wf_numa s' /\
      put_outcome s s' (loc / 4) seed k v r) \/
   (put_direct o s loc k v reply0 = Err ProcessExit /\ no_room s (loc / 4) seed k)).
Proof.
  intros Hwf Hbl Hloc. unfold put_direct. rewrite Hbl. change SLOTS_NUM_BUCKET with 4.
  destruct (rd_in_range (seeds s) (loc / 4)) as [seed Hseed].
  { rewrite (wn_len s Hwf). Z.to_euclidean_division_equations; lia. }
  exists seed. split; [done|].
  destruct (put_row_spec s (loc / 4) seed k v reply0 Hwf Hseed) as [(s' & r & -> & ? & ?)|[-> ?]];
    [left|by right]. by exists s', r.
Qed.

(** C26: [outback_put_direct] outside a resize, for a location of the table:
    it keeps the invariant (entries are allocated, no two cells share one, the
    cache is consistent), and its effect and reply are determined by the row: if the
    key's own cell is free, the pair is put there, reply 0; if that cell has
    the key's fingerprint, its entry is overwritten when it has the key, reply
    1, and otherwise nothing changes and the put fails; if it has another
    fingerprint, the pair is put into the first free cell of the row, reply 2,
    and when the row is full no item changes, the pair goes to the cache, if
    there is one, and the reply is 256 with the row's seed.  No other cell
    changes.  It cannot fail except by the exit for a full entry array, when it
    would have to append. *)
Theorem put_direct_effect (o : O) s loc k v reply0 :
  wf_numa s -> mutations_blocked o = false -> 0 <= loc < 4 * Z.of_nat (length (bks s)) ->
  exists seed, rd (seeds s) (loc / 4) = Ok seed /\
  ((exists s' r, put_direct o s loc k v reply0 = Ok (o, s', r) /\ wf_numa s' /\
      put_outcome s s' (loc / 4) seed k v r) \/
   (put_direct o s loc k v reply0 = Err ProcessExit /\ no_room s (loc / 4) seed k)).
Proof. exact (put_direct_main o s loc k v reply0). Qed.

(** C29: The operations on a located cell, for every location of the table
    whose cell holds an item [(k0, v0)]: GET answers [v0] whatever the key
    asked for; UPDATE overwrites the value when [k0] is the key asked for and
    otherwise changes nothing and fails; REMOVE (outside a resize) empties that
    cell and no other when [k0] is the key, and otherwise changes nothing
    though it reports success; all of them keep the invariant. *)
Theorem located_ops_effect (o : O) s loc k v k0 v0 :
  wf_numa s -> mutations_blocked o = false -> holds_cell s (loc / 4) (loc mod 4) k0 v0 ->
  get_direct s loc = Ok (MkReply true v0) /\
  (exists s' r, update_direct s loc k v = Ok (s', r) /\ wf_numa s' /\
    if decide (k0 = k) then r = MkReply true 1 /\
      updated_cell s s' (loc / 4) (loc mod 4) (Some (k, v))
    else s' = s /\ r = MkReply false 0) /\
  (exists s', remove_direct o s loc k = Ok (o, s', MkReply true 0) /\ wf_numa s' /\
    if decide (k0 = k) then updated_cell s s' (loc / 4) (loc mod 4) None else s' = s).
Proof.
  intros Hwf Hbl Hit. split; [|split; [by apply (update_direct_spec s loc k v k0 v0)|
    by apply (remove_direct_spec o s loc k k0 v0)]].
  pose proof Hit as (c & _ & Hc & _).
  destruct (holds_entry s _ _ c k0 v0 Hc Hit) as (_ & e & He & _ & <-).
  unfold get_direct, read_addr. change SLOTS_NUM_BUCKET with 4. by rewrite Hc, !bind_Ok_l, He.
Qed.
End ops.

(** ** An instance *)

(** An orchestrator that is in state NORMAL: nothing is blocked. *)
#[local] Instance idle : Intercept unit := {
  mutations_blocked := fun _ => false;
  hooks_installed := fun _ => true;
  call_defer_insert := fun o _ _ => (o, true);
  call_defer_delete := fun o _ => (o, true);
}.

Definition numa_demo : server :=
  MkServer [0; 0] (new_buckets 2) (replicate 4 zero_struct) (PackedData 0 4) (new_cache 4 0).

Lemma numa_demo_wf : wf_numa numa_demo.
Proof.
  assert (Hz : ~ nonempty 0) by (unfold nonempty; rewrite toLength_0; lia).
  constructor; cbn [numa_demo seeds bks mem pd lru num numElements]; try lia;
    [reflexivity| |reflexivity| |by apply new_cache_inv].
  - split; [by repeat constructor|]. intros row slot row' slot' c c' Hc _ Hn.
    by rewrite (new_buckets_cell 2 _ _ _ Hc) in Hn.
  - intros a _ row slot c Hc Hn. by rewrite (new_buckets_cell 2 _ _ _ Hc) in Hn.
Qed.

Lemma put_direct_effect_witness :
  exists seed, rd (seeds numa_demo) (5 / 4) = Ok seed /\
  ((exists s' r, put_direct true tt numa_demo 5 7 70 (MkReply false 0) = Ok (tt, s', r) /\ wf_numa s' /\
      put_outcome true numa_demo s' (5 / 4) seed 7 70 r) \/
   (put_direct true tt numa_demo 5 7 70 (MkReply false 0) = Err ProcessExit /\
     no_room numa_demo (5 / 4) seed 7)).
Proof.
  apply (put_direct_effect true tt numa_demo 5 7 70 (MkReply false 0) numa_demo_wf);
    [reflexivity|simpl; lia].
Defined.

(** The server after one put at row 1. *)
Definition numa_demo1 : server :=
  match put_direct true tt numa_demo 5 7 70 (MkReply false 0) with
  | Ok (_, s, _) => s | Err _ => numa_demo
  end.

Lemma numa_demo1_wf : wf_numa numa_demo1.
Proof.
  unfold numa_demo1.
  destruct (put_direct_main true tt numa_demo 5 7 70 (MkReply false 0) numa_demo_wf)
    as (seed & _ & [(s' & r & -> & Hwf & _)|[-> _]]);
    [reflexivity|simpl; lia|done|apply numa_demo_wf].
Qed.

Lemma numa_demo1_item : holds_cell numa_demo1 1 (slot_of 0 7) 7 70.
Proof.
  exists (combine (fingerprint 7) 64 0), (PackedStruct 7 8 70).
  split; [vm_compute; reflexivity|]. split; [|split; [vm_compute; reflexivity|by split]].
  unfold nonempty. vm_compute. discriminate.
Qed.

Lemma located_ops_effect_witness :
  let loc := 4 + slot_of 0 7 in
  get_direct numa_demo1 loc = Ok (MkReply true 70) /\
  (exists s' r, update_direct numa_demo1 loc 7 71 = Ok (s', r) /\ wf_numa s' /\
    if decide (7 = 7) then r = MkReply true 1 /\
      updated_cell numa_demo1 s' (loc / 4) (loc mod 4) (Some (7, 71))
    else s' = numa_demo1 /\ r = MkReply false 0) /\
  (exists s', remove_direct tt numa_demo1 loc 7 = Ok (tt, s', MkReply true 0) /\ wf_numa s' /\
    if decide (7 = 7) then updated_cell numa_demo1 s' (loc / 4) (loc mod 4) None
    else s' = numa_demo1).
Proof.
  assert (E : (4 + slot_of 0 7) / 4 = 1) by (vm_compute; reflexivity).
  assert (E' : (4 + slot_of 0 7) mod 4 = slot_of 0 7) by (vm_compute; reflexivity).
  apply (located_ops_effect tt numa_demo1 (4 + slot_of 0 7) 7 71 7 70 numa_demo1_wf);
    [reflexivity|]. rewrite E, E'. apply numa_demo1_item.
Defined.
