(* ===== verification/Replay.v ===== *)
(** * Replay of deferred operations (outback/outback_resize.hh)

    The operations that [drain_old] applies to the new region: [replay_insert]
    and [replay_delete] on the index, the entry array and the counter of the
    wrapper.  [d] is the lookup structure shared with the server. *)

From Stdlib Require Import ZArith Lia.
From stdpp Require Import base numbers gmap list.
From S2P Require Import Prelude Words Hash PackedData LudoSlot LruCache ServerRdma ServerInv.
From S2P Require Import LudoDP NumaTable.

#[local] Open Scope Z_scope.

Record DeferredInsert := MkDefIns { di_key : Z; di_value : Z; di_enqueue_ts_ns : Z }.
Record DeferredDelete := MkDefDel { dd_key : Z; dd_enqueue_ts_ns : Z }.

(** [*new_ludo_buckets_] and [*new_packed_data_]. *)
Record table := MkTable { t_bks : list ludo_bucket; t_mem : region; t_pd : packed_data }.

Definition set_t_mem (m : region) (t : table) : table := MkTable (t_bks t) m (t_pd t).

Section replay.
Context (d : DataPlaneLudo).

(** [lookup_slot]; a lookup that finds a writer's odd version never returns. *)
Definition locate_key (k : Z) : res (Z * Z) :=
  loc ← lookup_slot d k;
  match loc with Some l => Ok l | None => Err OutOfFuel end.

(** [addr = bulk_load_data(key, sizeof(ValType), val); write_addr(key, row, s, addr)] *)
Definition append_at (t : table) (row s k v : Z) : res table :=
  '(w, m, addr) ← bulk_load_data (t_pd t) (t_mem t) k sizeof_ValType v;
  b ← write_addr (t_bks t) k row s addr 64;
  Ok (MkTable b m w).

Definition replay_insert (t : table) (di : DeferredInsert) : res table :=
  let k := di_key di in let v := di_value di in
  '(row, _) ← locate_key k;
  seed ← rd (dp_buckets d) row;
  let slot := slot_of seed k in
  st ← check_slots (t_bks t) k row slot;
  if st =? 0 then append_at t row slot k v
  else if st =? 1 then
    addr ← read_addr (t_bks t) row slot;
    stored ← read_key (t_mem t) addr;
    if stored =? k then '(m, _) ← update_data (t_mem t) addr k sizeof_ValType v; Ok (set_t_mem m t)
    else Ok t
  else if st =? 2 then
    found ← first_empty row_slots (t_bks t) k row;
    match found with Some s => append_at t row s k v | None => Ok t end
  else Ok t.

(** [if (remove_data_with_key_check(a, key)) remove_addr(row, s)]; whether it was so. *)
Definition try_remove (t : table) (k row s a : Z) : res (table * bool) :=
  '(m, ok) ← remove_data_with_key_check (t_mem t) a k;
  if ok : bool then b ← remove_addr (t_bks t) row s; Ok (MkTable b m (t_pd t), true)
  else Ok (t, false).

(** The loop over the other cells of the row. *)
Fixpoint scan_delete (sl : list Z) (t : table) (k row slot : Z) : res table :=
  match sl with
  | [] => Ok t
  | s :: sl =>
      if s =? u8 slot then scan_delete sl t k row slot
      else
        a ← read_addr (t_bks t) row s;
        if a =? 0 then scan_delete sl t k row slot
        else
          '(t', ok) ← try_remove t k row s a;
          if ok : bool then Ok t' else scan_delete sl t k row slot
  end.

Definition replay_delete (t : table) (dd : DeferredDelete) : res table :=
  let k := dd_key dd in
  '(row, slot) ← locate_key k;
  addr ← read_addr (t_bks t) row slot;
  '(t', ok) ← try_remove t k row slot addr;
  if ok : bool then Ok t' else scan_delete row_slots t k row slot.

(** The two loops of [drain_old]: every insert, then every delete. *)
Definition replay_all (ins : list DeferredInsert) (dels : list DeferredDelete) (t : table)
    : res table :=
  t1 ← foldM replay_insert ins t; foldM replay_delete dels t1.

(** ** Laws *)

(** Every cell, empty or not, has an address in the entry array, and the array
    is as long as the wrapper says. *)
Record table_ok (t : table) : Prop := {
  tk_bks : wf_buckets (t_bks t);
  tk_rows : (length (dp_buckets d) <= length (t_bks t))%nat;
  tk_addr : forall row slot c, rd2 (t_bks t) row slot = Ok c ->
    toAddr c < Z.of_nat (length (t_mem t));
  tk_len : numElements (t_pd t) = Z.of_nat (length (t_mem t));
  tk_num : 0 <= num (t_pd t) <= numElements (t_pd t);
  tk_cap : 0 < numElements (t_pd t) <= 2 ^ 32;
}.

(** The lookup of [k] answers, inside the table. *)
Definition located (k : Z) : Prop := exists row slot,
  lookup_slot d k = Ok (Some (row, slot)) /\ 0 <= row < Z.of_nat (length (dp_buckets d)) /\
  0 <= slot < 4.

(** Nothing but the cell [(row, slot)] changed, and its item is [(k, v)]. *)
Definition cell_set (t t' : table) (row slot k v : Z) : Prop :=
  cell_item (t_bks t') (t_mem t') row slot k v /\
  (forall row' slot', (row', slot') <> (row, slot) ->
     rd2 (t_bks t') row' slot' = rd2 (t_bks t) row' slot').

Lemma append_at_spec t row s k v : table_ok t -> 0 <= row < Z.of_nat (length (t_bks t)) ->
  0 <= s < 4 -> num (t_pd t) < numElements (t_pd t) ->
  exists t', append_at t row s k v = Ok t' /\ table_ok t' /\
    num (t_pd t') = num (t_pd t) + 1 /\ numElements (t_pd t') = numElements (t_pd t) /\
    t_mem t' = <[Z.to_nat (num (t_pd t)) := PackedStruct k sizeof_ValType v]> (t_mem t) /\
    cell_set t t' row s k v.
Proof.
  intros Hok Hrow Hs Hlt. pose proof (tk_num t Hok) as Hn. pose proof (tk_cap t Hok) as Hcap.
  pose proof (tk_len t Hok) as Hlen. unfold append_at, bulk_load_data.
  destruct (Z.leb_spec (numElements (t_pd t)) (num (t_pd t))); [lia|].
  pose proof (wr_in_range (t_mem t) (num (t_pd t)) (PackedStruct k sizeof_ValType v) ltac:(lia)) as Hm.
  rewrite Hm, !bind_Ok_l, !wrap_id by (unfold is_word; lia).
  assert (exists b, write_addr (t_bks t) k row s (num (t_pd t)) 64 = Ok b) as [b Hb].
  { unfold write_addr. apply (wr2_in_range _ 4); [apply (tk_bks t Hok)|done|done]. }
  rewrite Hb, bind_Ok_l. eexists. split; [reflexivity|]. cbn [t_bks t_mem t_pd num numElements].
  destruct (new_cell_fields k (num (t_pd t))) as (Hl & _ & Ha); [lia|].
  unfold write_addr in Hb. revert Hb Hl Ha. generalize (combine (fingerprint k) 64 (num (t_pd t))) as nc.
  intros nc Hb Hl Ha. split; [|split; [done|split; [done|split; [done|split]]]].
  - constructor; cbn [t_bks t_mem t_pd num numElements].
    + eapply wf_buckets_wr2; [exact Hb|apply (tk_bks t Hok)].
    + rewrite (wr2_length _ _ _ _ _ Hb). apply (tk_rows t Hok).
    + intros row' slot' c Hc. rewrite length_insert.
      destruct (decide ((row', slot') = (row, s))) as [[= -> ->]|Hne].
      * rewrite (rd2_wr2_eq _ _ _ _ _ Hb) in Hc. apply Ok_inj in Hc as <-. lia.
      * rewrite (rd2_wr2_ne _ _ _ _ _ _ _ Hb) in Hc by congruence. by apply (tk_addr t Hok) in Hc.
    + by rewrite length_insert.
    + lia.
    + lia.
  - exists nc, (PackedStruct k sizeof_ValType v). split; [by apply (rd2_wr2_eq _ _ _ _ _ Hb)|].
    split; [unfold nonempty; lia|]. split; [|done]. rewrite Ha. by apply (rd_wr_eq _ _ _ _ Hm).
  - intros row' slot' Hne. apply (rd2_wr2_ne _ _ _ _ _ _ _ Hb). congruence.
Qed.

(** The pair is appended at the wrapper's counter and linked in the cell
    [(row, s)]. *)
Definition appended (t t' : table) (row s k v : Z) : Prop :=
  cell_set t t' row s k v /\
  t_mem t' = <[Z.to_nat (num (t_pd t)) := PackedStruct k sizeof_ValType v]> (t_mem t) /\
  num (t_pd t') = num (t_pd t) + 1.

(** The effect of a replayed insert in the row [row] with seed [seed], by what
    it finds there. *)
Definition replayed (t t' : table) (row seed k v : Z) : Prop :=
  exists pc, row_is (t_bks t) k row (slot_of seed k) pc /\
  match pc with
  | HomeFree => appended t t' row (slot_of seed k) k v
  | HomeMatch a => exists e, rd (t_mem t) a = Ok e /\
      t' = if pkey e =? k
           then set_t_mem (<[Z.to_nat a := PackedStruct k sizeof_ValType v]> (t_mem t)) t else t
  | OtherFree s => appended t t' row s k v
  | RowFull => t' = t
  end.

Lemma set_t_mem_ok t m : length m = length (t_mem t) -> table_ok t -> table_ok (set_t_mem m t).
Proof. intros E []. constructor; cbn [t_bks t_mem t_pd set_t_mem]; rewrite ?E; done. Qed.

Lemma entry_of_cell t row slot c : table_ok t -> rd2 (t_bks t) row slot = Ok c ->
  exists e, rd (t_mem t) (toAddr c) = Ok e.
Proof.
  intros Hok Hc. apply rd_in_range. pose proof (tk_addr t Hok row slot c Hc).
  pose proof (toAddr_range c). lia.
Qed.

Lemma replay_insert_main t k v ts row slot seed : table_ok t ->
  lookup_slot d k = Ok (Some (row, slot)) -> rd (dp_buckets d) row = Ok seed ->
  num (t_pd t) < numElements (t_pd t) ->
  exists t', replay_insert t (MkDefIns k v ts) = Ok t' /\ table_ok t' /\
    num (t_pd t) <= num (t_pd t') <= num (t_pd t) + 1 /\
    numElements (t_pd t') = numElements (t_pd t) /\ replayed t t' row seed k v.
Proof.
  intros Hok Hloc Hseed Hlt. unfold replay_insert, locate_key. cbn [di_key di_value].
  assert (Hrow : 0 <= row < Z.of_nat (length (t_bks t)))
    by (apply rd_range in Hseed; pose proof (tk_rows t Hok); lia).
  rewrite Hloc, !bind_Ok_l, Hseed, bind_Ok_l. cbv beta iota zeta.
  destruct (check_slots_case (t_bks t) k row (slot_of seed k) (tk_bks t Hok) Hrow (slot_of_range _ _))
    as (st & pc & Hst & Hpc & Hcase). rewrite Hst, bind_Ok_l.
  assert (Happ : forall s, 0 <= s < 4 -> exists t', append_at t row s k v = Ok t' /\ table_ok t' /\
    num (t_pd t) <= num (t_pd t') <= num (t_pd t) + 1 /\
    numElements (t_pd t') = numElements (t_pd t) /\ appended t t' row s k v).
  { intros s Hs. destruct (append_at_spec t row s k v Hok Hrow Hs Hlt) as (t' & E & Hok' & Hn & Hne & Hm & Hset).
    exists t'. do 2 (split; [done|]). split; [lia|]. by split. }
  pose proof Hpc as (c & Hc & Hcell). destruct pc as [|a|s|]; cbn [Z.eqb Pos.eqb].
  - rewrite Hcase. destruct (Happ (slot_of seed k) (slot_of_range _ _)) as (t' & E & Hok' & Hn & HN & Ha).
    exists t'. do 4 (split; [done|]). by exists HomeFree.
  - rewrite Hcase. destruct Hcell as (Hne & Hf & ->). destruct (entry_of_cell t row _ c Hok Hc) as [e He].
    cbn [Z.eqb Pos.eqb]. unfold read_addr, read_key. rewrite Hc, !bind_Ok_l, He, !bind_Ok_l.
    assert (Hrep : forall t', t' = (if pkey e =? k then set_t_mem (<[Z.to_nat (toAddr c) :=
        PackedStruct k sizeof_ValType v]> (t_mem t)) t else t) -> replayed t t' row seed k v)
      by (intros t' ->; exists (HomeMatch (toAddr c)); split; [done|by exists e]).
    destruct (pkey e =? k).
    + unfold update_data. rewrite wr_in_range, !bind_Ok_l by (by eapply rd_range).
      eexists. split; [reflexivity|]. split; [apply set_t_mem_ok; [by rewrite length_insert|done]|].
      cbn [set_t_mem t_pd]. do 2 (split; [lia|]). by apply Hrep.
    + exists t. do 4 (split; [done || lia|]). by apply Hrep.
  - destruct Hcase as [-> Hfound]. destruct Hcell as (_ & _ & Hs & _).
    cbn [Z.eqb Pos.eqb]. rewrite Hfound, bind_Ok_l.
    destruct (Happ s Hs) as (t' & E & Hok' & Hn & HN & Ha).
    exists t'. do 4 (split; [done|]). by exists (OtherFree s).
  - rewrite Hcase. cbn [Z.eqb Pos.eqb]. exists t. do 4 (split; [done || lia|]). by exists RowFull.
Qed.

(** *** Deletes *)

(** The cell [(row, s)] is emptied and its entry, whose key was [k], cleared. *)
Definition removed_cell (t t' : table) (k row s : Z) : Prop := exists c e,
  rd2 (t_bks t) row s = Ok c /\ rd (t_mem t) (toAddr c) = Ok e /\ pkey e = k /\
  wr2 (t_bks t) row s 0 = Ok (t_bks t') /\
  t_mem t' = <[Z.to_nat (toAddr c) := zero_struct]> (t_mem t) /\ t_pd t' = t_pd t.

(** The cell [(row, s)] does not refer to the key; where [s] is not the located
    slot, the address 0 counts as empty. *)
Definition absent_at (t : table) (k row slot s : Z) : Prop := forall c e,
  rd2 (t_bks t) row s = Ok c -> toAddr c <> 0 \/ s = slot ->
  rd (t_mem t) (toAddr c) = Ok e -> pkey e <> k.

(** The effect of a replayed delete: the located cell is removed if it has the
    key, otherwise the first other cell of the row that has it; if none has,
    nothing changes. *)
Definition deleted (t t' : table) (k row slot : Z) : Prop :=
  (exists s, 0 <= s < 4 /\ removed_cell t t' k row s /\
     (s <> slot -> forall s', s' = slot \/ 0 <= s' < s -> absent_at t k row slot s')) \/
  (t' = t /\ forall s, 0 <= s < 4 -> absent_at t k row slot s).

Lemma removed_cell_ok t t' k row s : table_ok t -> removed_cell t t' k row s -> table_ok t'.
Proof.
  intros Hok (c & e & Hc & He & Hk & Hw & Hm & Hp).
  destruct Hok as [Hb Hr Ha Hl Hn Hcap]. constructor; rewrite ?Hp, ?Hm, ?length_insert; try done.
  - by eapply wf_buckets_wr2.
  - by rewrite (wr2_length _ _ _ _ _ Hw).
  - intros row' s' c' Hc'. destruct (decide ((row', s') = (row, s))) as [[= -> ->]|Hne].
    + rewrite (rd2_wr2_eq _ _ _ _ _ Hw) in Hc'. apply Ok_inj in Hc' as <-.
      change (toAddr 0) with 0. lia.
    + rewrite (rd2_wr2_ne _ _ _ _ _ _ _ Hw) in Hc' by congruence. by apply (Ha row' s').
Qed.

Lemma try_remove_spec t k row s c : table_ok t -> rd2 (t_bks t) row s = Ok c ->
  exists t' b, try_remove t k row s (toAddr c) = Ok (t', b) /\
    (if b then removed_cell t t' k row s else t' = t /\
       forall e, rd (t_mem t) (toAddr c) = Ok e -> pkey e <> k).
Proof.
  intros Hok Hc. unfold try_remove, remove_data_with_key_check.
  destruct (entry_of_cell t row s c Hok Hc) as [e He]. rewrite He, bind_Ok_l.
  destruct (cell_range _ _ _ _ (tk_bks t Hok) Hc) as [Hrow Hs].
  destruct (Z.eqb_spec (pkey e) k) as [Hk|Hk]; cbn [negb].
  - rewrite wr_in_range, !bind_Ok_l by (by eapply rd_range). unfold remove_addr.
    destruct (wr2_in_range (t_bks t) 4 row s 0 (tk_bks t Hok) Hrow Hs) as [b Hb].
    rewrite Hb, bind_Ok_l. do 2 eexists. split; [reflexivity|].
    exists c, e. by cbn [t_bks t_mem t_pd].
  - rewrite bind_Ok_l. do 2 eexists. split; [reflexivity|]. split; [done|].
    intros e' He'. congruence.
Qed.

Lemma scan_delete_spec sl t k row slot : table_ok t -> 0 <= row < Z.of_nat (length (t_bks t)) ->
  0 <= slot < 4 -> Forall (fun s => 0 <= s < 4) sl ->
  exists t', scan_delete sl t k row slot = Ok t' /\
    ((exists l1 s l2, sl = l1 ++ s :: l2 /\ s <> slot /\ removed_cell t t' k row s /\
        forall s', s' ∈ l1 -> s' <> slot -> absent_at t k row slot s') \/
     t' = t /\ forall s, s ∈ sl -> s <> slot -> absent_at t k row slot s).
Proof.
  intros Hok Hrow Hslot. induction sl as [|s sl IH]; intros Hsl; cbn [scan_delete].
  { exists t. split; [done|]. right. split; [done|]. by intros ? ?%not_elem_of_nil. }
  apply Forall_cons in Hsl as [Hs Hsl]. specialize (IH Hsl) as (t' & E & IH).
  rewrite (wrap_id 8 slot) by (unfold is_word; lia).
  destruct (cell_exists (t_bks t) row s (tk_bks t Hok) Hrow Hs) as [c Hc].
  (* the cell [s] is passed over *)
  assert (Hskip : (s <> slot -> absent_at t k row slot s) -> exists t', scan_delete sl t k row slot = Ok t' /\
    ((exists l1 s0 l2, s :: sl = l1 ++ s0 :: l2 /\ s0 <> slot /\ removed_cell t t' k row s0 /\
        forall s', s' ∈ l1 -> s' <> slot -> absent_at t k row slot s') \/
     t' = t /\ forall s0, s0 ∈ s :: sl -> s0 <> slot -> absent_at t k row slot s0)).
  { intros Hno. exists t'. split; [done|]. destruct IH as [(l1 & s0 & l2 & -> & Hne & Hr & Hl)|[-> Hall]].
    - left. exists (s :: l1), s0, l2. do 3 (split; [done|]).
      intros s' [->|Hin]%elem_of_cons; [done|by apply Hl].
    - right. split; [done|]. intros s' [->|Hin]%elem_of_cons; [done|by apply Hall]. }
  destruct (Z.eqb_spec s slot) as [->|Hne]; [by apply Hskip|].
  unfold read_addr. rewrite Hc, !bind_Ok_l.
  destruct (Z.eqb_spec (toAddr c) 0) as [H0|H0].
  { apply Hskip. intros _ c' e Hc' [Ha|?] _; [|done]. by assert (c' = c) as -> by congruence. }
  destruct (try_remove_spec t k row s c Hok Hc) as (t1 & b & -> & Hb). rewrite bind_Ok_l.
  destruct b.
  - exists t1. split; [done|]. left. exists [], s, sl. do 3 (split; [done|]). by intros ? ?%not_elem_of_nil.
  - destruct Hb as [-> Hb]. apply Hskip. intros _ c' e Hc' _ He. assert (c' = c) as -> by congruence. by apply Hb.
Qed.

Lemma replay_delete_main t k ts row slot : table_ok t ->
  lookup_slot d k = Ok (Some (row, slot)) -> 0 <= row < Z.of_nat (length (dp_buckets d)) ->
  0 <= slot < 4 ->
  exists t', replay_delete t (MkDefDel k ts) = Ok t' /\ table_ok t' /\ deleted t t' k row slot.
Proof.
  intros Hok Hloc Hrow Hs. unfold replay_delete, locate_key. cbn [dd_key].
  pose proof (tk_rows t Hok). rewrite Hloc, !bind_Ok_l.
  destruct (cell_exists (t_bks t) row slot (tk_bks t Hok) ltac:(lia) Hs) as [c Hc].
  unfold read_addr. rewrite Hc, !bind_Ok_l.
  destruct (try_remove_spec t k row slot c Hok Hc) as (t1 & b & -> & Hb).
  rewrite bind_Ok_l. destruct b.
  { exists t1. split; [done|]. split; [by apply (removed_cell_ok t t1 k row slot)|].
    left. exists slot. by do 2 (split; [done|]). }
  destruct Hb as [-> Hb].
  assert (Hhome : absent_at t k row slot slot).
  { intros c' e Hc' _ He. assert (c' = c) as -> by congruence. by apply Hb. }
  destruct (scan_delete_spec row_slots t k row slot Hok ltac:(lia) Hs row_slots_range)
    as (t' & -> & Heff). exists t'. split; [done|].
  destruct Heff as [(l1 & s & l2 & El & Hne & Hr & Hl)|[-> Hno]].
  - split; [by apply (removed_cell_ok t t' k row s)|]. left. exists s.
    assert (Hin : s ∈ row_slots) by (rewrite El; set_solver). apply elem_of_row_slots in Hin.
    do 2 (split; [done|]). intros _ s' Hs'. destruct (decide (s' = slot)) as [->|Hne']; [done|].
    destruct Hs' as [?|Hlt]; [done|]. apply Hl; [|done]. by apply (row_slots_before l1 l2 s).
  - split; [done|]. right. split; [done|]. intros s Hs'. destruct (decide (s = slot)) as [->|Hne]; [done|].
    apply Hno; [by apply elem_of_row_slots|done].
Qed.

(** *** The drain *)

(** What the drain does to a table: each insert in order, then each delete in
    order, has its effect in the row where the lookup locates its key. *)
Inductive replay_run : list DeferredInsert -> list DeferredDelete -> table -> table -> Prop :=
  | RunInsert di ins dels t t1 t' row slot seed :
      lookup_slot d (di_key di) = Ok (Some (row, slot)) -> rd (dp_buckets d) row = Ok seed ->
      replayed t t1 row seed (di_key di) (di_value di) -> replay_run ins dels t1 t' ->
      replay_run (di :: ins) dels t t'
  | RunDelete dd dels t t1 t' row slot :
      lookup_slot d (dd_key dd) = Ok (Some (row, slot)) -> deleted t t1 (dd_key dd) row slot ->
      replay_run [] dels t1 t' -> replay_run [] (dd :: dels) t t'
  | RunEnd t : replay_run [] [] t t.

Lemma replay_deletes_spec dels : Forall (fun dd => located (dd_key dd)) dels -> forall t,
  table_ok t -> exists t', foldM replay_delete dels t = Ok t' /\ table_ok t' /\ replay_run [] dels t t'.
Proof.
  induction 1 as [|[k ts] dels (row & slot & Hloc & Hrow & Hs) _ IH]; intros t Hok.
  { exists t. do 2 (split; [done|]). constructor. }
  cbn [foldM]. destruct (replay_delete_main t k ts row slot Hok Hloc Hrow Hs) as (t1 & -> & Hok1 & Hdel).
  rewrite bind_Ok_l. destruct (IH t1 Hok1) as (t' & E & Hok' & Hrun). exists t'. do 2 (split; [done|]).
  by eapply RunDelete.
Qed.

Lemma replay_all_spec ins dels : Forall (fun di => located (di_key di)) ins ->
  Forall (fun dd => located (dd_key dd)) dels -> forall t, table_ok t ->
  num (t_pd t) + Z.of_nat (length ins) <= numElements (t_pd t) ->
  exists t', replay_all ins dels t = Ok t' /\ table_ok t' /\ replay_run ins dels t t'.
Proof.
  intros Hi Hd. unfold replay_all.
  induction Hi as [|[k v ts] ins (row & slot & Hloc & Hrow & Hs) _ IH]; intros t Hok Hroom.
  { by apply replay_deletes_spec. }
  cbn [length] in Hroom. destruct (rd_in_range (dp_buckets d) row Hrow) as [seed Hseed].
  destruct (replay_insert_main t k v ts row slot seed Hok Hloc Hseed) as
    (t1 & E & Hok1 & Hn & HN & Hrep); [lia|]. cbn [foldM]. rewrite E, bind_Ok_l.
  destruct (IH t1 Hok1) as (t' & E' & Hok' & Hrun); [lia|]. exists t'. do 2 (split; [done|]).
  by eapply RunInsert.
Qed.
End replay.

(** C30: Replaying a deferred insert whose key is located never fails while the
    entry array has room, and its effect is determined by the key's row: if the
    key's own cell is free, the pair is appended at the wrapper's counter and
    linked there; if that cell has the key's fingerprint, the entry it refers
    to is overwritten when it has the key, and the insert is dropped when it
    has another; if it has another fingerprint, the pair is appended and
    linked in the first free cell of the row, or dropped when the row is full.
    No other cell changes. *)
Theorem replay_insert_effect d t di : table_ok d t -> located d (di_key di) ->
  num (t_pd t) < numElements (t_pd t) ->
  exists row slot seed t', lookup_slot d (di_key di) = Ok (Some (row, slot)) /\
    rd (dp_buckets d) row = Ok seed /\ replay_insert d t di = Ok t' /\ table_ok d t' /\
    replayed t t' row seed (di_key di) (di_value di).
Proof.
  intros Hok (row & slot & Hloc & Hrow & Hs) Hlt. destruct di as [k v ts]. cbn [di_key di_value] in *.
  destruct (rd_in_range (dp_buckets d) row Hrow) as [seed Hseed].
  destruct (replay_insert_main d t k v ts row slot seed Hok Hloc Hseed Hlt)
    as (t' & E & Hok' & _ & _ & Hr). by exists row, slot, seed, t'.
Qed.

(** Replaying a deferred delete of a located key never fails; it empties the
    located cell, or else the first cell of the row, whose entry has that key,
    and clears the entry; or it changes nothing, and then neither the located
    cell nor any cell of the row with a non-zero address refers to an entry
    with that key. *)
Theorem replay_delete_exact d t dd : table_ok d t -> located d (dd_key dd) ->
  exists row slot t', lookup_slot d (dd_key dd) = Ok (Some (row, slot)) /\
    replay_delete d t dd = Ok t' /\ table_ok d t' /\ deleted t t' (dd_key dd) row slot.
Proof.
  intros Hok (row & slot & Hloc & Hrow & Hs). destruct dd as [k ts]. cbn [dd_key] in *.
  destruct (replay_delete_main d t k ts row slot Hok Hloc Hrow Hs) as (t' & E & Hok' & Heff).
  by exists row, slot, t'.
Qed.

(** ** An instance: the lookup structure [demo_dp] over a table of 8 rows *)

Definition demo_t : table := MkTable (new_buckets 8) (replicate 4 zero_struct) (PackedData 0 4).

Lemma demo_t_ok : table_ok demo_dp demo_t.
Proof.
  constructor; cbn [demo_t t_bks t_mem t_pd num numElements]; try lia.
  - by repeat constructor.
  - simpl. lia.
  - intros row slot c Hc. rewrite (new_buckets_cell 8 row slot c Hc).
    change (toAddr 0) with 0. simpl. lia.
  - reflexivity.
Qed.

Lemma demo_located : located demo_dp 7.
Proof.
  unfold located. destruct (lookup_slot demo_dp 7) as [[[row slot]|]|] eqn:E; vm_compute in E; try done.
  apply Ok_inj in E. exists row, slot. split; [done|]. injection E as <- <-.
  change (length (dp_buckets demo_dp)) with 4%nat. lia.
Qed.

Lemma replay_insert_effect_witness :
  exists row slot seed t', lookup_slot demo_dp 7 = Ok (Some (row, slot)) /\
    rd (dp_buckets demo_dp) row = Ok seed /\
    replay_insert demo_dp demo_t (MkDefIns 7 70 1) = Ok t' /\ table_ok demo_dp t' /\
    replayed demo_t t' row seed 7 70.
Proof.
  apply (replay_insert_effect demo_dp demo_t (MkDefIns 7 70 1) demo_t_ok demo_located).
  reflexivity.
Defined.

Lemma replay_delete_exact_witness :
  exists row slot t', lookup_slot demo_dp 7 = Ok (Some (row, slot)) /\
    replay_delete demo_dp demo_t (MkDefDel 7 1) = Ok t' /\ table_ok demo_dp t' /\
    deleted demo_t t' 7 row slot.
Proof. apply (replay_delete_exact demo_dp demo_t (MkDefDel 7 1) demo_t_ok demo_located). Defined.
