(* ===== verification/Resize.v ===== *)
(** * The resize orchestrator (outback/outback_resize.hh)

    [Orch] is what the orchestrator reads and writes: the shared registry, the
    shared-memory objects, the interception globals, the server's state and its
    own members.  Each handler of the background thread is a function on it.
    [clk i] is the [i]-th reading of the clock in a handler ([set_state] reads
    it for its message only); the answers of the operating system are
    arguments.  The deque mutex and the per-bucket mutexes serialise the
    handlers with the operations that defer. *)

From Stdlib Require Import ZArith Lia.
From stdpp Require Import base numbers strings gmap list.
From S2P Require Import Prelude Words Hash PackedData LudoSlot LruCache ServerRdma ServerInv.
From S2P Require Import LudoDP NumaTable NumaTransport ServerNuma Replay.

#[local] Open Scope Z_scope.

Definition kZombieThresholdNs : Z := 30 * 1000000000.
Definition kAckGraceMs : Z := 5000.
Definition kGcGraceMs : Z := 2000.
Definition kMaxDeferredDepth : Z := 1000000.

(** [sizeof(LudoBucket)]: four 64-bit cells *)
Definition sizeof_LudoBucket : Z := 32.

Record ResizeMetrics := MkMetrics {
  resize_count : Z;
  copy_duration_ms : Z;
  ack_wait_ms : Z;
  drain_duration_ms : Z;
  gc_delay_ms : Z;
  zombie_cleanups : Z;
  pressure_guard_fails : Z;
  deferred_inserts_total : Z;
  deferred_deletes_total : Z;
}.

Definition set_resize_count (v : _) (r : ResizeMetrics) : ResizeMetrics :=
    MkMetrics v (copy_duration_ms r) (ack_wait_ms r) (drain_duration_ms r) (gc_delay_ms r)
    (zombie_cleanups r) (pressure_guard_fails r) (deferred_inserts_total r)
    (deferred_deletes_total r).
Definition set_copy_duration_ms (v : _) (r : ResizeMetrics) : ResizeMetrics :=
    MkMetrics (resize_count r) v (ack_wait_ms r) (drain_duration_ms r) (gc_delay_ms r)
    (zombie_cleanups r) (pressure_guard_fails r) (deferred_inserts_total r)
    (deferred_deletes_total r).
Definition set_ack_wait_ms (v : _) (r : ResizeMetrics) : ResizeMetrics :=
    MkMetrics (resize_count r) (copy_duration_ms r) v (drain_duration_ms r) (gc_delay_ms r)
    (zombie_cleanups r) (pressure_guard_fails r) (deferred_inserts_total r)
    (deferred_deletes_total r).
Definition set_drain_duration_ms (v : _) (r : ResizeMetrics) : ResizeMetrics :=
    MkMetrics (resize_count r) (copy_duration_ms r) (ack_wait_ms r) v (gc_delay_ms r)
    (zombie_cleanups r) (pressure_guard_fails r) (deferred_inserts_total r)
    (deferred_deletes_total r).
Definition set_gc_delay_ms (v : _) (r : ResizeMetrics) : ResizeMetrics :=
    MkMetrics (resize_count r) (copy_duration_ms r) (ack_wait_ms r) (drain_duration_ms r) v
    (zombie_cleanups r) (pressure_guard_fails r) (deferred_inserts_total r)
    (deferred_deletes_total r).
Definition set_zombie_cleanups (v : _) (r : ResizeMetrics) : ResizeMetrics :=
    MkMetrics (resize_count r) (copy_duration_ms r) (ack_wait_ms r) (drain_duration_ms r)
    (gc_delay_ms r) v (pressure_guard_fails r) (deferred_inserts_total r) (deferred_deletes_total
    r).
Definition set_pressure_guard_fails (v : _) (r : ResizeMetrics) : ResizeMetrics :=
    MkMetrics (resize_count r) (copy_duration_ms r) (ack_wait_ms r) (drain_duration_ms r)
    (gc_delay_ms r) (zombie_cleanups r) v (deferred_inserts_total r) (deferred_deletes_total r).
Definition set_deferred_inserts_total (v : _) (r : ResizeMetrics) : ResizeMetrics :=
    MkMetrics (resize_count r) (copy_duration_ms r) (ack_wait_ms r) (drain_duration_ms r)
    (gc_delay_ms r) (zombie_cleanups r) (pressure_guard_fails r) v (deferred_deletes_total r).
Definition set_deferred_deletes_total (v : _) (r : ResizeMetrics) : ResizeMetrics :=
    MkMetrics (resize_count r) (copy_duration_ms r) (ack_wait_ms r) (drain_duration_ms r)
    (gc_delay_ms r) (zombie_cleanups r) (pressure_guard_fails r) (deferred_inserts_total r) v.

Definition zero_metrics : ResizeMetrics := MkMetrics 0 0 0 0 0 0 0 0 0.

(** The fields of [ServerNumaState] that the resize changes; the base
    address, the typed pointers and the lock array are those of the region of
    version [srv_region]. *)
Record ServerNumaState := MkSrv {
  srv_region : Z;
  srv_fd : Z;
  srv_num_buckets : Z;
  srv_num_data_entries : Z;
}.

Record Orch := MkOrch {
  o_reg : SharedNumaRegistry;  (* *reg_ *)
  o_shm : regions;  (* the shared-memory objects *)
  o_blocked : bool;  (* g_structural_mutations_blocked *)
  o_hooks : bool;  (* the three interception pointers are set *)
  o_running : bool;  (* running_ *)
  o_srv : ServerNumaState;  (* *srv_state_ *)
  o_wrapper : option (Z * packed_data);  (* new_ludo_buckets_, new_packed_data_ *)
  deferred_inserts : list DeferredInsert;
  deferred_deletes : list DeferredDelete;
  pending_old_ver : Z;
  pending_old_base : option Z;  (* the version mapped there *)
  pending_old_fd : Z;
  pending_old_size : Z;
  ack_wait_start : Z;
  gc_start_time : Z;
  o_metrics : ResizeMetrics;  (* metrics_ *)
}.

Definition set_o_reg (v : _) (r : Orch) : Orch :=
    MkOrch v (o_shm r) (o_blocked r) (o_hooks r) (o_running r) (o_srv r) (o_wrapper r)
    (deferred_inserts r) (deferred_deletes r) (pending_old_ver r) (pending_old_base r)
    (pending_old_fd r) (pending_old_size r) (ack_wait_start r) (gc_start_time r) (o_metrics r).
Definition set_o_shm (v : _) (r : Orch) : Orch :=
    MkOrch (o_reg r) v (o_blocked r) (o_hooks r) (o_running r) (o_srv r) (o_wrapper r)
    (deferred_inserts r) (deferred_deletes r) (pending_old_ver r) (pending_old_base r)
    (pending_old_fd r) (pending_old_size r) (ack_wait_start r) (gc_start_time r) (o_metrics r).
Definition set_o_blocked (v : _) (r : Orch) : Orch :=
    MkOrch (o_reg r) (o_shm r) v (o_hooks r) (o_running r) (o_srv r) (o_wrapper r)
    (deferred_inserts r) (deferred_deletes r) (pending_old_ver r) (pending_old_base r)
    (pending_old_fd r) (pending_old_size r) (ack_wait_start r) (gc_start_time r) (o_metrics r).
Definition set_o_hooks (v : _) (r : Orch) : Orch :=
    MkOrch (o_reg r) (o_shm r) (o_blocked r) v (o_running r) (o_srv r) (o_wrapper r)
    (deferred_inserts r) (deferred_deletes r) (pending_old_ver r) (pending_old_base r)
    (pending_old_fd r) (pending_old_size r) (ack_wait_start r) (gc_start_time r) (o_metrics r).
Definition set_o_running (v : _) (r : Orch) : Orch :=
    MkOrch (o_reg r) (o_shm r) (o_blocked r) (o_hooks r) v (o_srv r) (o_wrapper r)
    (deferred_inserts r) (deferred_deletes r) (pending_old_ver r) (pending_old_base r)
    (pending_old_fd r) (pending_old_size r) (ack_wait_start r) (gc_start_time r) (o_metrics r).
Definition set_o_srv (v : _) (r : Orch) : Orch :=
    MkOrch (o_reg r) (o_shm r) (o_blocked r) (o_hooks r) (o_running r) v (o_wrapper r)
    (deferred_inserts r) (deferred_deletes r) (pending_old_ver r) (pending_old_base r)
    (pending_old_fd r) (pending_old_size r) (ack_wait_start r) (gc_start_time r) (o_metrics r).
Definition set_o_wrapper (v : _) (r : Orch) : Orch :=
    MkOrch (o_reg r) (o_shm r) (o_blocked r) (o_hooks r) (o_running r) (o_srv r) v
    (deferred_inserts r) (deferred_deletes r) (pending_old_ver r) (pending_old_base r)
    (pending_old_fd r) (pending_old_size r) (ack_wait_start r) (gc_start_time r) (o_metrics r).
Definition set_deferred_inserts (v : _) (r : Orch) : Orch :=
    MkOrch (o_reg r) (o_shm r) (o_blocked r) (o_hooks r) (o_running r) (o_srv r) (o_wrapper r) v
    (deferred_deletes r) (pending_old_ver r) (pending_old_base r) (pending_old_fd r)
    (pending_old_size r) (ack_wait_start r) (gc_start_time r) (o_metrics r).
Definition set_deferred_deletes (v : _) (r : Orch) : Orch :=
    MkOrch (o_reg r) (o_shm r) (o_blocked r) (o_hooks r) (o_running r) (o_srv r) (o_wrapper r)
    (deferred_inserts r) v (pending_old_ver r) (pending_old_base r) (pending_old_fd r)
    (pending_old_size r) (ack_wait_start r) (gc_start_time r) (o_metrics r).
Definition set_pending_old_ver (v : _) (r : Orch) : Orch :=
    MkOrch (o_reg r) (o_shm r) (o_blocked r) (o_hooks r) (o_running r) (o_srv r) (o_wrapper r)
    (deferred_inserts r) (deferred_deletes r) v (pending_old_base r) (pending_old_fd r)
    (pending_old_size r) (ack_wait_start r) (gc_start_time r) (o_metrics r).
Definition set_pending_old_base (v : _) (r : Orch) : Orch :=
    MkOrch (o_reg r) (o_shm r) (o_blocked r) (o_hooks r) (o_running r) (o_srv r) (o_wrapper r)
    (deferred_inserts r) (deferred_deletes r) (pending_old_ver r) v (pending_old_fd r)
    (pending_old_size r) (ack_wait_start r) (gc_start_time r) (o_metrics r).
Definition set_pending_old_fd (v : _) (r : Orch) : Orch :=
    MkOrch (o_reg r) (o_shm r) (o_blocked r) (o_hooks r) (o_running r) (o_srv r) (o_wrapper r)
    (deferred_inserts r) (deferred_deletes r) (pending_old_ver r) (pending_old_base r) v
    (pending_old_size r) (ack_wait_start r) (gc_start_time r) (o_metrics r).
Definition set_pending_old_size (v : _) (r : Orch) : Orch :=
    MkOrch (o_reg r) (o_shm r) (o_blocked r) (o_hooks r) (o_running r) (o_srv r) (o_wrapper r)
    (deferred_inserts r) (deferred_deletes r) (pending_old_ver r) (pending_old_base r)
    (pending_old_fd r) v (ack_wait_start r) (gc_start_time r) (o_metrics r).
Definition set_ack_wait_start (v : _) (r : Orch) : Orch :=
    MkOrch (o_reg r) (o_shm r) (o_blocked r) (o_hooks r) (o_running r) (o_srv r) (o_wrapper r)
    (deferred_inserts r) (deferred_deletes r) (pending_old_ver r) (pending_old_base r)
    (pending_old_fd r) (pending_old_size r) v (gc_start_time r) (o_metrics r).
Definition set_gc_start_time (v : _) (r : Orch) : Orch :=
    MkOrch (o_reg r) (o_shm r) (o_blocked r) (o_hooks r) (o_running r) (o_srv r) (o_wrapper r)
    (deferred_inserts r) (deferred_deletes r) (pending_old_ver r) (pending_old_base r)
    (pending_old_fd r) (pending_old_size r) (ack_wait_start r) v (o_metrics r).
Definition set_o_metrics (v : _) (r : Orch) : Orch :=
    MkOrch (o_reg r) (o_shm r) (o_blocked r) (o_hooks r) (o_running r) (o_srv r) (o_wrapper r)
    (deferred_inserts r) (deferred_deletes r) (pending_old_ver r) (pending_old_base r)
    (pending_old_fd r) (pending_old_size r) (ack_wait_start r) (gc_start_time r) v.


Definition now_ms (now_ns : Z) : Z := now_ns / 1000000.

(** ** Layout of a region *)

Record Layout := MkLayout {
  packed_off : Z;
  ludo_off : Z;
  lock_off : Z;
  total_size : Z;
}.

(** The arithmetic on [size_t] that lays the entry array, the buckets (of
    [each] bytes) and the lock bytes out. *)
Definition region_layout (entries buckets each : Z) : Layout :=
  let packed_size := u64 (entries * sizeof_packed_struct) in
  let ludo_size := u64 (buckets * each) in
  let lock_size := u64 (buckets * 1) in
  let packed := align_up 0 64 in
  let ludo := align_up (u64 (packed + packed_size)) 64 in
  let lock := align_up (u64 (ludo + ludo_size)) 64 in
  MkLayout packed ludo lock (align_up (u64 (lock + lock_size)) 4096).

Definition bucket_size_each (ep : ResizeEpoch) : Z :=
  if 0 <? num_buckets ep
  then u64 (lock_array_offset ep - ludo_buckets_offset ep) / num_buckets ep
  else sizeof_LudoBucket.

(** ** Copies between regions *)

(** [memcpy] of the first [n] elements of [src] over those of [dst]. *)
Definition copy_prefix {A} (n : Z) (src dst : list A) : res (list A) :=
  if (n <=? Z.of_nat (length src)) && (n <=? Z.of_nat (length dst))
  then Ok (take (Z.to_nat n) src ++ drop (Z.to_nat n) dst) else Err OutOfBounds.

(** [memset] of the [n] elements from [i] on. *)
Definition fill_range {A} (i n : Z) (x : A) (l : list A) : res (list A) :=
  if i + n <=? Z.of_nat (length l)
  then Ok (take (Z.to_nat i) l ++ replicate (Z.to_nat n) x ++ drop (Z.to_nat (i + n)) l)
  else Err OutOfBounds.

(** The payload of [do_copy].  With [each] above 32 the copy also takes
    padding, which is zero; below 32 it would split buckets, and the model
    stops. *)
Definition copy_region (ep : ResizeEpoch) (old_r new_r : shm_region) : res shm_region :=
  packed ← copy_prefix (num_data_entries ep) (r_packed old_r) (r_packed new_r);
  _ ← guard_ok (sizeof_LudoBucket <=? bucket_size_each ep) OutOfBounds;
  ludo ← copy_prefix (num_buckets ep) (r_ludo old_r) (r_ludo new_r);
  ludo' ← fill_range (num_buckets ep) (num_buckets ep) [0; 0; 0; 0] ludo;
  Ok (MkRegion (r_size new_r) packed ludo' (replicate (length (r_locks new_r)) 0)).

(** ** Lanes *)

(** [mem_threads ? mem_threads : 1] *)
Definition lanes_of (reg : SharedNumaRegistry) : nat :=
  if mem_threads reg =? 0 then 1%nat else Z.to_nat (mem_threads reg).

(** The loop for the highest [lane_next_free_index], from lane [i]. *)
Fixpoint highest_lane (fuel : nat) (i : Z) (lanes : list Z) (max_idx : Z) : res Z :=
  match fuel with
  | O => Ok max_idx
  | S fuel =>
      idx ← rd lanes i;
      highest_lane fuel (i + 1) lanes (if max_idx <? idx then idx else max_idx)
  end.

Definition current_fill (reg : SharedNumaRegistry) : res Z :=
  highest_lane (lanes_of reg) 0 (lane_next_free_index reg) 0.

(** [lane_next_free_index[i] = base + i] *)
Fixpoint reset_lanes (fuel : nat) (i base : Z) (lanes : list Z) : res (list Z) :=
  match fuel with
  | O => Ok lanes
  | S fuel => l ← wr lanes i (u64 (base + i)); reset_lanes fuel (i + 1) base l
  end.

(** [new_ver = old_ver + 1], once more when that is a multiple of 16 *)
Definition next_version (old_ver : Z) : Z :=
  let v := u64 (old_ver + 1) in
  if v mod kMaxEpochSlots =? 0 then u64 (v + 1) else v.

(** ** Handlers *)

Definition memory_pressure_ok (free_bytes : option Z) (current_region_size : Z) : bool :=
  match free_bytes with
  | None => true
  | Some free => u64 (current_region_size * 2) <=? free
  end.

(** The states in which [set_state] blocks structural mutations. *)
Definition blocks (s : ResizeState) : bool :=
  match s with COPYING | READY_TO_SWITCH | DRAIN_OLD => true | _ => false end.

Definition set_state (s : ResizeState) (o : Orch) : Orch :=
  set_o_reg (bump_generation (set_resize_state (ResizeState_code s) (o_reg o)))
    (set_o_blocked (blocks s) o).

Definition structural_mutations_allowed (o : Orch) : bool :=
  let s := resize_state (o_reg o) in
  (s =? ResizeState_code NORMAL) || (s =? ResizeState_code PRE_RESIZE).

Definition start (o : Orch) : Orch := set_o_hooks true (set_o_running true o).

Definition stop (o : Orch) : Orch :=
  set_o_hooks false (set_o_blocked false (set_o_running false o)).

Definition defer_insert (now : Z) (k v : Z) (o : Orch) : Orch * bool :=
  if kMaxDeferredDepth <=? Z.of_nat (length (deferred_inserts o)) then (o, false)
  else
    let reg := o_reg o in let m := o_metrics o in
    (set_o_metrics (set_deferred_inserts_total (u64 (deferred_inserts_total m + 1)) m)
      (set_o_reg (set_deferred_insert_count (u64 (deferred_insert_count reg + 1)) reg)
        (set_deferred_inserts (deferred_inserts o ++ [MkDefIns k v now]) o)), true).

Definition defer_delete (now : Z) (k : Z) (o : Orch) : Orch * bool :=
  if kMaxDeferredDepth <=? Z.of_nat (length (deferred_deletes o)) then (o, false)
  else
    let reg := o_reg o in let m := o_metrics o in
    (set_o_metrics (set_deferred_deletes_total (u64 (deferred_deletes_total m + 1)) m)
      (set_o_reg (set_deferred_delete_count (u64 (deferred_delete_count reg + 1)) reg)
        (set_deferred_deletes (deferred_deletes o ++ [MkDefDel k now]) o)), true).

(** *** Clients *)

(** The loop of [register_client] from slot [i]; -1: no slot is free. *)
Fixpoint claim_slot (fuel : nat) (i now : Z) (reg : SharedNumaRegistry)
    : res (SharedNumaRegistry * Z) :=
  match fuel with
  | O => Ok (reg, -1)
  | S fuel =>
      c ← rd (clients reg) i;
      if active c =? 0 then
        l ← wr (clients reg) i (MkClient now (generation reg) 1);
        Ok (set_registered_clients (u64 (registered_clients reg + 1)) (set_clients l reg), i)
      else claim_slot fuel (i + 1) now reg
  end.

Definition register_client (now : Z) (o : Orch) : res (Orch * Z) :=
  '(reg, i) ← claim_slot kMaxClients 0 now (o_reg o);
  Ok (set_o_reg reg o, i).

Definition valid_slot (i : Z) : bool := (0 <=? i) && (i <? Z.of_nat kMaxClients).

Definition update_heartbeat (now i : Z) (o : Orch) : res Orch :=
  if negb (valid_slot i) then Ok o
  else
    let reg := o_reg o in
    c ← rd (clients reg) i;
    l ← wr (clients reg) i (MkClient now (generation reg) (active c));
    Ok (set_o_reg (set_clients l reg) o).

Definition deregister_client (i : Z) (o : Orch) : res Orch :=
  if negb (valid_slot i) then Ok o
  else
    let reg := o_reg o in
    c ← rd (clients reg) i;
    if active c =? 1 then
      l ← wr (clients reg) i (set_active 0 c);
      Ok (set_o_reg (set_registered_clients (u64 (registered_clients reg - 1))
        (set_clients l reg)) o)
    else Ok o.

(** *** NORMAL and PRE_RESIZE *)

Definition maybe_trigger_pre_resize (o : Orch) : res Orch :=
  let reg := o_reg o in
  if s_slow reg =? 0 then Ok o
  else
    _ ← current_epoch reg;
    max_idx ← current_fill reg;
    Ok (if s_slow reg <=? max_idx then set_state PRE_RESIZE o else o).

Section handlers.
(** [server_name_] and [ludo_lookup_] *)
Context (server_name : string) (ludo_lookup : option DataPlaneLudo).

Definition region_at (v : Z) (shm : regions) : res shm_region :=
  match shm !! numa_region_name server_name v with Some r => Ok r | None => Err NullDeref end.

Definition put_region (v : Z) (r : shm_region) (shm : regions) : regions :=
  <[numa_region_name server_name v := r]> shm.

(** The epoch that [do_copy] publishes; [published] is still the slot's. *)
Definition next_epoch (old_ep : ResizeEpoch) (lay : Layout) (new_ver now pending old_published : Z)
    : ResizeEpoch :=
  MkEpoch new_ver now (total_size lay) (u64 (num_buckets old_ep * 2))
    (u64 (num_data_entries old_ep * 2)) (packed_off lay) (ludo_off lay) (lock_off lay)
    (u32 (epoch_global_depth old_ep + 1)) (u32 (directory_size old_ep * 2))
    (u32 (epoch_directory_version old_ep + 1)) pending 0 0 old_published 0.

(** The stores in the registry, up to the new version and generation. *)
Definition publish (old_ver new_ver now : Z) (old_ep : ResizeEpoch) (lay : Layout)
    (reg : SharedNumaRegistry) : res SharedNumaRegistry :=
  prev ← rd (epoch reg) (epoch_slot new_ver);
  let new_ep := next_epoch old_ep lay new_ver now (registered_clients reg) (published prev) in
  reg1 ← put_epoch new_ver new_ep reg;
  lanes ← reset_lanes (lanes_of reg1) 0 (num_data_entries old_ep) (lane_next_free_index reg1);
  reg2 ← put_epoch new_ver (set_published 1 new_ep) (set_lane_next_free_index lanes reg1);
  Ok (bump_generation (set_current_version new_ver (set_previous_version old_ver reg2))).

(** [do_copy] after its first statement: the state is COPYING and the
    background thread is inside the handler.  [new_fd] is the descriptor the
    region is mapped with, [junk] the indeterminate struct of the constructor
    [packed_data_t(char*, size_t)]. *)
Definition copy_and_publish (clk : nat -> Z) (os : os_env) (new_fd : Z) (junk : packed_struct)
    (old_ver : Z) (o : Orch) : res Orch :=
  let t0 := now_ms (clk 0%nat) in
  let new_ver := next_version old_ver in
  old_ep ← rd (epoch (o_reg o)) (epoch_slot old_ver);
  let new_data_entries := u64 (num_data_entries old_ep * 2) in
  let new_num_buckets := u64 (num_buckets old_ep * 2) in
  let lay := region_layout new_data_entries new_num_buckets (bucket_size_each old_ep) in
  match create_shared_numa_region os server_name (total_size lay) new_ver
    (Z.to_nat new_data_entries) (Z.to_nat new_num_buckets) (Z.to_nat new_num_buckets) (o_shm o) with
  | None => Ok (set_state NORMAL o)
  | Some (shm, new_r0) =>
      old_r ← region_at (srv_region (o_srv o)) shm;
      new_r ← copy_region old_ep old_r new_r0;
      reg ← publish old_ver new_ver (clk 1%nat) old_ep lay (o_reg o);
      let o1 := set_state READY_TO_SWITCH (set_o_reg reg o) in
      let m := o_metrics o1 in
      let m' := set_resize_count (u64 (resize_count m + 1))
        (set_copy_duration_ms (u64 (copy_duration_ms m + (now_ms (clk 2%nat) - t0))) m) in
      '(packed, w) ← attach_packed_data junk (r_packed new_r) (Z.to_nat new_data_entries);
      let r := MkRegion (r_size new_r) packed (r_ludo new_r) (r_locks new_r) in
      Ok (set_o_shm (put_region new_ver r shm)
        (set_o_wrapper (Some (new_ver, w))
        (set_gc_start_time 0
        (set_o_srv (MkSrv new_ver new_fd new_num_buckets new_data_entries)
        (set_pending_old_size (region_size old_ep)
        (set_pending_old_fd (srv_fd (o_srv o))
        (set_pending_old_base (Some (srv_region (o_srv o)))
        (set_pending_old_ver old_ver
        (set_o_metrics m' o1)))))))))
  end.

Definition do_copy (clk : nat -> Z) (os : os_env) (new_fd : Z) (junk : packed_struct)
    (old_ver : Z) (o : Orch) : res Orch :=
  copy_and_publish clk os new_fd junk old_ver (set_state COPYING o).

(** [maybe_start_copying] up to its call of [do_copy], and whether it calls it. *)
Definition copy_due (free_bytes : option Z) (o : Orch) : res (Orch * bool) :=
  let reg := o_reg o in
  if s_slow reg =? 0 then Ok (o, false)
  else
    ep ← current_epoch reg;
    max_idx ← current_fill reg;
    if max_idx <? s_stop reg then Ok (o, false)
    else if negb (memory_pressure_ok free_bytes (region_size ep)) then
      let m := o_metrics o in
      Ok (set_o_metrics (set_pressure_guard_fails (u64 (pressure_guard_fails m + 1)) m) o, false)
    else Ok (o, true).

Definition maybe_start_copying (clk : nat -> Z) (os : os_env) (new_fd : Z) (junk : packed_struct)
    (free_bytes : option Z) (o : Orch) : res Orch :=
  '(o', due) ← copy_due free_bytes o;
  if due : bool then do_copy clk os new_fd junk (current_version (o_reg o)) o' else Ok o'.

(** *** READY_TO_SWITCH *)

Definition zombie (now : Z) (c : ClientLiveness) : bool :=
  negb (active c =? 0) && (kZombieThresholdNs <? u64 (now - last_heartbeat_ns c)).

Definition store_pending (v : Z) (ep : ResizeEpoch) (ver : Z) (o : Orch) : res Orch :=
  reg ← put_epoch ver (set_clients_pending_ack v ep) (o_reg o);
  Ok (set_o_reg reg o).

Definition wait_for_acks_or_timeout (clk : nat -> Z) (o : Orch) : res Orch :=
  let reg := o_reg o in
  let cur_ver := current_version reg in
  ep ← rd (epoch reg) (epoch_slot cur_ver);
  let pending := clients_pending_ack ep in
  if pending =? 0 then Ok (set_state DRAIN_OLD o)
  else
    let zombies := Z.of_nat (length (filter (zombie (clk 0%nat)) (clients reg))) in
    let m := o_metrics o in
    let o1 := set_o_metrics (set_zombie_cleanups (u64 (zombie_cleanups m + zombies)) m) o in
    if pending <=? zombies then
      o2 ← store_pending 0 ep cur_ver o1; Ok (set_state DRAIN_OLD o2)
    else
      let start := if ack_wait_start o1 =? 0 then now_ms (clk 1%nat) else ack_wait_start o1 in
      let elapsed := u64 (now_ms (clk 2%nat) - start) in
      if kAckGraceMs <? elapsed then
        let m1 := o_metrics o1 in
        o2 ← store_pending 0 ep cur_ver
          (set_o_metrics (set_ack_wait_ms (u64 (ack_wait_ms m1 + elapsed)) m1) o1);
        Ok (set_ack_wait_start 0 (set_state DRAIN_OLD o2))
      else Ok (set_ack_wait_start start o1).

(** *** DRAIN_OLD *)

(** The replay of both queues in the new region; the helpers do nothing when
    there is no lookup structure or no wrapper. *)
Definition replay_queues (o : Orch) : res Orch :=
  match ludo_lookup, o_wrapper o with
  | Some d, Some (v, w) =>
      r ← region_at v (o_shm o);
      t ← replay_all d (deferred_inserts o) (deferred_deletes o)
            (MkTable (r_ludo r) (r_packed r) w);
      Ok (set_o_wrapper (Some (v, t_pd t))
        (set_o_shm (put_region v (MkRegion (r_size r) (t_mem t) (t_bks t) (r_locks r)) (o_shm o)) o))
  | _, _ => Ok o
  end.

(** The queues are emptied and every element is subtracted from its counter. *)
Definition pop_all (o : Orch) : Orch :=
  let reg := o_reg o in
  set_deferred_inserts [] (set_deferred_deletes []
    (set_o_reg (set_deferred_delete_count
        (u64 (deferred_delete_count reg - Z.of_nat (length (deferred_deletes o))))
      (set_deferred_insert_count
        (u64 (deferred_insert_count reg - Z.of_nat (length (deferred_inserts o)))) reg)) o)).

(** The state of the old epoch, when there is one. *)
Definition old_epoch (o : Orch) : res (option ResizeEpoch) :=
  if 0 <? pending_old_ver o then
    ep ← rd (epoch (o_reg o)) (epoch_slot (pending_old_ver o)); Ok (Some ep)
  else Ok None.

Definition allow_cleanup (o : Orch) : res Orch :=
  old ← old_epoch o;
  match old with
  | Some ep =>
      reg ← put_epoch (pending_old_ver o) (set_cleanup_allowed 1 ep) (o_reg o);
      Ok (set_o_reg reg o)
  | None => Ok o
  end.

Definition drain_old (clk : nat -> Z) (o : Orch) : res Orch :=
  let t0 := now_ms (clk 0%nat) in
  old ← old_epoch o;
  if match old with Some ep => 0 <? active_writers ep | None => false end then Ok o
  else
    o1 ← replay_queues o;
    o2 ← allow_cleanup (pop_all o1);
    let m := o_metrics o2 in
    Ok (set_state GC_PENDING (set_gc_start_time (now_ms (clk 2%nat))
      (set_o_metrics (set_drain_duration_ms
        (u64 (drain_duration_ms m + (now_ms (clk 1%nat) - t0))) m) o2))).

(** *** GC_PENDING *)

(** [munmap], [close] and [unlink_numa_region] of the old region. *)
Definition reclaim (o : Orch) : Orch :=
  let base := if 0 <? pending_old_size o then None else pending_old_base o in
  let fd := if 0 <=? pending_old_fd o then -1 else pending_old_fd o in
  let shm := if 0 <? pending_old_ver o
             then unlink_numa_region server_name (pending_old_ver o) (o_shm o) else o_shm o in
  set_pending_old_ver 0 (set_pending_old_size 0
    (set_o_shm shm (set_pending_old_fd fd (set_pending_old_base base o)))).

Definition maybe_gc (clk : nat -> Z) (o : Orch) : res Orch :=
  let start := if gc_start_time o =? 0 then now_ms (clk 0%nat) else gc_start_time o in
  let o1 := set_gc_start_time start o in
  let elapsed := u64 (now_ms (clk 1%nat) - start) in
  if elapsed <? kGcGraceMs then Ok o1
  else
    old ← old_epoch o1;
    if match old with Some ep => 0 <? active_readers ep | None => false end then Ok o1
    else
      let o2 := reclaim o1 in
      let o3 := set_o_reg (bump_generation (set_previous_version 0 (o_reg o2))) o2 in
      let m := o_metrics o3 in
      let m' := set_gc_delay_ms (u64 (gc_delay_ms m + (now_ms (clk 2%nat) - start))) m in
      Ok (set_state NORMAL (set_gc_start_time 0 (set_o_metrics m' o3))).

(** *** The monitor *)

(** What the outside answers in one call of [check_state]. *)
Record tick_env := MkTick {
  tk_clk : nat -> Z;
  tk_os : os_env;
  tk_fd : Z;
  tk_junk : packed_struct;
  tk_free : option Z;
}.

Definition check_state (env : tick_env) (o : Orch) : res Orch :=
  match ResizeState_of (resize_state (o_reg o)) with
  | Some NORMAL => maybe_trigger_pre_resize o
  | Some PRE_RESIZE =>
      maybe_start_copying (tk_clk env) (tk_os env) (tk_fd env) (tk_junk env) (tk_free env) o
  | Some COPYING => Ok o
  | Some READY_TO_SWITCH => wait_for_acks_or_timeout (tk_clk env) o
  | Some DRAIN_OLD => drain_old (tk_clk env) o
  | Some GC_PENDING => maybe_gc (tk_clk env) o
  | None => Ok o
  end.
End handlers.

(** ** The interface of the server's operations *)

Definition orch_intercept (now : Z) : Intercept Orch := {|
  mutations_blocked := o_blocked;
  hooks_installed := o_hooks;
  call_defer_insert := fun o k v => defer_insert now k v o;
  call_defer_delete := fun o k => defer_delete now k o;
|}.
