(* ===== verification/ResizeInv.v ===== *)
(** * The invariant of a resize

    The steps of the system around the registry: the calls of [check_state] of
    the background thread, the deferrals of the server's operations, the
    client table's operations and what clients of other processes do to the
    registry.  [orch_inv] holds between steps. *)

From Stdlib Require Import ZArith Lia.
From stdpp Require Import base numbers strings gmap list.
From S2P Require Import Prelude Words PackedData LudoSlot LudoDP.
From S2P Require Import NumaTransport ServerNuma Replay Resize.

#[local] Open Scope Z_scope.

(** ** The registry *)

(** No code registers readers or writers in an epoch. *)
Definition quiet_epoch (ep : ResizeEpoch) : Prop := active_readers ep = 0 /\ active_writers ep = 0.

Definition is_active (c : ClientLiveness) : Prop := active c = 1.
#[export] Instance is_active_dec c : Decision (is_active c) := decide (active c = 1).

Record reg_inv (reg : SharedNumaRegistry) : Prop := {
  ri_epochs_len : length (epoch reg) = 16%nat;
  ri_epochs : Forall quiet_epoch (epoch reg);
  ri_clients_len : length (clients reg) = kMaxClients;
  ri_clients : Forall (fun c => active c = 0 \/ active c = 1) (clients reg);
  ri_lanes_len : length (lane_next_free_index reg) = kMaxNumaLanes;
  ri_mem : 0 <= mem_threads reg <= 64;
  ri_cur : 0 <= current_version reg /\ current_version reg mod kMaxEpochSlots <> 0;
  ri_registered : registered_clients reg = Z.of_nat (length (filter is_active (clients reg)));
  ri_gen : is_word 64 (generation reg);
}.

(** What a client of another process does to the registry in one access:
    acknowledge a version, take an index of a lane, store its heartbeat, take a
    free slot of the client table. *)
Inductive client_step : SharedNumaRegistry -> SharedNumaRegistry -> Prop :=
  | ClAck reg reg' ver ep : rd (epoch reg) (epoch_slot ver) = Ok ep ->
      put_epoch ver (set_clients_pending_ack (u64 (clients_pending_ack ep - 1)) ep) reg = Ok reg' ->
      client_step reg reg'
  | ClLane reg i x l : wr (lane_next_free_index reg) i x = Ok l ->
      client_step reg (set_lane_next_free_index l reg)
  | ClHeartbeat reg i c now l : rd (clients reg) i = Ok c ->
      wr (clients reg) i (MkClient now (generation reg) (active c)) = Ok l ->
      client_step reg (set_clients l reg)
  | ClConnect reg i c l : rd (clients reg) i = Ok c -> active c = 0 ->
      wr (clients reg) i (set_active 1 c) = Ok l ->
      client_step reg (set_registered_clients (u64 (registered_clients reg + 1)) (set_clients l reg)).

(** ** The orchestrator *)

(** What each state means: until the copy is published nothing is pending; from
    READY_TO_SWITCH on the old version is, and the wrapper of the current
    region exists. *)
Definition phase_ok (s : ResizeState) (o : Orch) : Prop :=
  srv_region (o_srv o) = current_version (o_reg o) /\
  match s with
  | NORMAL | PRE_RESIZE | COPYING => pending_old_ver o = 0 /\ previous_version (o_reg o) = 0
  | _ => pending_old_ver o = previous_version (o_reg o) /\ 0 < pending_old_ver o /\
         exists w, o_wrapper o = Some (current_version (o_reg o), w)
  end.

Record orch_core (o : Orch) : Prop := {
  oc_reg : reg_inv (o_reg o);
  oc_ins : deferred_insert_count (o_reg o) = Z.of_nat (length (deferred_inserts o));
  oc_dels : deferred_delete_count (o_reg o) = Z.of_nat (length (deferred_deletes o));
  oc_depth : Z.of_nat (length (deferred_inserts o)) <= kMaxDeferredDepth /\
    Z.of_nat (length (deferred_deletes o)) <= kMaxDeferredDepth;
}.

(** [in_state s o]: the state is [s], mutations are blocked when [s] asks for
    it, and the rest of the state fits. *)
Definition in_state (s : ResizeState) (o : Orch) : Prop :=
  resize_state (o_reg o) = ResizeState_code s /\ o_blocked o = blocks s /\ phase_ok s o.

Definition orch_inv (o : Orch) : Prop := orch_core o /\ exists s, in_state s o.

(** The documented transitions. *)
Inductive edge : ResizeState -> ResizeState -> Prop :=
  | Stay s : edge s s
  | Trigger : edge NORMAL PRE_RESIZE
  | CopyBegun : edge PRE_RESIZE COPYING
  | CopyFailed : edge COPYING NORMAL
  | Copied : edge COPYING READY_TO_SWITCH
  | Acked : edge READY_TO_SWITCH DRAIN_OLD
  | Drained : edge DRAIN_OLD GC_PENDING
  | Collected : edge GC_PENDING NORMAL.

(** How a step moves the machine: along an edge, with [n] increments of the
    generation; none if the state stays, and then the version does too. *)
Definition advance (o o' : Orch) : Prop := exists s s' n,
  in_state s o /\ in_state s' o' /\ edge s s' /\ 0 <= n <= 3 /\
  generation (o_reg o') = u64 (generation (o_reg o) + n) /\
  (n = 0 <-> s' = s) /\ (n = 0 -> current_version (o_reg o') = current_version (o_reg o)).

Section steps.
Context (server_name : string) (ludo_lookup : option DataPlaneLudo).

(** The background thread: a call of [check_state] is one step, except that
    one which starts a copy is two, the first of which ends with the state
    COPYING.  The other steps may come between them; until the second one the
    thread is inside [do_copy] and makes no call.  [do_copy]'s argument, the version read before the first, is
    still the current one, which nobody else stores ([copying_keeps_version]). *)
Inductive orch_step : Orch -> Orch -> Prop :=
  | StTick o o' env : resize_state (o_reg o) <> ResizeState_code PRE_RESIZE ->
      resize_state (o_reg o) <> ResizeState_code COPYING ->
      check_state server_name ludo_lookup env o = Ok o' -> orch_step o o'
  | StNoCopy o o' free : resize_state (o_reg o) = ResizeState_code PRE_RESIZE ->
      copy_due free o = Ok (o', false) -> orch_step o o'
  | StCopyBegin o o' free : resize_state (o_reg o) = ResizeState_code PRE_RESIZE ->
      copy_due free o = Ok (o', true) -> orch_step o (set_state COPYING o')
  | StCopyEnd o o' clk os fd junk : resize_state (o_reg o) = ResizeState_code COPYING ->
      copy_and_publish server_name clk os fd junk (current_version (o_reg o)) o = Ok o' ->
      orch_step o o'
  | StDeferInsert o now k v : orch_step o (fst (defer_insert now k v o))
  | StDeferDelete o now k : orch_step o (fst (defer_delete now k o))
  | StRegister o o' now i : register_client now o = Ok (o', i) -> orch_step o o'
  | StHeartbeat o o' now i : update_heartbeat now i o = Ok o' -> orch_step o o'
  | StDeregister o o' i : deregister_client i o = Ok o' -> orch_step o o'
  | StClient o reg : client_step (o_reg o) reg -> orch_step o (set_o_reg reg o).
End steps.

(** ** Laws *)

(** *** Counting *)

Lemma filter_insert_length {A} (P : A -> Prop) `{!forall x, Decision (P x)} (l : list A) i c x :
  l !! i = Some c ->
  length (filter P (<[i := x]> l)) =
    (length (filter P l) + (if decide (P x) then 1 else 0) - (if decide (P c) then 1 else 0))%nat.
Proof.
  intros Hc. pose proof (take_drop_middle l i c Hc) as E.
  pose proof (lookup_lt_Some _ _ _ Hc) as Hi.
  rewrite <-E at 2. rewrite insert_take_drop by done.
  rewrite !filter_app, !filter_cons, !length_app.
  destruct (decide (P x)), (decide (P c)); cbn [length]; lia.
Qed.

Lemma client_update_inv reg i c c' l n : reg_inv reg -> rd (clients reg) i = Ok c ->
  wr (clients reg) i c' = Ok l -> (active c' = 0 \/ active c' = 1) ->
  n = registered_clients reg + active c' - active c ->
  reg_inv (set_registered_clients n (set_clients l reg)).
Proof.
  intros [] Hc Hl Hc' ->. apply rd_Ok in Hc as [Hi Hc]. apply wr_Ok in Hl as [Hr ->].
  assert (Hac : active c = 0 \/ active c = 1)
    by (apply (Forall_lookup_1 _ _ _ _ ri_clients0 Hc)).
  constructor; cbn [set_registered_clients set_clients epoch clients lane_next_free_index
    mem_threads current_version registered_clients generation]; try done.
  - by rewrite length_insert.
  - by apply Forall_insert.
  - rewrite (filter_insert_length is_active _ _ c c' Hc), ri_registered0.
    assert (1 <= Z.of_nat (length (filter is_active (clients reg))) \/ active c = 0).
    { destruct Hac as [?|Ha]; [by right|left].
      assert (c ∈ filter is_active (clients reg)) as Hin.
      { apply list_elem_of_filter. split; [exact Ha|]. by apply list_elem_of_lookup_2 in Hc. }
      destruct (filter is_active (clients reg)); [by apply not_elem_of_nil in Hin|]. cbn [length]. lia. }
    unfold is_active in *. destruct (decide (active c' = 1)), (decide (active c = 1)); lia.
Qed.

Lemma registered_bound reg : reg_inv reg -> 0 <= registered_clients reg <= 256.
Proof.
  intros []. rewrite ri_registered0. pose proof (length_filter is_active (clients reg)) as H.
  rewrite ri_clients_len0 in H. unfold kMaxClients in H. lia.
Qed.

(** *** Changes of the registry *)

(** Nothing of the machine's own part of the registry changed. *)
Definition reg_frame (reg reg' : SharedNumaRegistry) : Prop :=
  resize_state reg' = resize_state reg /\ current_version reg' = current_version reg /\
  previous_version reg' = previous_version reg /\ generation reg' = generation reg /\
  deferred_insert_count reg' = deferred_insert_count reg /\
  deferred_delete_count reg' = deferred_delete_count reg.

Lemma put_epoch_inv reg reg' v ep : reg_inv reg -> quiet_epoch ep ->
  put_epoch v ep reg = Ok reg' -> reg_inv reg' /\ reg_frame reg reg' /\
  epoch reg' = <[Z.to_nat (epoch_slot v) := ep]> (epoch reg) /\
  clients reg' = clients reg /\ mem_threads reg' = mem_threads reg /\
  lane_next_free_index reg' = lane_next_free_index reg /\
  registered_clients reg' = registered_clients reg.
Proof.
  intros [] Hq H. unfold put_epoch in H. apply bind_Ok in H as (l & Hl & H).
  apply Ok_inj in H as <-. apply wr_Ok in Hl as [Hr ->]. split; [|by repeat split].
  constructor; cbn; try done; [by rewrite length_insert|by apply Forall_insert].
Qed.

Lemma epoch_quiet reg v ep : reg_inv reg -> rd (epoch reg) (epoch_slot v) = Ok ep -> quiet_epoch ep.
Proof. intros [] [_ H]%rd_Ok. by apply (Forall_lookup_1 _ _ _ _ ri_epochs0 H). Qed.

Lemma epoch_at reg v : reg_inv reg -> exists ep, rd (epoch reg) (epoch_slot v) = Ok ep.
Proof.
  intros H. apply rd_in_range. rewrite (ri_epochs_len reg H). unfold epoch_slot, kMaxEpochSlots.
  pose proof (Z.mod_pos_bound v 16). lia.
Qed.

Lemma put_epoch_at reg v ep : reg_inv reg -> exists reg', put_epoch v ep reg = Ok reg'.
Proof.
  intros H. unfold put_epoch. destruct (epoch_at reg v H) as [ep0 H0].
  rewrite wr_in_range by (by eapply rd_range). by eexists.
Qed.

Lemma lanes_inv reg l : reg_inv reg -> length l = kMaxNumaLanes ->
  reg_inv (set_lane_next_free_index l reg).
Proof. intros [] Hl. by constructor. Qed.

Lemma client_step_inv reg reg' : reg_inv reg -> client_step reg reg' ->
  reg_inv reg' /\ reg_frame reg reg'.
Proof.
  intros Hreg H. revert Hreg.
  destruct H as [reg1 reg1' ver ep He Hp|reg1 i x l Hl|reg1 i c now l Hc Hl|reg1 i c l Hc Ha Hl];
    intros Hreg.
  - pose proof (epoch_quiet reg1 ver ep Hreg He) as Hq.
    destruct (put_epoch_inv reg1 reg1' ver
      (set_clients_pending_ack (u64 (clients_pending_ack ep - 1)) ep) Hreg Hq Hp) as (? & ? & _).
    done.
  - split; [|done]. apply lanes_inv; [done|]. by rewrite (wr_length _ _ _ _ Hl), (ri_lanes_len _ Hreg).
  - split; [|done].
    assert (Hac : active c = 0 \/ active c = 1).
    { apply rd_Ok in Hc as [_ Hc]. apply (Forall_lookup_1 _ _ _ _ (ri_clients _ Hreg) Hc). }
    pose proof (client_update_inv reg1 i c _ l (registered_clients reg1) Hreg Hc Hl Hac) as H.
    cbn [active] in H. specialize (H ltac:(lia)). by destruct H; constructor.
  - split; [|done]. pose proof (registered_bound reg1 Hreg).
    rewrite wrap_id by (unfold is_word; lia).
    apply (client_update_inv reg1 i c (set_active 1 c) l); [done|done|done|by right|].
    cbn [active set_active]. lia.
Qed.

Lemma claim_slot_inv fuel i now reg reg' j : reg_inv reg ->
  claim_slot fuel i now reg = Ok (reg', j) -> reg_inv reg' /\ reg_frame reg reg'.
Proof.
  revert i. induction fuel as [|fuel IH]; intros i Hreg H; cbn [claim_slot] in H.
  { apply Ok_inj, pair_equal_spec in H as [<- _]. done. }
  apply bind_Ok in H as (c & Hc & H). destruct (Z.eqb_spec (active c) 0) as [Ha|Ha].
  - apply bind_Ok in H as (l & Hl & H). apply Ok_inj, pair_equal_spec in H as [<- _].
    split; [|done]. pose proof (registered_bound reg Hreg). apply (client_update_inv reg i c
      (MkClient now (generation reg) 1) l); [done|done|done|by right|].
    cbn [active]. rewrite wrap_id by (unfold is_word; lia). lia.
  - by apply (IH (i + 1)).
Qed.

Lemma deregister_inv i o o' : reg_inv (o_reg o) -> deregister_client i o = Ok o' ->
  exists reg, o' = set_o_reg reg o /\ reg_inv reg /\ reg_frame (o_reg o) reg.
Proof.
  intros Hreg H. assert (Hsame : exists reg, o = set_o_reg reg o /\ reg_inv reg /\ reg_frame (o_reg o) reg)
    by (exists (o_reg o); by destruct o).
  unfold deregister_client in H. destruct (negb (valid_slot i)).
  { by apply Ok_inj in H as <-. }
  apply bind_Ok in H as (c & Hc & H). destruct (Z.eqb_spec (active c) 1) as [Ha|Ha].
  2:{ by apply Ok_inj in H as <-. }
  apply bind_Ok in H as (l & Hl & H). apply Ok_inj in H as <-.
  eexists. split; [reflexivity|]. split; [|done].
  pose proof (registered_bound _ Hreg).
  assert (1 <= registered_clients (o_reg o)).
  { rewrite (ri_registered _ Hreg). apply rd_Ok in Hc as [_ Hc].
    assert (c ∈ filter is_active (clients (o_reg o))) as Hin.
    { apply list_elem_of_filter. split; [exact Ha|]. by apply list_elem_of_lookup_2 in Hc. }
    destruct (filter is_active _); [by apply not_elem_of_nil in Hin|]. cbn [length]. lia. }
  apply (client_update_inv _ i c (set_active 0 c) l); [done|done|done|by left|].
  cbn [active set_active]. rewrite wrap_id by (unfold is_word; lia). lia.
Qed.

Lemma heartbeat_inv now i o o' : reg_inv (o_reg o) -> update_heartbeat now i o = Ok o' ->
  exists reg, o' = set_o_reg reg o /\ reg_inv reg /\ reg_frame (o_reg o) reg.
Proof.
  intros Hreg H. unfold update_heartbeat in H. destruct (negb (valid_slot i)).
  { apply Ok_inj in H as <-. exists (o_reg o). by destruct o. }
  apply bind_Ok in H as (c & Hc & H). apply bind_Ok in H as (l & Hl & H). apply Ok_inj in H as <-.
  eexists. split; [reflexivity|]. apply client_step_inv; [done|]. by eapply ClHeartbeat.
Qed.

(** *** Building blocks of the handlers *)

Lemma core_frame o reg : orch_core o -> reg_inv reg -> reg_frame (o_reg o) reg ->
  orch_core (set_o_reg reg o).
Proof.
  intros [] Hreg (_ & _ & _ & _ & Hi & Hd). constructor; cbn; [done|congruence..|done].
Qed.

Lemma core_set_state s o : orch_core o -> orch_core (set_state s o).
Proof.
  intros [[] Hi Hd Hdep]. constructor; cbn; [constructor; cbn; try done|done..].
  by apply wrap_is_word.
Qed.

(** The fields outside the core may change freely. *)
Lemma core_ext o o' : orch_core o -> o_reg o' = o_reg o ->
  deferred_inserts o' = deferred_inserts o -> deferred_deletes o' = deferred_deletes o ->
  orch_core o'.
Proof. intros [] E1 E2 E3. constructor; by rewrite ?E1, ?E2, ?E3. Qed.

Lemma in_state_set s o : phase_ok s o -> in_state s (set_state s o).
Proof. intros Hp. by repeat split; try apply Hp. Qed.

Lemma in_state_frame s o reg : in_state s o -> reg_frame (o_reg o) reg -> in_state s (set_o_reg reg o).
Proof.
  intros (Hs & Hb & Hsrv & Hp) (E1 & E2 & E3 & _). split; [cbn; congruence|].
  split; [done|]. split; [cbn; congruence|]. destruct s; cbn; rewrite ?E2, ?E3; done.
Qed.

Lemma advance_stay s o o' : orch_core o -> in_state s o -> in_state s o' ->
  generation (o_reg o') = generation (o_reg o) ->
  current_version (o_reg o') = current_version (o_reg o) -> advance o o'.
Proof.
  intros Hc Hs Hs' Hg Hv. exists s, s, 0. do 2 (split; [done|]). split; [constructor|].
  split; [lia|]. split; [|done]. rewrite Z.add_0_r, Hg. symmetry. apply wrap_id.
  apply (ri_gen _ (oc_reg _ Hc)).
Qed.

Lemma advance_move s s' n o o' : in_state s o -> in_state s' o' -> edge s s' -> s' <> s -> 1 <= n <= 3 ->
  generation (o_reg o') = u64 (generation (o_reg o) + n) -> advance o o'.
Proof.
  intros Hs Hs' He Hne Hn Hg. exists s, s', n. do 3 (split; [done|]). split; [lia|]. split; [done|].
  split; [split; [lia|done]|lia].
Qed.

Lemma frame_step s o reg : orch_core o -> in_state s o -> reg_inv reg -> reg_frame (o_reg o) reg ->
  orch_core (set_o_reg reg o) /\ advance o (set_o_reg reg o).
Proof.
  intros Hc Hs Hreg Hf. split; [by apply core_frame|].
  apply (advance_stay s); [done|done|by apply in_state_frame|apply Hf|apply Hf].
Qed.

(** *** The handlers *)

Lemma trigger_ok o o' : orch_core o -> in_state NORMAL o -> maybe_trigger_pre_resize o = Ok o' ->
  orch_core o' /\ advance o o'.
Proof.
  intros Hc Hs H. assert (Hstay : orch_core o /\ advance o o)
    by (split; [done|by apply (advance_stay NORMAL)]).
  unfold maybe_trigger_pre_resize in H. destruct (s_slow (o_reg o) =? 0); [by apply Ok_inj in H as <-|].
  apply bind_Ok in H as (ep & _ & H). apply bind_Ok in H as (mx & _ & H). apply Ok_inj in H as <-.
  destruct (s_slow (o_reg o) <=? mx); [|done]. split; [by apply core_set_state|].
  apply (advance_move NORMAL PRE_RESIZE 1); [done| |constructor|done|lia|done].
  apply in_state_set. apply Hs.
Qed.

Lemma next_version_slot v : 0 <= next_version v /\ next_version v mod kMaxEpochSlots <> 0.
Proof.
  split; [unfold next_version; destruct (_ =? 0); apply wrap_is_word; lia|].
  unfold next_version. destruct (Z.eqb_spec (u64 (v + 1) mod kMaxEpochSlots) 0) as [E|E]; [|done].
  unfold kMaxEpochSlots in *. pose proof (wrap_is_word 64 (v + 1) ltac:(lia)) as Hw.
  unfold is_word in Hw. revert E Hw. generalize (u64 (v + 1)). intros x E Hw.
  assert (x + 1 < 2 ^ 64) by (change (2 ^ 64) with (16 * 2 ^ 60) in *;
    Z.to_euclidean_division_equations; lia).
  unfold wrap. rewrite (Z.mod_small (x + 1)) by lia. Z.to_euclidean_division_equations; lia.
Qed.

Lemma reset_lanes_length fuel i base l l' : reset_lanes fuel i base l = Ok l' -> length l' = length l.
Proof.
  revert i l. induction fuel as [|fuel IH]; intros i l H; cbn [reset_lanes] in H.
  { by apply Ok_inj in H as <-. }
  apply bind_Ok in H as (l1 & Hl & H). apply IH in H. by rewrite H, (wr_length _ _ _ _ Hl).
Qed.

(** The registry that [do_copy] publishes. *)
Lemma publish_inv old_ver new_ver now old_ep lay reg reg' : reg_inv reg ->
  0 <= new_ver /\ new_ver mod kMaxEpochSlots <> 0 ->
  publish old_ver new_ver now old_ep lay reg = Ok reg' ->
  reg_inv reg' /\ resize_state reg' = resize_state reg /\ current_version reg' = new_ver /\
  previous_version reg' = old_ver /\ generation reg' = u64 (generation reg + 1) /\
  deferred_insert_count reg' = deferred_insert_count reg /\
  deferred_delete_count reg' = deferred_delete_count reg.
Proof.
  intros Hreg Hv H. unfold publish in H. apply bind_Ok in H as (prev & _ & H). cbv zeta in H.
  apply bind_Ok in H as (reg1 & H1 & H). apply bind_Ok in H as (lanes & Hl & H).
  apply bind_Ok in H as (reg2 & H2 & H). apply Ok_inj in H as <-.
  apply put_epoch_inv in H1 as (Hr1 & F1 & _); [|done|done].
  apply put_epoch_inv in H2 as (Hr2 & F2 & _); [| |done].
  2:{ apply lanes_inv; [done|]. by rewrite (reset_lanes_length _ _ _ _ _ Hl), (ri_lanes_len _ Hr1). }
  destruct F1 as (A1 & _ & _ & A4 & A5 & A6), F2 as (B1 & _ & _ & B4 & B5 & B6). cbn in *.
  split.
  - destruct Hr2. constructor; cbn; try done. by apply wrap_is_word.
  - split; [congruence|]. do 2 (split; [done|]). split; [congruence|]. split; congruence.
Qed.

Lemma state_in s o : orch_inv o -> resize_state (o_reg o) = ResizeState_code s -> in_state s o.
Proof. intros [_ [s' Hs]] E. pose proof Hs as [E' _]. rewrite E in E'. by destruct s, s'. Qed.

Section handlers.
Context (server_name : string) (ludo_lookup : option DataPlaneLudo).

Lemma copy_due_spec free o o' due : copy_due free o = Ok (o', due) ->
  if due then o' = o else exists m, o' = set_o_metrics m o.
Proof.
  assert (Hsame : exists m, o = set_o_metrics m o) by (exists (o_metrics o); by destruct o).
  unfold copy_due. intros H. destruct (s_slow (o_reg o) =? 0).
  { by apply Ok_inj, pair_equal_spec in H as [<- <-]. }
  apply bind_Ok in H as (ep & _ & H). apply bind_Ok in H as (mx & _ & H).
  destruct (mx <? s_stop (o_reg o)); [by apply Ok_inj, pair_equal_spec in H as [<- <-]|].
  destruct (negb _); apply Ok_inj, pair_equal_spec in H as [<- <-]; [by eexists|done].
Qed.

Lemma no_copy_ok free o o' : orch_core o -> in_state PRE_RESIZE o -> copy_due free o = Ok (o', false) ->
  orch_core o' /\ advance o o'.
Proof.
  intros Hc Hs H. apply copy_due_spec in H as [m ->]. split; [by apply (core_ext o)|].
  by apply (advance_stay PRE_RESIZE).
Qed.

Lemma copy_begin_ok free o o' : orch_core o -> in_state PRE_RESIZE o -> copy_due free o = Ok (o', true) ->
  orch_core (set_state COPYING o') /\ in_state COPYING (set_state COPYING o') /\
  advance o (set_state COPYING o').
Proof.
  intros Hc Hs H. apply copy_due_spec in H as ->. split; [by apply core_set_state|].
  assert (Hs' : in_state COPYING (set_state COPYING o)) by (apply in_state_set; apply Hs).
  split; [done|]. apply (advance_move PRE_RESIZE COPYING 1); [done|done|constructor|done|lia|done].
Qed.

Lemma copy_end_ok clk os fd junk o o' : orch_core o -> in_state COPYING o ->
  copy_and_publish server_name clk os fd junk (current_version (o_reg o)) o = Ok o' ->
  orch_core o' /\ advance o o'.
Proof.
  intros Hc Hs H. pose proof (ri_cur _ (oc_reg _ Hc)) as Hcur.
  unfold copy_and_publish in H. apply bind_Ok in H as (old_ep & _ & H). cbv zeta in H.
  destruct (create_shared_numa_region _ _ _ _ _ _ _ _) as [[shm new_r0]|].
  - apply bind_Ok in H as (old_r & _ & H). apply bind_Ok in H as (new_r & _ & H).
    apply bind_Ok in H as (reg & Hp & H). apply bind_Ok in H as ([packed w] & _ & H).
    apply Ok_inj in H as <-.
    apply publish_inv in Hp as (Hreg & Hst & Hv & Hpv & Hg & Hi & Hd);
      [|apply Hc|apply next_version_slot].
    assert (Hc2 : orch_core (set_o_reg reg o)).
    { destruct Hc as [_ Hi1 Hd1 Hdep]. constructor; cbn; [done|cbn in *; congruence..|done]. }
    split; [by apply (core_ext (set_state READY_TO_SWITCH (set_o_reg reg o)));
      [apply core_set_state|..]|].
    apply (advance_move COPYING READY_TO_SWITCH 2); [done| |constructor|done|lia|].
    + split; [done|]. split; [done|]. split; [cbn; congruence|]. cbn.
      rewrite Hpv, Hv. split; [done|]. split; [|by eexists].
      destruct Hcur as [Hc0 Hne]. destruct (Z.eq_dec (current_version (o_reg o)) 0) as [E|]; [|lia].
      by rewrite E in Hne.
    + cbn. rewrite Hg. rewrite wrap_add_l. apply (f_equal (wrap 64)). lia.
  - apply Ok_inj in H as <-. split; [by apply core_set_state|].
    apply (advance_move COPYING NORMAL 1); [done| |constructor|done|lia|done].
    apply in_state_set. apply Hs.
Qed.

(** Storing in an epoch and moving from READY_TO_SWITCH to DRAIN_OLD. *)
Lemma ack_move v ep ver o0 o1 : orch_core o0 -> in_state READY_TO_SWITCH o0 -> quiet_epoch ep ->
  store_pending v ep ver o0 = Ok o1 ->
  orch_core (set_state DRAIN_OLD o1) /\ advance o0 (set_state DRAIN_OLD o1).
Proof.
  intros Hc Hs Hq H. unfold store_pending in H. apply bind_Ok in H as (reg & Hp & H).
  apply Ok_inj in H as <-. apply put_epoch_inv in Hp as (Hreg & Hf & _); [|apply Hc|done].
  split; [by apply core_set_state, core_frame|].
  apply (advance_move READY_TO_SWITCH DRAIN_OLD 1); [done| |constructor|done|lia|].
  - apply in_state_set. by apply (in_state_frame READY_TO_SWITCH).
  - cbn. by destruct Hf as (_ & _ & _ & -> & _).
Qed.

Lemma wait_ok clk o o' : orch_core o -> in_state READY_TO_SWITCH o ->
  wait_for_acks_or_timeout clk o = Ok o' -> orch_core o' /\ advance o o'.
Proof.
  intros Hc Hs H. unfold wait_for_acks_or_timeout in H. cbv zeta in H.
  apply bind_Ok in H as (ep & He & H). pose proof (epoch_quiet _ _ _ (oc_reg _ Hc) He) as Hq.
  destruct (clients_pending_ack ep =? 0).
  { apply Ok_inj in H as <-. split; [by apply core_set_state|].
    apply (advance_move READY_TO_SWITCH DRAIN_OLD 1); [done| |constructor|done|lia|done].
    apply in_state_set. apply Hs. }
  revert H. set (m := set_zombie_cleanups _ _). intros H.
  assert (Hc1 : orch_core (set_o_metrics m o)) by (by apply (core_ext o)).
  assert (Hs1 : in_state READY_TO_SWITCH (set_o_metrics m o)) by done.
  destruct (_ <=? _).
  { apply bind_Ok in H as (o2 & Hp & H). apply Ok_inj in H as <-.
    apply (ack_move 0 ep _ _ _ Hc1 Hs1 Hq Hp). }
  destruct (kAckGraceMs <? _).
  - apply bind_Ok in H as (o2 & Hp & H). apply Ok_inj in H as <-.
    apply ack_move in Hp as [Hc2 Ha]; [|by apply (core_ext o)|done|done].
    split; [by apply (core_ext (set_state DRAIN_OLD o2))|]. exact Ha.
  - apply Ok_inj in H as <-. split; [by apply (core_ext o)|]. by apply (advance_stay READY_TO_SWITCH).
Qed.

(** [replay_queues] changes a region and the wrapper's counter. *)
Lemma replay_queues_frame o o' : replay_queues server_name ludo_lookup o = Ok o' ->
  exists shm wr', o' = set_o_wrapper wr' (set_o_shm shm o) /\
    forall v w, o_wrapper o = Some (v, w) -> exists w', wr' = Some (v, w').
Proof.
  intros H. assert (Hid : exists shm wr', o = set_o_wrapper wr' (set_o_shm shm o) /\
    forall v w, o_wrapper o = Some (v, w) -> exists w', wr' = Some (v, w')).
  { exists (o_shm o), (o_wrapper o). split; [by destruct o|]. intros v w E. by exists w. }
  unfold replay_queues in H. destruct ludo_lookup as [d|]; [|by apply Ok_inj in H as <-].
  destruct (o_wrapper o) as [[v w]|]; [|by apply Ok_inj in H as <-].
  apply bind_Ok in H as (r & _ & H). apply bind_Ok in H as (t & _ & H). apply Ok_inj in H as <-.
  do 2 eexists. split; [reflexivity|]. intros v' w' [= <- <-]. by eexists.
Qed.

Lemma pop_all_core o : orch_core o -> orch_core (pop_all o).
Proof.
  intros [[] Hi Hd Hdep]. constructor; cbn; [constructor; cbn; done| | |].
  - by rewrite Hi, Z.sub_diag.
  - by rewrite Hd, Z.sub_diag.
  - unfold kMaxDeferredDepth. lia.
Qed.

Lemma allow_cleanup_ok s o o' : orch_core o -> in_state s o -> allow_cleanup o = Ok o' ->
  orch_core o' /\ in_state s o' /\ generation (o_reg o') = generation (o_reg o) /\
  deferred_inserts o' = deferred_inserts o /\ deferred_deletes o' = deferred_deletes o.
Proof.
  intros Hc Hs H. unfold allow_cleanup, old_epoch in H. apply bind_Ok in H as (old & Ho & H).
  destruct (0 <? pending_old_ver o).
  - apply bind_Ok in Ho as (ep & He & Ho). apply Ok_inj in Ho as <-.
    apply bind_Ok in H as (reg & Hp & H). apply Ok_inj in H as <-.
    apply put_epoch_inv in Hp as (Hreg & Hf & _); [|apply Hc|].
    2:{ by pose proof (epoch_quiet _ _ _ (oc_reg _ Hc) He). }
    split; [by apply core_frame|]. split; [by apply in_state_frame|]. split; [apply Hf|done].
  - apply Ok_inj in Ho as <-. by apply Ok_inj in H as <-.
Qed.

Lemma drain_ok clk o o' : orch_core o -> in_state DRAIN_OLD o ->
  drain_old server_name ludo_lookup clk o = Ok o' -> orch_core o' /\ advance o o'.
Proof.
  intros Hc Hs H. unfold drain_old in H. apply bind_Ok in H as (old & _ & H).
  destruct (match old with Some ep => _ | None => _ end).
  { apply Ok_inj in H as <-. split; [done|]. by apply (advance_stay DRAIN_OLD). }
  apply bind_Ok in H as (o1 & Hr & H). apply bind_Ok in H as (o2 & Ha & H). apply Ok_inj in H as <-.
  apply replay_queues_frame in Hr as (shm & wr' & -> & Hw).
  apply (allow_cleanup_ok DRAIN_OLD) in Ha as (Hc2 & Hs2 & Hg & _).
  - split; [by apply core_set_state, (core_ext o2)|].
    apply (advance_move DRAIN_OLD GC_PENDING 1); [done| |constructor|done|lia|cbn; by rewrite Hg].
    apply in_state_set. apply Hs2.
  - apply pop_all_core. by apply (core_ext o).
  - destruct Hs as (Hs & Hb & Hsrv & Hpo & Hpp & w & Hwr). split; [done|].
    split; [done|]. split; [done|]. split; [done|]. split; [done|]. by apply (Hw _ w).
Qed.

Lemma gc_ok clk o o' : orch_core o -> in_state GC_PENDING o -> maybe_gc server_name clk o = Ok o' ->
  orch_core o' /\ advance o o'.
Proof.
  intros Hc Hs H. unfold maybe_gc in H. cbv zeta in H. revert H.
  set (start := if gc_start_time o =? 0 then _ else _). intros H.
  assert (Hstay : orch_core (set_gc_start_time start o) /\ advance o (set_gc_start_time start o)).
  { split; [by apply (core_ext o)|]. by apply (advance_stay GC_PENDING). }
  destruct (_ <? kGcGraceMs); [by apply Ok_inj in H as <-|].
  apply bind_Ok in H as (old & _ & H).
  destruct (match old with Some ep => _ | None => _ end); [by apply Ok_inj in H as <-|].
  apply Ok_inj in H as <-. split.
  - apply core_set_state. destruct Hc as [[] Hi Hd Hdep].
    constructor; cbn; [constructor; cbn; try done|done..]. by apply wrap_is_word.
  - apply (advance_move GC_PENDING NORMAL 2); [done| |constructor|done|lia|].
    + apply in_state_set. destruct Hs as (_ & _ & Hsrv & _). by repeat split.
    + cbn. rewrite wrap_add_l. apply (f_equal (wrap 64)). lia.
Qed.

Lemma tick_ok env o o' : orch_inv o -> resize_state (o_reg o) <> ResizeState_code PRE_RESIZE ->
  resize_state (o_reg o) <> ResizeState_code COPYING ->
  check_state server_name ludo_lookup env o = Ok o' -> orch_core o' /\ advance o o'.
Proof.
  intros [Hc [s Hs]] Hn1 Hn2 H. pose proof Hs as (E & _). unfold check_state in H. rewrite E in H, Hn1, Hn2.
  destruct s; cbn in H; [by apply trigger_ok|done|done|
    by apply wait_ok in H|by apply drain_ok in H|by apply gc_ok in H].
Qed.

(** A call of [check_state] that nothing interrupts is a sequence of steps. *)
Lemma check_state_steps env o o' : check_state server_name ludo_lookup env o = Ok o' ->
  rtc (orch_step server_name ludo_lookup) o o'.
Proof.
  intros H. destruct (decide (resize_state (o_reg o) = ResizeState_code PRE_RESIZE)) as [E|Hn1].
  - unfold check_state in H. rewrite E in H. cbn in H. unfold maybe_start_copying in H.
    apply bind_Ok in H as ([o1 due] & Hd & H). destruct due.
    + pose proof (copy_due_spec _ _ _ _ Hd) as ->. eapply rtc_l; [exact (StCopyBegin _ _ _ _ _ E Hd)|].
      apply rtc_once. eapply (StCopyEnd _ _ (set_state COPYING o)); [reflexivity|exact H].
    + apply Ok_inj in H as <-. apply rtc_once. exact (StNoCopy _ _ _ _ _ E Hd).
  - destruct (decide (resize_state (o_reg o) = ResizeState_code COPYING)) as [E|Hn2].
    + unfold check_state in H. rewrite E in H. cbn in H. apply Ok_inj in H as <-. apply rtc_refl.
    + apply rtc_once. exact (StTick _ _ _ _ _ Hn1 Hn2 H).
Qed.

Lemma advance_inv o o' : orch_core o' -> advance o o' -> orch_inv o'.
Proof. intros Hc (s & s' & n & _ & Hs' & _). split; [done|by exists s']. Qed.

Lemma orch_step_ok o o' : orch_inv o -> orch_step server_name ludo_lookup o o' ->
  orch_inv o' /\ advance o o'.
Proof.
  intros Hi Hst. assert (H : orch_core o' /\ advance o o').
  { revert Hi. destruct Hst as [o o' env Hn1 Hn2 H|o o' free E H|o o' free E H|o o' clk os fd junk E H|o now k v|o now k|o o' now i H|o o' now i H|o o' i H|o reg H];
      intros Hi; pose proof Hi as [Hc [s Hs]].
    - by apply (tick_ok env).
    - apply (no_copy_ok free); [done|by apply state_in|done].
    - apply copy_begin_ok in H as (? & _ & ?); [done|done|by apply state_in].
    - apply (copy_end_ok clk os fd junk); [done|by apply state_in|done].
    - unfold defer_insert. destruct (Z.leb_spec kMaxDeferredDepth (Z.of_nat (length (deferred_inserts o))));
        cbn [fst]; [split; [done|by apply (advance_stay s)]|].
      split; [|by apply (advance_stay s)]. destruct Hc as [[] Hn Hd Hdep].
      constructor; cbn; [by constructor|..]; rewrite ?length_app; cbn [length].
      + rewrite Hn, wrap_id; unfold is_word, kMaxDeferredDepth in *; lia.
      + done.
      + lia.
    - unfold defer_delete. destruct (Z.leb_spec kMaxDeferredDepth (Z.of_nat (length (deferred_deletes o))));
        cbn [fst]; [split; [done|by apply (advance_stay s)]|].
      split; [|by apply (advance_stay s)]. destruct Hc as [[] Hn Hd Hdep].
      constructor; cbn; [by constructor|..]; rewrite ?length_app; cbn [length].
      + done.
      + rewrite Hd, wrap_id; unfold is_word, kMaxDeferredDepth in *; lia.
      + lia.
    - unfold register_client in H. apply bind_Ok in H as ([reg j] & H & E).
      apply Ok_inj, pair_equal_spec in E as [<- _].
      apply claim_slot_inv in H as [Hreg Hf]; [|apply Hc]. by apply (frame_step s).
    - apply heartbeat_inv in H as (reg & -> & Hreg & Hf); [|apply Hc]. by apply (frame_step s).
    - apply deregister_inv in H as (reg & -> & Hreg & Hf); [|apply Hc]. by apply (frame_step s).
    - apply client_step_inv in H as [Hreg Hf]; [|apply Hc]. by apply (frame_step s). }
  destruct H as [Hc Ha]. split; [by apply (advance_inv o)|done].
Qed.

Lemma orch_steps_inv o o' : orch_inv o -> rtc (orch_step server_name ludo_lookup) o o' -> orch_inv o'.
Proof. intros Hi H. revert Hi. induction H as [|x y z Hst _ IH]; [done|]. intros Hx. by apply IH, (orch_step_ok x). Qed.

(** While a copy is under way the current version stays as it was. *)
Lemma copying_keeps_version o o' : orch_inv o -> orch_step server_name ludo_lookup o o' ->
  resize_state (o_reg o) = ResizeState_code COPYING ->
  resize_state (o_reg o') = ResizeState_code COPYING ->
  current_version (o_reg o') = current_version (o_reg o).
Proof.
  intros Hi Hst E E'. destruct (orch_step_ok o o' Hi Hst) as [_ (s & s' & n & (Hs & _) & (Hs' & _) & _ & _ & _ & Hn & H)].
  apply H, Hn. rewrite E in Hs. rewrite E' in Hs'. by destruct s, s'.
Qed.
End handlers.
