(* ===== verification/ResizeProps.v ===== *)
(** * Properties of a resize

    The claims about the orchestrator: its invariant and its transitions for
    every interleaving, the layout of the regions, what [do_copy] leaves, the
    drain, and that a resize ends. *)

From Stdlib Require Import ZArith Lia.
From stdpp Require Import base numbers strings gmap list.
From S2P Require Import Prelude Words Hash PackedData LudoSlot LruCache ServerRdma LudoDP.
From S2P Require Import NumaTransport NumaTable ServerNuma Replay Resize ResizeInv.

#[local] Open Scope Z_scope.

(** ** The state machine *)

(** The orchestrator after [start], over a registry in its first state. *)
Definition fresh_orch (reg : SharedNumaRegistry) (shm : regions) (srv : ServerNumaState) : Orch :=
  start (MkOrch reg shm false false false srv None [] [] 0 None (-1) 0 0 0 zero_metrics).

Lemma fresh_inv reg shm srv : reg_inv reg -> resize_state reg = ResizeState_code NORMAL ->
  previous_version reg = 0 -> deferred_insert_count reg = 0 -> deferred_delete_count reg = 0 ->
  srv_region srv = current_version reg -> orch_inv (fresh_orch reg shm srv).
Proof.
  intros Hreg Hs Hp Hi Hd Hv. split.
  - constructor; cbn; [done..|]. unfold kMaxDeferredDepth. lia.
  - exists NORMAL. by repeat split.
Qed.

(** C4: Whatever the background thread, the server's operations and the
    clients do from the state [start] leaves, in any order: structural
    mutations are blocked exactly in COPYING, READY_TO_SWITCH and DRAIN_OLD;
    the deferred counters of the registry are the lengths of the queues, which
    never exceed 1,000,000; [registered_clients] is the number of active slots
    of the client table; the current version never falls on the unused epoch
    slot 0; and the version that drains is recorded exactly while one does.  A
    copy is two steps, so that all of this holds while one is under way too,
    with the other steps in between. *)
Theorem resize_invariant server_name ludo_lookup reg shm srv o :
  reg_inv reg -> resize_state reg = ResizeState_code NORMAL -> previous_version reg = 0 ->
  deferred_insert_count reg = 0 -> deferred_delete_count reg = 0 ->
  srv_region srv = current_version reg ->
  rtc (orch_step server_name ludo_lookup) (fresh_orch reg shm srv) o ->
  let reg' := o_reg o in
  (o_blocked o = true <-> resize_state reg' = ResizeState_code COPYING \/
     resize_state reg' = ResizeState_code READY_TO_SWITCH \/
     resize_state reg' = ResizeState_code DRAIN_OLD) /\
  deferred_insert_count reg' = Z.of_nat (length (deferred_inserts o)) /\
  deferred_delete_count reg' = Z.of_nat (length (deferred_deletes o)) /\
  Z.of_nat (length (deferred_inserts o)) <= 1000000 /\
  Z.of_nat (length (deferred_deletes o)) <= 1000000 /\
  registered_clients reg' = Z.of_nat (length (filter is_active (clients reg'))) /\
  current_version reg' mod 16 <> 0 /\ srv_region (o_srv o) = current_version reg' /\
  previous_version reg' = pending_old_ver o /\
  (pending_old_ver o = 0 <-> resize_state reg' = ResizeState_code NORMAL \/
     resize_state reg' = ResizeState_code PRE_RESIZE \/
     resize_state reg' = ResizeState_code COPYING).
Proof.
  intros Hreg H1 H2 H3 H4 H5 Hrtc.
  pose proof (orch_steps_inv _ _ _ _ (fresh_inv reg shm srv Hreg H1 H2 H3 H4 H5) Hrtc) as Hinv.
  destruct Hinv as [[Hr Hi Hd [Hli Hld]] [s (Hs & Hb & Hsrv & Hph)]]. cbv zeta.
  split; [rewrite Hb, Hs; destruct s; cbn; split; intros; try done; lia|].
  do 2 (split; [done|]). do 2 (split; [done|]). split; [apply Hr|]. split; [apply Hr|].
  split; [done|]. rewrite Hs. destruct s; cbn in Hph |- *; try done;
    (split; [destruct Hph as [? ?]; congruence|lia]).
Qed.

(** C32: Every step moves the machine along the documented transitions or
    leaves it; and as long as the generation counter of the registry is the
    same, state and version are too, so that a client that compares
    generations misses no change. *)
Theorem resize_transitions server_name ludo_lookup o o' :
  orch_inv o -> orch_step server_name ludo_lookup o o' ->
  exists s s', resize_state (o_reg o) = ResizeState_code s /\
    resize_state (o_reg o') = ResizeState_code s' /\ edge s s' /\
    (generation (o_reg o') = generation (o_reg o) ->
     s' = s /\ current_version (o_reg o') = current_version (o_reg o)).
Proof.
  intros Hi Hst. pose proof (ri_gen _ (oc_reg _ (proj1 Hi))) as Hg.
  destruct (orch_step_ok server_name ludo_lookup o o' Hi Hst) as [_ (s & s' & n & Hs & Hs' & He & Hn & Eg & Hiff & H0)].
  exists s, s'. split; [apply Hs|]. split; [apply Hs'|]. split; [done|]. intros E.
  assert (n = 0); [|by split; [apply Hiff|apply H0]].
  rewrite Eg in E. unfold is_word in Hg. unfold wrap in E.
  destruct (Z.eq_dec n 0); [done|]. exfalso.
  destruct (Z.lt_ge_cases (generation (o_reg o) + n) (2 ^ 64)).
  - rewrite Z.mod_small in E; lia.
  - rewrite <-(Z.mod_add _ (-1)), Z.mod_small in E; lia.
Qed.

(** ** Layout *)

Lemma region_layout_main entries buckets each :
  0 <= entries -> 0 <= buckets -> 0 <= each ->
  entries * 20 + buckets * each + buckets + 2 ^ 13 <= 2 ^ 64 ->
  let l := region_layout entries buckets each in
  packed_off l = 0 /\ entries * 20 <= ludo_off l /\ ludo_off l + buckets * each <= lock_off l /\
  lock_off l + buckets <= total_size l /\ (64 | ludo_off l) /\ (64 | lock_off l) /\
  (4096 | total_size l) /\
  total_size l < entries * 20 + buckets * each + buckets + 4224 /\
  forall ep, 64 <= buckets -> num_buckets ep = buckets -> ludo_buckets_offset ep = ludo_off l ->
    lock_array_offset ep = lock_off l -> bucket_size_each ep = each.
Proof.
  intros He Hb Hc Hbound. unfold region_layout, sizeof_packed_struct. cbv zeta.
  cbn [packed_off ludo_off lock_off total_size].
  change (align_up 0 64) with 0. rewrite Z.mul_1_r, Z.add_0_l.
  assert (0 <= buckets * each) by (by apply Z.mul_nonneg_nonneg).
  remember (buckets * each) as sz eqn:Esz.
  rewrite (wrap_id 64 (entries * 20)), (wrap_id 64 (entries * 20)), (wrap_id 64 sz),
    (wrap_id 64 buckets) by (unfold is_word; lia).
  pose proof (align_up_bounds 6 (entries * 20) ltac:(lia) ltac:(lia) ltac:(lia)) as [D1 B1].
  change (2 ^ 6) with 64 in D1, B1. revert D1 B1. generalize (align_up (entries * 20) 64). intros a D1 B1.
  rewrite (wrap_id 64 (a + sz)) by (unfold is_word; lia).
  pose proof (align_up_bounds 6 (a + sz) ltac:(lia) ltac:(lia) ltac:(lia)) as [D2 B2].
  change (2 ^ 6) with 64 in D2, B2. revert D2 B2. generalize (align_up (a + sz) 64). intros b D2 B2.
  rewrite (wrap_id 64 (b + buckets)) by (unfold is_word; lia).
  pose proof (align_up_bounds 12 (b + buckets) ltac:(lia) ltac:(lia) ltac:(lia)) as [D3 B3].
  change (2 ^ 12) with 4096 in D3, B3. revert D3 B3. generalize (align_up (b + buckets) 4096).
  intros c D3 B3. do 7 (split; [done || lia|]). split; [lia|].
  intros ep Hb64 E1 E2 E3. unfold bucket_size_each. rewrite E1, E2, E3.
  destruct (Z.ltb_spec 0 buckets); [|lia]. rewrite (wrap_id 64 (b - a)) by (unfold is_word; lia).
  symmetry. apply (Z.div_unique_pos _ _ _ (b - a - sz)); lia.
Qed.

(** C31: The layout of a region, whose sizes fit in 64 bits: the entry array of
    20-byte entries, the buckets of [each] bytes and the lock bytes follow each
    other without overlap inside the region, at multiples of 64, the size is a
    multiple of the page size and wastes less than 4224 bytes; and with 64
    buckets or more the bucket size that [do_copy] computes from the offsets is
    [each] again. *)
Theorem region_layout_sound entries buckets each :
  0 <= entries -> 0 <= buckets -> 0 <= each ->
  entries * 20 + buckets * each + buckets + 2 ^ 13 <= 2 ^ 64 ->
  let l := region_layout entries buckets each in
  packed_off l = 0 /\ entries * 20 <= ludo_off l /\ ludo_off l + buckets * each <= lock_off l /\
  lock_off l + buckets <= total_size l /\ (64 | ludo_off l) /\ (64 | lock_off l) /\
  (4096 | total_size l) /\
  total_size l < entries * 20 + buckets * each + buckets + 4224 /\
  forall ep, 64 <= buckets -> num_buckets ep = buckets -> ludo_buckets_offset ep = ludo_off l ->
    lock_array_offset ep = lock_off l -> bucket_size_each ep = each.
Proof. apply region_layout_main. Qed.

Lemma region_layout_sound_witness :
  let l := region_layout 2000 64 32 in
  packed_off l = 0 /\ 2000 * 20 <= ludo_off l /\ ludo_off l + 64 * 32 <= lock_off l /\
  lock_off l + 64 <= total_size l /\ (64 | ludo_off l) /\ (64 | lock_off l) /\
  (4096 | total_size l) /\ total_size l < 2000 * 20 + 64 * 32 + 64 + 4224 /\
  forall ep, 64 <= 64 -> num_buckets ep = 64 -> ludo_buckets_offset ep = ludo_off l ->
    lock_array_offset ep = lock_off l -> bucket_size_each ep = 32.
Proof. apply (region_layout_sound 2000 64 32); lia. Defined.

(** ** The copy *)

Lemma attach_spec junk mem n : length mem = n ->
  attach_packed_data junk mem n = Ok (replicate n junk, PackedData 0 (Z.of_nat n)).
Proof.
  intros Hl. unfold attach_packed_data.
  destruct (overwrite_from_total n junk 0 mem) as [mem' E]; [lia|lia|]. rewrite E, bind_Ok_l.
  assert (mem' = replicate n junk) as ->; [|done].
  destruct (overwrite_from_spec n junk 0 mem mem' ltac:(lia) E) as [Hl' Hrd].
  apply list_eq. intros i. destruct (Nat.lt_ge_cases i n) as [Hi|Hi].
  - specialize (Hrd (Z.of_nat i) ltac:(lia)).
    replace ((0 <=? Z.of_nat i) && (Z.of_nat i <? 0 + Z.of_nat n)) with true in Hrd.
    2:{ symmetry. apply andb_true_iff. split; [apply Z.leb_le; lia|apply Z.ltb_lt; lia]. }
    apply rd_Ok in Hrd as [_ Hrd]. rewrite Nat2Z.id in Hrd. rewrite Hrd.
    symmetry. by apply lookup_replicate.
  - rewrite !lookup_ge_None_2; [done|rewrite length_replicate; lia|lia].
Qed.

Lemma copy_prefix_whole {A} (src dst : list A) n : n = Z.of_nat (length src) ->
  (length src <= length dst)%nat -> copy_prefix n src dst = Ok (src ++ drop (length src) dst).
Proof.
  intros -> Hd. unfold copy_prefix. rewrite Z.leb_refl. cbn [andb].
  destruct (Z.leb_spec (Z.of_nat (length src)) (Z.of_nat (length dst))); [|lia].
  by rewrite Nat2Z.id, take_ge.
Qed.

Lemma fill_upper {A} (l : list A) n x m : length l = n -> (n <= m)%nat ->
  fill_range (Z.of_nat n) (Z.of_nat n) x (l ++ replicate (m + n - n) x) = Ok (l ++ replicate m x).
Proof.
  intros Hl Hm. unfold fill_range. rewrite length_app, length_replicate.
  destruct (Z.leb_spec (Z.of_nat n + Z.of_nat n) (Z.of_nat (length l + (m + n - n)))); [|lia].
  rewrite Nat2Z.id, <-Hl, take_app_length. f_equal. f_equal.
  rewrite Hl. replace (Z.to_nat (Z.of_nat n + Z.of_nat n)) with (length l + n)%nat by lia.
  rewrite drop_app_add, drop_replicate, <-replicate_add. f_equal. lia.
Qed.

(** The payload of a copy into a zeroed region of twice the size: the cells of
    the old region and as many empty rows. *)
Lemma copy_region_spec ep old_r sz : length (r_packed old_r) = Z.to_nat (num_data_entries ep) ->
  length (r_ludo old_r) = Z.to_nat (num_buckets ep) ->
  0 <= num_data_entries ep -> 0 <= num_buckets ep -> sizeof_LudoBucket <= bucket_size_each ep ->
  exists r, copy_region ep old_r (zero_region sz (Z.to_nat (num_data_entries ep * 2))
      (Z.to_nat (num_buckets ep * 2)) (Z.to_nat (num_buckets ep * 2))) = Ok r /\
    r_size r = sz /\ length (r_packed r) = Z.to_nat (num_data_entries ep * 2) /\
    r_ludo r = r_ludo old_r ++ new_buckets (Z.to_nat (num_buckets ep)) /\
    r_locks r = replicate (Z.to_nat (num_buckets ep * 2)) 0.
Proof.
  intros Hp Hl Hn Hb He. unfold copy_region, zero_region. cbn [r_packed r_ludo r_locks r_size].
  rewrite (copy_prefix_whole (r_packed old_r)) by (rewrite ?length_replicate; lia). rewrite bind_Ok_l.
  destruct (Z.leb_spec sizeof_LudoBucket (bucket_size_each ep)); [|lia]. cbn [guard_ok].
  rewrite bind_Ok_l. unfold new_buckets.
  rewrite (copy_prefix_whole (r_ludo old_r)) by (rewrite ?length_replicate; lia).
  rewrite bind_Ok_l, !drop_replicate, Hl.
  match goal with |- context [fill_range ?i ?n ?x ?l] => assert (E : fill_range i n x l =
    Ok (r_ludo old_r ++ replicate (Z.to_nat (num_buckets ep)) (replicate 4 0))) end.
  { rewrite <-(Z2Nat.id (num_buckets ep)) at 1 2 by done.
    replace (Z.to_nat (num_buckets ep * 2)) with (Z.to_nat (num_buckets ep) + Z.to_nat (num_buckets ep))%nat
      by lia. by apply fill_upper. }
  rewrite E, bind_Ok_l.
  eexists. split; [reflexivity|]. cbn [r_packed r_ludo r_locks r_size]. split; [done|].
  split; [|split; [done|by rewrite length_replicate]].
  rewrite length_app, length_replicate. lia.
Qed.

Lemma reset_lanes_spec fuel i base l : 0 <= i -> i + Z.of_nat fuel <= Z.of_nat (length l) ->
  exists l', reset_lanes fuel i base l = Ok l' /\ length l' = length l /\
    forall j, 0 <= j -> rd l' j =
      if (i <=? j) && (j <? i + Z.of_nat fuel) then Ok (u64 (base + j)) else rd l j.
Proof.
  revert i l. induction fuel as [|fuel IH]; intros i l Hi Hl; cbn [reset_lanes].
  - exists l. split; [done|]. split; [done|]. intros j Hj.
    destruct (Z.leb_spec i j), (Z.ltb_spec j (i + Z.of_nat 0)); try done; lia.
  - pose proof (wr_in_range l i (u64 (base + i)) ltac:(lia)) as Hw. rewrite Hw, bind_Ok_l.
    destruct (IH (i + 1) (<[Z.to_nat i := u64 (base + i)]> l)) as (l' & -> & Hlen & Hrd);
      [lia|rewrite length_insert; lia|].
    exists l'. split; [done|]. split; [by rewrite Hlen, length_insert|]. intros j Hj. rewrite Hrd by done.
    destruct (Z.eq_dec i j) as [->|Hne].
    + rewrite (rd_wr_eq _ _ _ _ Hw).
      destruct (Z.leb_spec (j + 1) j), (Z.leb_spec j j), (Z.ltb_spec j (j + Z.of_nat (S fuel)));
        cbn [andb]; try lia; done.
    + rewrite (rd_wr_ne _ _ _ _ _ Hw Hne).
      destruct (Z.leb_spec (i + 1) j), (Z.leb_spec i j), (Z.ltb_spec j (i + 1 + Z.of_nat fuel)),
        (Z.ltb_spec j (i + Z.of_nat (S fuel))); cbn [andb]; try lia; done.
Qed.

Lemma next_version_ne v : 0 <= v -> epoch_slot (next_version v) <> epoch_slot v.
Proof.
  intros Hv. unfold next_version, epoch_slot, kMaxEpochSlots, wrap.
  assert (H : forall x, (x mod 2 ^ 64) mod 16 = x mod 16).
  { intros x. change (2 ^ 64) with (16 * 2 ^ 60). rewrite Z.rem_mul_r by lia.
    rewrite Z.add_mod, Z.mul_comm, Z.mod_mul, Z.add_0_r, !Z.mod_mod by lia. done. }
  rewrite H. destruct (_ =? 0); rewrite ?H.
  - rewrite Z.add_mod, H, <-Z.add_mod by lia. Z.to_euclidean_division_equations; lia.
  - Z.to_euclidean_division_equations; lia.
Qed.

Lemma lanes_of_bound reg : reg_inv reg -> (lanes_of reg <= 64)%nat.
Proof. intros H. pose proof (ri_mem _ H). unfold lanes_of. destruct (_ =? 0); lia. Qed.

Lemma publish_spec old_ver now old_ep lay reg : reg_inv reg -> 0 <= old_ver ->
  exists reg', publish old_ver (next_version old_ver) now old_ep lay reg = Ok reg' /\
    rd (epoch reg') (epoch_slot (next_version old_ver)) =
      Ok (next_epoch old_ep lay (next_version old_ver) now (registered_clients reg) 1) /\
    rd (epoch reg') (epoch_slot old_ver) = rd (epoch reg) (epoch_slot old_ver) /\
    forall i, 0 <= i < Z.of_nat (lanes_of reg) ->
      rd (lane_next_free_index reg') i = Ok (u64 (num_data_entries old_ep + i)).
Proof.
  intros Hreg Hv. unfold publish. pose proof (next_version_ne old_ver Hv) as Hne.
  destruct (epoch_at reg (next_version old_ver) Hreg) as [prev Hprev].
  rewrite Hprev, bind_Ok_l. cbv zeta.
  destruct (put_epoch_at reg (next_version old_ver) (next_epoch old_ep lay (next_version old_ver) now
    (registered_clients reg) (published prev)) Hreg) as [reg1 H1].
  rewrite H1, bind_Ok_l.
  pose proof H1 as H1'. apply put_epoch_inv in H1' as (Hr1 & _ & E1 & _ & M1 & L1 & _);
    [|done|by split].
  assert (EL : lanes_of reg1 = lanes_of reg) by (unfold lanes_of; by rewrite M1).
  rewrite EL. pose proof (lanes_of_bound _ Hreg).
  destruct (reset_lanes_spec (lanes_of reg) 0 (num_data_entries old_ep) (lane_next_free_index reg1))
    as (l & Hl & Hlen & Hrd); [lia|rewrite (ri_lanes_len _ Hr1); unfold kMaxNumaLanes; lia|].
  rewrite Hl, bind_Ok_l.
  assert (Hr1' : reg_inv (set_lane_next_free_index l reg1))
    by (apply lanes_inv; [done|]; by rewrite Hlen, (ri_lanes_len _ Hr1)).
  destruct (put_epoch_at _ (next_version old_ver) (set_published 1 (next_epoch old_ep lay
    (next_version old_ver) now (registered_clients reg) (published prev))) Hr1') as [reg2 H2].
  rewrite H2, bind_Ok_l. eexists. split; [reflexivity|]. cbn.
  unfold put_epoch in H1, H2. apply bind_Ok in H1 as (l1 & W1 & X1). apply bind_Ok in H2 as (l2 & W2 & X2).
  apply Ok_inj in X1 as <-. apply Ok_inj in X2 as <-. cbn in *.
  split; [by apply (rd_wr_eq _ _ _ _ W2)|].
  split; [by rewrite (rd_wr_ne _ _ _ _ _ W2 Hne), (rd_wr_ne _ _ _ _ _ W1 Hne)|].
  intros i Hi. rewrite Hrd by lia.
  destruct (Z.leb_spec 0 i), (Z.ltb_spec i (0 + Z.of_nat (lanes_of reg))); try lia. done.
Qed.

Section copy.
Context (server_name : string).

(** What a copy of the current region [r] with epoch [ep] needs. *)
Record copyable (o : Orch) (ep : ResizeEpoch) (r : shm_region) : Prop := {
  cy_epoch : rd (epoch (o_reg o)) (epoch_slot (current_version (o_reg o))) = Ok ep;
  cy_region : o_shm o !! numa_region_name server_name (current_version (o_reg o)) = Some r;
  cy_packed : length (r_packed r) = Z.to_nat (num_data_entries ep);
  cy_ludo : length (r_ludo r) = Z.to_nat (num_buckets ep);
  cy_entries : 0 <= num_data_entries ep;
  cy_buckets : 32 <= num_buckets ep;
  cy_each : sizeof_LudoBucket <= bucket_size_each ep;
  cy_size : num_data_entries ep * 40 + num_buckets ep * 2 * bucket_size_each ep +
    num_buckets ep * 2 + 2 ^ 13 <= 2 ^ 64;
}.

Lemma region_name_next v : 0 <= v -> v mod kMaxEpochSlots <> 0 ->
  numa_region_name server_name (next_version v) <> numa_region_name server_name v.
Proof.
  intros Hv Hm E. pose proof (next_version_slot v) as [H0 H1].
  assert (Hp : forall x, 0 <= x -> x mod kMaxEpochSlots <> 0 -> 1 <= x).
  { intros x Hx Hn. destruct (Z.eq_dec x 0) as [->|]; [by rewrite Z.mod_0_l in Hn|lia]. }
  apply region_name_inj in E as [_ E]; [|by apply Hp..].
  by apply (next_version_ne v Hv); rewrite E.
Qed.

Lemma do_copy_main clk fd junk o ep r :
  orch_inv o -> resize_state (o_reg o) = ResizeState_code PRE_RESIZE -> copyable o ep r ->
  let v := current_version (o_reg o) in
  exists o' r' ep', do_copy server_name clk (MkOs true true true) fd junk v o = Ok o' /\
    resize_state (o_reg o') = ResizeState_code READY_TO_SWITCH /\ o_blocked o' = true /\
    current_version (o_reg o') = next_version v /\ pending_old_ver o' = v /\
    o_shm o' !! numa_region_name server_name (next_version v) = Some r' /\
    r_ludo r' = r_ludo r ++ new_buckets (length (r_ludo r)) /\
    r_packed r' = replicate (2 * length (r_packed r)) junk /\
    r_locks r' = replicate (2 * length (r_ludo r)) 0 /\
    o_shm o' !! numa_region_name server_name v = Some r /\
    rd (epoch (o_reg o')) (epoch_slot v) = Ok ep /\
    rd (epoch (o_reg o')) (epoch_slot (next_version v)) = Ok ep' /\
    published ep' = 1 /\ num_buckets ep' = num_buckets ep * 2 /\
    num_data_entries ep' = num_data_entries ep * 2 /\ region_size ep' = r_size r' /\
    bucket_size_each ep' = bucket_size_each ep /\
    clients_pending_ack ep' = Z.of_nat (length (filter is_active (clients (o_reg o)))) /\
    forall i, 0 <= i < Z.of_nat (lanes_of (o_reg o)) ->
      rd (lane_next_free_index (o_reg o')) i = Ok (u64 (num_data_entries ep + i)).
Proof.
  intros [Hc [s Hs]] Hst [] v. subst v.
  assert (s = PRE_RESIZE) as -> by (destruct Hs as [Hs _]; rewrite Hs in Hst; by destruct s).
  pose proof (ri_cur _ (oc_reg _ Hc)) as [Hv0 Hv].
  destruct Hs as (_ & _ & Hsrv & _). unfold do_copy, copy_and_publish. cbv zeta.
  set (o1 := set_state COPYING o).
  assert (Hr1 : reg_inv (o_reg o1)) by exact (oc_reg _ (core_set_state COPYING o Hc)).
  assert (0 <= num_buckets ep * 2 * bucket_size_each ep) by (unfold sizeof_LudoBucket in *; nia).
  change (epoch (o_reg o1)) with (epoch (o_reg o)). rewrite cy_epoch0, bind_Ok_l.
  rewrite (wrap_id 64 (num_data_entries ep * 2)), (wrap_id 64 (num_buckets ep * 2))
    by (unfold is_word; unfold sizeof_LudoBucket in *; nia).
  unfold create_shared_numa_region. cbn [shm_open_ok ftruncate_ok mmap_ok negb].
  change (srv_region (o_srv o1)) with (srv_region (o_srv o)). rewrite Hsrv.
  change (o_shm o1) with (o_shm o).
  assert (Hat : forall x, region_at server_name (current_version (o_reg o))
    (<[numa_region_name server_name (next_version (current_version (o_reg o))) := x]> (o_shm o)) = Ok r).
  { intros x. unfold region_at. rewrite lookup_insert_ne by (by apply region_name_next).
    by rewrite cy_region0. }
  cbv beta iota. rewrite Hat, bind_Ok_l.
  destruct (copy_region_spec ep r (total_size (region_layout (num_data_entries ep * 2)
    (num_buckets ep * 2) (bucket_size_each ep)))) as (r1 & Hcopy & Hsz & Hlp & Hll & Hlk);
    [done|done|done|lia|done|].
  rewrite Hcopy, bind_Ok_l.
  destruct (publish_spec (current_version (o_reg o)) (clk 1%nat) ep (region_layout
    (num_data_entries ep * 2) (num_buckets ep * 2) (bucket_size_each ep)) (o_reg o1) Hr1 Hv0)
    as (reg & Hpub & Hnew & Hold & Hlanes). rewrite Hpub, bind_Ok_l.
  apply publish_inv in Hpub as (_ & _ & Hcv & _); [|done|apply next_version_slot].
  rewrite (attach_spec junk (r_packed r1)) by done. rewrite bind_Ok_l.
  do 3 eexists. split; [reflexivity|]. split; [done|]. split; [done|]. split; [done|].
  split; [done|]. split; [apply lookup_insert_eq|]. cbn [r_ludo r_packed r_locks r_size].
  split; [by rewrite Hll, cy_ludo0|].
  split; [f_equal; lia|]. split; [rewrite Hlk; f_equal; lia|].
  split; [cbn [o_shm set_o_shm]; unfold put_region;
    by rewrite !lookup_insert_ne by (by apply region_name_next)|].
  split; [cbn; rewrite Hold; exact cy_epoch0|]. split; [exact Hnew|].
  split; [done|]. split; [cbn; apply wrap_id; unfold is_word, sizeof_LudoBucket in *; nia|].
  split; [cbn; apply wrap_id; unfold is_word; lia|].
  split; [by rewrite Hsz|]. split; [|split; [cbn; apply (ri_registered _ (oc_reg _ Hc))|exact Hlanes]].
  eapply (region_layout_main (num_data_entries ep * 2) (num_buckets ep * 2) (bucket_size_each ep));
    try done; unfold sizeof_LudoBucket in *; try lia.
  cbn. apply wrap_id. unfold is_word. nia.
Qed.

(** C25: [do_copy] from PRE_RESIZE, when the operating system grants the
    memory: it ends in READY_TO_SWITCH with mutations blocked and a new version
    published, whose region holds the old index followed by as many empty
    rows and zeroed locks, twice the sizes and the same bucket size; the old region and epoch
    are untouched; as many acknowledgements are awaited as clients are
    registered; and the lanes start at the end of the old entries.  The entry
    array of the new region is lost: the wrapper's constructor overwrites
    every copied entry with its uninitialised struct. *)
Theorem do_copy_effect clk fd junk o ep r :
  orch_inv o -> resize_state (o_reg o) = ResizeState_code PRE_RESIZE -> copyable o ep r ->
  let v := current_version (o_reg o) in
  exists o' r' ep', do_copy server_name clk (MkOs true true true) fd junk v o = Ok o' /\
    resize_state (o_reg o') = ResizeState_code READY_TO_SWITCH /\ o_blocked o' = true /\
    current_version (o_reg o') = next_version v /\ pending_old_ver o' = v /\
    o_shm o' !! numa_region_name server_name (next_version v) = Some r' /\
    r_ludo r' = r_ludo r ++ new_buckets (length (r_ludo r)) /\
    r_packed r' = replicate (2 * length (r_packed r)) junk /\
    r_locks r' = replicate (2 * length (r_ludo r)) 0 /\
    o_shm o' !! numa_region_name server_name v = Some r /\
    rd (epoch (o_reg o')) (epoch_slot v) = Ok ep /\
    rd (epoch (o_reg o')) (epoch_slot (next_version v)) = Ok ep' /\
    published ep' = 1 /\ num_buckets ep' = num_buckets ep * 2 /\
    num_data_entries ep' = num_data_entries ep * 2 /\ region_size ep' = r_size r' /\
    bucket_size_each ep' = bucket_size_each ep /\
    clients_pending_ack ep' = Z.of_nat (length (filter is_active (clients (o_reg o)))) /\
    forall i, 0 <= i < Z.of_nat (lanes_of (o_reg o)) ->
      rd (lane_next_free_index (o_reg o')) i = Ok (u64 (num_data_entries ep + i)).
Proof. exact (do_copy_main clk fd junk o ep r). Qed.
(** [publish] leaves the thresholds and the number of lanes. *)
Lemma publish_thresholds old_ver new_ver now old_ep lay reg reg' :
  publish old_ver new_ver now old_ep lay reg = Ok reg' ->
  s_slow reg' = s_slow reg /\ s_stop reg' = s_stop reg /\ mem_threads reg' = mem_threads reg.
Proof.
  intros H. unfold publish, put_epoch in H. apply bind_Ok in H as (prev & _ & H). cbv zeta in H.
  apply bind_Ok in H as (reg1 & H1 & H). apply bind_Ok in H1 as (l1 & _ & H1). apply Ok_inj in H1 as <-.
  apply bind_Ok in H as (lanes & _ & H). apply bind_Ok in H as (reg2 & H2 & H).
  apply bind_Ok in H2 as (l2 & _ & H2). apply Ok_inj in H2 as <-. by apply Ok_inj in H as <-.
Qed.

Lemma start_copying_done clk fd junk o o' : orch_inv o ->
  resize_state (o_reg o) = ResizeState_code PRE_RESIZE ->
  do_copy server_name clk (MkOs true true true) fd junk (current_version (o_reg o)) o = Ok o' ->
  orch_core o' /\ s_slow (o_reg o') = s_slow (o_reg o) /\ s_stop (o_reg o') = s_stop (o_reg o) /\
  mem_threads (o_reg o') = mem_threads (o_reg o).
Proof.
  intros [Hc [s Hs]] Hst H.
  assert (s = PRE_RESIZE) as -> by (destruct Hs as [Hs _]; rewrite Hs in Hst; by destruct s).
  split.
  { apply (copy_end_ok server_name clk (MkOs true true true) fd junk (set_state COPYING o)); [by apply core_set_state| |done].
    apply in_state_set, Hs. }
  unfold do_copy, copy_and_publish in H. apply bind_Ok in H as (old_ep & _ & H). cbv zeta in H.
  destruct (create_shared_numa_region _ _ _ _ _ _ _ _) as [[shm new_r0]|]; [|by apply Ok_inj in H as <-].
  apply bind_Ok in H as (old_r & _ & H). apply bind_Ok in H as (new_r & _ & H).
  apply bind_Ok in H as (reg & Hp & H). apply bind_Ok in H as ([packed w] & _ & H).
  apply Ok_inj in H as <-. by apply publish_thresholds in Hp.
Qed.

Lemma highest_lane_ge fuel i lanes m : 0 <= i -> i + Z.of_nat fuel <= Z.of_nat (length lanes) ->
  exists mx, highest_lane fuel i lanes m = Ok mx /\ m <= mx /\
    forall j x, i <= j < i + Z.of_nat fuel -> rd lanes j = Ok x -> x <= mx.
Proof.
  revert i m. induction fuel as [|fuel IH]; intros i m Hi Hl; cbn [highest_lane].
  { exists m. split; [done|]. split; [lia|]. intros j x Hj. lia. }
  destruct (rd_in_range lanes i) as [idx Hidx]; [lia|]. rewrite Hidx, bind_Ok_l.
  destruct (IH (i + 1) (if m <? idx then idx else m)) as (mx & E & Hm & Hall); [lia|lia|].
  exists mx. split; [done|]. destruct (Z.ltb_spec m idx).
  - split; [lia|]. intros j x Hj Hx. destruct (Z.eq_dec j i) as [->|]; [|by apply (Hall j); [lia|]].
    assert (x = idx) as -> by congruence. lia.
  - split; [lia|]. intros j x Hj Hx. destruct (Z.eq_dec j i) as [->|]; [|by apply (Hall j); [lia|]].
    assert (x = idx) as -> by congruence. lia.
Qed.

(** The thresholds are those of the first region for good: after a copy the
    lanes start at the end of the old entries, so that with thresholds within
    the old region (as the server sets them) the state the resize leads to
    already asks for the next one - both the soft and the hard threshold are
    reached before any insertion. *)
Theorem resize_retriggers clk fd junk o ep r :
  orch_inv o -> resize_state (o_reg o) = ResizeState_code PRE_RESIZE -> copyable o ep r ->
  0 < s_slow (o_reg o) <= num_data_entries ep -> s_stop (o_reg o) <= num_data_entries ep ->
  exists o' mx, do_copy server_name clk (MkOs true true true) fd junk (current_version (o_reg o)) o = Ok o' /\
    current_fill (o_reg o') = Ok mx /\ s_stop (o_reg o') <= mx /\
    maybe_trigger_pre_resize o' = Ok (set_state PRE_RESIZE o').
Proof.
  intros Hi Hst Hcy Hslow Hstop.
  destruct (do_copy_main clk fd junk o ep r Hi Hst Hcy) as
    (o' & r' & ep' & E & H1 & _ & Hcv & _ & _ & _ & _ & _ & _ & _ & Hep' & _ & _ & _ & _ & _ & _ & Hlanes).
  destruct (start_copying_done clk fd junk o o' Hi Hst E) as (Hc' & Hs1 & Hs2 & Hs3).
  assert (HL : lanes_of (o_reg o') = lanes_of (o_reg o)) by (unfold lanes_of; by rewrite Hs3).
  pose proof (lanes_of_bound _ (oc_reg _ Hc')) as Hb.
  destruct (highest_lane_ge (lanes_of (o_reg o')) 0 (lane_next_free_index (o_reg o')) 0) as (mx & Emx & _ & Hall);
    [lia|rewrite (ri_lanes_len _ (oc_reg _ Hc')); unfold kMaxNumaLanes; lia|].
  assert (Hpos : (0 < lanes_of (o_reg o))%nat).
  { unfold lanes_of. pose proof (ri_mem _ (oc_reg _ (proj1 Hi))).
    destruct (Z.eqb_spec (mem_threads (o_reg o)) 0); lia. }
  assert (Hmx : num_data_entries ep <= mx).
  { apply (Hall 0); [lia|]. rewrite (Hlanes 0) by lia. rewrite Z.add_0_r. f_equal. apply wrap_id.
    destruct Hcy. unfold is_word, sizeof_LudoBucket in *. nia. }
  exists o', mx. split; [done|]. split; [exact Emx|]. split; [rewrite Hs2; lia|].
  unfold maybe_trigger_pre_resize. cbv zeta. rewrite Hs1.
  destruct (Z.eqb_spec (s_slow (o_reg o)) 0); [lia|].
  unfold current_epoch. rewrite Hcv, Hep', bind_Ok_l. unfold current_fill. rewrite Emx, bind_Ok_l.
  destruct (Z.leb_spec (s_slow (o_reg o)) mx); [done|lia].
Qed.
End copy.

(** ** The way back to NORMAL *)

(** What the waiting for acknowledgements leaves alone. *)
Definition same_payload (o o' : Orch) : Prop :=
  o_shm o' = o_shm o /\ o_wrapper o' = o_wrapper o /\
  deferred_inserts o' = deferred_inserts o /\ deferred_deletes o' = deferred_deletes o /\
  pending_old_ver o' = pending_old_ver o /\ current_version (o_reg o') = current_version (o_reg o).

Lemma store_pending_spec v ep ver o : reg_inv (o_reg o) -> quiet_epoch ep ->
  exists o', store_pending v ep ver o = Ok o' /\ same_payload o o' /\
    ack_wait_start o' = ack_wait_start o.
Proof.
  intros Hr Hq. unfold store_pending.
  destruct (put_epoch_at (o_reg o) ver (set_clients_pending_ack v ep) Hr) as [reg Hp].
  rewrite Hp, bind_Ok_l. eexists. split; [reflexivity|]. split; [|done].
  apply put_epoch_inv in Hp as (_ & Hf & _); [|done|done]. repeat split. apply Hf.
Qed.

(** A tick in READY_TO_SWITCH at time [t]: it goes on to DRAIN_OLD, or waits
    with the timer running, for at most the grace period. *)
Lemma wait_spec t o : orch_core o -> in_state READY_TO_SWITCH o ->
  exists o', wait_for_acks_or_timeout (fun _ => t) o = Ok o' /\ same_payload o o' /\
    (resize_state (o_reg o') = ResizeState_code DRAIN_OLD \/
     resize_state (o_reg o') = ResizeState_code READY_TO_SWITCH /\
     ack_wait_start o' = (if ack_wait_start o =? 0 then now_ms t else ack_wait_start o) /\
     u64 (now_ms t - ack_wait_start o') <= kAckGraceMs).
Proof.
  intros Hc Hs. unfold wait_for_acks_or_timeout. cbv zeta.
  destruct (epoch_at (o_reg o) (current_version (o_reg o)) (oc_reg _ Hc)) as [ep He].
  rewrite He, bind_Ok_l. pose proof (epoch_quiet _ _ _ (oc_reg _ Hc) He) as Hq.
  destruct (clients_pending_ack ep =? 0); [eexists; split; [reflexivity|]; split; [done|by left]|].
  set (m := set_zombie_cleanups _ _).
  destruct (_ <=? _).
  { destruct (store_pending_spec 0 ep (current_version (o_reg o)) (set_o_metrics m o) (oc_reg _ Hc) Hq)
      as (o1 & -> & Hp & _). rewrite bind_Ok_l. eexists. split; [reflexivity|]. split; [exact Hp|by left]. }
  cbn [ack_wait_start set_o_metrics].
  set (start := if ack_wait_start o =? 0 then now_ms t else ack_wait_start o).
  destruct (Z.ltb_spec kAckGraceMs (u64 (now_ms t - start))).
  - destruct (store_pending_spec 0 ep (current_version (o_reg o)) (set_o_metrics
      (set_ack_wait_ms (u64 (ack_wait_ms (o_metrics (set_o_metrics m o)) +
        u64 (now_ms t - start))) (o_metrics (set_o_metrics m o))) (set_o_metrics m o)) (oc_reg _ Hc) Hq)
      as (o1 & -> & Hp & _). rewrite bind_Ok_l. eexists. split; [reflexivity|]. split; [exact Hp|by left].
  - eexists. split; [reflexivity|]. split; [done|]. right. split; [apply Hs|]. by split.
Qed.

Section drain.
Context (server_name : string) (d : DataPlaneLudo).

(** What the replay of the deferred operations needs: the wrapper's region [r]
    is mapped, its index and entries fit together, every deferred key is
    located, and the array has room for the deferred inserts. *)
Definition drainable (o : Orch) (v : Z) (w : packed_data) (r : shm_region) : Prop :=
  o_wrapper o = Some (v, w) /\ o_shm o !! numa_region_name server_name v = Some r /\
  table_ok d (MkTable (r_ludo r) (r_packed r) w) /\
  Forall (fun di => located d (di_key di)) (deferred_inserts o) /\
  Forall (fun dd => located d (dd_key dd)) (deferred_deletes o) /\
  num w + Z.of_nat (length (deferred_inserts o)) <= numElements w.

(** The state after the drain of [o]: every deferred operation had its effect
    on the region [v], in order, inserts first. *)
Definition drained (o : Orch) (v : Z) (w : packed_data) (r : shm_region) (o' : Orch) : Prop :=
  exists t, replay_run d (deferred_inserts o) (deferred_deletes o)
      (MkTable (r_ludo r) (r_packed r) w) t /\
    o_wrapper o' = Some (v, t_pd t) /\
    o_shm o' = <[numa_region_name server_name v :=
      MkRegion (r_size r) (t_mem t) (t_bks t) (r_locks r)]> (o_shm o) /\
    deferred_inserts o' = [] /\ deferred_deletes o' = [] /\
    pending_old_ver o' = pending_old_ver o /\
    current_version (o_reg o') = current_version (o_reg o).

Lemma allow_cleanup_total o : reg_inv (o_reg o) -> exists o', allow_cleanup o = Ok o' /\
  same_payload o o'.
Proof.
  intros Hr. unfold allow_cleanup, old_epoch. destruct (0 <? pending_old_ver o).
  - destruct (epoch_at (o_reg o) (pending_old_ver o) Hr) as [ep He]. rewrite He, !bind_Ok_l.
    destruct (put_epoch_at (o_reg o) (pending_old_ver o) (set_cleanup_allowed 1 ep) Hr) as [reg Hp].
    rewrite Hp, bind_Ok_l. eexists. split; [reflexivity|].
    apply put_epoch_inv in Hp as (_ & Hf & _); [|done|by apply (epoch_quiet _ _ _ Hr He)].
    repeat split. apply Hf.
  - rewrite bind_Ok_l. by exists o.
Qed.

Lemma old_epoch_quiet o : reg_inv (o_reg o) -> exists old, old_epoch o = Ok old /\
  match old with Some ep => quiet_epoch ep | None => True end.
Proof.
  intros Hr. unfold old_epoch. destruct (0 <? pending_old_ver o); [|by exists None].
  destruct (epoch_at (o_reg o) (pending_old_ver o) Hr) as [ep He]. rewrite He, bind_Ok_l.
  exists (Some ep). split; [done|]. by apply (epoch_quiet _ _ _ Hr He).
Qed.

Lemma drain_spec clk o v w r : orch_core o -> in_state DRAIN_OLD o -> drainable o v w r ->
  exists o', drain_old server_name (Some d) clk o = Ok o' /\
    resize_state (o_reg o') = ResizeState_code GC_PENDING /\ drained o v w r o' /\
    gc_start_time o' = now_ms (clk 2%nat).
Proof.
  intros Hc Hs (Hw & Hr & Hok & Hi & Hd & Hroom). unfold drain_old. cbv zeta.
  destruct (old_epoch_quiet o (oc_reg _ Hc)) as (old & -> & Hq). rewrite bind_Ok_l.
  replace (match old with Some ep => 0 <? active_writers ep | None => false end) with false
    by (destruct old as [ep|]; [by destruct Hq as [_ ->]|done]).
  unfold replay_queues. rewrite Hw. unfold region_at. rewrite Hr, bind_Ok_l.
  destruct (replay_all_spec d _ _ Hi Hd _ Hok Hroom) as (t & Ht & _ & Hrun). rewrite Ht, !bind_Ok_l.
  match goal with |- context [allow_cleanup ?x] => destruct (allow_cleanup_total x) as (o2 & -> & Hp) end.
  { exact (oc_reg _ (pop_all_core o Hc)). }
  rewrite bind_Ok_l. eexists. split; [reflexivity|]. split; [done|]. split; [|done].
  destruct Hp as (P1 & P2 & P3 & P4 & P5 & P6).
  exists t. split; [done|]. cbn. rewrite P1, P2, P3, P4, P5, P6. done.
Qed.

(** C9: The drain, when the replay can run ([drainable]: the index and the
    entries of the new region fit together, every deferred key is located, and
    the entry array has room for every deferred insert): [drain_old] never
    fails; each deferred insert in order and then each deferred delete in order
    has its effect on the new region ([replay_run]: the insert appends the
    pair, overwrites the key's entry or is dropped, as the row asks
    ([replayed]); the delete removes the key's cell and entry when there is
    one ([deleted])); both queues and their counters are left empty, and
    the machine moves on to GC_PENDING, where mutations are no longer blocked. *)
Theorem drain_complete clk o v w r : orch_inv o ->
  resize_state (o_reg o) = ResizeState_code DRAIN_OLD -> drainable o v w r ->
  exists o', drain_old server_name (Some d) clk o = Ok o' /\ drained o v w r o' /\
    resize_state (o_reg o') = ResizeState_code GC_PENDING /\ o_blocked o' = false /\
    deferred_insert_count (o_reg o') = 0 /\ deferred_delete_count (o_reg o') = 0.
Proof.
  intros Hinv Hst Hdr. pose proof Hinv as [Hc [s Hs]].
  assert (s = DRAIN_OLD) as -> by (destruct Hs as [Hs _]; rewrite Hs in Hst; by destruct s).
  destruct (drain_spec clk o v w r Hc Hs Hdr) as (o' & E & Hs' & Hd & _).
  exists o'. split; [done|]. split; [done|]. split; [done|].
  apply drain_ok in E as [[_ Hi' Hd' _] Ha]; [|done|done].
  destruct Ha as (s1 & s2 & n & _ & (Hs2 & Hb & _) & _). rewrite Hs' in Hs2.
  destruct Hd as (t & _ & _ & _ & Eq1 & Eq2 & _). rewrite Hi', Hd', Eq1, Eq2.
  split; [by destruct s2|done].
Qed.

Lemma gc_spec t o : orch_core o -> in_state GC_PENDING o -> 0 < gc_start_time o ->
  kGcGraceMs <= u64 (now_ms t - gc_start_time o) ->
  exists o', maybe_gc server_name (fun _ => t) o = Ok o' /\
    resize_state (o_reg o') = ResizeState_code NORMAL /\ o_blocked o' = false /\
    o_shm o' = delete (numa_region_name server_name (pending_old_ver o)) (o_shm o) /\
    deferred_inserts o' = deferred_inserts o /\ deferred_deletes o' = deferred_deletes o /\
    pending_old_ver o' = 0 /\ previous_version (o_reg o') = 0 /\
    current_version (o_reg o') = current_version (o_reg o).
Proof.
  intros Hc Hs Hg Ht. unfold maybe_gc. cbv zeta.
  destruct (Z.eqb_spec (gc_start_time o) 0); [lia|].
  destruct (Z.ltb_spec (u64 (now_ms t - gc_start_time o)) kGcGraceMs); [lia|].
  destruct (old_epoch_quiet (set_gc_start_time (gc_start_time o) o) (oc_reg _ Hc)) as (old & -> & Hq).
  rewrite bind_Ok_l.
  replace (match old with Some ep => 0 <? active_readers ep | None => false end) with false
    by (destruct old as [ep|]; [by destruct Hq as [-> _]|done]).
  eexists. split; [reflexivity|]. cbn. split; [done|]. split; [done|]. split; [|done].
  destruct Hs as (_ & _ & _ & _ & Hp & _).
  destruct (Z.ltb_spec 0 (pending_old_ver o)); [done|lia].
Qed.

(** [check_state] at the times [ts] (nanoseconds). *)
Definition tick (env : tick_env) (o : Orch) (t : Z) : res Orch :=
  check_state server_name (Some d)
    (MkTick (fun _ => t) (tk_os env) (tk_fd env) (tk_junk env) (tk_free env)) o.

Definition completed (o : Orch) (v : Z) (w : packed_data) (r : shm_region) (o' : Orch) : Prop :=
  resize_state (o_reg o') = ResizeState_code NORMAL /\ o_blocked o' = false /\
  deferred_inserts o' = [] /\ deferred_deletes o' = [] /\
  pending_old_ver o' = 0 /\ previous_version (o_reg o') = 0 /\
  current_version (o_reg o') = current_version (o_reg o) /\
  exists t, replay_run d (deferred_inserts o) (deferred_deletes o)
      (MkTable (r_ludo r) (r_packed r) w) t /\
    o_shm o' = delete (numa_region_name server_name (pending_old_ver o))
      (<[numa_region_name server_name v :=
        MkRegion (r_size r) (t_mem t) (t_bks t) (r_locks r)]> (o_shm o)).

Lemma tick_in s env o t : resize_state (o_reg o) = ResizeState_code s ->
  tick env o t = match s with
    | NORMAL => maybe_trigger_pre_resize o
    | PRE_RESIZE => maybe_start_copying server_name (fun _ => t) (tk_os env) (tk_fd env)
        (tk_junk env) (tk_free env) o
    | READY_TO_SWITCH => wait_for_acks_or_timeout (fun _ => t) o
    | DRAIN_OLD => drain_old server_name (Some d) (fun _ => t) o
    | GC_PENDING => maybe_gc server_name (fun _ => t) o
    | COPYING => Ok o
    end.
Proof. intros E. unfold tick, check_state. rewrite E. by destruct s. Qed.

Lemma tick_inv env o o' t : orch_inv o -> tick env o t = Ok o' -> orch_inv o'.
Proof. intros Hi H. apply check_state_steps in H. by eapply orch_steps_inv. Qed.

(** From DRAIN_OLD two ticks lead to NORMAL. *)
Lemma finish env t1 t2 o v w r : orch_inv o -> resize_state (o_reg o) = ResizeState_code DRAIN_OLD ->
  drainable o v w r -> 0 < now_ms t1 -> now_ms t1 + kGcGraceMs <= now_ms t2 < 2 ^ 64 ->
  exists o', foldM (tick env) [t1; t2] o = Ok o' /\ completed o v w r o'.
Proof.
  intros Hi Hst Hdr Ht1 Ht2. cbn [foldM]. rewrite (tick_in DRAIN_OLD) by done.
  destruct (drain_spec (fun _ => t1) o v w r (proj1 Hi) (state_in DRAIN_OLD o Hi Hst) Hdr)
    as (o1 & E & Hst1 & Hd & Hgc).
  assert (Hi1 : orch_inv o1) by (apply (tick_inv env o o1 t1 Hi); by rewrite (tick_in DRAIN_OLD)).
  rewrite E, bind_Ok_l, (tick_in GC_PENDING) by done.
  destruct (gc_spec t2 o1 (proj1 Hi1) (state_in GC_PENDING o1 Hi1 Hst1)) as
    (o2 & E2 & Hst2 & Hb & Hshm & Hq1 & Hq2 & Hp & Hpv & Hcv).
  { by rewrite Hgc. }
  { rewrite Hgc, wrap_id; unfold is_word, kGcGraceMs in *; lia. }
  rewrite E2, bind_Ok_l. exists o2. split; [done|].
  destruct Hd as (t & Ht & _ & Hshm1 & Hq1' & Hq2' & Hpo & Hcv').
  do 2 (split; [done|]). do 2 (split; [congruence|]). do 2 (split; [done|]). split; [congruence|].
  exists t. split; [done|]. by rewrite Hshm, Hshm1, Hpo.
Qed.

(** C5: A resize ends when its replay can run ([drainable]: the index and the
    entries of the new region fit together, every deferred key is located, and
    the entry array has room for every deferred insert; with a full array
    [bulk_load_data] exits): from READY_TO_SWITCH at most four calls of
    [check_state], the first two more than the grace period of 5 s apart and the
    others 2 s apart, each reading one time, bring the machine back to NORMAL,
    whatever the clients did or did not acknowledge: every deferred operation
    has had its effect, inserts first ([replay_run]), the queues are empty, the
    old region is unlinked, mutations are allowed again. *)
Theorem resize_completes env t0 t1 t2 t3 o v w r :
  orch_inv o -> resize_state (o_reg o) = ResizeState_code READY_TO_SWITCH -> drainable o v w r ->
  0 <= ack_wait_start o <= now_ms t0 -> 0 < now_ms t0 -> now_ms t0 + kAckGraceMs < now_ms t1 ->
  now_ms t1 + kGcGraceMs <= now_ms t2 -> now_ms t2 + kGcGraceMs <= now_ms t3 < 2 ^ 64 ->
  exists n o', (n <= 4)%nat /\ foldM (tick env) (take n [t0; t1; t2; t3]) o = Ok o' /\
    completed o v w r o'.
Proof.
  intros Hi Hst Hdr Ha Ht0 Ht1 Ht2 Ht3. unfold kAckGraceMs, kGcGraceMs in *.
  assert (Hpay : forall o1, same_payload o o1 -> drainable o1 v w r /\
    forall o2, completed o1 v w r o2 -> completed o v w r o2).
  { intros o1 (E1 & E2 & E3 & E4 & E5 & E6). unfold drainable, completed.
    rewrite E1, E2, E3, E4, E5, E6. done. }
  destruct (wait_spec t0 o (proj1 Hi) (state_in _ o Hi Hst)) as (o1 & E & Hp & Hcase).
  assert (Hi1 : orch_inv o1) by (apply (tick_inv env o o1 t0 Hi); by rewrite (tick_in READY_TO_SWITCH)).
  destruct (Hpay o1 Hp) as [Hdr1 Hcomp]. destruct Hcase as [Hst1|(Hst1 & Hstart & _)].
  - destruct (finish env t1 t2 o1 v w r Hi1 Hst1 Hdr1) as (o3 & Ef & Hc); [lia|unfold kGcGraceMs; lia|].
    exists 3%nat, o3. split; [lia|]. split; [|by apply Hcomp]. cbn [take foldM].
    rewrite (tick_in READY_TO_SWITCH), E, bind_Ok_l by done. exact Ef.
  - destruct (wait_spec t1 o1 (proj1 Hi1) (state_in _ o1 Hi1 Hst1)) as (o2 & E2 & Hp2 & Hcase2).
    assert (Hi2 : orch_inv o2) by (apply (tick_inv env o1 o2 t1 Hi1); by rewrite (tick_in READY_TO_SWITCH)).
    assert (Hp02 : same_payload o o2) by (unfold same_payload in *; intuition congruence).
    destruct (Hpay o2 Hp02) as [Hdr2 Hcomp2].
    assert (Hs1 : 0 < ack_wait_start o1 <= now_ms t0)
      by (rewrite Hstart; destruct (Z.eqb_spec (ack_wait_start o) 0); lia).
    destruct Hcase2 as [Hst2|(_ & Hstart2 & Hle)].
    2:{ exfalso. rewrite Hstart2 in Hle. destruct (Z.eqb_spec (ack_wait_start o1) 0); [lia|].
        rewrite wrap_id in Hle; unfold is_word, kAckGraceMs in *; lia. }
    destruct (finish env t2 t3 o2 v w r Hi2 Hst2 Hdr2) as (o4 & Ef & Hc); [lia|unfold kGcGraceMs; lia|].
    exists 4%nat, o4. split; [lia|]. split; [|by apply Hcomp2]. cbn [take foldM].
    rewrite (tick_in READY_TO_SWITCH), E, bind_Ok_l by done.
    rewrite (tick_in READY_TO_SWITCH), E2, bind_Ok_l by done. exact Ef.
Qed.
End drain.

(** ** The server's operations during a resize *)



(** ** An instance *)

Lemma zero_quiet n : Forall quiet_epoch (replicate n zero_epoch).
Proof. by apply Forall_replicate. Qed.

Definition demo_layout : Layout := region_layout 4 32 32.
Definition demo_epoch : ResizeEpoch :=
  MkEpoch 1 0 (total_size demo_layout) 32 4 (packed_off demo_layout) (ludo_off demo_layout)
    (lock_off demo_layout) 1 0 1 0 0 0 1 0.

Definition demo_registry (s : ResizeState) (cur prev ins : Z) : SharedNumaRegistry :=
  MkRegistry kNumaMetaMagic 1 (ResizeState_code s) cur prev 7 1 0 3 4 0 ins 0 0 0
    (<[1%nat := demo_epoch]> (replicate 16 zero_epoch)) (replicate kMaxClients zero_client) 1
    (<[0%nat := 4]> (replicate kMaxNumaLanes 4)).

Lemma demo_registry_inv s cur prev ins : 0 <= cur -> cur mod 16 <> 0 ->
  reg_inv (demo_registry s cur prev ins).
Proof.
  intros H0 Hc. constructor; cbn [demo_registry epoch clients lane_next_free_index mem_threads
    current_version registered_clients generation]; try done.
  - apply Forall_insert; [apply zero_quiet|by split].
  - apply Forall_replicate. by left.
Qed.

Definition demo_shm : regions :=
  {[numa_region_name "s" 1 := zero_region (total_size demo_layout) 4 32 32]}.

Definition demo_orch (s : ResizeState) : Orch :=
  MkOrch (demo_registry s 1 0 0) demo_shm false true true (MkSrv 1 5 32 4) None [] [] 0 None (-1)
    0 0 0 zero_metrics.

Lemma demo_orch_inv s : s = NORMAL \/ s = PRE_RESIZE -> orch_inv (demo_orch s).
Proof.
  intros Hs. split.
  - constructor; cbn; [by apply demo_registry_inv|done|done|]. unfold kMaxDeferredDepth. lia.
  - exists s. destruct Hs as [->| ->]; by repeat split.
Qed.

Lemma resize_invariant_witness :
  let o := fst (defer_insert 5 7 70 (set_state COPYING (set_state PRE_RESIZE (demo_orch NORMAL)))) in
  let reg' := o_reg o in
  (o_blocked o = true <-> resize_state reg' = ResizeState_code COPYING \/
     resize_state reg' = ResizeState_code READY_TO_SWITCH \/
     resize_state reg' = ResizeState_code DRAIN_OLD) /\
  deferred_insert_count reg' = Z.of_nat (length (deferred_inserts o)) /\
  deferred_delete_count reg' = Z.of_nat (length (deferred_deletes o)) /\
  Z.of_nat (length (deferred_inserts o)) <= 1000000 /\
  Z.of_nat (length (deferred_deletes o)) <= 1000000 /\
  registered_clients reg' = Z.of_nat (length (filter is_active (clients reg'))) /\
  current_version reg' mod 16 <> 0 /\ srv_region (o_srv o) = current_version reg' /\
  previous_version reg' = pending_old_ver o /\
  (pending_old_ver o = 0 <-> resize_state reg' = ResizeState_code NORMAL \/
     resize_state reg' = ResizeState_code PRE_RESIZE \/
     resize_state reg' = ResizeState_code COPYING).
Proof.
  apply (resize_invariant "s" None (demo_registry NORMAL 1 0 0) demo_shm (MkSrv 1 5 32 4));
    [by apply demo_registry_inv|reflexivity..|].
  (* a tick, the beginning of a copy, and a deferral while it is under way *)
  eapply rtc_l; [|eapply rtc_l; [|eapply rtc_l; [|apply rtc_refl]]].
  - apply (StTick "s" None _ _ (MkTick (fun _ => 0) (MkOs true true true) 6 zero_struct None));
      [discriminate|discriminate|reflexivity].
  - apply (StCopyBegin "s" None (set_state PRE_RESIZE (demo_orch NORMAL)) (set_state PRE_RESIZE (demo_orch NORMAL)) None); reflexivity.
  - apply StDeferInsert.
Defined.

Lemma resize_transitions_witness :
  let o' := set_state PRE_RESIZE (demo_orch NORMAL) in
  exists s s', resize_state (o_reg (demo_orch NORMAL)) = ResizeState_code s /\
    resize_state (o_reg o') = ResizeState_code s' /\ edge s s' /\
    (generation (o_reg o') = generation (o_reg (demo_orch NORMAL)) ->
     s' = s /\ current_version (o_reg o') = current_version (o_reg (demo_orch NORMAL))).
Proof.
  apply (resize_transitions "s" None (demo_orch NORMAL)); [by apply demo_orch_inv; left|].
  apply (StTick "s" None _ _ (MkTick (fun _ => 0) (MkOs true true true) 6 zero_struct None));
    [discriminate|discriminate|reflexivity].
Defined.

Lemma demo_copyable : copyable "s" (demo_orch PRE_RESIZE) demo_epoch
  (zero_region (total_size demo_layout) 4 32 32).
Proof.
  constructor; try (vm_compute; congruence); cbn [demo_epoch num_buckets num_data_entries]; try done; lia.
Qed.

Lemma do_copy_effect_witness :
  let o := demo_orch PRE_RESIZE in let ep := demo_epoch in
  let r := zero_region (total_size demo_layout) 4 32 32 in
  let v := current_version (o_reg o) in let junk := PackedStruct 9 9 9 in
  exists o' r' ep', do_copy "s" (fun _ => 0) (MkOs true true true) 6 junk v o = Ok o' /\
    resize_state (o_reg o') = ResizeState_code READY_TO_SWITCH /\ o_blocked o' = true /\
    current_version (o_reg o') = next_version v /\ pending_old_ver o' = v /\
    o_shm o' !! numa_region_name "s" (next_version v) = Some r' /\
    r_ludo r' = r_ludo r ++ new_buckets (length (r_ludo r)) /\
    r_packed r' = replicate (2 * length (r_packed r)) junk /\
    r_locks r' = replicate (2 * length (r_ludo r)) 0 /\
    o_shm o' !! numa_region_name "s" v = Some r /\
    rd (epoch (o_reg o')) (epoch_slot v) = Ok ep /\
    rd (epoch (o_reg o')) (epoch_slot (next_version v)) = Ok ep' /\
    published ep' = 1 /\ num_buckets ep' = num_buckets ep * 2 /\
    num_data_entries ep' = num_data_entries ep * 2 /\ region_size ep' = r_size r' /\
    bucket_size_each ep' = bucket_size_each ep /\
    clients_pending_ack ep' = Z.of_nat (length (filter is_active (clients (o_reg o)))) /\
    forall i, 0 <= i < Z.of_nat (lanes_of (o_reg o)) ->
      rd (lane_next_free_index (o_reg o')) i = Ok (u64 (num_data_entries ep + i)).
Proof.
  apply (do_copy_effect "s" (fun _ => 0) 6 (PackedStruct 9 9 9) (demo_orch PRE_RESIZE) demo_epoch);
    [by apply demo_orch_inv; right|reflexivity|apply demo_copyable].
Defined.

(** In the middle of a resize, with one deferred insert. *)
Definition demo_mid (s : ResizeState) : Orch :=
  MkOrch (demo_registry s 2 1 1) {[numa_region_name "s" 2 := zero_region 8192 8 64 64]} true true true
    (MkSrv 2 6 64 8) (Some (2, PackedData 0 8)) [MkDefIns 7 70 1] [] 1 (Some 1) 5 4096
    0 0 zero_metrics.

Lemma demo_mid_inv s : s = READY_TO_SWITCH \/ s = DRAIN_OLD -> orch_inv (demo_mid s).
Proof.
  intros Hs. split.
  - constructor; cbn; [by apply demo_registry_inv|done|done|]. unfold kMaxDeferredDepth. lia.
  - exists s. destruct Hs as [->| ->]; (repeat split; try done); by eexists.
Qed.

Lemma demo_drainable s : drainable "s" demo_dp (demo_mid s) 2 (PackedData 0 8) (zero_region 8192 8 64 64).
Proof.
  split; [done|]. split; [apply lookup_singleton_eq|]. split.
  - constructor; cbn [t_bks t_mem t_pd zero_region r_ludo r_packed num numElements]; try lia.
    + by repeat constructor.
    + change (length (dp_buckets demo_dp)) with 4%nat. unfold new_buckets.
      rewrite length_replicate. lia.
    + intros row slot c Hc. rewrite (new_buckets_cell 64 row slot c Hc).
      rewrite length_replicate. change (toAddr 0) with 0. lia.
    + by rewrite length_replicate.
  - split; [|split; [done|cbn; lia]]. constructor; [apply demo_located|done].
Qed.

Lemma drain_complete_witness :
  exists o', drain_old "s" (Some demo_dp) (fun _ => 9) (demo_mid DRAIN_OLD) = Ok o' /\
    drained "s" demo_dp (demo_mid DRAIN_OLD) 2 (PackedData 0 8) (zero_region 8192 8 64 64) o' /\
    resize_state (o_reg o') = ResizeState_code GC_PENDING /\ o_blocked o' = false /\
    deferred_insert_count (o_reg o') = 0 /\ deferred_delete_count (o_reg o') = 0.
Proof.
  apply (drain_complete "s" demo_dp (fun _ => 9) (demo_mid DRAIN_OLD) 2 (PackedData 0 8));
    [by apply demo_mid_inv; right|reflexivity|apply demo_drainable].
Defined.

Lemma resize_completes_witness :
  let env := MkTick (fun _ => 0) (MkOs true true true) 6 zero_struct None in
  exists n o', (n <= 4)%nat /\
    foldM (tick "s" demo_dp env) (take n [1000000; 6000000000; 9000000000; 12000000000])
      (demo_mid READY_TO_SWITCH) = Ok o' /\
    completed "s" demo_dp (demo_mid READY_TO_SWITCH) 2 (PackedData 0 8) (zero_region 8192 8 64 64) o'.
Proof.
  apply (resize_completes "s" demo_dp _ 1000000 6000000000 9000000000 12000000000
    (demo_mid READY_TO_SWITCH) 2 (PackedData 0 8));
    [by apply demo_mid_inv; left|reflexivity|apply demo_drainable|vm_compute; by split..| |
     vm_compute; by split]; reflexivity || (vm_compute; congruence) || (vm_compute; by split).
Defined.


Lemma resize_retriggers_witness :
  exists o' mx, do_copy "s" (fun _ => 0) (MkOs true true true) 6 zero_struct 1 (demo_orch PRE_RESIZE) = Ok o' /\
    current_fill (o_reg o') = Ok mx /\ s_stop (o_reg o') <= mx /\
    maybe_trigger_pre_resize o' = Ok (set_state PRE_RESIZE o').
Proof.
  apply (resize_retriggers "s" (fun _ => 0) 6 zero_struct (demo_orch PRE_RESIZE) demo_epoch
    (zero_region (total_size demo_layout) 4 32 32));
    [by apply demo_orch_inv; right|reflexivity|apply demo_copyable|cbn; lia|cbn; lia].
Defined.
