(* ===== verification/ClientNuma.v ===== *)
(** * The NUMA client (outback/outback_client_numa.hh)

    A client thread with what it shares: the registry, the data regions and its
    own copy of the lookup structure.  A pointer into a region is the version
    the region was mapped for, or dangling after the region was unmapped and
    the wrapper deleted.  A thread that finds a row's lock byte taken
    spins; the functions below are the runs in which it does not wait. *)

From Stdlib Require Import ZArith Lia.
From stdpp Require Import base numbers strings gmap list.
From S2P Require Import Prelude Words Hash PackedData LudoSlot LruCache ServerRdma ServerInv.
From S2P Require Import LudoDP NumaTable NumaTransport Replay Resize.

#[local] Open Scope Z_scope.

Inductive pointer := Live (v : Z) | Dangling.

Record ClientRegionState := MkCrs {
  local_version : Z;
  local_generation : Z;
  crs_base : option Z;        (* region_base, region_fd: the mapping this thread owns *)
  crs_region_size : Z;        (* region_size *)
  crs_tables : option Z;      (* ludo_buckets, packed_data *)
  crs_lock : option pointer;  (* lock_array *)
  client_slot : Z;
}.

Definition zero_crs : ClientRegionState := MkCrs 0 0 None 0 None None (-1).

(** [remote_ludo_buckets], [remote_packed_data], [remote_lock_array]: null, those
    of a server in this process, those that connecting made and [t_region] also
    holds, or dangling. *)
Inductive remote_pointers := RNull | RServer (v : Z) | RThread (v : Z) | RDangling.

Record client := MkCl {
  cl_registry : bool;            (* remote_registry is not null *)
  remote_lane_id : Z;
  t_region : ClientRegionState;
  remote_tables : remote_pointers;
}.

Definition remote_pointer (r : remote_pointers) : option pointer :=
  match r with
  | RNull => None | RServer v | RThread v => Some (Live v) | RDangling => Some Dangling
  end.

Record world := MkWorld {
  w_reg : SharedNumaRegistry;
  w_shm : regions;
  w_lookup : DataPlaneLudo;      (* ludo_lookup_unit *)
  w_cl : client;
}.

Definition set_w_reg (v : _) (w : world) : world := MkWorld v (w_shm w) (w_lookup w) (w_cl w).
Definition set_w_shm (v : _) (w : world) : world := MkWorld (w_reg w) v (w_lookup w) (w_cl w).
Definition set_w_lookup (v : _) (w : world) : world := MkWorld (w_reg w) (w_shm w) v (w_cl w).
Definition set_w_cl (v : _) (w : world) : world := MkWorld (w_reg w) (w_shm w) (w_lookup w) v.
Definition set_t_region (v : _) (c : client) : client :=
  MkCl (cl_registry c) (remote_lane_id c) v (remote_tables c).
Definition set_remote_tables (v : _) (c : client) : client :=
  MkCl (cl_registry c) (remote_lane_id c) (t_region c) v.
Definition set_remote_lane_id (v : _) (c : client) : client :=
  MkCl (cl_registry c) v (t_region c) (remote_tables c).
Definition set_cl_registry (v : _) (c : client) : client :=
  MkCl v (remote_lane_id c) (t_region c) (remote_tables c).

(** ** Allocation *)

Definition alloc_lanes (reg : SharedNumaRegistry) : Z :=
  if mem_threads reg =? 0 then 1 else Z.min (mem_threads reg) (Z.of_nat kMaxNumaLanes).

(** On the registry, for a thread of lane [lane_id]. *)
Definition alloc_slot (lane_id : Z) (reg : SharedNumaRegistry)
    : res (SharedNumaRegistry * option Z) :=
  let lanes := alloc_lanes reg in
  let lane := lane_id mod lanes in
  ep ← current_epoch reg;
  idx ← rd (lane_next_free_index reg) lane;
  l ← wr (lane_next_free_index reg) lane (u64 (idx + lanes));
  Ok (set_lane_next_free_index l reg, if num_data_entries ep <=? idx then None else Some idx).

(** For a thread, on the registry and on the world. *)
Definition thread_alloc (c : client) (reg : SharedNumaRegistry)
    : res (SharedNumaRegistry * option Z) :=
  if negb (cl_registry c) then Ok (reg, None) else alloc_slot (remote_lane_id c) reg.

Definition alloc_remote_data_slot (w : world) : res (world * option Z) :=
  '(reg, i) ← thread_alloc (w_cl w) (w_reg w); Ok (set_w_reg reg w, i).

(** ** Heartbeat and version *)

Definition client_heartbeat (now : Z) (w : world) : res world :=
  let slot := client_slot (t_region (w_cl w)) in
  if negb (cl_registry (w_cl w)) then Ok w
  else if slot <? 0 then Ok w
  else
    let reg := w_reg w in
    c ← rd (clients reg) slot;
    l ← wr (clients reg) slot (MkClient now (generation reg) (active c));
    Ok (set_w_reg (set_clients l reg) w).

(** [ep.clients_pending_ack.fetch_sub(1)] in the slot of [ver]. *)
Definition acknowledge (ver : Z) (w : world) : res world :=
  ep ← rd (epoch (w_reg w)) (epoch_slot ver);
  reg ← put_epoch ver (set_clients_pending_ack (u64 (clients_pending_ack ep - 1)) ep) (w_reg w);
  Ok (set_w_reg reg w).

Section client.
Context (server_name : string).

(** The typed wrappers over the region of [ver], newly mapped as [r]: the
    constructor of [packed_data_t] writes the uninitialised struct [junk] over
    the [num_data_entries] entries of the shared array. *)
Definition attach_tables (junk : packed_struct) (ver : Z) (ep : ResizeEpoch) (r : shm_region)
    (shm : regions) : res regions :=
  '(packed, _) ← attach_packed_data junk (r_packed r) (Z.to_nat (num_data_entries ep));
  Ok (<[numa_region_name server_name ver := MkRegion (r_size r) packed (r_ludo r) (r_locks r)]> shm).

(** The mapping the thread owns is given up: the wrappers are deleted - also
    for [remote_*], when they are the same - and the lock array's pointer is
    left as it is. *)
Definition unmap_region (c : client) : client :=
  let t := t_region c in
  match crs_base t with
  | None => c
  | Some _ =>
      MkCl (cl_registry c) (remote_lane_id c)
        (MkCrs (local_version t) (local_generation t) (crs_base t) (crs_region_size t) None
          (match crs_lock t with Some _ => Some Dangling | None => None end) (client_slot t))
        (match remote_tables c with RThread _ => RDangling | r => r end)
  end.

Definition remap_to_current_epoch (os : os_env) (now : Z) (junk : packed_struct) (w : world)
    : res (world * bool) :=
  if negb (cl_registry (w_cl w)) then Ok (w, false)
  else
    let new_ver := current_version (w_reg w) in
    ep ← rd (epoch (w_reg w)) (epoch_slot new_ver);
    if published ep =? 0 then Ok (w, false)
    else
      let w0 := set_w_cl (unmap_region (w_cl w)) w in
      match open_shared_numa_region os server_name new_ver (w_shm w0) with
      | None => Ok (w0, false)
      | Some r =>
          shm ← attach_tables junk new_ver ep r (w_shm w0);
          let t1 := MkCrs new_ver (generation (w_reg w0)) (Some new_ver) (region_size ep)
                      (Some new_ver) (Some (Live new_ver)) (client_slot (t_region (w_cl w0))) in
          w1 ← acknowledge new_ver (set_w_shm shm (set_w_cl (set_t_region t1 (w_cl w0)) w0));
          w2 ← client_heartbeat now w1;
          Ok (w2, true)
      end.

Definition maybe_check_version (os : os_env) (now : Z) (junk : packed_struct) (w : world)
    : res world :=
  if negb (cl_registry (w_cl w)) then Ok w
  else
    let t := t_region (w_cl w) in
    let cur_gen := generation (w_reg w) in
    if cur_gen =? local_generation t then Ok w
    else if negb (current_version (w_reg w) =? local_version t) then
      '(w', _) ← remap_to_current_epoch os now junk w; Ok w'
    else
      let t' := MkCrs (local_version t) cur_gen (crs_base t) (crs_region_size t) (crs_tables t)
                  (crs_lock t) (client_slot t) in
      client_heartbeat now (set_w_cl (set_t_region t' (w_cl w)) w).

(** ** Data operations

    On the region [r] that the thread's pointers lead to; [d] is the lookup
    structure. *)

(** [t_region.x ? t_region.x : remote_x] *)
Definition tables_of (c : client) : option pointer :=
  match crs_tables (t_region c) with
  | Some v => Some (Live v) | None => remote_pointer (remote_tables c)
  end.

Definition lock_of (c : client) : option pointer :=
  match crs_lock (t_region c) with Some p => Some p | None => remote_pointer (remote_tables c) end.

(** The loop of the fallback over the other cells of the row. *)
Fixpoint makeup_get (sl : list Z) (b : list ludo_bucket) (m : region) (k row slot : Z)
    : res (option Z) :=
  match sl with
  | [] => Ok None
  | s :: sl =>
      if s =? u8 slot then makeup_get sl b m k row slot
      else
        a ← read_addr b row s;
        if a =? 0 then makeup_get sl b m k row slot
        else
          k' ← read_key m a;
          if k' =? k then e ← rd m a; Ok (Some (data e)) else makeup_get sl b m k row slot
  end.

Definition search_row (d : DataPlaneLudo) (b : list ludo_bucket) (m : region) (k : Z)
    : res (option Z) :=
  '(row, slot) ← locate_key d k;
  addr ← read_addr b row slot;
  stored ← read_key m addr;
  if stored =? k then e ← rd m addr; Ok (Some (data e))
  else makeup_get row_slots b m k row slot.

(** The body between [numa_lock_byte] and [numa_unlock_byte] of [numa_put]: index,
    entries, registry and lookup structure.  [alloc] is
    [alloc_remote_data_slot] of the thread. *)
Section put.
Context (alloc : SharedNumaRegistry -> res (SharedNumaRegistry * option Z)).

(** [if (slot_addr) { i = its value; update_data(i, ...); write_addr(key, row, s, i); }] *)
Definition place_new (b : list ludo_bucket) (m : region) (reg : SharedNumaRegistry) (k row s v : Z)
    : res (list ludo_bucket * region * SharedNumaRegistry) :=
  '(reg', i) ← alloc reg;
  match i with
  | None => Ok (b, m, reg')
  | Some a =>
      '(m', _) ← update_data m a k sizeof_ValType v;
      b' ← write_addr b k row s a 64;
      Ok (b', m', reg')
  end.

Definition put_locked (d : DataPlaneLudo) (b : list ludo_bucket) (m : region)
    (reg : SharedNumaRegistry) (row k v : Z)
    : res (list ludo_bucket * region * SharedNumaRegistry * DataPlaneLudo) :=
  seed ← rd (dp_buckets d) row;
  let slot := slot_of seed k in
  st ← check_slots b k row slot;
  if st =? 0 then '(b', m', reg') ← place_new b m reg k row slot v; Ok (b', m', reg', d)
  else if st =? 1 then
    addr ← read_addr b row slot;
    k' ← read_key m addr;
    if k' =? k then '(m', _) ← update_data m addr k 64 v; Ok (b, m', reg, d)
    else Ok (b, m, reg, d)
  else if st =? 2 then
    found ← first_empty row_slots b k row;
    match found with
    | Some s => '(b', m', reg') ← place_new b m reg k row s v; Ok (b', m', reg', d)
    | None => Ok (b, m, reg, d)
    end
  else if st =? 3 then
    addr ← read_addr b row slot;
    '(m', _) ← update_data m addr k 64 v;
    d' ← dp_updateSeed d row (seed + 1);
    Ok (b, m', reg, d')
  else Ok (b, m, reg, d).
End put.

(** The lock byte is taken at once, or the thread spins. *)
Definition lock_row (locks : list Z) (row : Z) : res (list Z) :=
  '(l, ok) ← numa_try_lock_byte locks row;
  if ok : bool then Ok l else Err OutOfFuel.

(** The region of a pointer; using a dangling one is undefined. *)
Definition deref (p : pointer) (shm : regions) : res (Z * shm_region) :=
  match p with
  | Live v => r ← region_at server_name v shm; Ok (v, r)
  | Dangling => Err OutOfBounds
  end.

Definition numa_search (os : os_env) (now : Z) (junk : packed_struct) (k : Z) (w0 : world)
    : res (world * option Z) :=
  w ← maybe_check_version os now junk w0;
  match tables_of (w_cl w) with
  | None => Ok (w, None)
  | Some p =>
      '(_, r) ← deref p (w_shm w);
      v ← search_row (w_lookup w) (r_ludo r) (r_packed r) k; Ok (w, v)
  end.

(** [numa_lock_byte] and [numa_unlock_byte] around [body], which works on the
    cells and entries of the thread's region for the row and slot of [k], and
    returns them with some more. *)
Definition with_row_lock {A} (w : world) (k : Z)
    (body : Z -> Z -> list ludo_bucket -> region -> res (list ludo_bucket * region * A))
    : res (option (regions * A)) :=
  match tables_of (w_cl w), lock_of (w_cl w) with
  | Some p, Some pl =>
      '(row, slot) ← locate_key (w_lookup w) k;
      '(lv, rl) ← deref pl (w_shm w);
      locks ← lock_row (r_locks rl) row;
      '(v, r) ← deref p (w_shm w);
      '(b, m, a) ← body row slot (r_ludo r) (r_packed r);
      let shm := put_region server_name v (MkRegion (r_size r) m b (r_locks r)) (w_shm w) in
      '(_, rl') ← deref (Live lv) shm;
      locks' ← numa_unlock_byte locks row;
      Ok (Some (put_region server_name lv (MkRegion (r_size rl') (r_packed rl') (r_ludo rl') locks') shm, a))
  | _, _ => Ok None
  end.

Definition numa_put (os : os_env) (now : Z) (junk : packed_struct) (k v : Z) (w0 : world)
    : res world :=
  w ← maybe_check_version os now junk w0;
  done_ ← with_row_lock w k (fun row _ b m =>
    '(b', m', reg, d) ← put_locked (thread_alloc (w_cl w)) (w_lookup w) b m (w_reg w) row k v;
    Ok (b', m', (reg, d)));
  match done_ with
  | None => Ok w
  | Some (shm, (reg, d)) => Ok (MkWorld reg shm d (w_cl w))
  end.

Definition update_locked (k v row slot : Z) (b : list ludo_bucket) (m : region)
    : res (list ludo_bucket * region * unit) :=
  addr ← read_addr b row slot;
  k' ← read_key m addr;
  if k' =? k then '(m', _) ← update_data m addr k 64 v; Ok (b, m', tt) else Ok (b, m, tt).

Definition numa_update (os : os_env) (now : Z) (junk : packed_struct) (k v : Z) (w0 : world)
    : res world :=
  w ← maybe_check_version os now junk w0;
  done_ ← with_row_lock w k (update_locked k v);
  Ok (match done_ with None => w | Some (shm, _) => set_w_shm shm w end).

Definition remove_locked (k row slot : Z) (b : list ludo_bucket) (m : region)
    : res (list ludo_bucket * region * unit) :=
  addr ← read_addr b row slot;
  '(m', ok) ← remove_data_with_key_check m addr k;
  b' ← (if ok : bool then remove_addr b row slot else Ok b);
  Ok (b', m', tt).

Definition numa_remove (os : os_env) (now : Z) (junk : packed_struct) (k : Z) (w0 : world)
    : res world :=
  w ← maybe_check_version os now junk w0;
  done_ ← with_row_lock w k (remove_locked k);
  Ok (match done_ with None => w | Some (shm, _) => set_w_shm shm w end).

Definition numa_scan (k n : Z) : list Z := [].

(** ** Connecting *)

(** The loop that claims a slot of the client table, or leaves [slot]. *)
Fixpoint connect_slot (fuel : nat) (i : Z) (reg : SharedNumaRegistry) (slot : Z)
    : res (SharedNumaRegistry * Z) :=
  match fuel with
  | O => Ok (reg, slot)
  | S fuel =>
      c ← rd (clients reg) i;
      if active c =? 0 then
        l ← wr (clients reg) i (set_active 1 c);
        Ok (set_registered_clients (u64 (registered_clients reg + 1)) (set_clients l reg), i)
      else connect_slot fuel (i + 1) reg slot
  end.

(** The path for a server of this process; [v] is the version of the region
    its typed pointers lead to. *)
Definition connect_in_process (v : Z) (w : world) : world :=
  let c := w_cl w in
  let t := t_region c in
  let t' := MkCrs (current_version (w_reg w)) (generation (w_reg w)) (crs_base t)
              (crs_region_size t) (Some v) (Some (Live v)) (client_slot t) in
  set_w_cl (MkCl true (remote_lane_id c) t' (RServer v)) w.

(** The cross-process path, the registry object being mapped or not
    ([mapped]). *)
Definition connect_cross_process (os : os_env) (mapped : bool) (now : Z) (junk : packed_struct)
    (w : world) : res (world * bool) :=
  let c := w_cl w in
  if negb mapped then Ok (w, false)
  else if negb (magic (w_reg w) =? kNumaMetaMagic) || (ready (w_reg w) =? 0) then
    Ok (set_w_cl (set_cl_registry false c) w, false)
  else
    let cur_ver := current_version (w_reg w) in
    ep ← rd (epoch (w_reg w)) (epoch_slot cur_ver);
    if published ep =? 0 then Ok (set_w_cl (set_cl_registry false c) w, false)
    else
      let t := t_region c in
      '(reg, slot) ← connect_slot kMaxClients 0 (w_reg w) (client_slot t);
      let t0 := MkCrs (local_version t) (local_generation t) (crs_base t) (crs_region_size t)
                  (crs_tables t) (crs_lock t) slot in
      let w0 := set_w_reg reg (set_w_cl (MkCl true (remote_lane_id c) t0 (remote_tables c)) w) in
      match open_shared_numa_region os server_name cur_ver (w_shm w0) with
      | None => Ok (set_w_cl (set_cl_registry false (w_cl w0)) w0, false)
      | Some r =>
          shm ← attach_tables junk cur_ver ep r (w_shm w0);
          let t1 := MkCrs cur_ver (generation (w_reg w0)) (Some cur_ver) (region_size ep)
                      (Some cur_ver) (Some (Live cur_ver)) slot in
          w1 ← acknowledge cur_ver (set_w_shm shm
            (set_w_cl (MkCl true (remote_lane_id c) t1 (RThread cur_ver)) w0));
          w2 ← client_heartbeat now w1;
          Ok (w2, true)
      end.
End client.
