(* ===== verification/ClientProps.v ===== *)
(** * Properties of the NUMA client

    Allocation in lanes, searching and putting in a row, and that everything a
    client does to the registry is a step the orchestrator's invariant allows
    for. *)

From Stdlib Require Import ZArith Lia.
From stdpp Require Import base numbers strings gmap list.
From S2P Require Import Prelude Words Hash PackedData LudoSlot LruCache ServerRdma ServerInv.
From S2P Require Import LudoDP NumaTable NumaTransport Replay Resize ResizeInv ResizeProps ClientNuma.

#[local] Open Scope Z_scope.

(** ** Lanes *)

(** Allocations by threads of the lanes [ids], in that order. *)
Fixpoint alloc_run (ids : list Z) (reg : SharedNumaRegistry)
    : res (SharedNumaRegistry * list (option Z)) :=
  match ids with
  | [] => Ok (reg, [])
  | id :: ids =>
      '(reg', i) ← alloc_slot id reg;
      '(reg'', out) ← alloc_run ids reg'; Ok (reg'', i :: out)
  end.

Lemma alloc_slot_spec id reg ep (c : Z -> Z) : current_epoch reg = Ok ep ->
  0 < alloc_lanes reg -> (forall i, 0 <= i < alloc_lanes reg -> rd (lane_next_free_index reg) i = Ok (c i)) ->
  let L := alloc_lanes reg in let l := id mod L in
  is_word 64 (c l + L) ->
  exists reg', alloc_slot id reg = Ok (reg', if num_data_entries ep <=? c l then None else Some (c l)) /\
    current_epoch reg' = Ok ep /\ alloc_lanes reg' = L /\
    forall i, 0 <= i < L -> rd (lane_next_free_index reg') i = Ok (if i =? l then c i + L else c i).
Proof.
  intros Hep HL Hc L l Hw. unfold alloc_slot. fold L. fold l.
  assert (Hl : 0 <= l < L) by (apply Z.mod_pos_bound; done).
  rewrite Hep, bind_Ok_l, (Hc l Hl), bind_Ok_l.
  pose proof (wr_in_range (lane_next_free_index reg) l (u64 (c l + L))
    (rd_range _ _ _ (Hc l Hl))) as E.
  rewrite E, bind_Ok_l. eexists. split; [reflexivity|]. split; [exact Hep|]. split; [done|].
  intros i Hi. cbn [lane_next_free_index set_lane_next_free_index].
  destruct (Z.eqb_spec i l) as [->|Hne].
  - rewrite (rd_wr_eq _ _ _ _ E). by rewrite wrap_id.
  - rewrite (rd_wr_ne _ _ _ _ _ E); [by apply Hc|congruence].
Qed.

Lemma alloc_run_spec ids reg ep base (c : Z -> Z) : current_epoch reg = Ok ep ->
  let L := alloc_lanes reg in 0 < L ->
  (forall i, 0 <= i < L -> rd (lane_next_free_index reg) i = Ok (c i) /\ base <= c i /\
     (c i - base) mod L = i /\ c i + L * Z.of_nat (length ids) < 2 ^ 64) ->
  0 <= base ->
  exists reg' out, alloc_run ids reg = Ok (reg', out) /\ length out = length ids /\
    NoDup (omap id out) /\
    Forall (fun x => base <= x < num_data_entries ep /\ c ((x - base) mod L) <= x) (omap id out).
Proof.
  revert reg c. induction ids as [|i ids IH]; intros reg c Hep L HL Hc Hb; cbn [alloc_run].
  { exists reg, []. do 2 (split; [done|]). split; [apply NoDup_nil_2|constructor]. }
  set (l := i mod L). assert (Hl : 0 <= l < L) by (by apply Z.mod_pos_bound).
  cbn [length] in Hc.
  destruct (alloc_slot_spec i reg ep c Hep HL (fun j Hj => proj1 (Hc j Hj))) as (reg1 & E & Hep1 & HL1 & Hrd).
  { destruct (Hc l Hl) as (_ & H1 & _ & H2). fold L. fold l. unfold is_word. nia. }
  fold L in E, Hrd, HL1. fold l in E, Hrd. rewrite E, bind_Ok_l.
  destruct (IH reg1 (fun j => if j =? l then c j + L else c j) Hep1) as (reg2 & out & E2 & Hlen & Hnd & Hall).
  - by rewrite HL1.
  - intros j Hj. rewrite HL1 in *. destruct (Hc j Hj) as (_ & H1 & H2 & H3).
    split; [by apply Hrd|]. destruct (j =? l); [|nia].
    split; [lia|]. split; [|nia].
    replace (c j + L - base) with (c j - base + 1 * L) by lia. by rewrite Z.mod_add by lia.
  - done.
  - rewrite HL1 in Hall. rewrite E2, bind_Ok_l. exists reg2. eexists. split; [reflexivity|].
    destruct (Hc l Hl) as (_ & H1 & H2 & _).
    assert (Hall' : Forall (fun x => base <= x < num_data_entries ep /\ c ((x - base) mod L) <= x)
      (omap id out)).
    { eapply Forall_impl; [exact Hall|]. cbn beta. intros x [Hx Hcx]. split; [done|].
      destruct (_ =? l); lia. }
    split; [cbn [length]; lia|].
    destruct (Z.leb_spec (num_data_entries ep) (c l)); [by split|].
    change (omap id (Some (c l) :: out)) with (c l :: omap id out). split.
    + apply NoDup_cons. split; [|done]. intros Hin.
      destruct (proj1 (Forall_forall _ _) Hall _ Hin) as [_ Hcx]. rewrite H2, Z.eqb_refl in Hcx. lia.
    + constructor; [|done]. split; [lia|]. rewrite H2. lia.
Qed.

(** C39: The lanes: from the counters [base + i] that the server and [do_copy]
    set, allocations by any threads in any order return pairwise different
    indices, all of them between [base] and the number of entries, as long as
    the counters stay below 2^64. *)
Theorem alloc_disjoint ids reg ep base :
  current_epoch reg = Ok ep -> 0 <= base -> 0 <= mem_threads reg ->
  (forall i, 0 <= i < alloc_lanes reg -> rd (lane_next_free_index reg) i = Ok (base + i)) ->
  base + 64 * (Z.of_nat (length ids) + 1) < 2 ^ 64 ->
  exists reg' out, alloc_run ids reg = Ok (reg', out) /\ length out = length ids /\
    NoDup (omap id out) /\ Forall (fun x => base <= x < num_data_entries ep) (omap id out).
Proof.
  intros Hep Hb Hm Hc Hbound.
  assert (HL : 0 < alloc_lanes reg <= 64)
    by (unfold alloc_lanes, kMaxNumaLanes; destruct (Z.eqb_spec (mem_threads reg) 0); lia).
  destruct (alloc_run_spec ids reg ep base (fun i => base + i) Hep) as (reg' & out & E & Hl & Hn & Hall);
    [lia| |done|].
  - intros i Hi. split; [by apply Hc|]. split; [lia|]. split; [|nia].
    replace (base + i - base) with i by lia. by apply Z.mod_small.
  - exists reg', out. do 3 (split; [done|]). eapply Forall_impl; [exact Hall|]. by intros x [? _].
Qed.

(** ** Searching a row *)

Section row.
Context (b : list ludo_bucket) (m : region).
Context (Haddr : forall row slot c, rd2 b row slot = Ok c -> toAddr c < Z.of_nat (length m)).

Lemma cell_entry_of row slot c : rd2 b row slot = Ok c -> exists e, rd m (toAddr c) = Ok e.
Proof.
  intros Hc. apply rd_in_range. pose proof (Haddr row slot c Hc). pose proof (toAddr_range c). lia.
Qed.

Context (Hb : wf_buckets b).

(** Some cell of the row, empty or not, refers to an entry with key [k] and data [v]. *)
Definition row_entry (row k v : Z) : Prop := exists s c e, 0 <= s < 4 /\ rd2 b row s = Ok c /\
  rd m (toAddr c) = Ok e /\ pkey e = k /\ data e = v.

Lemma makeup_get_spec sl k row slot : 0 <= row < Z.of_nat (length b) -> 0 <= slot < 4 ->
  Forall (fun s => 0 <= s < 4) sl ->
  exists v, makeup_get sl b m k row slot = Ok v /\
    match v with
    | Some x => row_entry row k x
    | None => forall s c e, s ∈ sl -> s <> slot -> rd2 b row s = Ok c -> toAddr c <> 0 ->
        rd m (toAddr c) = Ok e -> pkey e <> k
    end.
Proof.
  intros Hrow Hslot. induction sl as [|s sl IH]; intros Hsl; cbn [makeup_get].
  { exists None. split; [done|]. by intros ??? ?%not_elem_of_nil. }
  apply Forall_cons in Hsl as [Hs Hsl]. destruct (IH Hsl) as (v & E & Hv).
  rewrite (wrap_id 8 slot) by (unfold is_word; lia).
  destruct (cell_exists b row s Hb Hrow Hs) as [c Hc].
  assert (Hskip : (s = slot \/ toAddr c = 0 \/
      forall e, rd m (toAddr c) = Ok e -> pkey e <> k) ->
    exists v, makeup_get sl b m k row slot = Ok v /\ match v with
    | Some x => row_entry row k x
    | None => forall s0 c e, s0 ∈ s :: sl -> s0 <> slot -> rd2 b row s0 = Ok c -> toAddr c <> 0 ->
        rd m (toAddr c) = Ok e -> pkey e <> k
    end).
  { intros Hno. exists v. split; [done|]. destruct v as [x|]; [done|].
    intros s0 c0 e0 [->|Hin]%elem_of_cons Hne Hc0 Ha He0; [|by apply (Hv s0 c0 e0)].
    assert (c0 = c) as -> by congruence. destruct Hno as [?|[?|Hno]]; [done..|by apply Hno]. }
  destruct (Z.eqb_spec s slot) as [->|Hne]; [by apply Hskip; left|].
  unfold read_addr. rewrite Hc, !bind_Ok_l.
  destruct (Z.eqb_spec (toAddr c) 0); [by apply Hskip; right; left|].
  destruct (cell_entry_of row s c Hc) as [e He]. unfold read_key. rewrite He, !bind_Ok_l.
  destruct (Z.eqb_spec (pkey e) k) as [Hk|Hk].
  - eexists. split; [reflexivity|]. by exists s, c, e.
  - apply Hskip. right; right. intros e' He'. congruence.
Qed.

Lemma search_row_spec d k row slot : (length (dp_buckets d) <= length b)%nat ->
  lookup_slot d k = Ok (Some (row, slot)) ->
  0 <= row < Z.of_nat (length (dp_buckets d)) -> 0 <= slot < 4 ->
  exists v, search_row d b m k = Ok v /\
    match v with
    | Some x => row_entry row k x
    | None => forall s c e, 0 <= s < 4 -> rd2 b row s = Ok c -> toAddr c <> 0 \/ s = slot ->
        rd m (toAddr c) = Ok e -> pkey e <> k
    end.
Proof.
  intros Hrows Hloc Hrow Hs. unfold search_row, locate_key. rewrite Hloc, !bind_Ok_l. cbv beta iota.
  destruct (cell_exists b row slot Hb ltac:(lia) Hs) as [c Hc].
  destruct (cell_entry_of row slot c Hc) as [e He].
  unfold read_addr, read_key. rewrite Hc, !bind_Ok_l, He, !bind_Ok_l.
  destruct (Z.eqb_spec (pkey e) k) as [Hk|Hk].
  { eexists. split; [reflexivity|]. by exists slot, c, e. }
  destruct (makeup_get_spec row_slots k row slot ltac:(lia) Hs row_slots_range) as (v & E & Hv).
  exists v. split; [done|]. destruct v as [x|]; [done|].
  intros s c' e' Hs' Hc' Ha He'. destruct (Z.eq_dec s slot) as [->|Hne].
  - assert (c' = c) as -> by congruence. congruence.
  - destruct Ha as [Ha|]; [|done]. apply (Hv s c' e'); try done. by apply elem_of_row_slots.
Qed.
End row.

(** ** Putting in a row *)

(** What a put did to the row, to the lookup structure and to the items; [got]
    is what the allocation answered if it was asked.  [PutNew]: a new entry in
    an empty cell.  [PutOver]: the key's own cell was overwritten.
    [PutDropped]: there was no free entry, or the key's cell belongs to another
    key with its fingerprint.  [PutEvicted]: in a full row the item of the
    key's cell, whoever's it is, was replaced, and the row's seed incremented. *)
Inductive put_result (got : option Z) (d d' : DataPlaneLudo) (b : list ludo_bucket) (m : region)
    (b' : list ludo_bucket) (m' : region) (row seed k v : Z) : Prop :=
  | PutNew s a c : got = Some a -> rd2 b row s = Ok c -> toLength c = 0 -> d' = d ->
      wr m a (PackedStruct k sizeof_ValType v) = Ok m' ->
      write_addr b k row s a 64 = Ok b' ->
      cell_updated b m b' m' row s (Some (k, v)) -> put_result got d d' b m b' m' row seed k v
  | PutOver v0 : d' = d -> b' = b -> cell_item b m row (slot_of seed k) k v0 ->
      cell_updated b m b' m' row (slot_of seed k) (Some (k, v)) ->
      put_result got d d' b m b' m' row seed k v
  | PutDropped : d' = d -> b' = b -> m' = m ->
      (got = None \/ exists c e, rd2 b row (slot_of seed k) = Ok c /\ nonempty c /\
         toFinger c = fingerprint k /\ rd m (toAddr c) = Ok e /\ pkey e <> k) ->
      put_result got d d' b m b' m' row seed k v
  | PutEvicted k0 v0 : b' = b -> cell_item b m row (slot_of seed k) k0 v0 ->
      cell_updated b m b' m' row (slot_of seed k) (Some (k, v)) ->
      (forall s c, 0 <= s < 4 -> rd2 b row s = Ok c -> nonempty c) ->
      dp_updateSeed d row (seed + 1) = Ok d' -> put_result got d d' b m b' m' row seed k v.

Section put.
Context (alloc : SharedNumaRegistry -> res (SharedNumaRegistry * option Z)).
Context (d : DataPlaneLudo) (b : list ludo_bucket) (m : region) (reg : SharedNumaRegistry).
Context (Hix : index_ok b).
Context (Haddr : forall row slot c, rd2 b row slot = Ok c -> toAddr c < Z.of_nat (length m)).
(** The allocation answers an index that no cell uses, or nothing. *)
Context (reg' : SharedNumaRegistry) (got : option Z) (Halloc : alloc reg = Ok (reg', got)).
Context (Hgot : forall a, got = Some a -> 0 <= a < Z.of_nat (length m) /\ a < 2 ^ 40 /\ unused b a).

Lemma place_new_spec row s seed k v c : rd2 b row s = Ok c -> toLength c = 0 ->
  exists b' m', place_new alloc b m reg k row s v = Ok (b', m', reg') /\ index_ok b' /\
    length b' = length b /\ length m' = length m /\ put_result got d d b m b' m' row seed k v.
Proof.
  intros Hc H0. unfold place_new. rewrite Halloc, bind_Ok_l. destruct got as [a|].
  - destruct (Hgot a eq_refl) as (Ha & Ha40 & Hun). unfold update_data.
    pose proof (wr_in_range m a (PackedStruct k sizeof_ValType v) Ha) as Hm. rewrite Hm, !bind_Ok_l.
    destruct (cell_range _ _ _ _ (proj1 Hix) Hc) as [Hrow Hs].
    destruct (wr2_in_range b 4 row s (combine (fingerprint k) 64 a) (proj1 Hix) Hrow Hs) as [b' Hw].
    unfold write_addr. rewrite Hw, bind_Ok_l. do 2 eexists. split; [reflexivity|].
    destruct (link_fresh b m row s Hix _ b' k v sizeof_ValType a ltac:(lia) Hun Hm Hw) as (Hix' & Hu & _).
    split; [done|]. split; [by rewrite (wr2_length _ _ _ _ _ Hw)|]. split; [by rewrite (wr_length _ _ _ _ Hm)|].
    by apply (PutNew _ d d b m b' _ row seed k v s a c).
  - do 2 eexists. split; [reflexivity|]. do 3 (split; [done|]). apply PutDropped; [done..|by left].
Qed.

Lemma put_locked_spec row seed k v : rd (dp_buckets d) row = Ok seed ->
  0 <= row < Z.of_nat (length b) ->
  exists b' m' reg1 d', put_locked alloc d b m reg row k v = Ok (b', m', reg1, d') /\ index_ok b' /\
    length b' = length b /\ length m' = length m /\ (reg1 = reg \/ reg1 = reg') /\
    put_result got d d' b m b' m' row seed k v.
Proof.
  intros Hseed Hrow. unfold put_locked. rewrite Hseed, bind_Ok_l. cbv zeta.
  destruct (rd_in_range b row Hrow) as [r Hr].
  destruct (check_slots_total b row r (proj1 Hix) Hr k (slot_of seed k) (slot_of_range _ _)) as [st Hst].
  destruct (check_slots_spec b row r (proj1 Hix) Hr k _ st Hst) as (c & Hcr & Est).
  assert (Hc : rd2 b row (slot_of seed k) = Ok c) by (unfold rd2; by rewrite Hr, bind_Ok_l).
  rewrite Hst, bind_Ok_l.
  assert (Hover : forall m' n k0 v0, cell_item b m row (slot_of seed k) k0 v0 ->
    wr m (toAddr c) (PackedStruct k n v) = Ok m' ->
    cell_updated b m b m' row (slot_of seed k) (Some (k, v))).
  { intros m' n k0 v0 (c' & e & Hc' & Hn & _) Hm. assert (c' = c) as -> by congruence.
    by apply (update_entry b m row _ Hix m' c k v n). }
  destruct (cell_entry_of b m Haddr row _ c Hc) as [e He].
  destruct (Z.eqb_spec (toLength c) 0) as [H0|H0]; [subst st; cbn [Z.eqb]|].
  { destruct (place_new_spec row (slot_of seed k) seed k v c Hc H0)
      as (b' & m' & -> & Hix' & Hlb & Hlm & Hp). rewrite bind_Ok_l.
    exists b', m', reg', d. split; [done|]. do 3 (split; [done|]). split; [by right|done]. }
  assert (Hitem : cell_item b m row (slot_of seed k) (pkey e) (data e)) by (by exists c, e).
  destruct (Z.eqb_spec (toFinger c) (fingerprint k)) as [Hf|Hf]; [subst st; cbn [Z.eqb Pos.eqb]|].
  { unfold read_addr, read_key. rewrite Hc, !bind_Ok_l, He, !bind_Ok_l.
    destruct (Z.eqb_spec (pkey e) k) as [Hk|Hk].
    - unfold update_data. pose proof (wr_in_range m (toAddr c) (PackedStruct k 64 v) (rd_range _ _ _ He)) as Hm.
      rewrite Hm, !bind_Ok_l. do 4 eexists. split; [reflexivity|]. do 2 (split; [done|]).
      split; [by rewrite (wr_length _ _ _ _ Hm)|]. split; [by left|].
      apply (PutOver _ d d b m b _ row seed k v (data e)); [done|done|by rewrite <-Hk at 2|].
      by apply (Hover _ 64 _ _ Hitem).
    - do 4 eexists. split; [reflexivity|]. do 3 (split; [done|]). split; [by left|].
      apply PutDropped; [done..|]. right. by exists c, e. }
  destruct (existsb _ r) eqn:Ex; subst st; cbn [Z.eqb Pos.eqb].
  - destruct (first_empty_spec row_slots b k row (proj1 Hix) Hrow row_slots_range)
      as (found & -> & Hfound). rewrite bind_Ok_l. destruct found as [s|].
    + destruct Hfound as (_ & c' & Hc' & H0').
      destruct (place_new_spec row s seed k v c' Hc' H0') as (b' & m' & -> & Hix' & Hlb & Hlm & Hp).
      rewrite bind_Ok_l. exists b', m', reg', d. split; [done|]. do 3 (split; [done|]). split; [by right|done].
    + exfalso. apply existsb_exists in Ex as (c' & Hin & Hz). apply Z.eqb_eq in Hz.
      apply list_elem_of_In, list_elem_of_lookup in Hin as [i Hi].
      assert (Hc' : rd2 b row (Z.of_nat i) = Ok c').
      { unfold rd2. rewrite Hr, bind_Ok_l. apply rd_Ok. split; [lia|]. by rewrite Nat2Z.id. }
      destruct (cell_range _ _ _ _ (proj1 Hix) Hc') as [_ Hs].
      apply (Hfound (Z.of_nat i) c'); [by apply elem_of_row_slots|done|done].
  - unfold read_addr. rewrite Hc, !bind_Ok_l. unfold update_data.
    pose proof (wr_in_range m (toAddr c) (PackedStruct k 64 v) (rd_range _ _ _ He)) as Hm.
    rewrite Hm, !bind_Ok_l. unfold dp_updateSeed.
    rewrite (wr_in_range _ _ _ (rd_range _ _ _ Hseed)), !bind_Ok_l.
    do 4 eexists. split; [reflexivity|]. do 2 (split; [done|]).
    split; [by rewrite (wr_length _ _ _ _ Hm)|]. split; [by left|].
    apply (PutEvicted _ d _ b m b _ row seed k v (pkey e) (data e)); [done|done|by apply (Hover _ 64 _ _ Hitem)| |].
    + intros s c' _ Hc'. unfold rd2 in Hc'. rewrite Hr, bind_Ok_l in Hc'. unfold nonempty. intros Hz.
      assert (existsb (fun c => toLength c =? 0) r = true); [|congruence].
      apply existsb_exists. exists c'. split; [|by apply Z.eqb_eq].
      apply rd_Ok in Hc' as [_ Hc']. apply list_elem_of_lookup_2 in Hc'. by apply list_elem_of_In.
    + unfold dp_updateSeed. by rewrite (wr_in_range _ _ _ (rd_range _ _ _ Hseed)).
Qed.
End put.

(** ** The operations of a thread *)

Section ops.
Context (server_name : string).

(** A thread on the hot path: no change since its last check, and its pointers
    lead to the region [r] of version [v], whose index is well-formed and has
    a row for every row of the lookup structure. *)
Record client_ok (w : world) (v : Z) (r : shm_region) : Prop := {
  ck_registry : cl_registry (w_cl w) = true;
  ck_generation : generation (w_reg w) = local_generation (t_region (w_cl w));
  ck_tables : tables_of (w_cl w) = Some (Live v);
  ck_lock : lock_of (w_cl w) = Some (Live v);
  ck_region : w_shm w !! numa_region_name server_name v = Some r;
  ck_index : index_ok (r_ludo r);
  ck_rows : (length (dp_buckets (w_lookup w)) <= length (r_ludo r))%nat;
  ck_addr : forall row slot c, rd2 (r_ludo r) row slot = Ok c ->
    toAddr c < Z.of_nat (length (r_packed r));
}.

Lemma no_change os now junk w v r : client_ok w v r -> maybe_check_version server_name os now junk w = Ok w.
Proof. intros []. unfold maybe_check_version. by rewrite ck_registry0, ck_generation0, Z.eqb_refl. Qed.

Lemma deref_ok w v r : client_ok w v r -> deref server_name (Live v) (w_shm w) = Ok (v, r).
Proof. intros []. unfold deref, region_at. by rewrite ck_region0. Qed.

Lemma lock_cycle locks row : rd locks row = Ok 0 -> exists l, lock_row locks row = Ok l /\
  numa_unlock_byte l row = Ok locks.
Proof.
  intros H. unfold lock_row, numa_try_lock_byte, test_and_set, numa_unlock_byte.
  pose proof (rd_range _ _ _ H) as Hr. rewrite H, !bind_Ok_l.
  pose proof (wr_in_range locks row 1 Hr) as Hw. rewrite Hw, !bind_Ok_l. eexists. split; [reflexivity|].
  rewrite wr_in_range by (by rewrite length_insert). f_equal. rewrite list_insert_insert_eq.
  apply rd_Ok in H as [_ H]. by apply list_insert_id.
Qed.

(** The body of an operation under the row's free lock. *)
Lemma with_row_lock_spec {A} w v r k row slot (body : _ -> _ -> _ -> _ -> res (_ * _ * A)) b m a :
  client_ok w v r -> lookup_slot (w_lookup w) k = Ok (Some (row, slot)) -> rd (r_locks r) row = Ok 0 ->
  body row slot (r_ludo r) (r_packed r) = Ok (b, m, a) ->
  with_row_lock server_name w k body =
    Ok (Some (put_region server_name v (MkRegion (r_size r) m b (r_locks r)) (w_shm w), a)).
Proof.
  intros Hok Hloc Hlock Hbody. unfold with_row_lock.
  rewrite (ck_tables w v r Hok), (ck_lock w v r Hok). unfold locate_key.
  rewrite Hloc, !bind_Ok_l. cbv beta iota. rewrite (deref_ok w v r Hok), bind_Ok_l. cbv beta iota.
  destruct (lock_cycle _ _ Hlock) as (l & -> & Hul). rewrite !bind_Ok_l. cbv beta iota.
  rewrite Hbody, bind_Ok_l. cbv beta iota zeta. unfold deref, region_at, put_region.
  rewrite lookup_insert_eq, !bind_Ok_l. cbv beta iota. rewrite Hul, bind_Ok_l.
  by rewrite insert_insert_eq.
Qed.

(** C28: [numa_search] of a located key, on the hot path: it never faults,
    changes nothing, and its answer is exact for the key's row - a value it
    returns is the data of an entry with that key that a cell of the row
    refers to; when it returns nothing, neither the located cell nor any cell
    of the row with a non-zero address refers to an entry with the key. *)
Theorem numa_search_exact os now junk k w v r : client_ok w v r -> located (w_lookup w) k ->
  exists row slot x, lookup_slot (w_lookup w) k = Ok (Some (row, slot)) /\
    numa_search server_name os now junk k w = Ok (w, x) /\
    match x with
    | Some x => row_entry (r_ludo r) (r_packed r) row k x
    | None => forall s c e, 0 <= s < 4 -> rd2 (r_ludo r) row s = Ok c -> toAddr c <> 0 \/ s = slot ->
        rd (r_packed r) (toAddr c) = Ok e -> pkey e <> k
    end.
Proof.
  intros Hok (row & slot & Hloc & Hrow & Hs). exists row, slot. unfold numa_search.
  rewrite (no_change os now junk w v r Hok), bind_Ok_l, (ck_tables w v r Hok).
  rewrite (deref_ok w v r Hok), bind_Ok_l. cbv beta iota.
  destruct (search_row_spec (r_ludo r) (r_packed r) (ck_addr w v r Hok) (proj1 (ck_index w v r Hok))
    (w_lookup w) k row slot (ck_rows w v r Hok) Hloc Hrow Hs) as (x & E & Hx).
  exists x. split; [done|]. by rewrite E, bind_Ok_l.
Qed.

Lemma numa_put_spec os now junk k v w ver r row slot seed reg' got : client_ok w ver r ->
  lookup_slot (w_lookup w) k = Ok (Some (row, slot)) -> rd (dp_buckets (w_lookup w)) row = Ok seed ->
  rd (r_locks r) row = Ok 0 -> thread_alloc (w_cl w) (w_reg w) = Ok (reg', got) ->
  (forall a, got = Some a -> 0 <= a < Z.of_nat (length (r_packed r)) /\ a < 2 ^ 40 /\ unused (r_ludo r) a) ->
  exists b' m' reg1 d', numa_put server_name os now junk k v w =
      Ok (MkWorld reg1 (put_region server_name ver (MkRegion (r_size r) m' b' (r_locks r)) (w_shm w)) d' (w_cl w)) /\
    index_ok b' /\ length b' = length (r_ludo r) /\ length m' = length (r_packed r) /\
    (reg1 = w_reg w \/ reg1 = reg') /\
    put_result got (w_lookup w) d' (r_ludo r) (r_packed r) b' m' row seed k v.
Proof.
  intros Hok Hloc Hseed Hlock Halloc Hgot. unfold numa_put.
  rewrite (no_change os now junk w ver r Hok), bind_Ok_l.
  pose proof (rd_range _ _ _ Hseed). pose proof (ck_rows w ver r Hok).
  destruct (put_locked_spec (thread_alloc (w_cl w)) (w_lookup w) (r_ludo r) (r_packed r) (w_reg w)
    (ck_index w ver r Hok) (ck_addr w ver r Hok) reg' got Halloc Hgot row seed k v Hseed ltac:(lia))
    as (b' & m' & reg1 & d' & E & Hix & Hlb & Hlm & Hreg & Hp).
  erewrite (with_row_lock_spec w ver r k row slot) by
    (try done; by rewrite E, bind_Ok_l). rewrite bind_Ok_l.
  exists b', m', reg1, d'. by do 5 (split; [done|]).
Qed.

(** C22: [numa_put] of a located key, on the hot path, with the row's lock
    free and an allocation that answers an unused index or nothing: it never
    faults, leaves the lock free, keeps the index well-formed, and changes at
    most one cell of the key's row, as [put_result] says: a new entry in an
    empty cell, the key's own cell overwritten, the put dropped for want of a
    free entry or on a fingerprint collision, or - in a full row - the item of
    another cell replaced and the row's seed incremented. *)
Theorem numa_put_effect os now junk k v w ver r reg' got : client_ok w ver r ->
  located (w_lookup w) k -> (forall row, 0 <= row < Z.of_nat (length (r_ludo r)) -> rd (r_locks r) row = Ok 0) ->
  thread_alloc (w_cl w) (w_reg w) = Ok (reg', got) ->
  (forall a, got = Some a -> 0 <= a < Z.of_nat (length (r_packed r)) /\ a < 2 ^ 40 /\ unused (r_ludo r) a) ->
  exists row slot seed w' r', lookup_slot (w_lookup w) k = Ok (Some (row, slot)) /\
    rd (dp_buckets (w_lookup w)) row = Ok seed /\
    numa_put server_name os now junk k v w = Ok w' /\
    w_shm w' = <[numa_region_name server_name ver := r']> (w_shm w) /\
    r_locks r' = r_locks r /\ index_ok (r_ludo r') /\
    (w_reg w' = w_reg w \/ w_reg w' = reg') /\
    put_result got (w_lookup w) (w_lookup w') (r_ludo r) (r_packed r) (r_ludo r') (r_packed r') row seed k v.
Proof.
  intros Hok (row & slot & Hloc & Hrow & Hs) Hlocks Halloc Hgot.
  destruct (rd_in_range (dp_buckets (w_lookup w)) row Hrow) as [seed Hseed].
  destruct (numa_put_spec os now junk k v w ver r row slot seed reg' got Hok Hloc Hseed) as
    (b' & m' & reg1 & d' & E & Hix & _ & _ & Hreg & Hp); [|done|done|].
  { apply Hlocks. pose proof (ck_rows w ver r Hok). lia. }
  do 5 eexists. split; [done|]. split; [done|]. split; [exact E|]. by do 4 (split; [done|]).
Qed.

(** C23: A put makes its value visible: when no cell of the row refers to an
    entry with the key, some cell of the row is empty, the located seed's cell
    does not have the key's fingerprint unless it is empty, and the allocation
    answers a fresh index other than 0, then after [numa_put] [numa_search]
    of the key returns exactly the value put. *)
Theorem put_then_search os now junk k v w ver r row slot seed reg' a : client_ok w ver r ->
  lookup_slot (w_lookup w) k = Ok (Some (row, slot)) -> rd (dp_buckets (w_lookup w)) row = Ok seed ->
  0 <= slot < 4 -> rd (r_locks r) row = Ok 0 ->
  thread_alloc (w_cl w) (w_reg w) = Ok (reg', Some a) -> generation reg' = generation (w_reg w) ->
  0 < a < Z.of_nat (length (r_packed r)) -> a < 2 ^ 40 -> unused (r_ludo r) a ->
  (forall x, ~ row_entry (r_ludo r) (r_packed r) row k x) ->
  (exists s c, 0 <= s < 4 /\ rd2 (r_ludo r) row s = Ok c /\ toLength c = 0) ->
  (forall c, rd2 (r_ludo r) row (slot_of seed k) = Ok c -> nonempty c -> toFinger c <> fingerprint k) ->
  exists w', numa_put server_name os now junk k v w = Ok w' /\
    numa_search server_name os now junk k w' = Ok (w', Some v).
Proof.
  intros Hok Hloc Hseed Hs Hlock Halloc Hgen Ha Ha40 Hun Hfree (s0 & c0 & Hs0 & Hc0 & Hz0) Hfp.
  destruct (numa_put_spec os now junk k v w ver r row slot seed reg' (Some a) Hok Hloc Hseed Hlock Halloc)
    as (b' & m' & reg1 & d' & E & Hix & Hlb & Hlm & Hreg & Hp).
  { intros a' [= <-]. split; [lia|done]. }
  eexists. split; [exact E|]. pose proof (rd_range _ _ _ Hseed) as Hrow.
  destruct Hp as [s a' c Ha' Hc H0 -> Hm Hw Hu|v0 _ _ Hit _|_ _ _ Hwhy|k0 v0 _ _ _ Hfull _].
  - injection Ha' as <-. pose proof (ck_index w ver r Hok) as [Hwf _].
    assert (Hnew : rd2 b' row s = Ok (combine (fingerprint k) 64 a))
      by (unfold write_addr in Hw; by apply (rd2_wr2_eq _ _ _ _ _ Hw)).
    destruct (new_cell_fields k a ltac:(lia)) as (_ & _ & Hta).
    assert (Hother : forall row' s' c', rd2 b' row' s' = Ok c' -> (row', s') <> (row, s) ->
      rd2 (r_ludo r) row' s' = Ok c').
    { intros row' s' c' Hc' Hne. unfold write_addr in Hw.
      by rewrite (rd2_wr2_ne _ _ _ _ _ _ _ Hw) in Hc' by congruence. }
    assert (Hok' : client_ok (MkWorld reg1 (put_region server_name ver
      (MkRegion (r_size r) m' b' (r_locks r)) (w_shm w)) (w_lookup w) (w_cl w)) ver
      (MkRegion (r_size r) m' b' (r_locks r))).
    { destruct Hok. constructor; cbn [w_cl w_reg w_shm w_lookup r_ludo r_packed]; try done.
      - destruct Hreg as [->| ->]; congruence.
      - apply lookup_insert_eq.
      - by rewrite Hlb.
      - rewrite Hlm. intros row' s' c' Hc'. destruct (decide ((row', s') = (row, s))) as [[= -> ->]|Hne].
        + assert (c' = combine (fingerprint k) 64 a) as -> by congruence. lia.
        + apply (ck_addr0 row' s'). by apply Hother. }
    unfold numa_search. rewrite (no_change os now junk _ ver _ Hok'), bind_Ok_l.
    rewrite (ck_tables _ ver _ Hok'), (deref_ok _ ver _ Hok'), bind_Ok_l.
    cbn [w_lookup r_ludo r_packed].
    destruct (search_row_spec b' m' (ck_addr _ _ _ Hok') (proj1 Hix) (w_lookup w) k row slot
      (ck_rows _ _ _ Hok') Hloc Hrow Hs) as (x & Ex & Hx).
    rewrite Ex, bind_Ok_l. do 2 f_equal. destruct x as [x|].
    + destruct Hx as (s' & c' & e & Hs' & Hc' & He & Hk & Hv).
      destruct (Z.eq_dec (toAddr c') a) as [Ea|Hne].
      * rewrite Ea, (rd_wr_eq _ _ _ _ Hm) in He. apply Ok_inj in He as <-. cbn [data] in Hv. by subst x.
      * exfalso. assert ((row, s') <> (row, s)) as Hcell.
        { intros [= ->]. assert (c' = combine (fingerprint k) 64 a) by congruence. congruence. }
        apply (Hfree x). exists s', c', e. split; [done|]. split; [by apply Hother|].
        by rewrite (rd_wr_ne _ _ _ _ _ Hm) in He by congruence.
    + exfalso. destruct (cell_range _ _ _ _ Hwf Hc) as [_ Hsr].
      apply (Hx s _ (PackedStruct k sizeof_ValType v) Hsr Hnew); [left; lia| |done].
      rewrite Hta. by apply (rd_wr_eq _ _ _ _ Hm).
  - exfalso. destruct Hit as (c & e & Hc & _ & He & Hk & Hv). apply (Hfree v0).
    exists (slot_of seed k), c, e. by split; [apply slot_of_range|].
  - exfalso. destruct Hwhy as [?|(c & e & Hc & Hn & Hf & _)]; [done|]. by apply (Hfp c).
  - exfalso. by apply (Hfull s0 c0).
Qed.
End ops.

(** When the new region cannot be opened, the old one is already unmapped and
    its wrappers deleted, but the global pointers that connecting set still
    lead to them: the next access is undefined. *)
Theorem failed_remap_dangles server_name os now junk k w ep base v :
  cl_registry (w_cl w) = true -> generation (w_reg w) <> local_generation (t_region (w_cl w)) ->
  current_version (w_reg w) <> local_version (t_region (w_cl w)) ->
  rd (epoch (w_reg w)) (epoch_slot (current_version (w_reg w))) = Ok ep -> published ep <> 0 ->
  crs_base (t_region (w_cl w)) = Some base -> remote_tables (w_cl w) = RThread v ->
  open_shared_numa_region os server_name (current_version (w_reg w)) (w_shm w) = None ->
  numa_search server_name os now junk k w = Err OutOfBounds.
Proof.
  intros Hreg Hg Hv Hep Hp Hb Hr Ho. unfold numa_search, maybe_check_version, remap_to_current_epoch.
  cbv zeta. rewrite Hreg. cbn [negb]. rewrite (proj2 (Z.eqb_neq _ _) Hg), (proj2 (Z.eqb_neq _ _) Hv).
  cbn [negb]. rewrite Hep, bind_Ok_l, (proj2 (Z.eqb_neq _ _) Hp). cbn [w_shm set_w_cl w_cl]. rewrite Ho.
  rewrite !bind_Ok_l. cbn [w_cl set_w_cl]. unfold unmap_region. rewrite Hb, Hr. reflexivity.
Qed.

(** ** Clients and the orchestrator *)

Section refine.
Context (server_name : string).

(** One operation of a client thread, whatever its state. *)
Inductive client_op : world -> world -> Prop :=
  | OpSearch os now junk k w w' x : numa_search server_name os now junk k w = Ok (w', x) -> client_op w w'
  | OpPut os now junk k v w w' : numa_put server_name os now junk k v w = Ok w' -> client_op w w'
  | OpUpdate os now junk k v w w' : numa_update server_name os now junk k v w = Ok w' -> client_op w w'
  | OpRemove os now junk k w w' : numa_remove server_name os now junk k w = Ok w' -> client_op w w'
  | OpHeartbeat now w w' : client_heartbeat now w = Ok w' -> client_op w w'
  | OpRemap os now junk w w' b : remap_to_current_epoch server_name os now junk w = Ok (w', b) ->
      client_op w w'
  | OpConnectLocal v w : client_op w (connect_in_process v w)
  | OpConnect os mapped now junk w w' b :
      connect_cross_process server_name os mapped now junk w = Ok (w', b) -> client_op w w'.

Local Notation steps := (rtc client_step).

Lemma heartbeat_steps now w w' : client_heartbeat now w = Ok w' -> steps (w_reg w) (w_reg w').
Proof.
  unfold client_heartbeat. cbv zeta. intros H. destruct (negb _); [by apply Ok_inj in H as <-|].
  destruct (_ <? 0); [by apply Ok_inj in H as <-|].
  apply bind_Ok in H as (c & Hc & H). apply bind_Ok in H as (l & Hl & H). apply Ok_inj in H as <-.
  apply rtc_once. by eapply ClHeartbeat.
Qed.

Lemma acknowledge_steps ver w w' : acknowledge ver w = Ok w' -> steps (w_reg w) (w_reg w').
Proof.
  unfold acknowledge. intros H. apply bind_Ok in H as (ep & He & H).
  apply bind_Ok in H as (reg & Hp & H). apply Ok_inj in H as <-. apply rtc_once. by eapply ClAck.
Qed.

Lemma remap_steps os now junk w w' b : remap_to_current_epoch server_name os now junk w = Ok (w', b) ->
  steps (w_reg w) (w_reg w').
Proof.
  unfold remap_to_current_epoch. cbv zeta. intros H.
  destruct (negb _); [by apply Ok_inj, pair_equal_spec in H as [<- _]|].
  apply bind_Ok in H as (ep & _ & H).
  destruct (published ep =? 0); [by apply Ok_inj, pair_equal_spec in H as [<- _]|].
  destruct (open_shared_numa_region _ _ _ _) as [r|]; [|by apply Ok_inj, pair_equal_spec in H as [<- _]].
  apply bind_Ok in H as (shm & _ & H). apply bind_Ok in H as (w1 & Ha & H).
  apply bind_Ok in H as (w2 & Hh & H). apply Ok_inj, pair_equal_spec in H as [<- _].
  apply acknowledge_steps in Ha. apply heartbeat_steps in Hh. by etransitivity.
Qed.

Lemma check_version_steps os now junk w w' : maybe_check_version server_name os now junk w = Ok w' ->
  steps (w_reg w) (w_reg w').
Proof.
  unfold maybe_check_version. cbv zeta. intros H. destruct (negb _); [by apply Ok_inj in H as <-|].
  destruct (_ =? _); [by apply Ok_inj in H as <-|]. destruct (negb _).
  - apply bind_Ok in H as ([w1 b] & H & E). apply Ok_inj in E as <-. by eapply remap_steps.
  - by apply heartbeat_steps in H.
Qed.

Lemma alloc_steps c reg reg' i : thread_alloc c reg = Ok (reg', i) -> steps reg reg'.
Proof.
  unfold thread_alloc. intros H. destruct (negb _); [by apply Ok_inj, pair_equal_spec in H as [<- _]|].
  unfold alloc_slot in H. apply bind_Ok in H as (ep & _ & H). apply bind_Ok in H as (idx & _ & H).
  apply bind_Ok in H as (l & Hl & H). apply Ok_inj, pair_equal_spec in H as [<- _].
  apply rtc_once. by eapply ClLane.
Qed.

Lemma place_new_steps c b m reg k row s v b' m' reg' :
  place_new (thread_alloc c) b m reg k row s v = Ok (b', m', reg') -> steps reg reg'.
Proof.
  unfold place_new. intros H. apply bind_Ok in H as ([reg1 i] & Ha & H). apply alloc_steps in Ha.
  destruct i as [a|]; [|apply Ok_inj, pair_equal_spec in H as [_ <-]; done].
  apply bind_Ok in H as ([m1 n] & _ & H). apply bind_Ok in H as (b1 & _ & H).
  by apply Ok_inj, pair_equal_spec in H as [_ <-].
Qed.

Lemma put_locked_steps c d b m reg row k v b' m' reg' d' :
  put_locked (thread_alloc c) d b m reg row k v = Ok (b', m', reg', d') -> steps reg reg'.
Proof.
  unfold put_locked. intros H. apply bind_Ok in H as (seed & _ & H). cbv zeta in H.
  apply bind_Ok in H as (st & _ & H).
  assert (Hplace : forall s, ('(b1, m1, reg1) ← place_new (thread_alloc c) b m reg k row s v;
    Ok (b1, m1, reg1, d)) = Ok (b', m', reg', d') -> steps reg reg').
  { intros s E. apply bind_Ok in E as ([[b1 m1] reg1] & Hp & E).
    apply Ok_inj, pair_equal_spec in E as [E _]. apply pair_equal_spec in E as [_ <-].
    by eapply place_new_steps. }
  assert (Hsame : forall m1 d1, Ok (b, m1, reg, d1) = Ok (b', m', reg', d') -> steps reg reg').
  { intros m1 d1 E. apply Ok_inj, pair_equal_spec in E as [E _]. by apply pair_equal_spec in E as [_ <-]. }
  destruct (st =? 0); [by eapply Hplace|]. destruct (st =? 1).
  - apply bind_Ok in H as (addr & _ & H). apply bind_Ok in H as (k' & _ & H).
    destruct (k' =? k); [apply bind_Ok in H as ([m1 n] & _ & H)|]; by eapply Hsame.
  - destruct (st =? 2).
    + apply bind_Ok in H as (found & _ & H). destruct found as [s|]; [by eapply Hplace|by eapply Hsame].
    + destruct (st =? 3); [|by eapply Hsame].
      apply bind_Ok in H as (addr & _ & H). apply bind_Ok in H as ([m1 n] & _ & H).
      apply bind_Ok in H as (d1 & _ & H). by eapply Hsame.
Qed.

Lemma connect_slot_steps fuel i reg slot reg' j : connect_slot fuel i reg slot = Ok (reg', j) ->
  steps reg reg'.
Proof.
  revert i. induction fuel as [|fuel IH]; intros i H; cbn [connect_slot] in H.
  { by apply Ok_inj, pair_equal_spec in H as [<- _]. }
  apply bind_Ok in H as (c & Hc & H). destruct (Z.eqb_spec (active c) 0) as [Ha|]; [|by apply (IH (i + 1))].
  apply bind_Ok in H as (l & Hl & H). apply Ok_inj, pair_equal_spec in H as [<- _].
  apply rtc_once. by eapply ClConnect.
Qed.

Lemma connect_steps os mapped now junk w w' b :
  connect_cross_process server_name os mapped now junk w = Ok (w', b) -> steps (w_reg w) (w_reg w').
Proof.
  unfold connect_cross_process. cbv zeta. intros H.
  destruct (negb mapped); [by apply Ok_inj, pair_equal_spec in H as [<- _]|].
  destruct (negb _ || _); [by apply Ok_inj, pair_equal_spec in H as [<- _]|].
  apply bind_Ok in H as (ep & _ & H).
  destruct (published ep =? 0); [by apply Ok_inj, pair_equal_spec in H as [<- _]|].
  apply bind_Ok in H as ([reg slot] & Hs & H). apply connect_slot_steps in Hs.
  destruct (open_shared_numa_region _ _ _ _) as [r|]; [|by apply Ok_inj, pair_equal_spec in H as [<- _]].
  apply bind_Ok in H as (shm & _ & H). apply bind_Ok in H as (w1 & Ha & H).
  apply bind_Ok in H as (w2 & Hh & H). apply Ok_inj, pair_equal_spec in H as [<- _].
  apply acknowledge_steps in Ha. apply heartbeat_steps in Hh. cbn in Ha. by do 2 (etransitivity; [eassumption|]).
Qed.

Lemma with_row_lock_body {A} w k (body : _ -> _ -> _ -> _ -> res (_ * _ * A)) shm a :
  with_row_lock server_name w k body = Ok (Some (shm, a)) ->
  exists row slot b m b' m', body row slot b m = Ok (b', m', a).
Proof.
  unfold with_row_lock. destruct (tables_of (w_cl w)) as [p|], (lock_of (w_cl w)) as [pl|]; try done. intros H.
  apply bind_Ok in H as ([row slot] & _ & H). apply bind_Ok in H as ([lv rl] & _ & H).
  apply bind_Ok in H as (l & _ & H). apply bind_Ok in H as ([v r] & _ & H).
  apply bind_Ok in H as ([[b m] a'] & Hb & H). cbv zeta in H.
  apply bind_Ok in H as ([lv' rl'] & _ & H). apply bind_Ok in H as (l' & _ & H).
  apply Ok_inj in H as [= _ <-]. by do 6 eexists.
Qed.

Lemma client_op_steps w w' : client_op w w' -> steps (w_reg w) (w_reg w').
Proof.
  intros [os now junk k w0 w1 x H|os now junk k v w0 w1 H|os now junk k v w0 w1 H|os now junk k w0 w1 H
    |now w0 w1 H|os now junk w0 w1 b H|v w0|os mapped now junk w0 w1 b H].
  - unfold numa_search in H. apply bind_Ok in H as (w2 & Hv & H). apply check_version_steps in Hv.
    destruct (tables_of _); [|by apply Ok_inj, pair_equal_spec in H as [<- _]].
    apply bind_Ok in H as ([v r] & _ & H). apply bind_Ok in H as (y & _ & H).
    by apply Ok_inj, pair_equal_spec in H as [<- _].
  - unfold numa_put in H. apply bind_Ok in H as (w2 & Hv & H). apply check_version_steps in Hv.
    apply bind_Ok in H as (r & Hr & H). destruct r as [[shm [reg d]]|]; [|by apply Ok_inj in H as <-].
    apply Ok_inj in H as <-. apply with_row_lock_body in Hr as (row & slot & b & m & b' & m' & Hr).
    apply bind_Ok in Hr as ([[[b1 m1] reg1] d1] & Hp & E). apply put_locked_steps in Hp.
    apply Ok_inj, pair_equal_spec in E as [_ [= <- <-]]. by etransitivity.
  - unfold numa_update in H. apply bind_Ok in H as (w2 & Hv & H). apply check_version_steps in Hv.
    apply bind_Ok in H as (r & _ & H). apply Ok_inj in H as <-. by destruct r as [[shm u]|].
  - unfold numa_remove in H. apply bind_Ok in H as (w2 & Hv & H). apply check_version_steps in Hv.
    apply bind_Ok in H as (r & _ & H). apply Ok_inj in H as <-. by destruct r as [[shm u]|].
  - by apply heartbeat_steps in H.
  - by apply remap_steps in H.
  - done.
  - by apply connect_steps in H.
Qed.

(** C10: Every operation of a client thread - searching, putting, updating,
    removing, heartbeats, remapping and connecting, whatever its state and
    whatever the operating system answers - changes the registry only by the
    accesses [client_step] allows, so that the orchestrator's invariant
    survives any sequence of them: no client can move the resize state, the
    versions, the generation or the deferred counters, and the client count
    stays exact. *)
Theorem client_ops_refine o w w' : orch_inv o -> w_reg w = o_reg o -> rtc client_op w w' ->
  rtc client_step (o_reg o) (w_reg w') /\ orch_inv (set_o_reg (w_reg w') o) /\
  reg_frame (o_reg o) (w_reg w').
Proof.
  intros Hi Hw Hops.
  assert (Hs : rtc client_step (o_reg o) (w_reg w')).
  { rewrite <-Hw. clear Hw. induction Hops as [|w1 w2 w3 H _ IH]; [done|].
    etransitivity; [by apply client_op_steps|done]. }
  split; [done|]. clear Hops Hw. destruct Hi as [Hc [s Hst]].
  assert (H : reg_inv (w_reg w') /\ reg_frame (o_reg o) (w_reg w')).
  { pose proof (oc_reg _ Hc) as Hr. revert Hr. clear -Hs.
    induction Hs as [|r1 r2 r3 H _ IH]; intros Hr; [done|].
    apply client_step_inv in H as [Hr2 Hf2]; [|done]. destruct (IH Hr2) as [Hr3 Hf3]. split; [done|].
    unfold reg_frame in *. intuition congruence. }
  destruct H as [Hr Hf]. split; [|done]. split; [by apply core_frame|]. exists s. by apply in_state_frame.
Qed.
End refine.

(** ** An instance *)

(** A registry whose current epoch has 8 entries, with one lane at index 4. *)
Definition client_registry : SharedNumaRegistry :=
  MkRegistry kNumaMetaMagic 1 (ResizeState_code NORMAL) 1 0 7 1 0 3 4 0 0 0 0 0
    (<[1%nat := MkEpoch 1 0 8192 32 8 0 192 1216 1 0 1 0 0 0 1 0]> (replicate 16 zero_epoch))
    (replicate kMaxClients zero_client) 1 (<[0%nat := 4]> (replicate kMaxNumaLanes 8)).

Definition client_shm : regions := {[numa_region_name "s" 1 := zero_region 8192 8 32 32]}.

Definition demo_world : world :=
  MkWorld client_registry client_shm demo_dp
    (MkCl true 0 (MkCrs 1 7 (Some 1) 8192 (Some 1) (Some (Live 1)) (-1)) (RThread 1)).

Lemma zero_cells n row slot c : rd2 (new_buckets n) row slot = Ok c -> c = 0 /\ ~ nonempty c.
Proof.
  intros H. rewrite (new_buckets_cell n row slot c H). split; [done|]. unfold nonempty.
  rewrite toLength_0. lia.
Qed.

Lemma demo_client_ok : client_ok "s" demo_world 1 (zero_region 8192 8 32 32).
Proof.
  constructor; cbn [demo_world w_cl w_reg w_shm w_lookup]; try done.
  - split; [by repeat constructor|]. intros row slot row' slot' c c' Hc _ Hn.
    by destruct (zero_cells 32 _ _ _ Hc).
  - change (length (dp_buckets demo_dp)) with 4%nat. cbn [zero_region r_ludo]. unfold new_buckets.
    rewrite length_replicate. lia.
  - intros row slot c Hc. destruct (zero_cells 32 _ _ _ Hc) as [-> _]. change (toAddr 0) with 0.
    simpl. lia.
Qed.

Lemma alloc_disjoint_witness :
  exists reg' out, alloc_run [0; 3; 0] client_registry = Ok (reg', out) /\ length out = 3%nat /\
    NoDup (omap id out) /\ Forall (fun x => 4 <= x < 8) (omap id out).
Proof.
  apply (alloc_disjoint [0; 3; 0] client_registry
    (MkEpoch 1 0 8192 32 8 0 192 1216 1 0 1 0 0 0 1 0) 4); [reflexivity|lia|cbn; lia| |simpl; lia].
  intros i Hi. assert (i = 0) as -> by (change (alloc_lanes client_registry) with 1 in Hi; lia).
  reflexivity.
Defined.

Lemma numa_search_exact_witness :
  exists row slot x, lookup_slot demo_dp 7 = Ok (Some (row, slot)) /\
    numa_search "s" (MkOs true true true) 0 zero_struct 7 demo_world = Ok (demo_world, x) /\
    match x with
    | Some x => row_entry (new_buckets 32) (replicate 8 zero_struct) row 7 x
    | None => forall s c e, 0 <= s < 4 -> rd2 (new_buckets 32) row s = Ok c -> toAddr c <> 0 \/ s = slot ->
        rd (replicate 8 zero_struct) (toAddr c) = Ok e -> pkey e <> 7
    end.
Proof.
  apply (numa_search_exact "s" (MkOs true true true) 0 zero_struct 7 demo_world 1
    (zero_region 8192 8 32 32) demo_client_ok demo_located).
Defined.

(** The allocation of the demo thread answers 4. *)
Definition demo_reg' : SharedNumaRegistry :=
  set_lane_next_free_index (<[0%nat := 5]> (replicate kMaxNumaLanes 8)) client_registry.

Lemma demo_alloc : thread_alloc (w_cl demo_world) (w_reg demo_world) = Ok (demo_reg', Some 4).
Proof. reflexivity. Qed.

Lemma demo_unused a : unused (new_buckets 32) a.
Proof. intros row slot c Hc Hn. by destruct (zero_cells 32 _ _ _ Hc). Qed.

Lemma demo_put : exists w',
  numa_put "s" (MkOs true true true) 0 zero_struct 7 70 demo_world = Ok w'.
Proof.
  destruct demo_located as (row & slot & Hloc & Hrow & _).
  destruct (rd_in_range (dp_buckets demo_dp) row Hrow) as [seed Hseed].
  change (length (dp_buckets demo_dp)) with 4%nat in Hrow.
  destruct (numa_put_spec "s" (MkOs true true true) 0 zero_struct 7 70 demo_world 1
    (zero_region 8192 8 32 32) row slot seed demo_reg' (Some 4) demo_client_ok Hloc Hseed)
    as (b' & m' & reg1 & d' & E & _); [|apply demo_alloc| |by eexists].
  - apply rd_Ok. split; [lia|]. apply (lookup_replicate_2 32). lia.
  - intros a [= <-]. split; [simpl; lia|]. split; [lia|apply demo_unused].
Qed.

Lemma numa_put_effect_witness :
  exists row slot seed w' r', lookup_slot demo_dp 7 = Ok (Some (row, slot)) /\
    rd (dp_buckets demo_dp) row = Ok seed /\
    numa_put "s" (MkOs true true true) 0 zero_struct 7 70 demo_world = Ok w' /\
    w_shm w' = <[numa_region_name "s" 1 := r']> client_shm /\
    r_locks r' = replicate 32 0 /\ index_ok (r_ludo r') /\
    (w_reg w' = client_registry \/ w_reg w' = demo_reg') /\
    put_result (Some 4) demo_dp (w_lookup w') (new_buckets 32) (replicate 8 zero_struct)
      (r_ludo r') (r_packed r') row seed 7 70.
Proof.
  apply (numa_put_effect "s" (MkOs true true true) 0 zero_struct 7 70 demo_world 1
    (zero_region 8192 8 32 32) demo_reg' (Some 4) demo_client_ok demo_located); [|apply demo_alloc|].
  - intros row Hrow. cbn [zero_region r_locks r_ludo] in *. unfold new_buckets in Hrow.
    rewrite length_replicate in Hrow. apply rd_Ok. split; [lia|]. apply lookup_replicate. lia.
  - intros a [= <-]. split; [simpl; lia|]. split; [lia|apply demo_unused].
Defined.

Lemma put_then_search_witness :
  exists w', numa_put "s" (MkOs true true true) 0 zero_struct 7 70 demo_world = Ok w' /\
    numa_search "s" (MkOs true true true) 0 zero_struct 7 w' = Ok (w', Some 70).
Proof.
  destruct demo_located as (row & slot & Hloc & Hrow & Hs).
  destruct (rd_in_range (dp_buckets demo_dp) row Hrow) as [seed Hseed].
  change (length (dp_buckets demo_dp)) with 4%nat in Hrow.
  apply (put_then_search "s" (MkOs true true true) 0 zero_struct 7 70 demo_world 1
    (zero_region 8192 8 32 32) row slot seed demo_reg' 4 demo_client_ok Hloc Hseed Hs);
    [| apply demo_alloc | reflexivity | simpl; lia | lia | apply demo_unused | | | ].
  - apply rd_Ok. split; [lia|]. apply (lookup_replicate_2 32). lia.
  - intros x (s & c & e & _ & Hc & He & Hk & _). destruct (zero_cells 32 _ _ _ Hc) as [-> _].
    change (toAddr 0) with 0 in He. apply rd_Ok in He as [_ He].
    apply (lookup_replicate_1 8) in He as [-> _]. discriminate.
  - exists 0. destruct (cell_exists (new_buckets 32) row 0) as [c Hc];
      [by repeat constructor|unfold new_buckets; rewrite length_replicate; lia|lia|].
    destruct (zero_cells 32 _ _ _ Hc) as [-> _]. exists 0. split; [lia|]. split; [done|apply toLength_0].
  - intros c Hc Hn. destruct (zero_cells 32 _ _ _ Hc) as [_ Hz]. exact (False_ind _ (Hz Hn)).
Defined.

Lemma client_registry_inv : reg_inv client_registry.
Proof.
  constructor; cbn [client_registry epoch clients lane_next_free_index mem_threads
    current_version registered_clients generation]; try done.
  - apply Forall_insert; [apply zero_quiet|by split].
  - apply Forall_replicate. by left.
Qed.

Lemma client_ops_refine_witness :
  let o := MkOrch client_registry client_shm false true true (MkSrv 1 5 32 8) None [] [] 0 None (-1)
    0 0 0 zero_metrics in
  exists w', rtc client_step client_registry (w_reg w') /\ orch_inv (set_o_reg (w_reg w') o) /\
    reg_frame client_registry (w_reg w').
Proof.
  cbv zeta.
  destruct demo_put as [w' E]. exists w'. apply (client_ops_refine "s" (MkOrch client_registry client_shm false true true
    (MkSrv 1 5 32 8) None [] [] 0 None (-1) 0 0 0 zero_metrics) demo_world w').
  - split.
    + constructor; cbn [o_reg deferred_inserts deferred_deletes length];
        [apply client_registry_inv|done|done|unfold kMaxDeferredDepth; lia].
    + exists NORMAL. by repeat split.
  - reflexivity.
  - apply rtc_once. by eapply OpPut.
Defined.

(** ** A second put of the same key *)

(** Row 0, where [demo_dp] locates key 7 in cell 1, with that cell taken by
    key 9; two puts of key 7 and a search after each. *)
Definition taken_row : list ludo_bucket :=
  [[0; combine (fingerprint 9) 64 1; 0; 0]; [0; 0; 0; 0]; [0; 0; 0; 0]; [0; 0; 0; 0]].
Definition taken_mem : region := <[1%nat := PackedStruct 9 8 90]> (replicate 8 zero_struct).

Definition two_puts : res (option Z * option Z) :=
  '(b1, m1, reg1, d1) ← put_locked (alloc_slot 0) demo_dp taken_row taken_mem client_registry 0 7 70;
  x ← search_row d1 b1 m1 7;
  '(b2, m2, reg2, d2) ← put_locked (alloc_slot 0) d1 b1 m1 reg1 0 7 71;
  y ← search_row d2 b2 m2 7;
  Ok (x, y).

(** The second put of a key whose located cell is taken does not find the
    first: it takes another empty cell of the row, and searches go on
    returning the older value. *)
Theorem second_put_is_lost : two_puts = Ok (Some 70, Some 70).
Proof. vm_compute. reflexivity. Qed.
