(* ===== verification/ServerSetup.v ===== *)
(** * Starting and stopping the NUMA server (benchs/outback/server_numa.cc)

    [setup_ludo_table] builds the lookup structure and the first version of the
    shared region from the loaded keys, [register_numa_server] publishes them
    and starts the orchestrator, [cleanup_numa_ipc] takes them down.  The runs
    are those without a stop request; the products of doubles that give the
    thresholds are arguments. *)

From Stdlib Require Import ZArith Lia.
From stdpp Require Import base numbers strings pretty gmap list.
From S2P Require Import Prelude Words Hash PackedData LudoSlot LruCache ServerRdma ServerInv.
From S2P Require Import OthelloMem LudoTable LudoInv LudoProps LudoLoad LudoDP NumaTable.
From S2P Require Import NumaTransport Replay Resize ResizeInv ResizeProps ClientNuma ClientProps.

#[local] Open Scope Z_scope.

(** Command-line flags: [mem_threads], [numa_node], and the thresholds in
    entries that [s_slow_pct] and [s_stop_pct] amount to. *)
Record flags := MkFlags {
  f_mem_threads : Z;
  f_numa_node : Z;
  f_slow : Z -> Z;
  f_stop : Z -> Z;
}.

(** The state the server leaves: the registry, the objects, the data regions, the server's
    own state, the lookup structure, the wrapper over the entries and the cache. *)
Record setup_state := MkSetup {
  st_reg : SharedNumaRegistry;
  st_metas : metas;
  st_shm : regions;
  st_srv : ServerNumaState;
  st_lookup : DataPlaneLudo;
  st_pd : packed_data;
  st_lru : Cache;
}.

(** The keys with their numbers, which are the values stored. *)
Definition numbered (keys : list Z) : list (Z * Z) := zip keys (seqZ 0 (Z.of_nat (length keys))).

(** [for (i < nkeys) packed_data->bulk_load_data(key, sizeof(V), i)] *)
Definition load_packed (keys : list Z) (w : packed_data) (m : region) : res (packed_data * region) :=
  foldM (fun '(w, m) '(k, i) => '(w', m', _) ← bulk_load_data w m k 8 i; Ok (w', m'))
    (numbered keys) (w, m).

(** [std::max(1, std::min(mem_threads, 64))] *)
Definition effective_mem_threads (n : Z) : Z := Z.max 1 (Z.min n (Z.of_nat kMaxNumaLanes)).

(** The lanes: [nkeys + lane] for those in use, [packed_entries] beyond. *)
Definition first_lanes (nkeys packed_entries n : Z) : list Z :=
  (fun lane => if lane <? n then u64 (nkeys + lane) else packed_entries) <$>
    seqZ 0 (Z.of_nat kMaxNumaLanes).

Definition first_epoch (lay : Layout) (buckets entries : Z) : ResizeEpoch :=
  MkEpoch 1 0 (total_size lay) buckets entries (packed_off lay) (ludo_off lay) (lock_off lay)
    1 0 1 0 0 0 1 0.

(** The published metadata, over the registry [map_numa_registry] made. *)
Definition first_registry (f : flags) (nkeys entries buckets : Z) (lay : Layout)
    (reg : SharedNumaRegistry) : res SharedNumaRegistry :=
  l ← wr (epoch reg) 1 (first_epoch lay buckets entries);
  let n := effective_mem_threads (f_mem_threads f) in
  Ok (MkRegistry kNumaMetaMagic (protocol_version reg) (resize_state reg) (current_version reg)
    (previous_version reg) (generation reg) 0 (f_numa_node f) (f_slow f entries) (f_stop f entries)
    (registered_clients reg) (deferred_insert_count reg) (deferred_delete_count reg)
    (global_depth reg) (directory_version reg) l (clients reg) n (first_lanes nkeys entries n)).

Section setup.
Context {L : Type} `{LO : LocatorOk L} (to_dp : L -> DataPlaneOthello) (server_name : string).

(** [ludo_maintenance_unit.insert(key, i)] for all keys. *)
Definition insert_keys (rnd : nat -> Z) (fuel : nat) (keys : list Z) (cp : ControlPlaneLudo L)
    : res (ControlPlaneLudo L) :=
  foldM (fun cp '(k, i) => '(cp', _) ← insert rnd fuel cp k i false; Ok cp') (numbered keys) cp.

(** From the control plane on; [None]: the shared memory could not be set up. *)
Definition setup_shared (os : os_env) (f : flags) (fd : Z) (junk : packed_struct) (keys : list Z)
    (cp : ControlPlaneLudo L) (metas_ : metas) (shm : regions) : res (option setup_state) :=
  let nkeys := Z.of_nat (length keys) in
  let packed_entries := u64 (2 * nkeys) in
  '(lookup, generated) ← DataPlaneLudo_with_buckets to_dp cp;
  let num_buckets := getBucketsNum lookup in
  let lay := region_layout packed_entries num_buckets sizeof_LudoBucket in
  match map_numa_registry os server_name true metas_ with
  | None => Ok None
  | Some (metas', reg0) =>
      match create_shared_numa_region os server_name (total_size lay) 1 (Z.to_nat packed_entries)
        (Z.to_nat num_buckets) (Z.to_nat num_buckets) shm with
      | None => Ok None
      | Some (shm1, r) =>
          '(m, w) ← attach_packed_data junk (r_packed r) (Z.to_nat packed_entries);
          ludo ← copy_prefix num_buckets generated (r_ludo r);
          '(w', m') ← load_packed keys w m;
          reg ← first_registry f nkeys packed_entries num_buckets lay reg0;
          let r' := MkRegion (r_size r) m' ludo (replicate (length (r_locks r)) 0) in
          Ok (Some (MkSetup reg (<[numa_meta_name server_name := reg]> metas') (put_region server_name 1 r' shm1)
            (MkSrv 1 fd num_buckets packed_entries) lookup w' (new_cache 2048 10)))
      end
  end.

(** The control plane is built for 1024 keys first. *)
Definition setup_ludo_table (os : os_env) (f : flags) (fd : Z) (junk : packed_struct)
    (rnd : nat -> Z) (fuel : nat) (o : L) (keys : list Z) (metas_ : metas) (shm : regions)
    : res (option setup_state) :=
  cp0 ← new_table o 1024;
  cp ← insert_keys rnd fuel keys cp0;
  setup_shared os f fd junk keys cp metas_ shm.

(** The in-process names of the server: its own, "default" and one per lane. *)
Definition register_names {S} (state : S) (lanes : nat) (m : gmap string S) : gmap string S :=
  foldl (fun m i => register_server_state ("b" +:+ to_string (Z.of_nat i)) state m)
    (register_server_state "default" state (register_server_state server_name state m)) (seq 0 lanes).

(** [ready = 1], and the orchestrator is started. *)
Definition register_numa_server (s : setup_state) : Orch :=
  start (MkOrch (set_ready 1 (st_reg s)) (st_shm s) false false false (st_srv s) None [] [] 0 None (-1)
    0 0 0 zero_metrics).

(** What of it the shared-memory objects see: the orchestrator stops, [ready]
    is cleared, the registry's name and the region's name without a version
    are unlinked. *)
Definition cleanup_numa_ipc (o : Orch) (metas_ : metas) : Orch * metas :=
  let o1 := stop o in
  (set_o_shm (unlink_numa_region server_name 0 (o_shm o1)) (set_o_reg (set_ready 0 (o_reg o1)) o1),
   delete (numa_meta_name server_name) metas_).

(** ** Laws *)

Lemma load_packed_spec keys w m : num w = 0 -> numElements w = Z.of_nat (length m) ->
  (length keys <= length m)%nat -> Z.of_nat (length m) < 2 ^ 32 ->
  exists w' m', load_packed keys w m = Ok (w', m') /\ length m' = length m /\
    num w' = Z.of_nat (length keys) /\ numElements w' = numElements w /\
    forall i k, keys !! i = Some k -> m' !! i = Some (PackedStruct k 8 (Z.of_nat i)).
Proof.
  intros H0 HN Hl Hcap. unfold load_packed.
  destruct (foldM_inv (fun pre '(w', m') => length m' = length m /\
    num w' = Z.of_nat (length pre) /\ numElements w' = numElements w /\
    forall i k v, pre !! i = Some (k, v) -> m' !! i = Some (PackedStruct k 8 v))
    (fun '(w, m) '(k, i) => '(w', m', _) ← bulk_load_data w m k 8 i; Ok (w', m'))
    (numbered keys) (w, m)) as ([w' m'] & E & Hlm & Hn & HN' & Hit).
  - split; [done|]. split; [by rewrite H0|]. split; [done|]. intros i k v Hi. by rewrite lookup_nil in Hi.
  - intros pre [k v] post [w1 m1] Hpre (Hlm & Hn & HN' & Hit).
    assert (Hpl : (length pre < length keys)%nat).
    { apply (f_equal length) in Hpre. unfold numbered in Hpre.
      rewrite length_zip, length_seqZ, length_app in Hpre. cbn [length] in Hpre. lia. }
    unfold bulk_load_data. rewrite HN', HN, Hn.
    destruct (Z.leb_spec (Z.of_nat (length m)) (Z.of_nat (length pre))); [lia|].
    rewrite wr_in_range, !bind_Ok_l by lia. eexists. split; [reflexivity|].
    cbn [num numElements]. rewrite length_insert, length_app, wrap_id by (unfold is_word; lia).
    cbn [length]. split; [done|]. split; [lia|]. split; [congruence|]. rewrite Nat2Z.id.
    intros i k' v' Hi. destruct (decide (i = length pre)) as [->|Hne].
    + rewrite list_lookup_insert_eq by lia. rewrite lookup_app_r, Nat.sub_diag in Hi by lia.
      cbn in Hi. congruence.
    + rewrite list_lookup_insert_ne by done. apply Hit.
      apply lookup_lt_Some in Hi as Hlt. rewrite length_app in Hlt. cbn [length] in Hlt.
      rewrite lookup_app_l in Hi by lia. done.
  - exists w', m'. split; [done|]. split; [done|]. split.
    { rewrite Hn. unfold numbered. rewrite length_zip, length_seqZ. lia. }
    split; [done|]. intros i k Hi. apply (Hit i). unfold numbered.
    apply lookup_zip_Some. split; [done|]. apply lookup_seqZ. apply lookup_lt_Some in Hi. lia.
Qed.

Lemma first_lanes_spec nkeys entries n i : 0 <= i < 64 ->
  rd (first_lanes nkeys entries n) i = Ok (if i <? n then u64 (nkeys + i) else entries).
Proof.
  intros Hi. apply rd_Ok. split; [lia|]. unfold first_lanes. rewrite list_lookup_fmap.
  change (Z.of_nat kMaxNumaLanes) with 64. rewrite lookup_seqZ_lt by lia. cbn [fmap option_fmap option_map].
  f_equal. rewrite Z.add_0_l, Z2Nat.id by lia. done.
Qed.

Lemma effective_mem_threads_range n : 1 <= effective_mem_threads n <= 64.
Proof. unfold effective_mem_threads. change (Z.of_nat kMaxNumaLanes) with 64. lia. Qed.

Lemma first_registry_spec f nkeys entries buckets lay : exists reg,
  first_registry f nkeys entries buckets lay new_registry = Ok reg /\ reg_inv reg /\
  resize_state reg = ResizeState_code NORMAL /\ current_version reg = 1 /\ previous_version reg = 0 /\
  deferred_insert_count reg = 0 /\ deferred_delete_count reg = 0 /\ ready reg = 0 /\
  rd (epoch reg) 1 = Ok (first_epoch lay buckets entries) /\
  alloc_lanes reg = effective_mem_threads (f_mem_threads f) /\
  lane_next_free_index reg = first_lanes nkeys entries (effective_mem_threads (f_mem_threads f)).
Proof.
  unfold first_registry. pose proof (effective_mem_threads_range (f_mem_threads f)) as Hn.
  pose proof (wr_in_range (epoch new_registry) 1 (first_epoch lay buckets entries) ltac:(simpl; lia)) as Hw.
  rewrite Hw, bind_Ok_l. eexists. split; [reflexivity|].
  cbn [resize_state current_version previous_version deferred_insert_count deferred_delete_count ready
    epoch lane_next_free_index]. split.
  - constructor; cbn [epoch clients lane_next_free_index mem_threads current_version
      registered_clients generation]; try done.
    + apply Forall_insert; [apply zero_quiet|by split].
    + apply Forall_replicate. by left.
    + lia.
  - do 6 (split; [done|]). split; [by apply (rd_wr_eq _ _ _ _ Hw)|]. split; [|done].
    unfold alloc_lanes. cbn [mem_threads]. change (Z.of_nat kMaxNumaLanes) with 64.
    destruct (Z.eqb_spec (effective_mem_threads (f_mem_threads f)) 0); lia.
Qed.

(** The state a set-up server is in. *)
Definition serving (keys : list Z) (s : setup_state) : Prop :=
  exists r, st_shm s !! numa_region_name server_name 1 = Some r /\
    orch_inv (register_numa_server s) /\
    copyable server_name (register_numa_server s)
      (first_epoch (region_layout (2 * Z.of_nat (length keys)) (Z.of_nat (length (r_ludo r))) 32)
        (Z.of_nat (length (r_ludo r))) (2 * Z.of_nat (length keys))) r /\
    (forall i, 0 <= i < alloc_lanes (st_reg s) ->
       rd (lane_next_free_index (st_reg s)) i = Ok (Z.of_nat (length keys) + i)) /\
    forall i k, keys !! i = Some k ->
      search_row (st_lookup s) (r_ludo r) (r_packed r) k = Ok (Some (Z.of_nat i)).

Lemma setup_main os f fd junk keys cp j metas_ shm : os = MkOs true true true ->
  wf_table cp j -> synced to_dp (cp_locator cp) ->
  (forall i k, keys !! i = Some k -> holds cp k (Z.of_nat i)) ->
  Z.of_nat (length keys) < 2 ^ 30 ->
  exists s, setup_shared os f fd junk keys cp metas_ shm = Ok (Some s) /\ serving keys s.
Proof.
  intros -> Hwf Hsync Hkeys Hn. unfold setup_shared. cbv zeta.
  destruct (bulk_load_main to_dp cp j Hwf Hsync) as (d & cells & E & Hlc & Hgb & Hit).
  rewrite E, bind_Ok_l. cbv beta iota. rewrite Hgb.
  pose proof (ts_j cp j (wt_shape cp j Hwf)) as Hj.
  assert (H2j : 64 <= 2 ^ j <= 2 ^ 30) by (split; [apply (Z.pow_le_mono_r 2 6 j)|apply Z.pow_le_mono_r]; lia).
  rewrite (wrap_id 64 (2 * Z.of_nat (length keys))) by (unfold is_word; lia).
  set (n2 := 2 * Z.of_nat (length keys)).
  cbn [map_numa_registry create_shared_numa_region shm_open_ok ftruncate_ok mmap_ok negb zero_region
    r_packed r_ludo r_locks r_size].
  rewrite (attach_spec junk) by (by rewrite length_replicate). rewrite bind_Ok_l. cbv beta iota.
  rewrite (copy_prefix_whole cells) by (unfold new_buckets; rewrite ?length_replicate; lia).
  rewrite bind_Ok_l. unfold new_buckets. rewrite drop_replicate, Hlc, Nat.sub_diag, app_nil_r.
  destruct (load_packed_spec keys (PackedData 0 (Z.of_nat (Z.to_nat n2))) (replicate (Z.to_nat n2) junk))
    as (w' & m' & El & Hlm & Hnum & HN & Hm'); [done|by rewrite length_replicate|
      rewrite length_replicate; lia|rewrite length_replicate; lia|].
  rewrite El, bind_Ok_l. cbv beta iota.
  destruct (first_registry_spec f (Z.of_nat (length keys)) n2 (2 ^ j)
    (region_layout n2 (2 ^ j) sizeof_LudoBucket)) as
    (reg & Er & Hreg & Hst & Hcv & Hpv & Hdi & Hdd & _ & Hep & Hal & Hlanes).
  rewrite Er, bind_Ok_l. eexists. split; [reflexivity|].
  rewrite length_replicate in Hlm.
  assert (Hz : Z.of_nat (length cells) = 2 ^ j) by lia.
  eexists. split; [apply lookup_insert_eq|]. cbn [r_ludo r_packed st_lookup st_reg]. rewrite Hz.
  split; [|split; [|split]].
  - apply (fresh_inv (set_ready 1 reg)); cbn [set_ready resize_state previous_version
      deferred_insert_count deferred_delete_count current_version srv_region]; try done.
    destruct Hreg. by constructor.
  - constructor; cbn [register_numa_server start o_reg o_shm set_o_hooks set_o_running st_reg st_shm
      set_ready current_version epoch r_packed r_ludo].
    + by rewrite Hcv.
    + rewrite Hcv. apply lookup_insert_eq.
    + rewrite Hlm. cbn [first_epoch num_data_entries]. fold n2. done.
    + cbn [first_epoch num_buckets]. lia.
    + cbn [first_epoch num_data_entries]. lia.
    + cbn [first_epoch num_buckets]. lia.
    + pose proof (region_layout_main n2 (2 ^ j) 32 ltac:(lia) ltac:(lia) ltac:(lia) ltac:(lia))
        as (_ & _ & _ & _ & _ & _ & _ & _ & He). cbv zeta in He.
      rewrite He; [done|lia|done|done|done].
    + pose proof (region_layout_main n2 (2 ^ j) 32 ltac:(lia) ltac:(lia) ltac:(lia) ltac:(lia))
        as (_ & _ & _ & _ & _ & _ & _ & _ & He). cbv zeta in He.
      cbn [first_epoch num_data_entries num_buckets]. fold n2. rewrite He; [lia|lia|done|done|done].
  - intros i Hi. rewrite Hlanes. rewrite Hal in Hi.
    pose proof (effective_mem_threads_range (f_mem_threads f)).
    rewrite first_lanes_spec by lia. destruct (Z.ltb_spec i (effective_mem_threads (f_mem_threads f))); [|lia].
    f_equal. apply wrap_id. unfold is_word. lia.
  - intros i k Hi. pose proof (lookup_lt_Some _ _ _ Hi) as Hil.
    destruct (Hit k (Z.of_nat i) (Hkeys i k Hi) ltac:(lia)) as (row & slot & c & Hloc & _ & Ha & _).
    unfold search_row, locate_key. rewrite Hloc, !bind_Ok_l. cbv beta iota. rewrite Ha, bind_Ok_l.
    assert (Hrd : rd m' (Z.of_nat i) = Ok (PackedStruct k 8 (Z.of_nat i))).
    { apply rd_Ok. split; [lia|]. rewrite Nat2Z.id. by apply Hm'. }
    unfold read_key. rewrite Hrd, !bind_Ok_l. cbn [pkey]. by rewrite Z.eqb_refl.
Qed.

(** *** Loading the keys *)

Lemma numbered_keys keys : (numbered keys).*1 = keys.
Proof. unfold numbered. apply fst_zip. rewrite length_seqZ. lia. Qed.

Lemma numbered_elem keys i k : keys !! i = Some k -> (k, Z.of_nat i) ∈ numbered keys.
Proof.
  intros Hi. apply list_elem_of_lookup. exists i. apply lookup_zip_Some. split; [done|].
  apply lookup_lt_Some in Hi. rewrite lookup_seqZ_lt by lia. done.
Qed.

(** The loading drew no hash seed and left fewer than 2^29 buckets. *)
Definition loaded_clean (cp : ControlPlaneLudo L) : Prop := rand_pos cp = 0%nat /\ num_buckets_ cp < 2 ^ 29.

Lemma insert_keys_spec rnd fuel o keys cp0 cp : loc_inv o -> NoDup keys ->
  new_table o 1024 = Ok cp0 -> insert_keys rnd fuel keys cp0 = Ok cp -> loaded_clean cp ->
  exists j, wf_table cp j /\ forall i k, keys !! i = Some k -> holds cp k (Z.of_nat i).
Proof.
  intros Ho Hnd H0 H [Hr Hs].
  destruct (load_main o 1024 rnd fuel (numbered keys) cp0 cp Ho) as (j & Hwf & Hh);
    [lia|by rewrite numbered_keys|done|exact H|done|done|].
  exists j. split; [done|]. intros i k Hi. apply Hh. by apply numbered_elem.
Qed.

(** C24: The server's start: when the memory can be had and different keys were
    inserted one by one into a new table, which may have moved and grown but
    was never rebuilt, and the locator was converted faithfully,
    [setup_ludo_table] succeeds, and after [register_numa_server] the
    orchestrator is in its invariant, the region can be copied by a resize, the
    lanes are free from the number of keys on, and looking up any loaded key
    through its row gives its number. *)
Theorem setup_serves f fd junk rnd fuel o keys cp0 cp metas_ shm : loc_inv o -> NoDup keys ->
  new_table o 1024 = Ok cp0 -> insert_keys rnd fuel keys cp0 = Ok cp -> loaded_clean cp ->
  synced to_dp (cp_locator cp) -> Z.of_nat (length keys) < 2 ^ 30 ->
  exists s, setup_ludo_table (MkOs true true true) f fd junk rnd fuel o keys metas_ shm = Ok (Some s) /\
    serving keys s.
Proof.
  intros Ho Hnd H0 Hcp Hclean Hsync Hn.
  destruct (insert_keys_spec rnd fuel o keys cp0 cp Ho Hnd H0 Hcp Hclean) as (j & Hwf & Hkeys).
  unfold setup_ludo_table. rewrite H0, bind_Ok_l, Hcp, bind_Ok_l.
  by apply (setup_main (MkOs true true true) f fd junk keys cp j metas_ shm).
Qed.

(** The shutdown unlinks the name without a version, which no region has: a
    region of version 1 or later stays behind. *)
Theorem cleanup_leaves_region o metas_ v r : 1 <= v ->
  o_shm o !! numa_region_name server_name v = Some r ->
  o_shm (fst (cleanup_numa_ipc o metas_)) !! numa_region_name server_name v = Some r.
Proof.
  intros Hv Hr. cbn. unfold unlink_numa_region. rewrite lookup_delete_ne; [done|].
  unfold numa_region_name. destruct (Z.eqb_spec v 0); [lia|]. intros E.
  apply (f_equal (fun s => length (String.list_ascii_of_string s))) in E.
  cbv beta iota in E. rewrite !list_ascii_app, !length_app in E. cbn in E. lia.
Qed.
End setup.

(** ** An instance: one key over an empty table *)

Definition setup_table0 : ControlPlaneLudo (gmap Z Z) :=
  match new_table (∅ : gmap Z Z) 1024 with Ok t => t | Err _ => demo_table end.
Definition setup_table : ControlPlaneLudo (gmap Z Z) :=
  match insert_keys (fun _ => 0) 1 [5] setup_table0 with Ok t => t | Err _ => setup_table0 end.

Lemma new_table_ok : new_table (∅ : gmap Z Z) 1024 = Ok setup_table0.
Proof. vm_compute. reflexivity. Qed.

Lemma setup_table_ok : insert_keys (fun _ => 0) 1 [5] setup_table0 = Ok setup_table.
Proof. vm_compute. reflexivity. Qed.

Lemma setup_serves_witness :
  exists s, setup_ludo_table (fun _ => zero_othello) "s" (MkOs true true true)
      (MkFlags 4 0 (fun n => n) (fun n => n)) 5 zero_struct (fun _ => 0) 1 (∅ : gmap Z Z) [5] ∅ ∅ =
      Ok (Some s) /\ serving "s" [5] s.
Proof.
  apply (setup_serves (fun _ => zero_othello) "s" (MkFlags 4 0 (fun n => n) (fun n => n)) 5 zero_struct
    (fun _ => 0) 1 ∅ [5] setup_table0 setup_table ∅ ∅).
  - apply map_Forall_empty.
  - apply NoDup_singleton.
  - exact new_table_ok.
  - exact setup_table_ok.
  - vm_compute. auto.
  - intros k w Hw. assert (E : cp_locator setup_table = {[5 := 0]}) by (vm_compute; reflexivity).
    rewrite E in Hw. cbn [loc_map map_locator_ok] in Hw.
    apply lookup_singleton_Some in Hw as [<- <-]. vm_compute. reflexivity.
  - simpl. lia.
Defined.
