(* ===== verification/Rpc.v ===== *)
(** * Messages and remote procedure calls (xutils/marshal.hh, xcomm/src/rpc)

    Bytes are words of 8 bits; memory that a [MemBlock] refers to is the list of
    its bytes, [sz] its length, and a [cur_ptr] the offset from its start.
    [header] is a struct of bit fields; four bytes pad it to eight.  What a
    local variable holds before it is written is an argument.  A transport
    sends a message or fails an assertion of its caller; that the network card
    accepts a message is assumed. *)

From Stdlib Require Import ZArith Lia.
From stdpp Require Import base numbers gmap list.
From S2P Require Import Prelude Words.

#[local] Open Scope Z_scope.

(** ** Memory *)

Definition sz {A} (l : list A) : Z := Z.of_nat (length l).

(** [memcpy(buf + off, bs, sizeof bs)]. *)
Definition write_bytes (buf : list Z) (off : Z) (bs : list Z) : res (list Z) :=
  if (0 <=? off) && (off + sz bs <=? sz buf)
  then Ok (take (Z.to_nat off) buf ++ bs ++ drop (Z.to_nat off + length bs) buf)
  else Err OutOfBounds.

(** [memcpy(res, buf + off, n)]. *)
Definition read_bytes (buf : list Z) (off n : Z) : res (list Z) :=
  if (0 <=? off) && (0 <=? n) && (off + n <=? sz buf)
  then Ok (take (Z.to_nat n) (drop (Z.to_nat off) buf)) else Err OutOfBounds.

(** The representation of an unsigned integer of [n] bytes, and its value. *)
Fixpoint le_bytes (n : nat) (t : Z) : list Z :=
  match n with O => [] | S n => t mod 256 :: le_bytes n (t / 256) end.

Fixpoint le_value (bs : list Z) : Z :=
  match bs with [] => 0 | b :: bs => b + 256 * le_value bs end.

(** ** Marshal and MarshalT, for integers of [n] bytes *)

Section marshal.
Context (n : nat).

(** [serialize_to(t, s)]: the string [s] is overwritten from its start. *)
Definition serialize_into (t : Z) (s : list Z) : res (list Z) :=
  _ ← guard_ok (Z.of_nat n <=? sz s) AssertFailed; write_bytes s 0 (le_bytes n t).

(** [serialize_to(t)]. *)
Definition serialize_to (t : Z) : res (list Z) := serialize_into t (replicate n 0).

Definition unsafe_serialize (t : Z) (buf : list Z) (off : Z) : res (list Z * Z) :=
  b ← write_bytes buf off (le_bytes n t); Ok (b, off + Z.of_nat n).

Definition deserialize (buf : list Z) : res Z :=
  _ ← guard_ok (Z.of_nat n <=? sz buf) AssertFailed;
  bs ← read_bytes buf 0 (Z.of_nat n); Ok (le_value bs).

Definition extract (buf : list Z) (off : Z) : res Z :=
  bs ← read_bytes buf off (Z.of_nat n); Ok (le_value bs).

Definition extract_with_inc (buf : list Z) (off : Z) : res (Z * Z) :=
  v ← extract buf off; Ok (v, off + Z.of_nat n).

Definition deserialize_opt (buf : list Z) : res (option Z) :=
  if sz buf <? Z.of_nat n then Ok None
  else bs ← read_bytes buf 0 (Z.of_nat n); Ok (Some (le_value bs)).

(** [MarshalT]: the packed struct of the size and the value. *)
Definition wrapper_bytes (size t : Z) : list Z := le_bytes 8 size ++ le_bytes n t.

Definition serializeT (t : Z) : list Z := wrapper_bytes (Z.of_nat n) t.

Definition deserializeT (d : list Z) : res (option Z) :=
  if sz d <? 8 + Z.of_nat n then Ok None
  else bs ← read_bytes d 8 (Z.of_nat n); Ok (Some (le_value bs)).
End marshal.

(** [MemBlock::interpret_as<T>(offset)] with [sizeof(T) = n], of a block of
    [size] bytes: the offset of the pointer, or null.  [sz - offset] is a
    [u32]. *)
Definition interpret_as (size n offset : Z) : option Z :=
  if u32 (size - offset) <? n then None else Some offset.

(** ** The header *)

Inductive MsgType := Req | Reply | Connect.

Definition MsgType_code (t : MsgType) : Z :=
  match t with Req => 1 | Reply => 2 | Connect => 3 end.

Record Header := MkHeader {
  type : Z;       (* 2 bits *)
  rpc_id : Z;     (* 5 bits *)
  payload : Z;    (* 18 bits *)
  cor_id : Z;     (* 7 bits *)
}.

Definition sizeof_Header : Z := 8.

(** The bit fields from the lowest bit up, and the padding. *)
Definition header_bytes (pad : list Z) (h : Header) : list Z :=
  le_bytes 4 (type h + 2 ^ 2 * rpc_id h + 2 ^ 7 * payload h + 2 ^ 25 * cor_id h) ++ pad.

Definition header_of (bs : list Z) : Header :=
  let w := le_value (take 4 bs) in
  MkHeader (wrap 2 w) (wrap 5 (Z.shiftr w 2)) (wrap 18 (Z.shiftr w 7)) (wrap 7 (Z.shiftr w 25)).

(** ** Replies *)

Record ReplyEntry := MkEntry {
  pending_replies : Z;
  reply_buf : list Z;
  reply_cur : Z;        (* cur_ptr *)
}.

Definition reply_entry (buf : list Z) : ReplyEntry := MkEntry 1 buf 0.

Definition ReplyStation : Type := list ReplyEntry.

Definition new_station (num_cors : nat) : ReplyStation := replicate num_cors (MkEntry 0 [] 0).

Definition add_pending_reply (s : ReplyStation) (cor : Z) (reply : ReplyEntry)
    : res (ReplyStation * bool) :=
  _ ← guard_ok (cor <? sz s) AssertFailed;
  e ← rd s cor;
  if 0 <? pending_replies e then Ok (s, false)
  else s' ← wr s cor reply; Ok (s', true).

Definition cor_ready (s : ReplyStation) (cor : Z) : res bool :=
  e ← rd s cor; Ok (pending_replies e =? 0).

Definition append_reply (s : ReplyStation) (cor : Z) (payload : list Z)
    : res (ReplyStation * bool) :=
  ready ← cor_ready s cor;
  if ready : bool then Ok (s, false)
  else
    r ← rd s cor;
    _ ← guard_ok (reply_cur r + sz payload <=? sz (reply_buf r)) AssertFailed;
    b ← write_bytes (reply_buf r) (reply_cur r) payload;
    s' ← wr s cor (MkEntry (pending_replies r - 1) b (reply_cur r + sz payload));
    Ok (s', true).

(** ** Building a message *)

Record RPCOp := MkOp {
  header : Header;
  header_pad : list Z;     (* the padding bytes of [header] *)
  msg : list Z;
  cur_ptr : Z;
}.

Definition with_header (h : Header) (o : RPCOp) : RPCOp :=
  MkOp h (header_pad o) (msg o) (cur_ptr o).

(** [RPCOp op;] leaves the header as it finds it. *)
Definition new_op (junk : Header) (pad : list Z) : RPCOp := MkOp junk pad [] 0.

Definition set_msg (b : list Z) (o : RPCOp) : res RPCOp :=
  _ ← guard_ok (sizeof_Header <=? sz b) AssertFailed;
  Ok (MkOp (header o) (header_pad o) b sizeof_Header).

Definition set_rpc_id (id : Z) (o : RPCOp) : RPCOp :=
  let h := header o in with_header (MkHeader (type h) (wrap 5 id) (payload h) (cor_id h)) o.

Definition set_type (t : MsgType) (o : RPCOp) : RPCOp :=
  let h := header o in
  with_header (MkHeader (MsgType_code t) (rpc_id h) (payload h) (cor_id h)) o.
Definition set_req : RPCOp -> RPCOp := set_type Req.
Definition set_connect : RPCOp -> RPCOp := set_type Connect.
Definition set_reply : RPCOp -> RPCOp := set_type Reply.

Definition set_corid (id : Z) (o : RPCOp) : RPCOp :=
  let h := header o in with_header (MkHeader (type h) (rpc_id h) (payload h) (wrap 7 id)) o.

(** The entry goes to the coroutine of the header; the result of
    [add_pending_reply] is dropped. *)
Definition add_reply_entry (s : ReplyStation) (reply : ReplyEntry) (o : RPCOp)
    : res (ReplyStation * RPCOp) :=
  '(s', _) ← add_pending_reply s (cor_id (header o)) reply; Ok (s', o).

Definition add_one_reply (s : ReplyStation) (buf : list Z) (o : RPCOp)
    : res (ReplyStation * RPCOp) := add_reply_entry s (reply_entry buf) o.

Definition cur_sz (o : RPCOp) : Z := cur_ptr o.

Definition add_opaque (data : list Z) (o : RPCOp) : res (RPCOp * bool) :=
  if sz (msg o) <? sz data + cur_sz o then Ok (o, false)
  else
    m ← write_bytes (msg o) (cur_ptr o) data;
    Ok (MkOp (header o) (header_pad o) m (cur_ptr o + sz data), true).

(** [add_arg], of the bytes of the argument. *)
Definition add_arg (arg : list Z) (o : RPCOp) : res (RPCOp * bool) :=
  if sz (msg o) <? sz arg + cur_sz o then Ok (o, false)
  else
    m ← write_bytes (msg o) (cur_ptr o) arg;
    Ok (MkOp (header o) (header_pad o) m (cur_ptr o + sz arg), true).

Definition finalize (o : RPCOp) : res RPCOp :=
  let h := MkHeader (type (header o)) (rpc_id (header o)) (wrap 18 (cur_sz o - sizeof_Header))
    (cor_id (header o)) in
  m ← write_bytes (msg o) 0 (header_bytes (header_pad o) h);
  Ok (MkOp h (header_pad o) (take (Z.to_nat (payload h + sizeof_Header)) m) (cur_ptr o)).

(** [execute] and [execute_w_key]: what is sent. *)
Definition execute (o : RPCOp) : res (list Z) := o' ← finalize o; Ok (msg o').

Definition get_connect_op (junk : Header) (pad m opaque_data : list Z) : res RPCOp :=
  o ← set_msg m (new_op junk pad);
  '(o, _) ← add_opaque opaque_data (set_connect o); Ok o.

(** ** The core: sessions, replies and callbacks *)

(** The parts of a message: [ASSERT]s on its size, the header, the payload. *)
Definition parse_msg (m : list Z) : res (Header * list Z) :=
  _ ← guard_ok (sizeof_Header <=? sz m) AssertFailed;
  let h := header_of m in
  _ ← guard_ok (payload h + sizeof_Header <=? sz m) AssertFailed;
  Ok (h, take (Z.to_nat (payload h)) (drop (Z.to_nat sizeof_Header) m)).

(** The packed struct [QPAttr] of deps/rlib. *)
Definition sizeof_QPAttr : Z := 60.

Section core.
(** [S] is the state the callbacks work on. *)
Context {S : Type}.

(** A callback gets the header and the arguments, and the messages it sends
    on its reply channel are part of its result. *)
Definition rpc_func_t : Type := S -> Header -> list Z -> res (S * list (list Z)).

Record RPCCore := MkCore {
  incoming_sessions : gmap Z (option (list Z));  (* the peer's [QPAttr]; [None] is a null pointer *)
  reply_station : ReplyStation;
  callbacks : list rpc_func_t;
}.

Definition new_core (num_cors : nat) : RPCCore := MkCore ∅ (new_station num_cors) [].

Definition reg_callback (f : rpc_func_t) (c : RPCCore) : RPCCore * Z :=
  (MkCore (incoming_sessions c) (reply_station c) (callbacks c ++ [f]), sz (callbacks c)).

Definition with_sessions x (c : RPCCore) := MkCore x (reply_station c) (callbacks c).
Definition with_station x (c : RPCCore) := MkCore (incoming_sessions c) x (callbacks c).

(** [UDSessionManager::add_impl]: [insert] does not replace a session. *)
Definition add_impl (id : Z) (raw_connect_data : list Z) (c : RPCCore) : res RPCCore :=
  _ ← guard_ok (match interpret_as (sz raw_connect_data) sizeof_QPAttr 0 with
                | Some _ => true | None => false end) AssertFailed;
  attr ← read_bytes raw_connect_data 0 sizeof_QPAttr;
  match incoming_sessions c !! id with
  | Some _ => Ok c
  | None => Ok (with_sessions (<[id := Some attr]> (incoming_sessions c)) c)
  end.

(** What a step of a receive loop does besides changing the state: messages
    sent, with the peer they go to, and the coroutine to be resumed. *)
Definition sent : Type := list (list Z * list Z).

(** A request: [incoming_sesions[session_id]] adds a null session when there
    is none; whatever the callback throws is an assertion failure. *)
Definition do_request (c : RPCCore) (s : S) (session_id : Z) (h : Header) (args : list Z)
    : res (RPCCore * S * sent) :=
  let chan := match incoming_sessions c !! session_id with Some x => x | None => None end in
  let c' := with_sessions (<[session_id := chan]> (incoming_sessions c)) c in
  match callbacks c !! Z.to_nat (rpc_id h) with
  | None => Err AssertFailed
  | Some f =>
      match f s h args with
      | Err Thrown => Err AssertFailed
      | Err e => Err e
      | Ok (s', replies) =>
          match chan, replies with
          | _, [] => Ok (c', s', [])
          | None, _ :: _ => Err NullDeref
          | Some attr, _ => Ok (c', s', (fun m => (attr, m)) <$> replies)
          end
      end
  end.

(** The body of both loops over the received messages. *)
Definition recv_msg (c : RPCCore) (s : S) (session_id : Z) (m : list Z)
    : res (RPCCore * S * sent * option Header) :=
  '(h, args) ← parse_msg m;
  if type h =? MsgType_code Req then
    '(c', s', out) ← do_request c s session_id h args; Ok (c', s', out, None)
  else if type h =? MsgType_code Reply then
    '(st, ok) ← append_reply (reply_station c) (cor_id h) args;
    _ ← guard_ok ok AssertFailed;
    Ok (with_station st c, s, [], Some h)
  else if type h =? MsgType_code Connect then
    c' ← add_impl session_id args c; Ok (c', s, [], None)
  else Err AssertFailed.

(** [recv_event_loop]: the messages of one round, each with its session. *)
Fixpoint recv_event_loop (c : RPCCore) (s : S) (msgs : list (Z * list Z))
    : res (RPCCore * S * sent * Z) :=
  match msgs with
  | [] => Ok (c, s, [], 0)
  | (session_id, m) :: msgs =>
      '(c1, s1, out1, _) ← recv_msg c s session_id m;
      '(c2, s2, out2, n) ← recv_event_loop c1 s1 msgs;
      Ok (c2, s2, out1 ++ out2, n + 1)
  end.

(** The future of [reg_poll_future]: also the coroutines it adds back. *)
Fixpoint poll_future (c : RPCCore) (s : S) (msgs : list (Z * list Z))
    : res (RPCCore * S * sent * list Z) :=
  match msgs with
  | [] => Ok (c, s, [], [])
  | (session_id, m) :: msgs =>
      '(c1, s1, out1, reply) ← recv_msg c s session_id m;
      woken ← match reply with
              | None => Ok []
              | Some h =>
                  ready ← cor_ready (reply_station c1) (cor_id h);
                  Ok (if ready : bool then [cor_id h] else [])
              end;
      '(c2, s2, out2, w) ← poll_future c1 s1 msgs;
      Ok (c2, s2, out1 ++ out2, woken ++ w)
  end.
End core.

Arguments RPCCore : clear implicits.
Arguments rpc_func_t : clear implicits.

(** ** The UD transport (xcomm/src/transport/rdma_ud_t.hh)

    [cur_msg_impl] hands out 4000 bytes from the end of the packet's GRH,
    whatever the packet's length: the packet and what the memory holds after it. *)
Definition cur_msg_impl (packet after : list Z) : list Z := take (Z.to_nat 4000) (packet ++ after).

(** ** Bytes *)

Lemma le_bytes_length n t : length (le_bytes n t) = n.
Proof. revert t. induction n as [|n IH]; intros t; [done|]. cbn. by rewrite IH. Qed.

Lemma le_value_wrap n t : le_value (le_bytes n t) = wrap (8 * Z.of_nat n) t.
Proof.
  revert t. induction n as [|n IH]; intros t; [symmetry; apply Z.mod_1_r|].
  cbn [le_bytes le_value]. rewrite IH. unfold wrap.
  replace (8 * Z.of_nat (S n)) with (8 + 8 * Z.of_nat n) by lia.
  rewrite Z.pow_add_r by lia. change (2 ^ 8) with 256.
  rewrite Z.rem_mul_r by lia. done.
Qed.

Lemma le_value_bytes n t : is_word (8 * Z.of_nat n) t -> le_value (le_bytes n t) = t.
Proof. intros Ht. by rewrite le_value_wrap, wrap_id. Qed.

Lemma sz_app {A} (l k : list A) : sz (l ++ k) = sz l + sz k.
Proof. unfold sz. rewrite length_app. lia. Qed.

Lemma sz_le_bytes n t : sz (le_bytes n t) = Z.of_nat n.
Proof. unfold sz. by rewrite le_bytes_length. Qed.

Lemma sz_nonneg {A} (l : list A) : 0 <= sz l.
Proof. unfold sz. lia. Qed.

(** A write at [off], with the parts of the buffer before and after it. *)
Lemma write_bytes_app pre old post bs : length old = length bs ->
  write_bytes (pre ++ old ++ post) (sz pre) bs = Ok (pre ++ bs ++ post).
Proof.
  intros H. unfold write_bytes. rewrite (proj2 (Z.leb_le _ _)) by (unfold sz; lia).
  rewrite (proj2 (Z.leb_le _ _)) by (rewrite !sz_app; unfold sz; lia). cbn [andb].
  unfold sz. rewrite Nat2Z.id, take_app_length.
  rewrite <-drop_drop, drop_app_length, <-H, drop_app_length. done.
Qed.

Lemma read_bytes_app pre bs post :
  read_bytes (pre ++ bs ++ post) (sz pre) (sz bs) = Ok bs.
Proof.
  unfold read_bytes. rewrite (proj2 (Z.leb_le _ _)) by (unfold sz; lia).
  rewrite (proj2 (Z.leb_le _ _)) by (unfold sz; lia).
  rewrite (proj2 (Z.leb_le _ _)) by (rewrite !sz_app; unfold sz; lia). cbn [andb].
  unfold sz. by rewrite !Nat2Z.id, drop_app_length, take_app_length.
Qed.

Lemma split_at {A} (l : list A) n : 0 <= n <= sz l ->
  exists pre post, l = pre ++ post /\ sz pre = n.
Proof.
  intros H. exists (take (Z.to_nat n) l), (drop (Z.to_nat n) l).
  rewrite take_drop. split; [done|]. unfold sz in *. rewrite length_take. lia.
Qed.

Lemma serialize_to_eq n t : serialize_to n t = Ok (le_bytes n t).
Proof.
  unfold serialize_to, serialize_into, sz. rewrite length_replicate, Z.leb_refl. cbn [guard_ok].
  rewrite bind_Ok_l. pose proof (write_bytes_app [] (replicate n 0) [] (le_bytes n t)) as H.
  rewrite !app_nil_r in H. apply H. by rewrite length_replicate, le_bytes_length.
Qed.

Lemma deserialize_app n t rest : is_word (8 * Z.of_nat n) t ->
  deserialize n (le_bytes n t ++ rest) = Ok t.
Proof.
  intros Ht. unfold deserialize. rewrite (proj2 (Z.leb_le _ _)).
  - cbn [guard_ok]. rewrite bind_Ok_l.
    pose proof (read_bytes_app [] (le_bytes n t) rest) as H. rewrite sz_le_bytes in H.
    change (sz []) with 0 in H. cbn [app] in H. rewrite H, bind_Ok_l. by rewrite le_value_bytes.
  - rewrite sz_app, sz_le_bytes. pose proof (sz_nonneg rest). lia.
Qed.

(** ** The header *)

Definition header_ok (h : Header) : Prop :=
  is_word 2 (type h) /\ is_word 5 (rpc_id h) /\ is_word 7 (cor_id h).

Lemma header_of_bytes pad h rest : header_ok h -> is_word 18 (payload h) ->
  header_of (header_bytes pad h ++ rest) = h.
Proof.
  intros (Ht & Hr & Hc) Hp. unfold header_of, header_bytes.
  rewrite <-app_assoc, take_app_length' by (by rewrite le_bytes_length).
  rewrite le_value_bytes by (unfold is_word in *; lia).
  destruct h as [t r p c]. cbn [type rpc_id payload cor_id] in *. unfold wrap, is_word in *.
  rewrite !Z.shiftr_div_pow2 by lia. f_equal; Z.div_mod_to_equations; lia.
Qed.

(** The operation [o] holds the arguments [data], after the place of the
    header. *)
Record carries (o : RPCOp) (data : list Z) : Prop := {
  ca_cur : cur_ptr o = sizeof_Header + sz data;
  ca_pad : length (header_pad o) = 4%nat;
  ca_hdr : header_ok (header o);
  ca_msg : exists hd rest, msg o = hd ++ data ++ rest /\ sz hd = sizeof_Header;
}.

Lemma carries_header o data h : carries o data -> header_ok h -> carries (with_header h o) data.
Proof. intros [] Hh. by split. Qed.

Lemma set_corid_ok id o data : carries o data -> carries (set_corid id o) data.
Proof.
  intros Ho. apply carries_header; [done|]. destruct (ca_hdr _ _ Ho) as (? & ? & ?).
  split; [done|]. split; [done|]. by apply wrap_is_word.
Qed.

Lemma set_rpc_id_ok id o data : carries o data -> carries (set_rpc_id id o) data.
Proof.
  intros Ho. apply carries_header; [done|]. destruct (ca_hdr _ _ Ho) as (? & ? & ?).
  split; [done|]. split; [|done]. by apply wrap_is_word.
Qed.

Lemma set_type_ok t o data : carries o data -> carries (set_type t o) data.
Proof.
  intros Ho. apply carries_header; [done|]. destruct (ca_hdr _ _ Ho) as (? & ? & ?).
  split; [|done]. by destruct t.
Qed.

Lemma set_msg_ok b junk pad : sizeof_Header <= sz b -> length pad = 4%nat -> header_ok junk ->
  exists o, set_msg b (new_op junk pad) = Ok o /\ carries o [] /\ msg o = b /\ header o = junk.
Proof.
  intros Hb Hp Hj. unfold set_msg. rewrite (proj2 (Z.leb_le _ _)) by done. cbn [guard_ok].
  rewrite bind_Ok_l. eexists. split; [reflexivity|]. split; [|done]. split; [done|done|done|].
  destruct (split_at b sizeof_Header) as (hd & rest & E & Hs); [unfold sizeof_Header in *; lia|].
  by exists hd, rest.
Qed.

Lemma add_opaque_ok o data bs : carries o data ->
  if decide (sizeof_Header + sz data + sz bs <= sz (msg o))
  then exists o', add_opaque bs o = Ok (o', true) /\ carries o' (data ++ bs) /\ header o' = header o /\
    sz (msg o') = sz (msg o)
  else add_opaque bs o = Ok (o, false).
Proof.
  intros [Hc Hp Hh (hd & rest & Hm & Hs)]. unfold add_opaque, cur_sz. rewrite Hc.
  destruct (decide _) as [Hfit|Hfit]; [|by rewrite (proj2 (Z.ltb_lt _ _)) by lia].
  rewrite (proj2 (Z.ltb_ge _ _)) by lia.
  assert (sz bs <= sz rest) as Hr by (rewrite Hm, !sz_app in Hfit; lia).
  destruct (split_at rest (sz bs)) as (old & post & -> & Ho); [pose proof (sz_nonneg bs); lia|].
  assert (Hlen : length old = length bs) by (unfold sz in Ho; lia).
  rewrite Hm, (assoc_L (++) hd data), <-Hs, <-(sz_app hd data).
  rewrite write_bytes_app, bind_Ok_l by done. eexists. split; [reflexivity|].
  split; [split; cbn; try done|cbn; split; [done|]].
  - rewrite !sz_app. lia.
  - exists hd, post. by rewrite <-!(assoc_L (++)).
  - rewrite !sz_app. unfold sz. lia.
Qed.

Lemma execute_ok o data : carries o data -> sz data < 2 ^ 18 ->
  exists m, execute o = Ok m /\ sz m = sizeof_Header + sz data /\
    forall after, parse_msg (m ++ after) =
      Ok (MkHeader (type (header o)) (rpc_id (header o)) (sz data) (cor_id (header o)), data).
Proof.
  intros [Hc Hp Hh (hd & rest & Hm & Hs)] Hd. unfold execute, finalize, cur_sz. rewrite Hc.
  assert (Hw : wrap 18 (sizeof_Header + sz data - sizeof_Header) = sz data).
  { rewrite wrap_id; [lia|]. pose proof (sz_nonneg data). unfold is_word. lia. }
  rewrite Hw. set (h := MkHeader _ _ (sz data) _).
  assert (Hl : length hd = length (header_bytes (header_pad o) h)).
  { unfold header_bytes. rewrite length_app, le_bytes_length, Hp. unfold sz, sizeof_Header in Hs. lia. }
  pose proof (write_bytes_app [] hd (data ++ rest) _ Hl) as E. cbn [app] in E.
  rewrite Hm. change (sz []) with 0 in E. rewrite E, bind_Ok_l. eexists. split; [reflexivity|].
  cbn [msg payload h].
  set (hb := header_bytes (header_pad o) h) in *.
  assert (Htake : take (Z.to_nat (sz data + sizeof_Header)) (hb ++ data ++ rest) = hb ++ data).
  { rewrite (assoc_L (++)), take_app_length' ; [done|]. rewrite length_app.
    unfold sz, sizeof_Header in *. lia. }
  rewrite Htake. assert (Hhb : sz hb = 8) by (unfold sz, sizeof_Header in *; lia).
  split; [rewrite sz_app; unfold sizeof_Header; lia|]. intros after.
  assert (Hsz : sz ((hb ++ data) ++ after) = sizeof_Header + sz data + sz after)
    by (rewrite !sz_app; unfold sizeof_Header; lia).
  pose proof (sz_nonneg data). pose proof (sz_nonneg after).
  assert (Hof : header_of ((hb ++ data) ++ after) = h).
  { rewrite <-(assoc_L (++)). unfold hb. apply header_of_bytes; [apply Hh|].
    unfold is_word. cbn [payload h]. lia. }
  unfold parse_msg. rewrite Hof, Hsz. cbn [payload h].
  rewrite (proj2 (Z.leb_le sizeof_Header _)) by lia. cbn [guard_ok]. rewrite bind_Ok_l.
  rewrite (proj2 (Z.leb_le (sz data + _) _)) by lia. cbn [guard_ok]. rewrite bind_Ok_l.
  do 2 f_equal. unfold sz. rewrite Nat2Z.id, <-(assoc_L (++)).
  rewrite drop_app_length' by (unfold sz, sizeof_Header in *; lia).
  by rewrite take_app_length.
Qed.

(** C33: Building a message and parsing it are inverse.  To an operation that
    holds some arguments, a further argument is added exactly when it fits
    behind the header; the message then sent has the header and all arguments,
    and the receiver, whatever its buffer holds after the message, reads back
    the type, the identifier, the coroutine, the length and the arguments. *)
Theorem message_roundtrip o args arg : carries o args -> sz args + sz arg < 2 ^ 18 ->
  if decide (sizeof_Header + sz args + sz arg <= sz (msg o))
  then exists o' m, add_opaque arg o = Ok (o', true) /\ execute o' = Ok m /\
    sz m = sizeof_Header + sz args + sz arg /\
    forall after, parse_msg (m ++ after) =
      Ok (MkHeader (type (header o)) (rpc_id (header o)) (sz args + sz arg) (cor_id (header o)),
          args ++ arg)
  else add_opaque arg o = Ok (o, false).
Proof.
  intros Ho Hsz. pose proof (add_opaque_ok o args arg Ho) as H. destruct (decide _); [|done].
  destruct H as (o' & E & Ho' & Hh & _).
  destruct (execute_ok o' (args ++ arg) Ho') as (m & Em & Hm & Hp); [by rewrite sz_app|].
  exists o', m. rewrite sz_app in Hm, Hp. rewrite Hh in Hp.
  split; [done|]. split; [done|]. split; [lia|done].
Qed.

Definition demo_op : RPCOp :=
  MkOp (MkHeader 1 2 0 5) [0; 0; 0; 0] (replicate 64 0) sizeof_Header.

Lemma message_roundtrip_witness :
  exists o' m, add_opaque [1; 2; 3] demo_op = Ok (o', true) /\ execute o' = Ok m /\ sz m = 11 /\
    forall after, parse_msg (m ++ after) = Ok (MkHeader 1 2 3 5, [1; 2; 3]).
Proof.
  assert (Ho : carries demo_op []).
  { split; [reflexivity|reflexivity|split; [|split]; unfold is_word; simpl; lia|].
    exists (replicate 8 0), (replicate 56 0). split; reflexivity. }
  exact (message_roundtrip demo_op [] [1; 2; 3] Ho eq_refl).
Defined.
