(* ===== verification/ClientRdma.v ===== *)
(** * The RDMA client and its calls (outback/outback_client.hh)

    A client coroutine computes the location of its key with the lookup
    structure, sends a request, pauses, and is resumed by the reply.  Each
    [remote_*] function is its part before the pause ([*_send]) and its part
    after it ([*_recv]); [remote_*] itself is the call with nothing else under
    way: the server's receive loop takes the request, the client's polling
    future takes the reply.  The server's side of the messages, which
    ServerRdma.v leaves out, and the registration of the callbacks
    (benchs/outback/server.cc) are here too.

    A coroutine has at most one request under way, so that the entry of the
    reply station is its own and [reply_buf] is the entry's buffer. *)

From Stdlib Require Import ZArith Lia.
From stdpp Require Import base numbers gmap list.
From S2P Require Import Prelude Words Hash PackedData LudoSlot LruCache ServerRdma.
From S2P Require Import OthelloMem LudoTable LudoDP Rpc.

#[local] Open Scope Z_scope.

(** What the stack holds where a function puts its locals. *)
Record garbage := MkGarbage {
  g_header : Header;      (* the header of [RPCOp op;] and its padding *)
  g_pad : list Z;
  g_buf : list Z;         (* the message buffer, 64 bytes *)
  g_reply : list Z;       (* [reply_buf], [sizeof(ReplyValue)] bytes *)
}.

(** The packed struct [ReplyValue]: a [bool] and eight bytes. *)
Definition sizeof_ReplyValue : Z := 9.

Definition reply_bytes (r : ReplyValue) : list Z :=
  (if status r then 1 else 0) :: le_bytes 8 (val r).

Definition reply_of (bs : list Z) : res ReplyValue :=
  b ← rd bs 0; v ← extract 8 bs 1; Ok (MkReply (negb (b =? 0)) v).

Inductive RPCId := GET | PUT | UPDATE | DELETE | SCAN.

Definition RPCId_code (i : RPCId) : Z :=
  match i with GET => 0 | PUT => 1 | UPDATE => 2 | DELETE => 3 | SCAN => 4 end.

(** ** The server's side *)

Section server_side.
Context (g : garbage).

(** The words of an argument block.  Every callback asserts that the block
    has the size of two or three words, which a block of another size than a
    multiple of eight fails. *)
Fixpoint words_of (fuel : nat) (args : list Z) : list Z :=
  match fuel, args with
  | S fuel, _ :: _ => le_value (take 8 args) :: words_of fuel (drop 8 args)
  | _, _ => []
  end.

Definition decode_args (args : list Z) : res (list Z) :=
  _ ← guard_ok (sz args mod 8 =? 0) AssertFailed; Ok (words_of (length args) args).

(** The end of every callback: the reply goes to the coroutine that asked. *)
Definition send_reply (h : Header) (r : ReplyValue) : res (list Z) :=
  o ← set_msg (g_buf g) (new_op (g_header g) (g_pad g));
  '(o, ok) ← add_arg (reply_bytes r) (set_reply o);
  _ ← guard_ok ok AssertFailed;
  execute (set_corid (cor_id h) o).

(** A callback of ServerRdma.v as the RPC core calls it. *)
Definition rpc_callback (cb : server -> list Z -> res (server * ReplyValue)) : rpc_func_t server :=
  fun s h args =>
    ws ← decode_args args;
    '(s', r) ← cb s ws;
    m ← send_reply h r;
    Ok (s', [m]).

(** [junk]: the reply of a scan, which is never assigned. *)
Definition outback_callbacks (junk : ReplyValue) : list (rpc_func_t server) :=
  [rpc_callback (fun s args => r ← get_callback s args; Ok (s, r));
   rpc_callback put_callback;
   rpc_callback update_callback;
   rpc_callback remove_callback;
   rpc_callback (fun s args => r ← scan_callback s args junk; Ok (s, r))].

(** A worker's RPC core: each callback is registered under its identifier. *)
Definition server_rpc (junk : ReplyValue) : res (RPCCore server) :=
  foldM (fun c '(f, id) =>
      let '(c', n) := reg_callback f c in
      _ ← guard_ok (n =? RPCId_code id) AssertFailed; Ok c')
    (zip (outback_callbacks junk) [GET; PUT; UPDATE; DELETE; SCAN]) (new_core 12).
End server_side.

(** ** The client's side *)

Record client := MkClient {
  lookup_unit : DataPlaneLudo;      (* ludo_lookup_unit *)
  rpc : RPCCore unit;
}.

Definition with_rpc x (c : client) := MkClient (lookup_unit c) x.

Section client_side.
Context (g : garbage).
Implicit Types (c : client).

(** [lookup_slot], which does not return while a version is odd. *)
Definition locate c (k : Z) : res (Z * Z) :=
  found ← lookup_slot (lookup_unit c) k;
  match found with Some loc => Ok loc | None => Err OutOfFuel end.

(** [SLOTS_NUM_BUCKET * loc.first + loc.second] is a [uint32_t]. *)
Definition num_of (loc : Z * Z) : Z := u32 (SLOTS_NUM_BUCKET * loc.1 + loc.2).

(** [data += Marshal<...>::serialize_to(w)] for each word. *)
Definition marshal (ws : list Z) : res (list Z) :=
  foldM (fun data w => b ← serialize_to 8 w; Ok (data ++ b)) ws [].

(** [set_msg ... add_opaque]; what [add_opaque] returns is dropped. *)
Definition build_request (id : RPCId) (cor : Z) (data : list Z) c : res (client * RPCOp) :=
  o ← set_msg (g_buf g) (new_op (g_header g) (g_pad g));
  '(st, o) ← add_one_reply (reply_station (rpc c)) (g_reply g)
               (set_corid cor (set_rpc_id (RPCId_code id) (set_req o)));
  '(o, _) ← add_opaque data o;
  Ok (with_rpc (with_station st (rpc c)) c, o).

(** A resumed coroutine reads its [reply_buf]. *)
Definition read_reply c (cor : Z) : res ReplyValue :=
  e ← rd (reply_station (rpc c)) cor; reply_of (reply_buf e).

Definition search_send c (cor k : Z) : res (client * list Z) :=
  loc ← locate c k;
  data ← marshal [num_of loc; k];
  '(c', o) ← build_request GET cor data c;
  ready ← cor_ready (reply_station (rpc c')) cor;
  _ ← guard_ok (negb ready) AssertFailed;
  m ← execute o; Ok (c', m).

Definition search_recv c (cor : Z) : res (option Z) :=
  r ← read_reply c cor; Ok (if status r then Some (val r) else None).

Definition put_send c (cor k v : Z) : res (client * list Z * Z) :=
  loc ← locate c k;
  data ← marshal [num_of loc; k; v];
  '(c', o) ← build_request PUT cor data c;
  m ← execute o; Ok (c', m, loc.1).

(** The reply of a reseeding PUT has bit 8 set and the seed below it. *)
Definition put_recv c (cor row : Z) : res client :=
  r ← read_reply c cor;
  if status r then
    if negb (Z.land (val r) (Z.shiftl 1 8) =? 0) then
      d ← dp_updateSeed (lookup_unit c) row (Z.land (val r) 0xFF); Ok (MkClient d (rpc c))
    else Ok c
  else Err ProcessExit.

Definition update_send c (cor k v : Z) : res (client * list Z) :=
  loc ← locate c k;
  data ← marshal [num_of loc; k; v];
  '(c', o) ← build_request UPDATE cor data c;
  m ← execute o; Ok (c', m).

(** [remote_remove] sends the key only. *)
Definition remove_send c (cor k : Z) : res (client * list Z) :=
  data ← marshal [k];
  '(c', o) ← build_request DELETE cor data c;
  m ← execute o; Ok (c', m).

Definition scan_send c (cor k n : Z) : res (client * list Z) :=
  data ← marshal [k; n];
  '(c', o) ← build_request SCAN cor data c;
  m ← execute o; Ok (c', m).
End client_side.

(** ** Calls *)

Record world := MkWorld { cl : client; srv_rpc : RPCCore server; srv : server }.

Definition with_cl x (w : world) := MkWorld x (srv_rpc w) (srv w).

Section calls.
(** The session's identifier, the client's queue pair, the stacks, and what
    the receive buffers hold after a packet. *)
Context (sid : Z) (own : list Z) (g : garbage) (after : list Z).

(** The Connect message of a client thread, in its buffer of 2048 bytes. *)
Definition connect (send_buf : list Z) (w : world) : res world :=
  o ← get_connect_op (g_header g) (g_pad g) send_buf own;
  m ← execute o;
  '(c, s, _, _) ← recv_event_loop (srv_rpc w) (srv w) [(sid, cur_msg_impl m after)];
  Ok (MkWorld (cl w) c s).

(** A request of coroutine [cor] goes to the server and its reply comes back;
    [cor], which has paused, must be among the coroutines added back. *)
Definition exchange (w : world) (cor : Z) (m : list Z) : res world :=
  '(sc, s, out, _) ← recv_event_loop (srv_rpc w) (srv w) [(sid, cur_msg_impl m after)];
  let mine := filter (fun p : list Z * list Z => p.1 = own) out in
  '(cc, _, _, woken) ← poll_future (rpc (cl w)) tt
                          ((fun p : list Z * list Z => (sid, cur_msg_impl p.2 after)) <$> mine);
  _ ← guard_ok (bool_decide (cor ∈ woken)) OutOfFuel;
  Ok (MkWorld (with_rpc cc (cl w)) sc s).

Definition remote_search (w : world) (cor k : Z) : res (world * option Z) :=
  '(c, m) ← search_send g (cl w) cor k;
  w' ← exchange (with_cl c w) cor m;
  r ← search_recv (cl w') cor; Ok (w', r).

Definition remote_put (w : world) (cor k v : Z) : res world :=
  '(c, m, row) ← put_send g (cl w) cor k v;
  w' ← exchange (with_cl c w) cor m;
  c' ← put_recv (cl w') cor row; Ok (with_cl c' w').

Definition remote_update (w : world) (cor k v : Z) : res world :=
  '(c, m) ← update_send g (cl w) cor k v; exchange (with_cl c w) cor m.

Definition remote_remove (w : world) (cor k : Z) : res world :=
  '(c, m) ← remove_send g (cl w) cor k; exchange (with_cl c w) cor m.

Definition remote_scan (w : world) (cor k n : Z) : res world :=
  '(c, m) ← scan_send g (cl w) cor k n; exchange (with_cl c w) cor m.
End calls.
