(* ===== verification/RdmaCall.v ===== *)
(** * One call through the RPC layer

    The lemmas that reduce a call of ClientRdma.v to the callback that serves
    it: lookups without a writer, arguments and replies as words, the receive
    loops on one message, and [exchange]. *)

From Stdlib Require Import ZArith Lia.
From stdpp Require Import base numbers gmap list.
From S2P Require Import Prelude Words Hash PackedData LudoSlot LruCache ServerRdma ServerInv.
From S2P Require Import OthelloMem LudoTable LudoInv LudoDP Rpc ClientRdma.

#[local] Open Scope Z_scope.
#[local] Opaque Hash64WithSeed multiply_high_u32 FastHasher64.

(** ** Lookups without a writer *)

Definition even (v : Z) : Prop := v mod 2 = 0.

(** A lookup structure of [2 ^ j] rows that nobody is writing to. *)
Definition quiet (d : DataPlaneLudo) (j : Z) : Prop :=
  wf_dp d j /\ Forall even (dp_lock d) /\ Forall even (o_lock (dp_locator d)).

Definition row_of (d : DataPlaneLudo) (k : Z) : Z :=
  match lookup_slot d k with Ok (Some (row, _)) => row | _ => 0 end.

Lemma rd_even l i v : Forall even l -> rd l i = Ok v -> (v mod 2 =? 1) = false.
Proof.
  intros Hl [_ Hv]%rd_Ok. pose proof (Forall_lookup_1 _ _ _ _ Hl Hv) as He. unfold even in He.
  by rewrite He.
Qed.

Lemma quiet_lookUp o k : wf_othello o -> Forall even (o_lock o) ->
  exists v, othello_lookUp o k = Ok (Some v) /\ 0 <= v < 2.
Proof.
  intros Ho He. destruct (othello_lookUp_total o k Ho) as ([v|] & Hr & Hv); [eauto|].
  destruct Hv as (i & x & Hx & H1). pose proof (rd_even _ _ _ He Hx) as H. by rewrite H1 in H.
Qed.

(** The row depends on the locator only, the slot on the row's seed. *)
Lemma quiet_lookup d j k : quiet d j -> exists row, 0 <= row < 2 ^ j /\
  forall l, length l = Z.to_nat (2 ^ j) ->
    lookup_slot (with_seeds l d) k = (seed ← rd l row; Ok (Some (row, slot_of seed k))).
Proof.
  intros (Hd & He & Heo). pose proof Hd as (Hj & Hn & Hb & Ho & Hl).
  assert (0 < 2 ^ j) by (by apply Z.pow_pos_nonneg; lia).
  destruct (quiet_lookUp (dp_locator d) k Ho Heo) as (w & Hw & Hw2).
  unfold lookup_slot, lookup_slot_round.
  cbn [dp_h dp_num_buckets dp_lock dp_locator dp_buckets with_seeds].
  rewrite Hn, (fast_map_spec j) by (lia || apply FastHasher64_word).
  pose proof (Z.mod_pos_bound (FastHasher64 (dp_h d) k) (2 ^ j) ltac:(done)) as Ha.
  pose proof (Z.mod_pos_bound (Z.shiftr (FastHasher64 (dp_h d) k) 32) (2 ^ j) ltac:(done)) as Hb'.
  revert Ha Hb'. generalize (FastHasher64 (dp_h d) k mod 2 ^ j),
    (Z.shiftr (FastHasher64 (dp_h d) k) 32 mod 2 ^ j). intros x y Hx Hy.
  destruct (wf_dp_lock d j x Hd) as [va Hva], (wf_dp_lock d j y Hd) as [vb Hvb].
  destruct (rd_in_range [x; y] w) as [row Hrow]; [simpl; lia|].
  exists row. split.
  { apply rd_Ok in Hrow as [_ Hrow]. apply list_elem_of_lookup_2 in Hrow. set_solver. }
  intros l Hlen. rewrite bind_Ok_l. cbv beta iota. rewrite Hva, Hvb, !bind_Ok_l.
  rewrite (rd_even _ _ _ He Hva), (rd_even _ _ _ He Hvb). cbn [orb].
  rewrite Hw, bind_Ok_l, Hrow, !bind_Ok_l, !Z.eqb_refl. done.
Qed.

Lemma with_seeds_same d : with_seeds (dp_buckets d) d = d.
Proof. by destruct d. Qed.

Lemma row_of_spec d j k : quiet d j -> 0 <= row_of d k < 2 ^ j /\
  forall l, length l = Z.to_nat (2 ^ j) ->
    lookup_slot (with_seeds l d) k =
      (seed ← rd l (row_of d k); Ok (Some (row_of d k, slot_of seed k))).
Proof.
  intros Hd. destruct (quiet_lookup d j k Hd) as (row & Hrow & Hl).
  assert (row_of d k = row) as ->; [|done]. pose proof Hd as ((_ & _ & Hb & _) & _).
  unfold row_of. rewrite <-(with_seeds_same d) at 1. rewrite Hl by done.
  destruct (rd_in_range (dp_buckets d) row) as [s ->]; [rewrite Hb; lia|done].
Qed.

Lemma row_of_with_seeds d j l k : quiet d j -> length l = Z.to_nat (2 ^ j) ->
  row_of (with_seeds l d) k = row_of d k.
Proof.
  intros Hd Hl. destruct (row_of_spec d j k Hd) as [Hr Hk]. unfold row_of at 1. rewrite Hk by done.
  destruct (rd_in_range l (row_of d k)) as [s ->]; [rewrite Hl; lia|done].
Qed.

Lemma quiet_with_seeds d j l : quiet d j -> length l = Z.to_nat (2 ^ j) -> quiet (with_seeds l d) j.
Proof.
  intros ((Hj & Hn & Hb & Ho & Hl) & He & Heo) Hlen. split; [|done].
  split; [done|]. split; [done|]. split; [done|]. by split.
Qed.

Lemma locate_quiet c j k seed : quiet (lookup_unit c) j ->
  rd (dp_buckets (lookup_unit c)) (row_of (lookup_unit c) k) = Ok seed ->
  locate c k = Ok (row_of (lookup_unit c) k, slot_of seed k).
Proof.
  intros Hd Hs. unfold locate. rewrite <-(with_seeds_same (lookup_unit c)) at 1.
  destruct (row_of_spec _ j k Hd) as [_ Hl]. pose proof Hd as ((_ & _ & Hb & _) & _).
  by rewrite Hl, Hs.
Qed.

(** ** Words *)

Lemma marshal_eq ws : marshal ws = Ok (concat (le_bytes 8 <$> ws)).
Proof.
  unfold marshal. cut (forall data, foldM (fun data w => b ← serialize_to 8 w; Ok (data ++ b)) ws data
    = Ok (data ++ concat (le_bytes 8 <$> ws))); [intros H; apply H|].
  induction ws as [|w ws IH]; intros data; cbn [foldM fmap list_fmap concat]; [by rewrite app_nil_r|].
  rewrite serialize_to_eq, !bind_Ok_l, IH. by rewrite <-(assoc_L (++)).
Qed.

Lemma sz_words ws : sz (concat (le_bytes 8 <$> ws)) = 8 * sz ws.
Proof.
  induction ws as [|w ws IH]; [done|]. cbn [fmap list_fmap concat]. rewrite sz_app, IH, sz_le_bytes.
  unfold sz. cbn [length]. lia.
Qed.

Lemma words_of_app fuel ws : Forall (is_word 64) ws -> (length ws <= fuel)%nat ->
  words_of fuel (concat (le_bytes 8 <$> ws)) = ws.
Proof.
  intros Hws. revert fuel. induction Hws as [|w ws Hw _ IH]; intros fuel Hf.
  - by destruct fuel.
  - destruct fuel as [|fuel]; [cbn in Hf; lia|]. cbn [fmap list_fmap concat].
    assert (exists b bs, le_bytes 8 w = b :: bs) as (b & bs & E) by (do 2 eexists; reflexivity).
    assert (Hne : words_of (S fuel) (le_bytes 8 w ++ concat (le_bytes 8 <$> ws))
      = le_value (take 8 (le_bytes 8 w ++ concat (le_bytes 8 <$> ws)))
        :: words_of fuel (drop 8 (le_bytes 8 w ++ concat (le_bytes 8 <$> ws)))) by (by rewrite E).
    rewrite Hne, take_app_length', drop_app_length' by (by rewrite le_bytes_length).
    rewrite le_value_bytes by done. f_equal. apply IH. cbn in Hf. lia.
Qed.

Lemma decode_marshal ws : Forall (is_word 64) ws ->
  decode_args (concat (le_bytes 8 <$> ws)) = Ok ws.
Proof.
  intros Hws. unfold decode_args. rewrite sz_words, Z.mul_comm, Z.mod_mul by lia.
  change (0 =? 0) with true. cbn [guard_ok]. rewrite bind_Ok_l. f_equal. apply words_of_app; [done|].
  pose proof (sz_words ws) as H. unfold sz in H. lia.
Qed.

(** The value of a reply is a [uint64_t]. *)
Definition wrap_reply (r : ReplyValue) : ReplyValue := MkReply (status r) (u64 (val r)).

Lemma sz_reply r : sz (reply_bytes r) = sizeof_ReplyValue.
Proof. unfold reply_bytes, sz. cbn [length]. by rewrite le_bytes_length. Qed.

Lemma reply_of_bytes r : reply_of (reply_bytes r) = Ok (wrap_reply r).
Proof.
  unfold reply_of, reply_bytes, extract.
  change (rd (?b :: _) 0) with (Ok b). rewrite bind_Ok_l.
  pose proof (read_bytes_app [if status r then 1 else 0] (le_bytes 8 (val r)) []) as H.
  rewrite sz_le_bytes, app_nil_r in H. change (sz [_]) with 1 in H. cbn [app] in H.
  rewrite H, !bind_Ok_l, le_value_wrap. unfold wrap_reply. by destruct (status r).
Qed.

(** ** Messages *)

Record env_ok (g : garbage) (after : list Z) : Prop := {
  eo_pad : length (g_pad g) = 4%nat;
  eo_hdr : header_ok (g_header g);
  eo_buf : sz (g_buf g) = 64;
  eo_reply : sz (g_reply g) = sizeof_ReplyValue;
  eo_after : 4000 <= sz after;
}.

Lemma cur_msg_split m after : sz m <= 4000 -> exists after', cur_msg_impl m after = m ++ after'.
Proof.
  intros Hm. unfold cur_msg_impl. exists (take (Z.to_nat 4000 - length m) after).
  rewrite take_app. f_equal. apply take_ge. unfold sz in Hm. lia.
Qed.

(** The coroutine waits for nothing. *)
Definition idle (st : ReplyStation) (cor : Z) : Prop :=
  0 <= cor < 2 ^ 7 /\ exists e, rd st cor = Ok e /\ pending_replies e = 0.

Lemma add_one_reply_ok st buf o : idle st (cor_id (header o)) ->
  exists st', add_one_reply st buf o = Ok (st', o) /\
    wr st (cor_id (header o)) (reply_entry buf) = Ok st'.
Proof.
  intros (Hc & e & He & Hp). unfold add_one_reply, add_reply_entry, add_pending_reply.
  pose proof (rd_range _ _ _ He) as Hr.
  rewrite (proj2 (Z.ltb_lt _ _)) by (unfold sz; lia). cbn [guard_ok].
  rewrite bind_Ok_l, He, bind_Ok_l, Hp. change (0 <? 0) with false. cbv iota.
  rewrite (wr_in_range _ _ _ Hr), !bind_Ok_l. eauto.
Qed.

Section call.
Context (sid : Z) (own : list Z) (g : garbage) (after : list Z) (Henv : env_ok g after).

(** A request: the entry is registered, the message parses back. *)
Lemma request_ok id cor data c : idle (reply_station (rpc c)) cor -> sz data <= 56 ->
  exists st' o m, build_request g id cor data c = Ok (with_rpc (with_station st' (rpc c)) c, o) /\
    wr (reply_station (rpc c)) cor (reply_entry (g_reply g)) = Ok st' /\
    execute o = Ok m /\ sz m <= 4000 /\
    forall rest, parse_msg (m ++ rest) =
      Ok (MkHeader (MsgType_code Req) (RPCId_code id) (sz data) cor, data).
Proof.
  intros Hidle Hd. pose proof Henv as [Hpad Hh Hbuf Hrep _].
  destruct (set_msg_ok (g_buf g) (g_header g) (g_pad g)) as (o0 & E0 & Ho0 & Hm0 & Hh0);
    [rewrite Hbuf; done|done|done|].
  set (o1 := set_corid cor (set_rpc_id (RPCId_code id) (set_req o0))).
  assert (Ho1 : carries o1 []) by (by apply set_corid_ok, set_rpc_id_ok, set_type_ok).
  assert (Hcor : cor_id (header o1) = cor)
    by (cbn; apply wrap_id; unfold is_word; destruct Hidle as [? _]; lia).
  assert (Hid : rpc_id (header o1) = RPCId_code id) by (by destruct id).
  destruct (add_one_reply_ok (reply_station (rpc c)) (g_reply g) o1) as (st' & E1 & Hst);
    [by rewrite Hcor|]. rewrite Hcor in Hst.
  pose proof (add_opaque_ok o1 [] data Ho1) as Hadd.
  assert (Hsz : sz (msg o1) = 64) by (cbn; rewrite Hm0; done).
  destruct (decide _) as [_|Hn]; [|rewrite Hsz in Hn; unfold sizeof_Header, sz in *; simpl in *; lia].
  destruct Hadd as (o2 & E2 & Ho2 & Hh2 & _). cbn [app] in Ho2.
  destruct (execute_ok o2 data Ho2) as (m & E3 & Hm & Hp); [lia|].
  exists st', o2, m. split; [|split; [done|split; [done|split]]].
  - unfold build_request. rewrite E0, bind_Ok_l. fold o1. rewrite E1, bind_Ok_l, E2, bind_Ok_l. done.
  - unfold sizeof_Header in Hm. lia.
  - intros rest. rewrite Hp, Hh2, Hcor, Hid. done.
Qed.

Lemma send_reply_ok h r : is_word 7 (cor_id h) ->
  exists m rid, send_reply g h r = Ok m /\ sz m <= 4000 /\
    forall rest, parse_msg (m ++ rest) =
      Ok (MkHeader (MsgType_code Reply) rid sizeof_ReplyValue (cor_id h), reply_bytes r).
Proof.
  intros Hc. pose proof Henv as [Hpad Hh Hbuf _ _].
  destruct (set_msg_ok (g_buf g) (g_header g) (g_pad g)) as (o0 & E0 & Ho0 & Hm0 & Hh0);
    [rewrite Hbuf; done|done|done|].
  assert (Ho1 : carries (set_reply o0) []) by (by apply set_type_ok).
  pose proof (add_opaque_ok _ [] (reply_bytes r) Ho1) as Hadd.
  destruct (decide _) as [_|Hn]; [|exfalso; apply Hn; rewrite sz_reply; cbn; rewrite Hm0, Hbuf; done].
  destruct Hadd as (o2 & E2 & Ho2 & Hh2 & _). cbn [app] in Ho2.
  assert (Ho3 : carries (set_corid (cor_id h) o2) (reply_bytes r)) by (by apply set_corid_ok).
  destruct (execute_ok _ _ Ho3) as (m & E3 & Hm & Hp); [rewrite sz_reply; done|].
  exists m, (rpc_id (header o2)). split; [|split].
  - unfold send_reply. rewrite E0, bind_Ok_l. change add_arg with add_opaque. rewrite E2, bind_Ok_l.
    cbn [guard_ok]. by rewrite bind_Ok_l.
  - rewrite sz_reply in Hm. unfold sizeof_Header, sizeof_ReplyValue in Hm. lia.
  - intros rest. rewrite Hp, sz_reply. cbn [header set_corid with_header type rpc_id cor_id].
    rewrite Hh2, (wrap_id 7) by done. done.
Qed.

(** The server's loop on one request. *)
Definition connected (c : RPCCore server) : Prop :=
  incoming_sessions c !! sid = Some (Some own) /\
  exists junk, callbacks c = outback_callbacks g junk.

Lemma serve_one c s m h args cb : connected c -> sz m <= 4000 ->
  (forall rest, parse_msg (m ++ rest) = Ok (h, args)) -> type h = MsgType_code Req ->
  is_word 7 (cor_id h) -> callbacks c !! Z.to_nat (rpc_id h) = Some (rpc_callback g cb) ->
  match ws ← decode_args args; cb s ws with
  | Ok (s', r) => exists rm, send_reply g h r = Ok rm /\
      recv_event_loop c s [(sid, cur_msg_impl m after)] = Ok (c, s', [(own, rm)], 1)
  | Err e => e <> Thrown -> recv_event_loop c s [(sid, cur_msg_impl m after)] = Err e
  end.
Proof.
  intros [Hses _] Hm Hparse Ht Hc Hcb.
  destruct (cur_msg_split m after Hm) as (rest & ->).
  assert (Hsame : with_sessions (<[sid := Some own]> (incoming_sessions c)) c = c)
    by (destruct c; unfold with_sessions; cbn in *; by rewrite insert_id).
  assert (Hloop : recv_event_loop c s [(sid, m ++ rest)] =
    ('(c', s', out) ← do_request c s sid h args; Ok (c', s', out ++ [], 0 + 1))).
  { cbn [recv_event_loop]. unfold recv_msg. rewrite Hparse, bind_Ok_l, Ht, Z.eqb_refl.
    by destruct (do_request c s sid h args) as [[[? ?] ?]|]. }
  rewrite Hloop. unfold do_request. rewrite Hses. cbv zeta.
  lazymatch goal with |- context [callbacks c !! ?i] => replace (callbacks c !! i) with (Some (rpc_callback g cb)) end.
  rewrite Hsame. unfold rpc_callback.
  destruct (decode_args args) as [ws|e]; [|intros He; by destruct e].
  rewrite !bind_Ok_l. destruct (cb s ws) as [[s' r]|e]; [|intros He; by destruct e].
  rewrite bind_Ok_l. destruct (send_reply_ok h r Hc) as (rm & rid & E & _).
  exists rm. split; [done|]. by rewrite E.
Qed.

(** The client's future on the reply. *)
Lemma reply_one (c : RPCCore unit) cor h r rm : rd (reply_station c) cor = Ok (reply_entry (g_reply g)) ->
  cor_id h = cor -> is_word 7 cor -> send_reply g h r = Ok rm ->
  exists st', wr (reply_station c) cor (MkEntry 0 (reply_bytes r) sizeof_ReplyValue) = Ok st' /\
    poll_future c tt [(sid, cur_msg_impl rm after)] = Ok (with_station st' c, tt, [], [cor]).
Proof.
  intros He Hc Hw Hrm. subst cor. destruct (send_reply_ok h r Hw) as (rm' & rid & E & Hsz & Hp).
  assert (rm' = rm) as -> by congruence. destruct (cur_msg_split rm after Hsz) as (rest & ->).
  pose proof (rd_range _ _ _ He) as Hr. pose proof (eo_reply _ _ Henv) as Hl.
  assert (Happ : append_reply (reply_station c) (cor_id h) (reply_bytes r) =
    (st' ← wr (reply_station c) (cor_id h) (MkEntry 0 (reply_bytes r) sizeof_ReplyValue); Ok (st', true))).
  { unfold append_reply, cor_ready. rewrite He, !bind_Ok_l. cbn [reply_entry pending_replies reply_cur reply_buf].
    change (1 =? 0) with false. cbv iota. rewrite sz_reply, Hl, Z.add_0_l, Z.leb_refl. cbn [guard_ok].
    rewrite bind_Ok_l. pose proof (write_bytes_app [] (g_reply g) [] (reply_bytes r)) as Hwb.
    rewrite !app_nil_r in Hwb. change (sz []) with 0 in Hwb. cbn [app] in Hwb. rewrite Hwb; [done|].
    pose proof (sz_reply r). unfold sz in *. lia. }
  rewrite (wr_in_range _ _ _ Hr) in *. rewrite bind_Ok_l in Happ.
  eexists. split; [reflexivity|]. cbn [poll_future]. unfold recv_msg.
  rewrite Hp, bind_Ok_l. cbn [type cor_id payload]. change (MsgType_code Reply =? MsgType_code Req) with false.
  rewrite Z.eqb_refl. cbv iota. rewrite Happ, bind_Ok_l. cbn [guard_ok]. rewrite !bind_Ok_l.
  unfold cor_ready. cbn [with_station reply_station].
  rewrite (rd_wr_eq (reply_station c) (cor_id h) (MkEntry 0 (reply_bytes r) sizeof_ReplyValue))
    by (by rewrite (wr_in_range _ _ _ Hr)).
  rewrite !bind_Ok_l. done.
Qed.

(** A call that waits for its reply. *)
Lemma exchange_ok w cor m id args cb : connected (srv_rpc w) ->
  rd (reply_station (rpc (cl w))) cor = Ok (reply_entry (g_reply g)) -> is_word 7 cor ->
  sz m <= 4000 ->
  (forall rest, parse_msg (m ++ rest) = Ok (MkHeader (MsgType_code Req) (RPCId_code id) (sz args) cor, args)) ->
  callbacks (srv_rpc w) !! Z.to_nat (RPCId_code id) = Some (rpc_callback g cb) ->
  match ws ← decode_args args; cb (srv w) ws with
  | Ok (s', r) => exists st',
      wr (reply_station (rpc (cl w))) cor (MkEntry 0 (reply_bytes r) sizeof_ReplyValue) = Ok st' /\
      exchange sid own after w cor m =
        Ok (MkWorld (with_rpc (with_station st' (rpc (cl w))) (cl w)) (srv_rpc w) s')
  | Err e => e <> Thrown -> exchange sid own after w cor m = Err e
  end.
Proof.
  intros Hcon He Hw Hm Hp Hcb.
  pose proof (serve_one (srv_rpc w) (srv w) m _ args cb Hcon Hm Hp eq_refl Hw Hcb) as Hs.
  destruct (_ ≫= _) as [[s' r]|e]; unfold exchange.
  - destruct Hs as (rm & Hrm & ->). rewrite bind_Ok_l. cbv beta iota zeta.
    rewrite filter_cons_True, filter_nil by done. cbn [fmap list_fmap].
    destruct (reply_one (rpc (cl w)) cor (MkHeader (MsgType_code Req) (RPCId_code id) (sz args) cor) r rm He eq_refl Hw Hrm) as (st' & Hst & Hpoll).
    exists st'. split; [done|]. cbn [snd]. rewrite Hpoll, bind_Ok_l. cbv beta iota.
    rewrite bool_decide_eq_true_2 by set_solver. done.
  - intros Hne. by rewrite Hs.
Qed.
End call.

(** ** A request and its reply *)

Section request.
Context (sid : Z) (own : list Z) (g : garbage) (after : list Z) (Henv : env_ok g after).

Lemma idle_wr st st' cor e c : wr st cor e = Ok st' -> pending_replies e = 0 -> idle st c -> idle st' c.
Proof.
  intros Hw Hp (Hc & e0 & He0 & Hp0). split; [done|]. destruct (decide (cor = c)) as [->|Hne].
  - exists e. split; [by eapply rd_wr_eq|done].
  - exists e0. split; [by rewrite (rd_wr_ne _ _ _ _ _ Hw Hne)|done].
Qed.

Lemma wr_idle st st1 st2 cor e1 e c : wr st cor e1 = Ok st1 -> wr st1 cor e = Ok st2 ->
  pending_replies e = 0 -> idle st c -> idle st2 c.
Proof.
  intros H1 H2 Hp (Hc & e0 & He0 & Hp0). split; [done|]. destruct (decide (cor = c)) as [->|Hne].
  - exists e. split; [by eapply rd_wr_eq|done].
  - exists e0. split; [|done]. by rewrite (rd_wr_ne _ _ _ _ _ H2 Hne), (rd_wr_ne _ _ _ _ _ H1 Hne).
Qed.

(** What a call changes besides the server's state. *)
Record replied (w w' : world) (cor : Z) (r : ReplyValue) : Prop := {
  rp_rpc : srv_rpc w' = srv_rpc w;
  rp_lookup : lookup_unit (cl w') = lookup_unit (cl w);
  rp_reply : read_reply (cl w') cor = Ok (wrap_reply r);
  rp_idle : forall c, idle (reply_station (rpc (cl w))) c -> idle (reply_station (rpc (cl w'))) c;
}.

Lemma request_reply w cor id ws cb : connected sid own g (srv_rpc w) ->
  idle (reply_station (rpc (cl w))) cor -> Forall (is_word 64) ws -> (length ws <= 7)%nat ->
  callbacks (srv_rpc w) !! Z.to_nat (RPCId_code id) = Some (rpc_callback g cb) ->
  exists c o m, build_request g id cor (concat (le_bytes 8 <$> ws)) (cl w) = Ok (c, o) /\
    execute o = Ok m /\ cor_ready (reply_station (rpc c)) cor = Ok false /\
    match cb (srv w) ws with
    | Ok (s', r) => exists w', exchange sid own after (with_cl c w) cor m = Ok w' /\
        srv w' = s' /\ replied w w' cor r
    | Err e => e <> Thrown -> exchange sid own after (with_cl c w) cor m = Err e
    end.
Proof.
  intros Hcon Hidle Hws Hlen Hcb.
  assert (Hsz : sz (concat (le_bytes 8 <$> ws)) <= 56) by (rewrite sz_words; unfold sz; lia).
  destruct (request_ok g after Henv id cor _ (cl w) Hidle Hsz) as (st & o & m & Hb & Hst & Hx & Hm & Hp).
  set (c := with_rpc (with_station st (rpc (cl w))) (cl w)) in *.
  exists c, o, m. split; [done|]. split; [done|].
  assert (He : rd (reply_station (rpc c)) cor = Ok (reply_entry (g_reply g)))
    by (by apply (rd_wr_eq _ _ _ _ Hst)).
  split; [unfold cor_ready; by rewrite He|].
  pose proof (exchange_ok sid own g after Henv (with_cl c w) cor m id _ cb Hcon He
    ltac:(destruct Hidle; done) Hm Hp Hcb) as Hex.
  rewrite (decode_marshal ws Hws), bind_Ok_l in Hex. cbn [srv with_cl] in Hex.
  destruct (cb (srv w) ws) as [[s' r]|e]; [|done].
  destruct Hex as (st2 & Hst2 & Hex). eexists. split; [exact Hex|]. split; [done|].
  cbn [cl with_cl] in *. split; cbn; try done.
  - unfold read_reply. cbn. rewrite (rd_wr_eq _ _ _ _ Hst2), bind_Ok_l. apply reply_of_bytes.
  - intros c0. by apply (wr_idle _ st st2 cor (reply_entry (g_reply g)) _ c0 Hst Hst2).
Qed.
End request.
