(* ===== verification/RdmaProps.v ===== *)
(** * What the RDMA client's calls do

    An in-sync client, one whose seeds are the server's, over the RPC layer:
    every call but a remove refines one step of a map and keeps the client in
    sync; no call fails, except that a PUT may end the server's process; a
    remove always fails the server's assertion. *)

From Stdlib Require Import ZArith Lia.
From stdpp Require Import base numbers gmap list.
From S2P Require Import Prelude Words Hash PackedData LudoSlot LruCache ServerRdma ServerInv ServerProps.
From S2P Require Import OthelloMem LudoTable LudoInv LudoDP Rpc ClientRdma RdmaCall.

#[local] Open Scope Z_scope.
#[local] Opaque Hash64WithSeed multiply_high_u32 FastHasher64.

(** ** The addresses of cells

    Also an empty cell has an address in the entry array, which GET and UPDATE
    at an empty cell read. *)

Definition cells_all (P : Z -> Prop) (b : list ludo_bucket) : Prop :=
  forall row slot c, rd2 b row slot = Ok c -> P c.

Lemma cells_all_wr2 (P : Z -> Prop) b row slot c b' : cells_all P b -> P c ->
  wr2 b row slot c = Ok b' -> cells_all P b'.
Proof.
  intros Hb Hc Hw row' slot' c' Hr. destruct (decide ((row, slot) = (row', slot'))) as [E|E].
  - injection E as <- <-. rewrite (rd2_wr2_eq _ _ _ _ _ Hw) in Hr. by apply Ok_inj in Hr as <-.
  - rewrite (rd2_wr2_ne _ _ _ _ _ _ _ Hw E) in Hr. by apply (Hb row' slot').
Qed.

Lemma cells_all_place (P : Z -> Prop) h row keys cells b b' : cells_all P b -> Forall P cells ->
  place_cells h b row keys cells = Ok b' -> cells_all P b'.
Proof.
  revert cells b. induction keys as [|k keys IH]; intros cells b Hb Hc H; cbn in H.
  - by apply Ok_inj in H as <-.
  - destruct Hc as [|c cells Hc Hcs]; [done|]. apply bind_Ok in H as (b1 & H1 & H).
    apply (IH cells b1); [|done..]. by apply (cells_all_wr2 P b row (h k) c).
Qed.

Lemma cells_all_empty (P : Z -> Prop) n b row slot b' : cells_all P b -> P 0 ->
  empty_loop n b row slot = Ok b' -> cells_all P b'.
Proof.
  intros Hb H0. revert b slot Hb. induction n as [|n IH]; intros b slot Hb H; cbn in H.
  - by apply Ok_inj in H as <-.
  - apply bind_Ok in H as (b1 & H1 & H). apply (IH b1 (slot + 1)); [|done].
    by apply (cells_all_wr2 P b row slot 0).
Qed.

Definition below (n : Z) (c : Z) : Prop := toAddr c < n.

Definition bounded (s : server) : Prop := cells_all (below (numElements (pd s))) (bks s).

Lemma toAddr_0 : toAddr 0 = 0.
Proof. by rewrite toAddr_mod. Qed.

Section bounded.
Context (home : Z -> Z).
Implicit Types (s : server).

Lemma loaded_cell s k len v s' a : wf home s -> load_entry s k len v = Ok (s', a) ->
  below (numElements (pd s)) (combine (fingerprint k) 64 a).
Proof.
  intros Hwf H. destruct (load_entry_spec home s k len v s' a Hwf H) as (_ & -> & Ha & Hlt & _).
  pose proof (wf_cap _ s Hwf). unfold below.
  destruct (new_cell_fields k (num (pd s))) as (_ & _ & ->); lia.
Qed.

Lemma load_bounded s k len v s' a : wf home s -> load_entry s k len v = Ok (s', a) -> bounded s ->
  bounded s' /\ numElements (pd s') = numElements (pd s).
Proof.
  intros Hwf H Hb.
  destruct (load_entry_spec home s k len v s' a Hwf H) as (_ & _ & _ & _ & _ & _ & E & _ & _ & _ & En).
  unfold bounded. by rewrite E, En.
Qed.

Lemma put_reseed_bounded s row r k v s' rep : wf home s -> rd (bks s) row = Ok r ->
  put_reseed s row k v = Ok (s', rep) -> bounded s -> bounded s'.
Proof.
  intros Hwf Hr H Hb.
  destruct (put_reseed_inv home s row r k v s' rep Hwf Hr H)
    as (keys & s1 & a & sd & seeds' & b1 & b' & HK & Hload & _ & _ & _ & Hb1 & Hb' & -> & _).
  destruct (load_bounded s k _ v s1 a Hwf Hload Hb) as [Hbd1 En]. unfold bounded in *. cbn.
  assert (0 < numElements (pd s)).
  { destruct (load_entry_spec home s k _ v s1 a Hwf Hload) as (_ & _ & Ha & Hlt & _).
    pose proof (wf_num _ s Hwf). lia. }
  eapply cells_all_place; [| |exact Hb'].
  - eapply cells_all_empty; [exact Hbd1| |exact Hb1]. unfold below. rewrite toAddr_0. lia.
  - rewrite En. apply Forall_app. split; [|constructor; [by eapply loaded_cell|constructor]].
    apply Forall_forall. intros c [_ Hin]%list_elem_of_filter.
    apply list_elem_of_lookup in Hin as [i Hi]. apply (Hb row (Z.of_nat i)). apply rd2_rd. exists r.
    split; [done|]. apply rd_Ok. by rewrite Nat2Z.id; split; [lia|].
Qed.

(** The entry array has its size for good. *)
Lemma overflow_bounded s s1 s2 k v a : wf home s -> bounded s -> lru_insert s k v = Ok s1 ->
  load_entry s1 k sizeof_ValType v = Ok (s2, a) -> bounded s2.
Proof.
  intros Hwf Hb H1 H2.
  destruct (lru_insert_spec home s k v Hwf) as (s1' & E & Hwf1 & _ & Eb & _ & Ep & _).
  assert (s1' = s1) as -> by congruence.
  apply (load_bounded s1 k _ v s2 a Hwf1 H2). unfold bounded. by rewrite Eb, Ep.
Qed.

Lemma put_bounded s loc k v s' rep : wf home s -> loc / SLOTS_NUM_BUCKET = home k ->
  put_callback s [loc; k; v] = Ok (s', rep) -> bounded s -> bounded s'.
Proof.
  intros Hwf Hloc H Hb. rewrite put_callback_eq in H. cbv zeta in H. rewrite Hloc in H.
  apply bind_Ok in H as (seed & Hs & H). apply bind_Ok in H as (st & _ & H).
  destruct (proj1 (seeds_bks home s (home k) Hwf) (ex_intro _ seed Hs)) as [r Hr].
  destruct (st =? 0); [|destruct (st =? 1); [|destruct (st =? 2); [|destruct (st =? 3)]]]; [..|done].
  - apply bind_Ok in H as ([s1 a] & Hl & H). apply bind_Ok in H as (b & Hw & H).
    apply Ok_inj, pair_equal_spec in H as [<- _].
    destruct (load_bounded s k _ v s1 a Hwf Hl Hb) as [Hb1 En]. unfold bounded. cbn.
    eapply cells_all_wr2; [exact Hb1| |exact Hw]. rewrite En. by eapply loaded_cell.
  - apply bind_Ok in H as (addr & _ & H). apply bind_Ok in H as (k' & _ & H).
    destruct (k' =? k).
    + apply bind_Ok in H as ([m x] & _ & H). by apply Ok_inj, pair_equal_spec in H as [<- _].
    + apply bind_Ok in H as (s1 & H1 & H). apply bind_Ok in H as ([s2 a] & H2 & H).
      apply Ok_inj, pair_equal_spec in H as [<- _]. by eapply overflow_bounded.
  - by eapply put_reseed_bounded.
  - apply bind_Ok in H as (s1 & H1 & H). apply bind_Ok in H as ([s2 a] & H2 & H).
    apply bind_Ok in H as (b & Hw & H). apply Ok_inj, pair_equal_spec in H as [<- _].
    pose proof (overflow_bounded s s1 s2 k v a Hwf Hb H1 H2) as Hb2.
    assert (exists c, rd2 (bks s2) (home k) (loc mod SLOTS_NUM_BUCKET) = Ok c) as [c Hc].
    { unfold set_cachebit in Hw. apply bind_Ok in Hw as (c & ? & _). eauto. }
    rewrite (set_cachebit_eq _ _ _ _ Hc) in Hw. unfold bounded. cbn.
    eapply cells_all_wr2; [exact Hb2| |exact Hw]. unfold below. rewrite set_flag_addr. by eapply Hb2.
Qed.

Lemma update_bounded s loc k v s' rep : wf home s ->
  update_callback s [loc; k; v] = Ok (s', rep) -> bounded s -> bounded s'.
Proof.
  intros Hwf H Hb. rewrite update_callback_eq in H.
  apply bind_Ok in H as (addr & _ & H). apply bind_Ok in H as (k' & _ & H).
  destruct (k' =? k).
  - apply bind_Ok in H as ([m x] & _ & H). by apply Ok_inj, pair_equal_spec in H as [<- _].
  - apply bind_Ok in H as (s1 & H1 & H). apply bind_Ok in H as ([s2 a] & H2 & H).
    apply Ok_inj, pair_equal_spec in H as [<- _]. by eapply overflow_bounded.
Qed.

(** In a bounded state a cell's entry can be read. *)
Lemma bounded_entry s row slot : wf home s -> bounded s -> 0 <= row < Z.of_nat (length (bks s)) ->
  0 <= slot < 4 -> exists c e, rd2 (bks s) row slot = Ok c /\ rd (mem s) (toAddr c) = Ok e.
Proof.
  intros Hwf Hb Hrow Hslot.
  destruct (rd2_in_range (bks s) 4 row slot) as [c Hc]; [apply (wf_rows _ s Hwf)|done|lia|].
  exists c. pose proof (Hb row slot c Hc) as Ha. unfold below in Ha. rewrite (wf_mem _ s Hwf) in Ha.
  destruct (rd_in_range (mem s) (toAddr c)) as [e He]; [pose proof (toAddr_range c); lia|]. eauto.
Qed.

End bounded.

(** ** UPDATE, whatever is at its location *)

Section updates.
Context (home : Z -> Z).
Implicit Types (s : server).

(** UPDATE of a stored key overwrites it; of any other key it leaves the
    table as it is, also when its cell is empty. *)
Lemma update_any s loc k v seed s' rep : ok_state home s ->
  loc / SLOTS_NUM_BUCKET = home k -> rd (seeds s) (home k) = Ok seed ->
  loc mod SLOTS_NUM_BUCKET = slot_of seed k ->
  update_callback s [loc; k; v] = Ok (s', rep) ->
  ok_state home s' /\ seeds s' = seeds s /\ (status rep = true) /\
  ((updated s s' k v /\ exists v0, stored s k v0) \/
   (unchanged s s' /\ forall v0, ~ stored s k v0)).
Proof.
  intros [Hwf Hf] Hloc Hs Hsl H.
  assert (Hseeds : seeds s' = seeds s /\ status rep = true).
  { pose proof H as H'. rewrite update_callback_eq in H'.
    apply bind_Ok in H' as (addr & _ & H'). apply bind_Ok in H' as (k' & _ & H').
    destruct (k' =? k).
    - apply bind_Ok in H' as ([m x] & _ & H'). by apply Ok_inj, pair_equal_spec in H' as [<- <-].
    - apply bind_Ok in H' as (s1 & H1 & H'). apply bind_Ok in H' as ([s2 a] & H2 & H').
      apply Ok_inj, pair_equal_spec in H' as [<- <-].
      destruct (overflow_spec home s s2 k v a Hwf) as (_ & _ & _ & E & _); [by rewrite H1|done]. }
  destruct Hseeds as [Hseeds Hst].
  pose proof H as H'. rewrite update_callback_eq, Hloc, Hsl in H'. unfold read_addr in H'.
  apply bind_Ok in H' as (a0 & Ha0 & H'). apply bind_Ok in Ha0 as (c & Hc & Ha0).
  apply Ok_inj in Ha0 as <-.
  destruct (decide (toLength c = 0)) as [Hc0|Hne].
  - assert (Hns : forall v0, ~ stored s k v0) by (apply (not_stored_slot home s seed c); auto).
    apply bind_Ok in H' as (k' & Hk' & H'). destruct (Z.eqb_spec k' k) as [->|Hkk].
    + apply bind_Ok in H' as ([m x] & Hu & H'). apply Ok_inj, pair_equal_spec in H' as [<- _].
      unfold update_data in Hu. apply bind_Ok in Hu as (m' & Hm & Hu).
      apply Ok_inj, pair_equal_spec in Hu as [-> _].
      unfold read_key in Hk'. apply bind_Ok in Hk' as (e & He & Hk'). apply Ok_inj in Hk'.
      destruct (dead_entry_write home s (toAddr c) (PackedStruct k 64 v) m Hwf Hm)
        as (Hw & Hun & Hfw).
      { intros row slot c' Hc' Hne E. pose proof Hc' as (r & Hr & Hcr)%rd2_rd.
        destruct (proj2 (seeds_bks home s row Hwf) (ex_intro _ r Hr)) as [sd Hsd].
        destruct (wf_cell _ s Hwf row sd slot c' Hsd Hc' Hne) as (_ & e' & He' & Hslot & Hrow).
        assert (e' = e) as -> by congruence. rewrite Hk' in *. subst row.
        assert (sd = seed) as -> by congruence. rewrite <-Hslot in Hc.
        assert (c' = c) as -> by congruence. done. }
      split; [split; auto|]. split; [done|]. split; [done|]. right. by split.
    + apply bind_Ok in H' as (s1 & H1 & H'). apply bind_Ok in H' as ([s2 a] & H2 & H').
      apply Ok_inj, pair_equal_spec in H' as [<- _].
      assert (HO : (s1 ← lru_insert s k v; load_entry s1 k sizeof_ValType v) = Ok (s2, a))
        by (by rewrite H1).
      destruct (overflow_branch home s s2 k v a Hwf HO Hns) as [Hw [Hun _]].
      split; [split; [done|exact (overflow_fingers home s s2 k v a Hwf Hf HO)]|]. split; [done|]. split; [done|]. right. by split.
  - destruct (update_main home s loc k v seed c s' rep Hwf Hloc Hs Hsl Hc Hne H) as (Hw & Hf' & Ho).
    split; [split; auto|]. split; [done|]. split; [done|].
    destruct Ho as [(Hu & Hst' & _)|[(Hun & Hns & _) _]]; [left|right]; by split.
Qed.

(** The only failure of an UPDATE is the end of the process, when the entry
    array is full. *)
Lemma update_faults s loc k v e : wf home s -> bounded s ->
  0 <= loc / SLOTS_NUM_BUCKET < Z.of_nat (length (bks s)) ->
  update_callback s [loc; k; v] = Err e -> e = ProcessExit /\ num (pd s) = numElements (pd s).
Proof.
  intros Hwf Hb Hrow H. rewrite update_callback_eq in H.
  assert (Hsl : 0 <= loc mod SLOTS_NUM_BUCKET < 4) by (by apply Z.mod_pos_bound).
  destruct (bounded_entry home s _ _ Hwf Hb Hrow Hsl) as (c & en & Hc & He).
  unfold read_addr, read_key in H. rewrite Hc, !bind_Ok_l, He, !bind_Ok_l in H.
  pose proof (wf_num _ s Hwf) as Hnum.
  destruct (_ =? k).
  - unfold update_data in H. by rewrite (wr_in_range _ _ _ (rd_range _ _ _ He)) in H.
  - destruct (lru_insert_spec home s k v Hwf) as (s1 & E & Hwf1 & _ & _ & _ & Ep & _).
    rewrite E, bind_Ok_l in H.
    destruct (decide (num (pd s1) < numElements (pd s1))) as [Hn|Hn].
    + destruct (load_entry_total home s1 k sizeof_ValType v) as (s2 & a & E2);
        [done..|]. by rewrite E2 in H.
    + rewrite load_entry_full in H by lia. cbn in H. rewrite Ep in Hn.
      split; [congruence|lia].
Qed.

Lemma get_total s loc k : wf home s -> bounded s ->
  0 <= loc / SLOTS_NUM_BUCKET < Z.of_nat (length (bks s)) ->
  exists v, get_callback s [loc; k] = Ok (MkReply true v).
Proof.
  intros Hwf Hb Hrow. rewrite get_callback_eq.
  assert (Hsl : 0 <= loc mod SLOTS_NUM_BUCKET < 4) by (by apply Z.mod_pos_bound).
  destruct (bounded_entry home s _ _ Hwf Hb Hrow Hsl) as (c & en & Hc & He).
  unfold read_addr. rewrite Hc, !bind_Ok_l, He, !bind_Ok_l. eauto.
Qed.
End updates.

(** ** Calls of an in-sync client *)

Section calls.
Context (sid : Z) (own : list Z) (g : garbage) (after : list Z) (Henv : env_ok g after).
Implicit Types (w : world).

Lemma words2 a b : is_word 64 a -> is_word 64 b -> Forall (is_word 64) [a; b].
Proof. intros. by do 2 (apply Forall_cons; split; [done|]). Qed.

Lemma words3 a b c : is_word 64 a -> is_word 64 b -> is_word 64 c -> Forall (is_word 64) [a; b; c].
Proof. intros. apply Forall_cons. split; [done|]. by apply words2. Qed.

Definition home_of w : Z -> Z := row_of (lookup_unit (cl w)).

(** A client connected to a server, with the server's seeds, that has nothing
    under way. *)
Record in_sync w (j : Z) : Prop := {
  is_quiet : quiet (lookup_unit (cl w)) j;
  is_size : j <= 30;
  is_seeds : dp_buckets (lookup_unit (cl w)) = seeds (srv w);
  is_ok : ok_state (home_of w) (srv w);
  is_bounded : bounded (srv w);
  is_con : connected sid own g (srv_rpc w);
  is_idle : forall cor, 0 <= cor < 12 -> idle (reply_station (rpc (cl w))) cor;
}.

Lemma is_rows w j : in_sync w j -> Z.of_nat (length (bks (srv w))) = 2 ^ j.
Proof.
  intros Hw. destruct (is_ok w j Hw) as [Hwf _]. pose proof (wf_len _ _ Hwf) as E.
  rewrite <-(is_seeds w j Hw) in E. destruct (is_quiet w j Hw) as (((Hj & _) & _ & Hb & _) & _).
  assert (0 < 2 ^ j) by (by apply Z.pow_pos_nonneg; lia). lia.
Qed.

Lemma num_of_spec j row slot : 0 <= j <= 30 -> 0 <= row < 2 ^ j -> 0 <= slot < 4 ->
  num_of (row, slot) = row * SLOTS_NUM_BUCKET + slot /\
  num_of (row, slot) / SLOTS_NUM_BUCKET = row /\ num_of (row, slot) mod SLOTS_NUM_BUCKET = slot /\
  is_word 64 (num_of (row, slot)).
Proof.
  intros Hj Hrow Hslot. assert (2 ^ j <= 2 ^ 30) by (apply Z.pow_le_mono_r; lia).
  unfold num_of, SLOTS_NUM_BUCKET. cbn [fst snd].
  rewrite (wrap_id 32) by (unfold is_word; lia). unfold is_word.
  split; [lia|]. Z.div_mod_to_equations. lia.
Qed.

(** Where an in-sync client sends its requests. *)
Lemma in_sync_locate w j k : in_sync w j -> exists seed,
  rd (seeds (srv w)) (home_of w k) = Ok seed /\ 0 <= home_of w k < Z.of_nat (length (bks (srv w))) /\
  locate (cl w) k = Ok (home_of w k, slot_of seed k) /\
  let loc := num_of (home_of w k, slot_of seed k) in
  location (home_of w) (srv w) k = Ok loc /\ loc / SLOTS_NUM_BUCKET = home_of w k /\
  loc mod SLOTS_NUM_BUCKET = slot_of seed k /\ is_word 64 loc.
Proof.
  intros Hw. destruct (row_of_spec _ j k (is_quiet w j Hw)) as [Hrow _].
  pose proof (is_rows w j Hw) as Hlen. destruct (is_ok w j Hw) as [Hwf _].
  destruct (rd_in_range (seeds (srv w)) (home_of w k)) as [seed Hs].
  { rewrite (wf_len _ _ Hwf), Hlen. apply Hrow. }
  exists seed. split; [done|]. split; [unfold home_of; lia|].
  split; [eapply locate_quiet; [apply Hw|by rewrite (is_seeds w j Hw)]|].
  destruct (is_quiet w j Hw) as (((Hj & _) & _) & _).
  destruct (num_of_spec j (home_of w k) (slot_of seed k)) as (E & ? & ? & ?);
    [pose proof (is_size w j Hw); lia|done|apply slot_of_range|].
  cbv zeta. split; [|done]. unfold location. by rewrite Hs, bind_Ok_l, E.
Qed.

Lemma callback_at w j id : in_sync w j -> exists junk,
  callbacks (srv_rpc w) !! Z.to_nat (RPCId_code id) =
    Some (rpc_callback g (match id with
      | GET => fun s args => r ← get_callback s args; Ok (s, r)
      | PUT => put_callback | UPDATE => update_callback | DELETE => remove_callback
      | SCAN => fun s args => r ← scan_callback s args junk; Ok (s, r) end)).
Proof.
  intros Hw. destruct (is_con w j Hw) as [_ [junk E]]. exists junk. rewrite E. by destruct id.
Qed.

(** After a call that changed only the server's contents. *)
Lemma replied_sync w j w' cor r : in_sync w j -> replied w w' cor r ->
  seeds (srv w') = seeds (srv w) -> ok_state (home_of w) (srv w') -> bounded (srv w') -> in_sync w' j.
Proof.
  intros [Hq Hj Hs Ho Hb Hc Hi] [Er El _ Hi'] Es Ho' Hb'.
  assert (Eh : home_of w' = home_of w) by (unfold home_of; by rewrite El).
  split; [by rewrite El|done|by rewrite El, Es|by rewrite Eh|done|by rewrite Er|auto].
Qed.

Lemma idle_at w j cor : in_sync w j -> 0 <= cor < 12 -> idle (reply_station (rpc (cl w))) cor.
Proof. intros Hw. apply (is_idle w j Hw). Qed.

(** A search of any client, in sync or not: the reply is about the location
    that the client computed. *)
Lemma remote_search_at w j cor k seed : quiet (lookup_unit (cl w)) j -> j <= 30 ->
  rd (dp_buckets (lookup_unit (cl w))) (home_of w k) = Ok seed ->
  connected sid own g (srv_rpc w) -> idle (reply_station (rpc (cl w))) cor -> is_word 64 k ->
  match get_callback (srv w) [num_of (home_of w k, slot_of seed k); k] with
  | Ok r => exists w', srv w' = srv w /\ replied w w' cor r /\
      remote_search sid own g after w cor k = Ok (w', if status r then Some (u64 (val r)) else None)
  | Err e => e <> Thrown -> remote_search sid own g after w cor k = Err e
  end.
Proof.
  intros Hq Hj Hs Hcon Hidle Hk.
  pose proof (locate_quiet (cl w) j k seed Hq Hs) as Hloc. fold (home_of w k) in Hloc.
  destruct (num_of_spec j (home_of w k) (slot_of seed k)) as (_ & _ & _ & Hword);
    [destruct Hq as (((? & _) & _) & _); lia|apply (row_of_spec _ j k Hq)|apply slot_of_range|].
  set (loc := num_of _) in *.
  assert (exists junk, callbacks (srv_rpc w) = outback_callbacks g junk) as [junk Hcb] by apply Hcon.
  destruct (request_reply sid own g after Henv w cor GET [loc; k]
    (fun s args => r ← get_callback s args; Ok (s, r)) Hcon Hidle (words2 _ _ Hword Hk)
    ltac:(cbn; lia) ltac:(by rewrite Hcb)) as (c & o & m & Hb & Hx & Hready & Hcall).
  unfold remote_search, search_send, search_recv. rewrite Hloc, bind_Ok_l. fold loc.
  rewrite marshal_eq, bind_Ok_l, Hb, bind_Ok_l, Hready, bind_Ok_l. cbn [negb guard_ok].
  rewrite bind_Ok_l, Hx, !bind_Ok_l. cbv beta iota in Hcall.
  destruct (get_callback (srv w) [loc; k]) as [r|e]; [|intros He; by rewrite Hcall].
  rewrite bind_Ok_l in Hcall. destruct Hcall as (w' & Hex & Es & Hr).
  exists w'. split; [done|]. split; [done|].
  by rewrite Hex, bind_Ok_l, (rp_reply _ _ _ _ Hr), bind_Ok_l.
Qed.

Lemma remote_search_total w j cor k : in_sync w j -> 0 <= cor < 12 -> is_word 64 k ->
  exists v w', serve (home_of w) (srv w) (Get k) = Ok (srv w, MkReply true v) /\
    remote_search sid own g after w cor k = Ok (w', Some (u64 v)) /\ in_sync w' j /\
    srv w' = srv w /\ home_of w' = home_of w.
Proof.
  intros Hw Hcor Hk.
  destruct (in_sync_locate w j k Hw) as (seed & Hs & Hrow & _ & Hl & Hdiv & Hmod & _).
  destruct (is_ok w j Hw) as [Hwf Hf].
  destruct (get_total (home_of w) (srv w) (num_of (home_of w k, slot_of seed k)) k Hwf
    (is_bounded w j Hw)) as [v Hv]; [by rewrite Hdiv|].
  pose proof (remote_search_at w j cor k seed (is_quiet w j Hw) (is_size w j Hw)) as Hat.
  rewrite (is_seeds w j Hw), Hv in Hat.
  destruct Hat as (w' & Es & Hr & Hcall); [done|apply Hw|by apply (is_idle w j Hw)|done|].
  exists v, w'. split; [cbn; by rewrite Hl, bind_Ok_l, Hv|]. split; [done|].
  split; [|split; [done|unfold home_of; by rewrite (rp_lookup _ _ _ _ Hr)]].
  eapply replied_sync; [done..|by rewrite Es|by rewrite Es|rewrite Es; apply Hw].
Qed.

Lemma remote_update_spec w j cor k v : in_sync w j -> 0 <= cor < 12 -> is_word 64 k -> is_word 64 v ->
  match remote_update sid own g after w cor k v with
  | Ok w' => in_sync w' j /\ home_of w' = home_of w /\
      ((updated (srv w) (srv w') k v /\ exists v0, stored (srv w) k v0) \/
       (unchanged (srv w) (srv w') /\ forall v0, ~ stored (srv w) k v0))
  | Err e => e = ProcessExit /\ num (pd (srv w)) = numElements (pd (srv w))
  end.
Proof.
  intros Hw Hcor Hk Hv.
  destruct (in_sync_locate w j k Hw) as (seed & Hs & Hrow & Hloc & Hl & Hdiv & Hmod & Hword).
  set (loc := num_of _) in *. destruct (callback_at w j UPDATE Hw) as [junk Hcb].
  destruct (request_reply sid own g after Henv w cor UPDATE [loc; k; v] _ (is_con w j Hw)
    (idle_at w j cor Hw Hcor) (words3 _ _ _ Hword Hk Hv) ltac:(cbn; lia) Hcb)
    as (c & o & m & Hb & Hx & Hready & Hcall).
  destruct (is_ok w j Hw) as [Hwf Hf]. cbv beta iota in Hcall.
  unfold remote_update, update_send. rewrite Hloc, bind_Ok_l. fold loc.
  rewrite marshal_eq, bind_Ok_l, Hb, bind_Ok_l, Hx, !bind_Ok_l. cbv beta iota.
  destruct (update_callback (srv w) [loc; k; v]) as [[s' r]|e] eqn:E.
  - destruct Hcall as (w' & -> & Es & Hr).
    destruct (update_any (home_of w) (srv w) loc k v seed s' r) as (Ho & Eseeds & _ & Hcase); [done..|].
    split; [|split; [unfold home_of; by rewrite (rp_lookup _ _ _ _ Hr)|by rewrite Es]].
    eapply replied_sync; [done..|by rewrite Es|by rewrite Es|rewrite Es].
    eapply update_bounded; [done..|apply Hw].
  - assert (Hrow' : 0 <= loc / SLOTS_NUM_BUCKET < Z.of_nat (length (bks (srv w)))) by (by rewrite Hdiv).
    destruct (update_faults (home_of w) (srv w) loc k v e Hwf (is_bounded w j Hw) Hrow' E) as [-> Hn].
    by rewrite Hcall.
Qed.

(** *** PUT *)

Lemma ok_state_ext (h h' : Z -> Z) s : (forall k, h k = h' k) -> ok_state h s -> ok_state h' s.
Proof.
  intros E [Hwf Hf]. split; [|done]. destruct Hwf as [H1 H2 H3 H4 H5 H6 H7]. split; try done.
  intros row seed slot c Hs Hc Hne. destruct (H6 row seed slot c Hs Hc Hne) as (Ha & e & He & Hsl & Hh).
  split; [done|]. exists e. by rewrite <-E.
Qed.

(** The reply of a PUT that reseeded carries the new seed. *)
Lemma put_seeds (home : Z -> Z) s loc k v s' rep : wf home s -> loc / SLOTS_NUM_BUCKET = home k ->
  put_callback s [loc; k; v] = Ok (s', rep) -> status rep = true /\
  ((seeds s' = seeds s /\ (val rep = 0 \/ val rep = 1 \/ val rep = 3)) \/
   exists sd, val rep = 256 + sd /\ 0 <= sd < 255 /\ wr (seeds s) (home k) sd = Ok (seeds s')).
Proof.
  intros Hwf Hloc H. rewrite put_callback_eq in H. cbv zeta in H. rewrite Hloc in H.
  apply bind_Ok in H as (seed & Hs & H). apply bind_Ok in H as (st & _ & H).
  destruct (proj1 (seeds_bks home s (home k) Hwf) (ex_intro _ seed Hs)) as [r Hr].
  assert (Hov : forall s1 s2 a, lru_insert s k v = Ok s1 ->
    load_entry s1 k sizeof_ValType v = Ok (s2, a) -> seeds s2 = seeds s).
  { intros s1 s2 a H1 H2. destruct (overflow_spec home s s2 k v a Hwf) as (_ & _ & _ & E & _);
      [by rewrite H1|done]. }
  destruct (st =? 0); [|destruct (st =? 1); [|destruct (st =? 2); [|destruct (st =? 3)]]]; [..|done].
  - apply bind_Ok in H as ([s1 a] & Hl & H). apply bind_Ok in H as (b & Hw & H).
    apply Ok_inj, pair_equal_spec in H as [<- <-]. split; [done|]. left. cbn. split; [|tauto].
    apply (load_entry_spec home s k _ v s1 a Hwf Hl).
  - apply bind_Ok in H as (addr & _ & H). apply bind_Ok in H as (k' & _ & H).
    destruct (k' =? k).
    + apply bind_Ok in H as ([m x] & _ & H). apply Ok_inj, pair_equal_spec in H as [<- <-].
      split; [done|]. left. cbn. tauto.
    + apply bind_Ok in H as (s1 & H1 & H). apply bind_Ok in H as ([s2 a] & H2 & H).
      apply Ok_inj, pair_equal_spec in H as [<- <-]. split; [done|]. left. cbn.
      split; [by eapply Hov|tauto].
  - destruct (put_reseed_inv home s (home k) r k v s' rep Hwf Hr H)
      as (keys & s1 & a & sd & seeds' & b1 & b' & _ & Hl & _ & Hsd & Hws & _ & _ & -> & ->).
    split; [done|]. right. exists sd. cbn. split; [done|]. split; [done|].
    by destruct (load_entry_spec home s k _ v s1 a Hwf Hl) as (_ & _ & _ & _ & _ & _ & _ & <- & _).
  - apply bind_Ok in H as (s1 & H1 & H). apply bind_Ok in H as ([s2 a] & H2 & H).
    apply bind_Ok in H as (b & Hw & H). apply Ok_inj, pair_equal_spec in H as [<- <-].
    split; [done|]. left. cbn. split; [by eapply Hov|tauto].
Qed.

Lemma land_small x : x = 0 \/ x = 1 \/ x = 3 -> (Z.land (u64 x) (Z.shiftl 1 8) =? 0) = true.
Proof. intros [-> |[-> | ->]]; reflexivity. Qed.

Lemma land_255 sd : 0 <= sd < 255 ->
  u64 (256 + sd) = 256 + sd /\ (Z.land (256 + sd) (Z.shiftl 1 8) =? 0) = false /\
  Z.land (256 + sd) 0xFF = sd /\ u8 sd = sd.
Proof.
  intros Hsd. assert (Hd : 256 + sd = Z.lor (2 ^ 8) sd).
  { rewrite <-add_disjoint_lor; [done|]. apply Z.bits_inj'. intros n Hn. rewrite Z.land_spec, Z.bits_0.
    destruct (Z.eq_dec 8 n) as [<-|Hne]; [|by rewrite Z.pow2_bits_false by lia].
    rewrite (is_word_bit_high 8 sd); [apply andb_false_r|unfold is_word; lia|lia]. }
  split; [apply wrap_id; unfold is_word; lia|]. split; [|split].
  - apply Z.eqb_neq. intros E. assert (Z.testbit (Z.land (256 + sd) (Z.shiftl 1 8)) 8 = false) as Hb
      by (by rewrite E). rewrite Z.land_spec, Hd, Z.lor_spec in Hb.
    by rewrite (Z.pow2_bits_true 8) in Hb by lia.
  - change 0xFF with (Z.ones 8). rewrite Z.land_ones by lia. Z.div_mod_to_equations. lia.
  - apply wrap_id. unfold is_word. lia.
Qed.

Lemma remote_put_spec w j cor k v : in_sync w j -> 0 <= cor < 12 -> is_word 64 k -> is_word 64 v ->
  match remote_put sid own g after w cor k v with
  | Ok w' => in_sync w' j /\ (forall k', home_of w' k' = home_of w k') /\
      (updated (srv w) (srv w') k v \/ overflowed (srv w) (srv w') k v)
  | Err e => e = ProcessExit /\
      (num (pd (srv w)) = numElements (pd (srv w)) \/
       exists keys, row_key_list (srv w) (home_of w k) = Ok keys /\
         forall sd, 0 <= sd < 255 -> ~ separates sd (keys ++ [k]))
  end.
Proof.
  intros Hw Hcor Hk Hv.
  destruct (in_sync_locate w j k Hw) as (seed & Hs & Hrow & Hloc & Hl & Hdiv & Hmod & Hword).
  set (loc := num_of _) in *. destruct (callback_at w j PUT Hw) as [junk Hcb].
  destruct (request_reply sid own g after Henv w cor PUT [loc; k; v] _ (is_con w j Hw)
    (idle_at w j cor Hw Hcor) (words3 _ _ _ Hword Hk Hv) ltac:(cbn; lia) Hcb)
    as (c & o & m & Hb & Hx & Hready & Hcall).
  destruct (is_ok w j Hw) as [Hwf Hf]. cbv beta iota in Hcall.
  unfold remote_put, put_send. rewrite Hloc, bind_Ok_l. fold loc.
  rewrite marshal_eq, bind_Ok_l, Hb, bind_Ok_l, Hx, !bind_Ok_l. cbv beta iota.
  destruct (put_callback (srv w) [loc; k; v]) as [[s' r]|e] eqn:E.
  2: { pose proof (put_faults (home_of w) (srv w) loc k v Hwf Hdiv Hrow) as Hpf. rewrite E in Hpf.
       destruct Hpf as [-> Hor]. by rewrite Hcall. }
  destruct Hcall as (w' & -> & Es & Hr). rewrite bind_Ok_l.
  destruct (put_main (home_of w) (srv w) loc k v s' r Hwf Hdiv E) as [Hwf' Hbr].
  destruct (Hbr Hf) as [Hf' [_ Hout]].
  pose proof (put_bounded (home_of w) (srv w) loc k v s' r Hwf Hdiv E (is_bounded w j Hw)) as Hb'.
  destruct (put_seeds (home_of w) (srv w) loc k v s' r Hwf Hdiv E) as [Hstat Hcase].
  assert (Hcont : updated (srv w) s' k v \/ overflowed (srv w) s' k v) by tauto.
  unfold put_recv. rewrite (rp_reply _ _ _ _ Hr), bind_Ok_l. unfold wrap_reply. cbn [status val].
  rewrite Hstat. destruct Hcase as [[Eseeds Hval]|(sd & Eval & Hsd & Hwr)].
  - rewrite (land_small _ Hval).
    cbn [negb]. rewrite bind_Ok_l. cbn [srv with_cl cl]. rewrite Es.
    assert (Eh : forall k', home_of w' k' = home_of w k')
      by (intros k'; unfold home_of; rewrite (rp_lookup _ _ _ _ Hr); reflexivity).
    split; [|by split]. replace (with_cl (cl w') w') with w' by (by destruct w').
    eapply replied_sync; [done..|by rewrite Es|by rewrite Es|by rewrite Es].
  - rewrite Eval. destruct (land_255 sd Hsd) as (-> & -> & -> & Hu). cbn [negb].
    unfold dp_updateSeed. rewrite (rp_lookup _ _ _ _ Hr), (is_seeds w j Hw), Hu.
    cbn [fst]. rewrite Hwr, !bind_Ok_l. cbn [srv with_cl]. rewrite Es.
    pose proof (is_quiet w j Hw) as Hq. pose proof Hq as ((_ & _ & Hlen & _) & _).
    assert (Hl' : length (seeds s') = Z.to_nat (2 ^ j))
      by (rewrite (wr_length _ _ _ _ Hwr), <-(is_seeds w j Hw); done).
    assert (Eh : forall k', row_of (with_seeds (seeds s') (lookup_unit (cl w))) k' = home_of w k')
      by (intros; by apply (row_of_with_seeds _ j)).
    split; [|by split]. split; cbn [cl lookup_unit rpc srv_rpc srv with_cl].
    + by apply quiet_with_seeds.
    + apply Hw.
    + by rewrite Es.
    + rewrite Es. apply (ok_state_ext (home_of w)); [|by split]. intros k'. symmetry. apply Eh.
    + by rewrite Es.
    + rewrite (rp_rpc _ _ _ _ Hr). apply Hw.
    + intros c0 Hc0. apply (rp_idle _ _ _ _ Hr), (is_idle w j Hw c0 Hc0).
Qed.

(** *** REMOVE and SCAN *)

(** [remote_remove] sends eight bytes, the callback asserts sixteen. *)
Lemma remote_remove_spec w j cor k : in_sync w j -> 0 <= cor < 12 -> is_word 64 k ->
  remote_remove sid own g after w cor k = Err AssertFailed.
Proof.
  intros Hw Hcor Hk. destruct (callback_at w j DELETE Hw) as [junk Hcb].
  destruct (request_reply sid own g after Henv w cor DELETE [k] _ (is_con w j Hw)
    (idle_at w j cor Hw Hcor) ltac:(apply Forall_cons; split; [done|constructor]) ltac:(cbn; lia) Hcb)
    as (c & o & m & Hb & Hx & Hready & Hcall).
  unfold remote_remove, remove_send. rewrite marshal_eq, bind_Ok_l, Hb, bind_Ok_l, Hx, !bind_Ok_l.
  cbv beta iota in Hcall |- *. by apply Hcall.
Qed.

Lemma remote_scan_spec w j cor k n : in_sync w j -> 0 <= cor < 12 -> is_word 64 k -> is_word 64 n ->
  exists w', remote_scan sid own g after w cor k n = Ok w' /\ in_sync w' j /\ srv w' = srv w /\
    home_of w' = home_of w.
Proof.
  intros Hw Hcor Hk Hn. destruct (callback_at w j SCAN Hw) as [junk Hcb].
  destruct (request_reply sid own g after Henv w cor SCAN [k; n] _ (is_con w j Hw)
    (idle_at w j cor Hw Hcor) (words2 _ _ Hk Hn) ltac:(cbn; lia) Hcb)
    as (c & o & m & Hb & Hx & Hready & Hcall).
  assert (Hscan : scan_callback (srv w) [k; n] junk = Ok junk) by done.
  cbv beta iota in Hcall. rewrite Hscan, bind_Ok_l in Hcall. destruct Hcall as (w' & Hex & Es & Hr).
  exists w'. split; [|split; [|split; [done|unfold home_of; by rewrite (rp_lookup _ _ _ _ Hr)]]].
  - unfold remote_scan, scan_send. by rewrite marshal_eq, bind_Ok_l, Hb, bind_Ok_l, Hx, !bind_Ok_l.
  - eapply replied_sync; [done..|by rewrite Es|rewrite Es; apply Hw|rewrite Es; apply Hw].
Qed.

(** ** Sequences of calls refine a map *)

Inductive call :=
  | Search (k : Z)
  | PutCall (k v : Z)
  | Update (k v : Z)
  | Scan (k n : Z).

Definition call_ok (c : call) : Prop :=
  match c with
  | Search k => is_word 64 k
  | PutCall k v | Update k v | Scan k v => is_word 64 k /\ is_word 64 v
  end.

(** A call by a coroutine; the result is a search's. *)
Definition run_call w (cor : Z) (c : call) : res (world * option Z) :=
  match c with
  | Search k => remote_search sid own g after w cor k
  | PutCall k v => w' ← remote_put sid own g after w cor k v; Ok (w', None)
  | Update k v => w' ← remote_update sid own g after w cor k v; Ok (w', None)
  | Scan k n => w' ← remote_scan sid own g after w cor k n; Ok (w', None)
  end.

Fixpoint run_calls w (cs : list (Z * call)) : res (world * list (option Z)) :=
  match cs with
  | [] => Ok (w, [])
  | (cor, c) :: cs =>
      '(w1, r) ← run_call w cor c; '(w2, rs) ← run_calls w1 cs; Ok (w2, r :: rs)
  end.

(** The map: a search of a stored key returns its value, of another key
    anything; a PUT stores its pair or, for a new key, may be turned away; an
    UPDATE overwrites stored keys only. *)
Inductive call_step (m : gmap Z Z) : call -> option Z -> gmap Z Z -> Prop :=
  | StepSearch k r : (forall v, m !! k = Some v -> r = Some v) -> call_step m (Search k) r m
  | StepPut k v : call_step m (PutCall k v) None (<[k := v]> m)
  | StepOverflow k v : m !! k = None -> call_step m (PutCall k v) None m
  | StepUpdate k v : is_Some (m !! k) -> call_step m (Update k v) None (<[k := v]> m)
  | StepMissing k v : m !! k = None -> call_step m (Update k v) None m
  | StepScan k n : call_step m (Scan k n) None m.

Inductive call_run : gmap Z Z -> list call -> list (option Z) -> gmap Z Z -> Prop :=
  | RunNil m : call_run m [] [] m
  | RunCons m c r m1 cs rs m2 : call_step m c r m1 -> call_run m1 cs rs m2 ->
      call_run m (c :: cs) (r :: rs) m2.

Definition words_map (m : gmap Z Z) : Prop := map_Forall (fun _ v => is_word 64 v) m.

Lemma updated_represents s s' k v m : represents s m -> updated s s' k v ->
  represents s' (<[k := v]> m).
Proof. intros HR Hu k' v'. rewrite (Hu k' v'), (HR k' v'), lookup_insert_Some. naive_solver. Qed.

Lemma run_call_step w j m cor c : in_sync w j -> represents (srv w) m -> words_map m ->
  0 <= cor < 12 -> call_ok c ->
  match run_call w cor c with
  | Ok (w', r) => exists m', call_step m c r m' /\ in_sync w' j /\ represents (srv w') m' /\ words_map m'
  | Err e => e = ProcessExit
  end.
Proof.
  intros Hw HR Hm Hcor Hc. destruct c as [k|k v|k v|k n]; cbn [run_call call_ok] in *.
  - destruct (remote_search_total w j cor k Hw Hcor Hc) as (v & w' & Hserve & -> & Hw' & Es & _).
    exists m. split; [|by rewrite Es]. constructor. intros v0 Hv0. f_equal.
    destruct (is_ok w j Hw) as [Hwf Hf].
    destruct (serve_step (home_of w) (srv w) m (Get k) _ _ (conj Hwf Hf) HR Hserve)
      as (_ & m' & Hst & _).
    inversion Hst as [k0 r0 Hget| | |]; subst. specialize (Hget v0 Hv0). injection Hget as ->.
    apply wrap_id, (Hm k v0 Hv0).
  - destruct Hc as [Hk Hv]. pose proof (remote_put_spec w j cor k v Hw Hcor Hk Hv) as H.
    destruct (remote_put sid own g after w cor k v) as [w'|e]; [rewrite bind_Ok_l|apply H].
    destruct H as (Hw' & _ & [Hu|(Hun & Hns & _)]).
    + exists (<[k := v]> m). split; [constructor|]. split; [done|].
      split; [by eapply updated_represents|]. by apply map_Forall_insert_2.
    + exists m. split; [constructor; by eapply represents_absent|]. split; [done|].
      split; [|done]. intros k' v'. by rewrite (Hun k' v').
  - destruct Hc as [Hk Hv]. pose proof (remote_update_spec w j cor k v Hw Hcor Hk Hv) as H.
    destruct (remote_update sid own g after w cor k v) as [w'|e]; [rewrite bind_Ok_l|apply H].
    destruct H as (Hw' & _ & [(Hu & v0 & Hst)|(Hun & Hns)]).
    + exists (<[k := v]> m). split; [constructor; exists v0; by apply HR|]. split; [done|].
      split; [by eapply updated_represents|]. by apply map_Forall_insert_2.
    + exists m. split; [constructor; by eapply represents_absent|]. split; [done|].
      split; [|done]. intros k' v'. by rewrite (Hun k' v').
  - destruct Hc as [Hk Hn]. destruct (remote_scan_spec w j cor k n Hw Hcor Hk Hn) as (w' & -> & Hw' & Es & _).
    rewrite bind_Ok_l. exists m. split; [constructor|]. by rewrite Es.
Qed.

Lemma run_calls_run cs w j m : in_sync w j -> represents (srv w) m -> words_map m ->
  Forall (fun c : Z * call => 0 <= c.1 < 12 /\ call_ok c.2) cs ->
  match run_calls w cs with
  | Ok (w', rs) => exists m', call_run m cs.*2 rs m' /\ in_sync w' j /\ represents (srv w') m'
  | Err e => e = ProcessExit
  end.
Proof.
  intros Hw HR Hm Hcs. revert w m Hw HR Hm. induction Hcs as [|[cor c] cs [Hcor Hc] _ IH]; intros w m Hw HR Hm.
  - cbn. exists m. by split; [constructor|].
  - cbn [run_calls fmap list_fmap fst snd] in *.
    pose proof (run_call_step w j m cor c Hw HR Hm Hcor Hc) as H.
    destruct (run_call w cor c) as [[w1 r]|e]; [rewrite bind_Ok_l|done].
    destruct H as (m1 & Hst & Hw1 & HR1 & Hm1). specialize (IH w1 m1 Hw1 HR1 Hm1).
    destruct (run_calls w1 cs) as [[w2 rs]|e]; [rewrite bind_Ok_l|done].
    destruct IH as (m2 & Hrun & ?). exists m2. split; [by econstructor|done].
Qed.
End calls.

(** ** Connecting *)

Section start.
Context (sid : Z) (own : list Z) (g : garbage) (after : list Z) (Henv : env_ok g after).
Implicit Types (w : world).

Lemma server_rpc_ok junk : exists c, server_rpc g junk = Ok c /\
  callbacks c = outback_callbacks g junk /\ incoming_sessions c = ∅.
Proof. eexists. split; [reflexivity|]. by split. Qed.

(** The Connect message makes the session. *)
Lemma connect_ok buf w junk : sz own = sizeof_QPAttr -> 68 <= sz buf ->
  callbacks (srv_rpc w) = outback_callbacks g junk -> incoming_sessions (srv_rpc w) !! sid = None ->
  exists w', connect sid own g after buf w = Ok w' /\ cl w' = cl w /\ srv w' = srv w /\
    connected sid own g (srv_rpc w').
Proof.
  intros Hown Hbuf Hcb Hnone. pose proof Henv as [Hpad Hh _ _ _].
  destruct (set_msg_ok buf (g_header g) (g_pad g)) as (o0 & E0 & Ho0 & Hm0 & Hh0);
    [unfold sizeof_Header; lia|done|done|].
  assert (Ho1 : carries (set_connect o0) []) by (by apply set_type_ok).
  pose proof (add_opaque_ok _ [] own Ho1) as Hadd.
  destruct (decide _) as [_|Hn].
  2: { exfalso. apply Hn. change (msg (set_connect o0)) with (msg o0). rewrite Hown, Hm0.
       change (sz []) with 0. unfold sizeof_Header, sizeof_QPAttr. lia. }
  destruct Hadd as (o2 & E2 & Ho2 & Hh2 & _). cbn [app] in Ho2.
  destruct (execute_ok o2 own Ho2) as (m & E3 & Hm & Hp); [rewrite Hown; done|].
  rewrite Hown in Hm, Hp. unfold sizeof_Header, sizeof_QPAttr in Hm.
  destruct (cur_msg_split m after) as (rest & Hrest); [lia|].
  assert (Hadd : add_impl sid own (srv_rpc w) =
    Ok (with_sessions (<[sid := Some own]> (incoming_sessions (srv_rpc w))) (srv_rpc w))).
  { unfold add_impl. rewrite Hown. change (interpret_as sizeof_QPAttr sizeof_QPAttr 0) with (Some 0).
    cbn [guard_ok]. rewrite bind_Ok_l. pose proof (read_bytes_app [] own []) as Hr.
    rewrite app_nil_r, Hown in Hr. change (sz []) with 0 in Hr. cbn [app] in Hr.
    by rewrite Hr, bind_Ok_l, Hnone. }
  unfold connect, get_connect_op. rewrite E0, bind_Ok_l, E2, !bind_Ok_l, E3, bind_Ok_l.
  cbn [recv_event_loop]. unfold recv_msg. rewrite Hrest, Hp, bind_Ok_l, Hh2. cbn [type set_connect set_type with_header header].
  change (MsgType_code Connect =? MsgType_code Req) with false.
  change (MsgType_code Connect =? MsgType_code Reply) with false. rewrite Z.eqb_refl. cbv iota.
  rewrite Hadd, !bind_Ok_l. eexists. split; [reflexivity|]. split; [done|]. split; [done|].
  split; [cbn; apply lookup_insert_eq|]. by exists junk.
Qed.

(** A request of a client whose Connect message has not arrived. *)
Definition disconnected w : world :=
  MkWorld (cl w) (with_sessions (delete sid (incoming_sessions (srv_rpc w))) (srv_rpc w)) (srv w).

Lemma idle_new_station n cor : 0 <= cor < 2 ^ 7 -> cor < Z.of_nat n -> idle (new_station n) cor.
Proof.
  intros Hc Hn. split; [done|]. exists (MkEntry 0 [] 0). split; [|done]. apply rd_Ok.
  split; [lia|]. apply lookup_replicate. split; [done|lia].
Qed.

(** The start: an empty server of [2 ^ j] rows, a client with the seeds 0. *)
Definition start_world (d : DataPlaneLudo) (core : RPCCore server) (rows n : nat) (junk : packed_struct)
    : world := MkWorld (MkClient d (new_core 12)) core (fresh_server rows n junk).

Lemma fresh_bounded rows n junk : 0 < Z.of_nat n -> bounded (fresh_server rows n junk).
Proof.
  intros Hn row slot c (r & Hr & Hc)%rd2_rd. apply rd_Ok in Hr as [_ Hr].
  apply lookup_replicate in Hr as [-> _]. apply rd_Ok in Hc as [_ Hc].
  apply (lookup_replicate_1 4 0) in Hc as [-> _]. unfold below. rewrite toAddr_0. cbn. lia.
Qed.

Lemma start_in_sync d j n junk rjunk buf : quiet d j -> j <= 30 ->
  dp_buckets d = replicate (Z.to_nat (2 ^ j)) 0 -> 0 < Z.of_nat n <= 2 ^ 32 ->
  sz own = sizeof_QPAttr -> 68 <= sz buf ->
  exists core w, server_rpc g rjunk = Ok core /\
    connect sid own g after buf (start_world d core (Z.to_nat (2 ^ j)) n junk) = Ok w /\
    in_sync sid own g w j /\ represents (srv w) ∅.
Proof.
  intros Hq Hj Hd Hn Hown Hbuf. destruct (server_rpc_ok rjunk) as (core & Ec & Hcb & Hses).
  destruct (connect_ok buf (start_world d core (Z.to_nat (2 ^ j)) n junk) rjunk Hown Hbuf Hcb)
    as (w & Ew & Ecl & Esrv & Hcon); [cbn; by rewrite Hses|].
  exists core, w. split; [done|]. split; [done|]. rewrite Esrv.
  split; [|apply fresh_represents]. split; rewrite ?Ecl, ?Esrv; try done.
  - apply fresh_ok, Hn.
  - apply fresh_bounded. lia.
  - intros cor Hc. apply idle_new_station; lia.
Qed.

(** C1: Sequences of remote calls refine a map, through the whole RPC path: from
    a connected client with a quiet lookup structure over an empty table, any
    sequence of searches, PUTs, UPDATEs and scans by any coroutines either ends
    the server's process inside a PUT or UPDATE, or completes as a run of the
    map with the client's seeds equal to the server's at the end.  No assertion
    fails, no access is out of bounds and no message is lost on the way. *)
Theorem remote_calls_refine_map d j n junk rjunk buf cs : quiet d j -> j <= 30 ->
  dp_buckets d = replicate (Z.to_nat (2 ^ j)) 0 -> 0 < Z.of_nat n <= 2 ^ 32 ->
  sz own = sizeof_QPAttr -> 68 <= sz buf ->
  Forall (fun c : Z * call => 0 <= c.1 < 12 /\ call_ok c.2) cs ->
  exists core w0, server_rpc g rjunk = Ok core /\
    connect sid own g after buf (start_world d core (Z.to_nat (2 ^ j)) n junk) = Ok w0 /\
    match run_calls sid own g after w0 cs with
    | Ok (w, rs) => exists m, call_run ∅ cs.*2 rs m /\ represents (srv w) m /\
        dp_buckets (lookup_unit (cl w)) = seeds (srv w)
    | Err e => e = ProcessExit
    end.
Proof.
  intros Hq Hj Hd Hn Hown Hbuf Hcs.
  destruct (start_in_sync d j n junk rjunk buf) as (core & w0 & Ec & Ew & Hsync & HR); [done..|].
  exists core, w0. split; [done|]. split; [done|].
  pose proof (run_calls_run sid own g after Henv cs w0 j ∅ Hsync HR (map_Forall_empty _) Hcs) as H.
  destruct (run_calls sid own g after w0 cs) as [[w rs]|e]; [|done].
  destruct H as (m & Hrun & Hw & HRw). exists m. split; [done|]. split; [done|apply Hw].
Qed.

(** C8: A remote PUT of an in-sync client, and the search that follows.  The
    only failure is the end of the server's process, for a full entry array or
    an inseparable row; otherwise the client is in sync again, also when the row
    was reseeded, and unless the key was turned away a search by any coroutine
    returns the value. *)
Theorem remote_put_then_search w j cor cor' k v : in_sync sid own g w j ->
  0 <= cor < 12 -> 0 <= cor' < 12 -> is_word 64 k -> is_word 64 v ->
  match remote_put sid own g after w cor k v with
  | Ok w' => in_sync sid own g w' j /\
      (overflowed (srv w) (srv w') k v \/
       exists w'', remote_search sid own g after w' cor' k = Ok (w'', Some v) /\ srv w'' = srv w')
  | Err e => e = ProcessExit /\
      (num (pd (srv w)) = numElements (pd (srv w)) \/
       exists keys, row_key_list (srv w) (home_of w k) = Ok keys /\
         forall sd, 0 <= sd < 255 -> ~ separates sd (keys ++ [k]))
  end.
Proof.
  intros Hw Hc Hc' Hk Hv.
  pose proof (remote_put_spec sid own g after Henv w j cor k v Hw Hc Hk Hv) as H.
  destruct (remote_put sid own g after w cor k v) as [w'|e]; [|done].
  destruct H as (Hw' & _ & [Hu|Ho]); [|by split; [|left]]. split; [done|]. right.
  destruct (remote_search_total sid own g after Henv w' j cor' k Hw' Hc' Hk)
    as (x & w'' & Hserve & Hs & _ & Es & _).
  exists w''. split; [|done]. rewrite Hs. do 3 f_equal.
  assert (Hst : stored (srv w') k v) by (apply Hu; by left).
  destruct (in_sync_locate sid own g w' j k Hw') as (seed & Hsd & _ & _ & Hl & Hdiv & Hmod & _).
  destruct (is_ok _ _ _ w' j Hw') as [Hwf _]. cbn in Hserve. rewrite Hl, bind_Ok_l in Hserve.
  rewrite (get_stored (home_of w') (srv w') _ k v Hwf Hst Hdiv) in Hserve
    by (by rewrite Hsd, bind_Ok_l, Hmod).
  rewrite bind_Ok_l in Hserve. apply Ok_inj in Hserve. injection Hserve as <-. by apply wrap_id.
Qed.

(** C34: A remote remove never works: the request holds the key only, the
    callback asserts the size of a key and a location, and the assertion ends
    the server. *)
Theorem remote_remove_fails w j cor k : in_sync sid own g w j -> 0 <= cor < 12 -> is_word 64 k ->
  remote_remove sid own g after w cor k = Err AssertFailed.
Proof. apply remote_remove_spec. exact Henv. Qed.

(** The server's loop on a request without a session. *)
Lemma serve_unconnected c s m h args cb s' r : incoming_sessions c !! sid = None -> sz m <= 4000 ->
  (forall rest, parse_msg (m ++ rest) = Ok (h, args)) -> type h = MsgType_code Req ->
  is_word 7 (cor_id h) -> callbacks c !! Z.to_nat (rpc_id h) = Some (rpc_callback g cb) ->
  (ws ← decode_args args; cb s ws) = Ok (s', r) ->
  recv_event_loop c s [(sid, cur_msg_impl m after)] = Err NullDeref.
Proof.
  intros Hses Hm Hp Ht Hc Hcb Hrun. destruct (cur_msg_split m after Hm) as (rest & ->).
  cbn [recv_event_loop]. unfold recv_msg. rewrite Hp, bind_Ok_l, Ht, Z.eqb_refl.
  unfold do_request. rewrite Hses. cbv zeta.
  lazymatch goal with |- context [callbacks c !! ?i] =>
    replace (callbacks c !! i) with (Some (rpc_callback g cb)) end.
  unfold rpc_callback. destruct (decode_args args) as [ws|]; [|done].
  rewrite bind_Ok_l in Hrun. rewrite bind_Ok_l.
  rewrite Hrun, bind_Ok_l. destruct (send_reply_ok g after Henv h r Hc) as (rm & rid & -> & _). done.
Qed.

(** C35: A request that arrives before the client's Connect message makes the
    server answer through the null session that it has just added for it: the
    transport of Connect is not reliable, and the client does not wait for it. *)
Theorem request_before_connect w j cor k : in_sync sid own g w j -> 0 <= cor < 12 -> is_word 64 k ->
  remote_search sid own g after (disconnected w) cor k = Err NullDeref.
Proof.
  intros Hw Hcor Hk.
  destruct (in_sync_locate sid own g w j k Hw) as (seed & Hs & Hrow & Hloc & _ & Hdiv & _ & Hword).
  set (loc := num_of _) in *. destruct (callback_at sid own g w j GET Hw) as [junk Hcb].
  destruct (is_ok _ _ _ w j Hw) as [Hwf _].
  destruct (get_total (home_of w) (srv w) loc k Hwf (is_bounded _ _ _ w j Hw)) as [v Hv];
    [by rewrite Hdiv|].
  pose proof (words2 _ _ Hword Hk) as Hws.
  destruct (request_ok g after Henv GET cor (concat (le_bytes 8 <$> [loc; k])) (cl w))
    as (st & o & m & Hb & Hst & Hx & Hm & Hp);
    [by apply (is_idle _ _ _ w j Hw)|by rewrite sz_words|].
  unfold remote_search, search_send. cbn [cl disconnected]. rewrite Hloc, bind_Ok_l. fold loc.
  rewrite marshal_eq, bind_Ok_l, Hb, bind_Ok_l. unfold cor_ready. cbn [rpc with_rpc with_station reply_station].
  rewrite (rd_wr_eq _ _ _ _ Hst), !bind_Ok_l. cbn [guard_ok negb reply_entry pending_replies Z.eqb].
  rewrite bind_Ok_l, Hx, !bind_Ok_l. unfold exchange. cbn [srv_rpc srv disconnected with_cl].
  assert (Hw7 : is_word 7 cor) by (unfold is_word; lia).
  assert (Hnone : incoming_sessions
    (with_sessions (delete sid (incoming_sessions (srv_rpc w))) (srv_rpc w)) !! sid = None)
    by (cbn; apply lookup_delete_eq).
  assert (Hcall : (ws ← decode_args (concat (le_bytes 8 <$> [loc; k]));
    r ← get_callback (srv w) ws; Ok (srv w, r)) = Ok (srv w, MkReply true v)).
  { rewrite (decode_marshal _ Hws), bind_Ok_l, Hv. done. }
  by rewrite (serve_unconnected _ (srv w) m _ _ _ _ _ Hnone Hm Hp eq_refl Hw7 Hcb Hcall).
Qed.
End start.

(** ** One row, one client *)

Definition demo_g : garbage :=
  MkGarbage (MkHeader 0 0 0 0) [0; 0; 0; 0] (replicate 64 0) (replicate 9 0).
Definition demo_after : list Z := replicate (Z.to_nat 4000) 0.
Definition demo_own : list Z := replicate 60 7.
Definition demo_buf : list Z := replicate 100 0.
Definition one_row_dp : DataPlaneLudo :=
  MkDPL 1 7 7 [0] zero_othello (replicate (Z.to_nat 8192) 0).

Lemma demo_env : env_ok demo_g demo_after.
Proof. by split. Qed.

Lemma demo_quiet : quiet one_row_dp 0.
Proof.
  assert (He : Forall even (replicate (Z.to_nat 8192) 0)) by (by apply Forall_replicate).
  split; [|split; exact He].
  split; [lia|]. split; [done|]. split; [done|]. split; [|apply length_replicate].
  split; [|split; [apply length_replicate|]].
  - apply Forall_cons. split; [|constructor]. unfold is_word. cbn. lia.
  - cbn. lia.
Qed.

Definition demo_core : RPCCore server :=
  match server_rpc demo_g (MkReply false 0) with Ok c => c | Err _ => new_core 12 end.

Definition demo_world : world :=
  match connect 1 demo_own demo_g demo_after demo_buf
          (start_world one_row_dp demo_core 1 8 (PackedStruct 0 0 0)) with
  | Ok w => w | Err _ => start_world one_row_dp demo_core 1 8 (PackedStruct 0 0 0) end.

Lemma demo_in_sync : in_sync 1 demo_own demo_g demo_world 0.
Proof.
  destruct (start_in_sync 1 demo_own demo_g demo_after demo_env one_row_dp 0 8 (PackedStruct 0 0 0)
    (MkReply false 0) demo_buf demo_quiet) as (core & w & Ec & Ew & Hw & _); [done..|].
  unfold demo_world, demo_core. rewrite Ec. change (Z.to_nat (2 ^ 0)) with 1%nat in Ew. by rewrite Ew.
Qed.

Definition demo_calls : list (Z * call) :=
  [(1, PutCall 6 66); (2, PutCall 1 11); (1, Search 6); (3, Update 6 67); (2, Search 6); (1, Scan 0 9)].

Lemma demo_calls_ok : Forall (fun c : Z * call => 0 <= c.1 < 12 /\ call_ok c.2) demo_calls.
Proof. repeat (apply Forall_cons; split; [cbn; unfold is_word; lia|]). constructor. Qed.

Lemma remote_calls_refine_map_witness :
  exists core w0, server_rpc demo_g (MkReply false 0) = Ok core /\
    connect 1 demo_own demo_g demo_after demo_buf
      (start_world one_row_dp core (Z.to_nat (2 ^ 0)) 8 (PackedStruct 0 0 0)) = Ok w0 /\
    match run_calls 1 demo_own demo_g demo_after w0 demo_calls with
    | Ok (w, rs) => exists m, call_run ∅ demo_calls.*2 rs m /\ represents (srv w) m /\
        dp_buckets (lookup_unit (cl w)) = seeds (srv w)
    | Err e => e = ProcessExit
    end.
Proof.
  apply (remote_calls_refine_map 1 demo_own demo_g demo_after demo_env one_row_dp 0 8
    (PackedStruct 0 0 0) (MkReply false 0) demo_buf demo_calls demo_quiet);
    [lia|reflexivity|lia|reflexivity|unfold demo_buf, sz; rewrite length_replicate; lia|exact demo_calls_ok].
Defined.

Lemma remote_put_then_search_witness :
  match remote_put 1 demo_own demo_g demo_after demo_world 1 6 66 with
  | Ok w' => in_sync 1 demo_own demo_g w' 0 /\
      (overflowed (srv demo_world) (srv w') 6 66 \/
       exists w'', remote_search 1 demo_own demo_g demo_after w' 2 6 = Ok (w'', Some 66) /\ srv w'' = srv w')
  | Err e => e = ProcessExit /\
      (num (pd (srv demo_world)) = numElements (pd (srv demo_world)) \/
       exists keys, row_key_list (srv demo_world) (home_of demo_world 6) = Ok keys /\
         forall sd, 0 <= sd < 255 -> ~ separates sd (keys ++ [6]))
  end.
Proof.
  apply (remote_put_then_search 1 demo_own demo_g demo_after demo_env demo_world 0 1 2 6 66 demo_in_sync);
    unfold is_word; lia.
Defined.

Lemma remote_remove_fails_witness :
  remote_remove 1 demo_own demo_g demo_after demo_world 1 6 = Err AssertFailed.
Proof.
  apply (remote_remove_fails 1 demo_own demo_g demo_after demo_env demo_world 0 1 6 demo_in_sync);
    unfold is_word; lia.
Defined.

Lemma request_before_connect_witness :
  remote_search 1 demo_own demo_g demo_after (disconnected 1 demo_world) 1 6 = Err NullDeref.
Proof.
  apply (request_before_connect 1 demo_own demo_g demo_after demo_env demo_world 0 1 6 demo_in_sync);
    unfold is_word; lia.
Defined.
