(* ===== verification/RdmaSystem.v ===== *)
(** * Coroutines over one connection

    The calls of ClientRdma.v by several coroutines of a client thread, with
    everything between the sending of a request and the resumption of its
    coroutine interleaved: the requests on their way, the server, the replies on
    their way, and the coroutines that the polling future has added back.  Both
    directions and the scheduler's chain (deps/r2/src/linked_list.hh) keep the
    order; a network that does not would only allow more. *)

From Stdlib Require Import ZArith Lia.
From stdpp Require Import base numbers gmap list relations.
From S2P Require Import Prelude Words Hash PackedData LudoSlot LruCache ServerRdma ServerInv ServerProps.
From S2P Require Import OthelloMem LudoTable LudoInv LudoDP Rpc ClientRdma RdmaCall RdmaProps.

#[local] Open Scope Z_scope.
#[local] Opaque Hash64WithSeed multiply_high_u32 FastHasher64.

Record system := MkSystem {
  sy_cl : client;
  waiting : gmap Z (call * Z);     (* a paused coroutine's call and, of a PUT, [loc.first] *)
  to_server : list (list Z);
  sy_core : RPCCore server;
  sy_srv : server;
  to_client : list (list Z);
  run_queue : list Z;              (* the coroutines added back *)
}.

Inductive event :=
  | Issue (cor : Z) (c : call)     (* a coroutine runs up to its pause *)
  | Serve                          (* the server takes the next request *)
  | Poll                           (* the client's future takes the next reply *)
  | Resume.                        (* the next coroutine runs to the end of its call *)

Definition enabled (e : event) (s : system) : bool :=
  match e with
  | Issue cor _ => match waiting s !! cor with None => true | Some _ => false end
  | Serve => match to_server s with [] => false | _ => true end
  | Poll => match to_client s with [] => false | _ => true end
  | Resume => match run_queue s with [] => false | _ => true end
  end.

Section system.
Context (sid : Z) (own : list Z) (g : garbage) (after : list Z).

(** The part of a call before its pause. *)
Definition send_call (cl : client) (cor : Z) (c : call) : res (client * list Z * Z) :=
  match c with
  | Search k => '(cl', m) ← search_send g cl cor k; Ok (cl', m, 0)
  | PutCall k v => put_send g cl cor k v
  | Update k v => '(cl', m) ← update_send g cl cor k v; Ok (cl', m, 0)
  | Scan k n => '(cl', m) ← scan_send g cl cor k n; Ok (cl', m, 0)
  end.

(** The part after it, and a search's result. *)
Definition recv_call (cl : client) (cor : Z) (c : call) (row : Z) : res (client * option Z) :=
  match c with
  | Search k => r ← search_recv cl cor; Ok (cl, r)
  | PutCall k v => cl' ← put_recv cl cor row; Ok (cl', None)
  | Update _ _ | Scan _ _ => Ok (cl, None)
  end.

Definition issue (cor : Z) (c : call) (s : system) : res system :=
  '(cl', m, row) ← send_call (sy_cl s) cor c;
  Ok (MkSystem cl' (<[cor := (c, row)]> (waiting s)) (to_server s ++ [m]) (sy_core s) (sy_srv s)
        (to_client s) (run_queue s)).

Definition serve_next (s : system) : res system :=
  match to_server s with
  | [] => Ok s
  | m :: q =>
      '(core, srv, out, _) ← recv_event_loop (sy_core s) (sy_srv s) [(sid, cur_msg_impl m after)];
      Ok (MkSystem (sy_cl s) (waiting s) q core srv
            (to_client s ++ (snd <$> filter (fun p : list Z * list Z => p.1 = own) out)) (run_queue s))
  end.

Definition poll_next (s : system) : res system :=
  match to_client s with
  | [] => Ok s
  | m :: q =>
      '(cc, _, _, woken) ← poll_future (rpc (sy_cl s)) tt [(sid, cur_msg_impl m after)];
      Ok (MkSystem (with_rpc cc (sy_cl s)) (waiting s) (to_server s) (sy_core s) (sy_srv s) q
            (run_queue s ++ woken))
  end.

Definition resume_next (s : system) : res (system * option (Z * option Z)) :=
  match run_queue s with
  | [] => Ok (s, None)
  | cor :: q =>
      match waiting s !! cor with
      | None => Err OutOfBounds    (* no such coroutine is paused *)
      | Some (c, row) =>
          '(cl', r) ← recv_call (sy_cl s) cor c row;
          Ok (MkSystem cl' (delete cor (waiting s)) (to_server s) (sy_core s) (sy_srv s)
                (to_client s) q, Some (cor, r))
      end
  end.

(** A step, and what a call that ends in it returns. *)
Definition sys_step (e : event) (s : system) : res (system * option (Z * option Z)) :=
  match e with
  | Issue cor c => s' ← issue cor c s; Ok (s', None)
  | Serve => s' ← serve_next s; Ok (s', None)
  | Poll => s' ← poll_next s; Ok (s', None)
  | Resume => resume_next s
  end.

(** The events of a run are enabled and of the client's coroutines. *)
Definition event_ok (e : event) : Prop :=
  match e with Issue cor c => 0 <= cor < 12 /\ call_ok c | _ => True end.

Inductive sys_run : system -> list event -> list (option (Z * option Z)) -> system -> Prop :=
  | SysNil s : sys_run s [] [] s
  | SysCons s e s1 r es rs s2 : enabled e s = true -> event_ok e -> sys_step e s = Ok (s1, r) ->
      sys_run s1 es rs s2 -> sys_run s (e :: es) (r :: rs) s2.
End system.

(** ** UPDATE at any location

    A request that overlaps a reseeding has a location of the old seed. *)

Section stale.
Context (home : Z -> Z).
Implicit Types (s : server).

Lemma update_anywhere s loc k v s' rep : ok_state home s -> bounded s ->
  update_callback s [loc; k; v] = Ok (s', rep) ->
  ok_state home s' /\ bounded s' /\ seeds s' = seeds s /\
  ((updated s s' k v /\ exists v0, stored s k v0) \/ unchanged s s').
Proof.
  intros [Hwf Hf] Hb H. pose proof (update_bounded home s loc k v s' rep Hwf H Hb) as Hb'.
  rewrite update_callback_eq in H. apply bind_Ok in H as (a & Ha & H).
  apply bind_Ok in H as (k' & Hk' & H). destruct (Z.eqb_spec k' k) as [->|Hkk].
  2: { apply bind_Ok in H as (s1 & H1 & H). apply bind_Ok in H as ([s2 a2] & H2 & H).
       apply Ok_inj, pair_equal_spec in H as [<- _].
       assert (HO : (s1 ← lru_insert s k v; load_entry s1 k sizeof_ValType v) = Ok (s2, a2))
         by (by rewrite H1).
       destruct (overflow_spec home s s2 k v a2 Hwf HO) as (Hw & Hun & _ & Es & _).
       split; [split; [done|exact (overflow_fingers home s s2 k v a2 Hwf Hf HO)]|].
       split; [done|]. split; [done|]. by right. }
  apply bind_Ok in H as ([m x] & Hu & H). apply Ok_inj, pair_equal_spec in H as [<- _].
  unfold update_data in Hu. apply bind_Ok in Hu as (m' & Hm & Hu).
  apply Ok_inj, pair_equal_spec in Hu as [-> _].
  unfold read_key in Hk'. apply bind_Ok in Hk' as (e & He & Hk'). apply Ok_inj in Hk'.
  assert (Hown : forall row slot c, rd2 (bks s) row slot = Ok c -> nonempty c -> toAddr c = a ->
    exists seed, rd (seeds s) (home k) = Ok seed /\ row = home k /\ slot = slot_of seed k).
  { intros row slot c Hc Hne E. pose proof Hc as (r & Hr & _)%rd2_rd.
    destruct (proj2 (seeds_bks home s row Hwf) (ex_intro _ r Hr)) as [sd Hsd].
    destruct (wf_cell _ s Hwf row sd slot c Hsd Hc Hne) as (_ & e' & He' & -> & Hrow).
    assert (e' = e) as -> by congruence. rewrite Hk' in *. subst row. eauto. }
  destruct (rd (seeds s) (home k)) as [seed|] eqn:Hs; cycle 1.
  { destruct (dead_entry_write home s a (PackedStruct k 64 v) m Hwf Hm) as (Hw & Hun & Hfw).
    - intros row slot c Hc Hne E. by destruct (Hown row slot c Hc Hne E) as (? & ? & _).
    - split; [split; auto|]. split; [done|]. split; [done|]. by right. }
  destruct (rd2 (bks s) (home k) (slot_of seed k)) as [c|] eqn:Hc; cycle 1.
  { destruct (dead_entry_write home s a (PackedStruct k 64 v) m Hwf Hm) as (Hw & Hun & Hfw).
    - intros row slot c Hc' Hne E. destruct (Hown row slot c Hc' Hne E) as (sd & Hsd & -> & ->).
      assert (sd = seed) as -> by congruence. congruence.
    - split; [split; auto|]. split; [done|]. split; [done|]. by right. }
  destruct (decide (nonempty c /\ toAddr c = a)) as [[Hne <-]|Hno].
  - destruct (overwrite_entry home s (home k) seed (slot_of seed k) c e k 64 v m)
      as [Hw Hup]; [done..|].
    split; [split; [done|subst k; by apply (overwrite_fingers s (toAddr c) e 64 v)]|].
    split; [done|]. split; [done|]. left. split; [done|]. exists (data e).
    apply (stored_at home s seed); [done..|]. by exists c, e.
  - destruct (dead_entry_write home s a (PackedStruct k 64 v) m Hwf Hm) as (Hw & Hun & Hfw).
    + intros row slot c' Hc' Hne E. destruct (Hown row slot c' Hc' Hne E) as (sd & Hsd & -> & ->).
      assert (sd = seed) as -> by congruence. assert (c' = c) as -> by congruence. by apply Hno.
    + split; [split; auto|]. split; [done|]. split; [done|]. by right.
Qed.
End stale.

(** ** Requests and replies under way *)

Definition call_id (c : call) : RPCId :=
  match c with Search _ => GET | PutCall _ _ => PUT | Update _ _ => UPDATE | Scan _ _ => SCAN end.

(** The words of a request that was sent with the slot [slot]. *)
Definition request_words (home : Z -> Z) (slot : Z) (c : call) : list Z :=
  match c with
  | Search k => [num_of (home k, slot); k]
  | PutCall k v | Update k v => [num_of (home k, slot); k; v]
  | Scan k n => [k; n]
  end.

(** What a reply will do to the client's seeds when its coroutine is resumed. *)
Definition seed_update (w : gmap Z (call * Z)) (l : list Z) (p : Z * ReplyValue) : list Z :=
  match w !! p.1 with
  | Some (PutCall _ _, row) =>
      if Z.land (u64 (val p.2)) (Z.shiftl 1 8) =? 0 then l
      else <[Z.to_nat row := Z.land (u64 (val p.2)) 0xFF]> l
  | _ => l
  end.

(** A reply to a PUT: true, and a new seed or a small code. *)
Definition reply_fine (w : gmap Z (call * Z)) (p : Z * ReplyValue) : Prop :=
  match w !! p.1 with
  | Some (PutCall k _, row) => status p.2 = true /\
      ((val p.2 = 0 \/ val p.2 = 1 \/ val p.2 = 3) \/ exists sd, val p.2 = 256 + sd /\ 0 <= sd < 255)
  | _ => True
  end.

Lemma seed_update_length w l p : length (seed_update w l p) = length l.
Proof.
  unfold seed_update. destruct (w !! p.1) as [[[] row]|]; try done.
  destruct (_ =? _); [done|apply length_insert].
Qed.

Lemma seed_updates_length w ps l : length (foldl (seed_update w) l ps) = length l.
Proof. revert l. induction ps as [|p ps IH]; intros l; cbn; [done|]. by rewrite IH, seed_update_length. Qed.

(** Only the entries of the coroutines concerned matter. *)
Lemma seed_updates_ext w w' ps l : (forall cor, cor ∈ ps.*1 -> w' !! cor = w !! cor) ->
  foldl (seed_update w') l ps = foldl (seed_update w) l ps.
Proof.
  revert l. induction ps as [|p ps IH]; intros l Hw; [done|]. cbn [foldl].
  assert (seed_update w' l p = seed_update w l p) as ->
    by (unfold seed_update; rewrite Hw; [done|cbn; set_solver]).
  apply IH. intros cor Hc. apply Hw. cbn. set_solver.
Qed.

Lemma reply_fine_ext w w' p : w' !! p.1 = w !! p.1 -> reply_fine w p -> reply_fine w' p.
Proof. unfold reply_fine. intros E H. destruct p as [cor r]. cbn [fst snd] in *. by rewrite E. Qed.

Section invariant.
Context (sid : Z) (own : list Z) (g : garbage) (after : list Z) (Henv : env_ok g after).

(** The callback of a call. *)
Definition serve_call (junk : ReplyValue) (c : call) (s : server) (ws : list Z)
    : res (server * ReplyValue) :=
  match c with
  | Search _ => r ← get_callback s ws; Ok (s, r)
  | PutCall _ _ => put_callback s ws
  | Update _ _ => update_callback s ws
  | Scan _ _ => r ← scan_callback s ws junk; Ok (s, r)
  end.

Lemma call_callback c junk :
  outback_callbacks g junk !! Z.to_nat (RPCId_code (call_id c)) =
    Some (rpc_callback g (serve_call junk c)).
Proof. by destruct c. Qed.

(** A request on its way to the server. *)
Definition is_request (home : Z -> Z) (w : gmap Z (call * Z)) (cor : Z) (m : list Z) : Prop :=
  exists c row slot, w !! cor = Some (c, row) /\ call_ok c /\ 0 <= slot < 4 /\
    (forall k v, c = PutCall k v -> row = home k) /\ sz m <= 4000 /\
    let data := concat (le_bytes 8 <$> request_words home slot c) in
    forall rest, parse_msg (m ++ rest) =
      Ok (MkHeader (MsgType_code Req) (RPCId_code (call_id c)) (sz data) cor, data).

(** A reply on its way to the client. *)
Definition is_reply (p : Z * ReplyValue) (m : list Z) : Prop :=
  exists h, send_reply g h p.2 = Ok m /\ cor_id h = p.1.

(** The invariant: [reqs] are the coroutines whose requests are on their way,
    [reps] the replies on their way and [done] those that have arrived. *)
Record sys_inv (j : Z) (home : Z -> Z) (s : system) (reqs : list Z)
    (reps done : list (Z * ReplyValue)) : Prop := {
  si_quiet : quiet (lookup_unit (sy_cl s)) j;
  si_size : j <= 30;
  si_home : forall k, row_of (lookup_unit (sy_cl s)) k = home k;
  si_ok : ok_state home (sy_srv s);
  si_bounded : bounded (sy_srv s);
  si_con : connected sid own g (sy_core s);
  si_seeds : foldl (seed_update (waiting s)) (dp_buckets (lookup_unit (sy_cl s))) (done ++ reps) =
    seeds (sy_srv s);
  si_fine : Forall (reply_fine (waiting s)) (done ++ reps);
  si_nodup : NoDup (reqs ++ reps.*1 ++ done.*1);
  si_where : forall cor, is_Some (waiting s !! cor) <-> cor ∈ reqs ++ reps.*1 ++ done.*1;
  si_range : forall cor, is_Some (waiting s !! cor) -> 0 <= cor < 12;
  si_rows : forall cor k v row, waiting s !! cor = Some (PutCall k v, row) -> row = home k;
  si_reqs : Forall2 (is_request home (waiting s)) reqs (to_server s);
  si_reps : Forall2 is_reply reps (to_client s);
  si_run : done.*1 = run_queue s;
  si_done : Forall (fun p : Z * ReplyValue => exists e, rd (reply_station (rpc (sy_cl s))) p.1 = Ok e /\
    pending_replies e = 0 /\ reply_of (reply_buf e) = Ok (wrap_reply p.2)) done;
  si_wait : forall cor, cor ∈ reqs ++ reps.*1 ->
    rd (reply_station (rpc (sy_cl s))) cor = Ok (reply_entry (g_reply g));
  si_idle : forall cor, 0 <= cor < 12 -> waiting s !! cor = None ->
    idle (reply_station (rpc (sy_cl s))) cor;
}.

(** *** The server's step *)

Lemma home_range j home s reqs reps done k : sys_inv j home s reqs reps done ->
  0 <= home k < Z.of_nat (length (bks (sy_srv s))) /\ home k < 2 ^ j.
Proof.
  intros Hs. destruct (si_ok _ _ _ _ _ _ Hs) as [Hwf _].
  destruct (row_of_spec _ j k (si_quiet _ _ _ _ _ _ Hs)) as [Hr _].
  rewrite (si_home _ _ _ _ _ _ Hs) in Hr.
  pose proof (si_quiet _ _ _ _ _ _ Hs) as ((_ & _ & Hb & _) & _).
  rewrite <-(wf_len _ _ Hwf), <-(si_seeds _ _ _ _ _ _ Hs), seed_updates_length, Hb. lia.
Qed.

(** One callback: the server stays well formed, its seeds change as the reply
    says; only a PUT or an UPDATE can fail, by ending the process. *)
Lemma serve_call_spec home w cor s c row slot j junk : ok_state home s -> bounded s -> j <= 30 ->
  (forall k, 0 <= home k < Z.of_nat (length (bks s)) /\ home k < 2 ^ j) -> 0 <= j ->
  w !! cor = Some (c, row) -> (forall k v, c = PutCall k v -> row = home k) -> 0 <= slot < 4 ->
  match serve_call junk c s (request_words home slot c) with
  | Ok (s', r) => ok_state home s' /\ bounded s' /\ length (bks s') = length (bks s) /\
      seeds s' = seed_update w (seeds s) (cor, r) /\ reply_fine w (cor, r)
  | Err e => e = ProcessExit
  end.
Proof.
  intros [Hwf Hf] Hb Hj Hhome Hj0 Hw Hrow Hslot.
  assert (Hnum : forall k, num_of (home k, slot) / SLOTS_NUM_BUCKET = home k).
  { intros k. destruct (Hhome k) as [? ?]. apply (num_of_spec j (home k) slot); lia. }
  unfold seed_update, reply_fine. cbn [fst snd]. rewrite Hw.
  destruct c as [k|k v|k v|k n]; cbn [serve_call request_words].
  - destruct (get_total home s (num_of (home k, slot)) k Hwf Hb) as [x ->];
      [by rewrite Hnum; apply Hhome|]. rewrite bind_Ok_l.
    split; [by split|]. split; [done|]. by split.
  - specialize (Hrow k v eq_refl). subst row.
    destruct (put_callback s [num_of (home k, slot); k; v]) as [[s' r]|e] eqn:E.
    2: { pose proof (put_faults home s _ k v Hwf (Hnum k) (proj1 (Hhome k))) as H. rewrite E in H. apply H. }
    destruct (put_main home s _ k v s' r Hwf (Hnum k) E) as [Hwf' Hbr]. destruct (Hbr Hf) as [Hf' _].
    pose proof (put_bounded home s _ k v s' r Hwf (Hnum k) E Hb) as Hb'.
    destruct (put_seeds home s _ k v s' r Hwf (Hnum k) E) as [Hst Hcase].
    assert (Hlen : length (bks s') = length (bks s)).
    { rewrite <-(wf_len _ _ Hwf), <-(wf_len _ _ Hwf').
      destruct Hcase as [[-> _]|(sd & _ & _ & Hwr)]; [done|by rewrite (wr_length _ _ _ _ Hwr)]. }
    split; [by split|]. split; [done|]. split; [done|].
    destruct Hcase as [[-> Hval]|(sd & Hval & Hsd & Hwr)].
    + rewrite (land_small _ Hval). split; [done|]. split; [done|by left].
    + rewrite Hval. destruct (land_255 sd Hsd) as (-> & -> & -> & _).
      apply wr_Ok in Hwr as [_ ->]. split; [done|]. split; [done|]. right. eauto.
  - destruct (update_callback s [num_of (home k, slot); k; v]) as [[s' r]|e] eqn:E.
    2: { by destruct (update_faults home s (num_of (home k, slot)) k v e Hwf Hb
           ltac:(rewrite Hnum; apply Hhome) E) as [-> _]. }
    destruct (update_anywhere home s _ k v s' r (conj Hwf Hf) Hb E) as ([Hwf' Hf'] & Hb' & Es & _).
    split; [by split|]. split; [done|]. split; [|by split].
    by rewrite <-(wf_len _ _ Hwf), <-(wf_len _ _ Hwf'), Es.
  - assert (scan_callback s [k; n] junk = Ok junk) as -> by done. rewrite bind_Ok_l.
    split; [by split|]. split; [done|]. by split.
Qed.

Lemma request_words_ok home j slot c : 0 <= j <= 30 -> (forall k, 0 <= home k < 2 ^ j) ->
  0 <= slot < 4 -> call_ok c -> Forall (is_word 64) (request_words home slot c).
Proof.
  intros Hj Hh Hs Hc.
  assert (Hn : forall k, is_word 64 (num_of (home k, slot)))
    by (intros k; by apply (num_of_spec j (home k) slot)).
  destruct c as [k|k v|k v|k n]; cbn [call_ok request_words] in *.
  - by apply words2.
  - destruct Hc. by apply words3.
  - destruct Hc. by apply words3.
  - destruct Hc. by apply words2.
Qed.

(** *** The client's steps *)

Lemma send_call_ok j cl cor c : quiet (lookup_unit cl) j -> j <= 30 ->
  idle (reply_station (rpc cl)) cor -> call_ok c ->
  exists st m row slot, send_call g cl cor c = Ok (with_rpc (with_station st (rpc cl)) cl, m, row) /\
    wr (reply_station (rpc cl)) cor (reply_entry (g_reply g)) = Ok st /\ 0 <= slot < 4 /\
    (forall k v, c = PutCall k v -> row = row_of (lookup_unit cl) k) /\ sz m <= 4000 /\
    let data := concat (le_bytes 8 <$> request_words (row_of (lookup_unit cl)) slot c) in
    forall rest, parse_msg (m ++ rest) =
      Ok (MkHeader (MsgType_code Req) (RPCId_code (call_id c)) (sz data) cor, data).
Proof.
  intros Hq Hj Hidle Hc. set (home := row_of (lookup_unit cl)).
  pose proof Hq as ((Hj0 & _ & Hb & _) & _).
  assert (Hloc : forall k, exists slot, locate cl k = Ok (home k, slot) /\ 0 <= slot < 4).
  { intros k. destruct (row_of_spec _ j k Hq) as [Hr _].
    destruct (rd_in_range (dp_buckets (lookup_unit cl)) (home k)) as [seed Hs];
      [rewrite Hb; unfold home; lia|].
    exists (slot_of seed k). split; [by eapply locate_quiet|apply slot_of_range]. }
  assert (Hreq : forall ws, (length ws <= 7)%nat -> exists st o m,
    build_request g (call_id c) cor (concat (le_bytes 8 <$> ws)) cl
      = Ok (with_rpc (with_station st (rpc cl)) cl, o) /\
    wr (reply_station (rpc cl)) cor (reply_entry (g_reply g)) = Ok st /\ execute o = Ok m /\
    sz m <= 4000 /\ forall rest, parse_msg (m ++ rest) =
      Ok (MkHeader (MsgType_code Req) (RPCId_code (call_id c)) (sz (concat (le_bytes 8 <$> ws))) cor,
          concat (le_bytes 8 <$> ws))).
  { intros ws Hl. apply (request_ok g after Henv); [done|]. rewrite sz_words. unfold sz. lia. }
  destruct c as [k|k v|k v|k n]; cbn [send_call call_id request_words] in *.
  - destruct (Hloc k) as (slot & Hl & Hsl).
    destruct (Hreq [num_of (home k, slot); k]) as (st & o & m & Hbr & Hst & Hx & Hm & Hp); [cbn; lia|].
    exists st, m, 0, slot. split; [|split; [done|split; [done|split; [done|by split]]]].
    unfold search_send. rewrite Hl, bind_Ok_l, marshal_eq, bind_Ok_l, Hbr, bind_Ok_l.
    unfold cor_ready. cbn [rpc with_rpc with_station reply_station].
    rewrite (rd_wr_eq _ _ _ _ Hst), !bind_Ok_l. cbn [guard_ok negb reply_entry pending_replies Z.eqb].
    by rewrite bind_Ok_l, Hx, !bind_Ok_l.
  - destruct (Hloc k) as (slot & Hl & Hsl).
    destruct (Hreq [num_of (home k, slot); k; v]) as (st & o & m & Hbr & Hst & Hx & Hm & Hp); [cbn; lia|].
    exists st, m, (home k), slot. split; [|split; [done|split; [done|split; [|done]]]].
    + unfold put_send. by rewrite Hl, bind_Ok_l, marshal_eq, bind_Ok_l, Hbr, bind_Ok_l, Hx, bind_Ok_l.
    + by intros k0 v0 [= <- _].
  - destruct (Hloc k) as (slot & Hl & Hsl).
    destruct (Hreq [num_of (home k, slot); k; v]) as (st & o & m & Hbr & Hst & Hx & Hm & Hp); [cbn; lia|].
    exists st, m, 0, slot. split; [|split; [done|split; [done|split; [done|by split]]]].
    unfold update_send. by rewrite Hl, bind_Ok_l, marshal_eq, bind_Ok_l, Hbr, bind_Ok_l, Hx, !bind_Ok_l.
  - destruct (Hreq [k; n]) as (st & o & m & Hbr & Hst & Hx & Hm & Hp); [cbn; lia|].
    exists st, m, 0, 0. split; [|split; [done|split; [done|split; [done|by split]]]].
    unfold scan_send. by rewrite marshal_eq, bind_Ok_l, Hbr, bind_Ok_l, Hx, !bind_Ok_l.
Qed.

Lemma is_request_ext home home' w w' cor m : (forall k, home k = home' k) -> w' !! cor = w !! cor ->
  is_request home w cor m -> is_request home' w' cor m.
Proof.
  intros Hh E (c & row & slot & Hw & Hc & Hs & Hp & Hm & Hparse).
  exists c, row, slot. rewrite E. split; [done|]. split; [done|]. split; [done|].
  split; [by intros k v Hk; rewrite <-Hh; eapply Hp|]. split; [done|].
  assert (request_words home' slot c = request_words home slot c) as -> by (by destruct c; cbn; rewrite ?Hh).
  exact Hparse.
Qed.

Lemma requests_ext home home' w w' reqs ms : (forall k, home k = home' k) ->
  (forall cor, cor ∈ reqs -> w' !! cor = w !! cor) ->
  Forall2 (is_request home w) reqs ms -> Forall2 (is_request home' w') reqs ms.
Proof.
  intros Hh Hw H. induction H as [|cor m reqs ms Hr _ IH]; [constructor|].
  constructor; [eapply is_request_ext; [done| |done]; apply Hw; set_solver|].
  apply IH. intros c Hc. apply Hw. set_solver.
Qed.

Lemma Forall_fine_ext w w' ps : (forall cor, cor ∈ ps.*1 -> w' !! cor = w !! cor) ->
  Forall (reply_fine w) ps -> Forall (reply_fine w') ps.
Proof.
  intros Hw H. apply Forall_forall. intros p Hp.
  apply (reply_fine_ext w); [|by apply (proj1 (Forall_forall _ _) H)].
  apply Hw, list_elem_of_fmap. eauto.
Qed.

(** *** Every step keeps the invariant *)

Lemma issue_inv j home s reqs reps done cor c : sys_inv j home s reqs reps done ->
  waiting s !! cor = None -> 0 <= cor < 12 -> call_ok c ->
  exists s', issue g cor c s = Ok s' /\ sys_inv j home s' (reqs ++ [cor]) reps done.
Proof.
  intros [Hq Hj Hh Hok Hb Hcon Hse Hfi Hnd Hwh Hra Hro Hrq Hrp Hrun Hdo Hwt Hid] Hnone Hcor Hc.
  destruct (send_call_ok j (sy_cl s) cor c Hq Hj (Hid cor Hcor Hnone) Hc)
    as (st & m & row & slot & Hsend & Hst & Hslot & Hput & Hm & Hp).
  unfold issue. rewrite Hsend, bind_Ok_l. eexists. split; [reflexivity|].
  assert (Hnin : cor ∉ reqs ++ reps.*1 ++ done.*1).
  { rewrite <-Hwh, Hnone. by intros [? ?]. }
  assert (Hext : forall c', c' ∈ reqs ++ reps.*1 ++ done.*1 ->
    <[cor := (c, row)]> (waiting s) !! c' = waiting s !! c').
  { intros c' Hc'. apply lookup_insert_ne. intros ->. done. }
  assert (Hst' : forall c', c' <> cor -> rd st c' = rd (reply_station (rpc (sy_cl s))) c').
  { intros c' Hne. by apply (rd_wr_ne _ _ _ _ _ Hst). }
  assert (Hperm : (reqs ++ [cor]) ++ reps.*1 ++ done.*1 ≡ₚ cor :: (reqs ++ reps.*1 ++ done.*1)).
  { rewrite <-(assoc_L (++)). cbn [app]. symmetry. apply Permutation_middle. }
  split; cbn [sy_cl waiting to_server sy_core sy_srv to_client run_queue with_rpc with_station
    lookup_unit rpc reply_station]; try done.
  - rewrite (seed_updates_ext (waiting s)); [done|]. intros c' Hc'. apply Hext.
    rewrite fmap_app in Hc'. set_solver.
  - eapply Forall_fine_ext; [|exact Hfi]. intros c' Hc'. apply Hext.
    rewrite fmap_app in Hc'. set_solver.
  - rewrite Hperm. by constructor.
  - intros c'. rewrite Hperm, elem_of_cons, <-Hwh, lookup_insert_is_Some. naive_solver.
  - intros c'. rewrite lookup_insert_is_Some. intros [<-|[_ ?]]; auto.
  - intros c' k v r. rewrite lookup_insert_Some. intros [(<- & E)|(_ & ?)]; [|eauto].
    injection E as -> ->. rewrite <-Hh. by eapply Hput.
  - apply Forall2_snoc.
    + eapply (requests_ext home home); [done| |exact Hrq]. intros c' Hc'. apply Hext. set_solver.
    + exists c, row, slot. rewrite lookup_insert_eq. split; [done|]. split; [done|]. split; [done|].
      split; [intros k v Hk; rewrite <-Hh; by eapply Hput|]. split; [done|].
      assert (request_words home slot c = request_words (row_of (lookup_unit (sy_cl s))) slot c) as ->
        by (destruct c; cbn; rewrite ?Hh; done). exact Hp.
  - apply Forall_forall. intros p Hpin.
    destruct (proj1 (Forall_forall _ _) Hdo p Hpin) as (e & He & Hrest). exists e. split; [|done]. rewrite Hst'; [done|].
    intros E. apply Hnin. rewrite !elem_of_app. right; right. apply list_elem_of_fmap. eauto.
  - intros c' Hc'. destruct (decide (c' = cor)) as [->|Hne]; [by apply (rd_wr_eq _ _ _ _ Hst)|].
    rewrite Hst' by done. apply Hwt. set_solver.
  - intros c' Hr. rewrite lookup_insert_None. intros [Hn Hne].
    destruct (Hid c' Hr Hn) as (Hr' & e & He & Hpe). split; [done|]. exists e. by rewrite Hst'.
Qed.

Lemma serve_inv j home s reqs reps done : sys_inv j home s reqs reps done ->
  to_server s <> [] ->
  match serve_next sid own after s with
  | Ok s' => exists cor reqs' r, reqs = cor :: reqs' /\
      sys_inv j home s' reqs' (reps ++ [(cor, r)]) done
  | Err e => e = ProcessExit
  end.
Proof.
  intros Hinv Hne. pose proof Hinv as
    [Hq Hj Hh Hok Hb Hcon Hse Hfi Hnd Hwh Hra Hro Hrq Hrp Hrun Hdo Hwt Hid].
  destruct s as [cl w q0 core sv tc rq]. cbn [sy_cl waiting to_server sy_core sy_srv to_client run_queue] in *.
  destruct Hrq as [|cor m reqs' q Hreq Hrq]; [done|].
  destruct Hreq as (c & row & slot & Hw & Hc & Hslot & Hput & Hm & Hp). cbv zeta in Hp.
  assert (Hcor : is_word 7 cor).
  { pose proof (Hra cor (ex_intro _ _ Hw)). unfold is_word. lia. }
  pose proof Hcon as [_ [junk Hcb]].
  pose proof Hq as ((Hj0 & _) & _).
  pose proof (fun k => home_range j home _ _ _ _ k Hinv) as Hhome. cbn [sy_srv] in Hhome.
  pose proof (serve_one sid own g after Henv core sv m _ _ (serve_call junk c) Hcon Hm Hp eq_refl Hcor) as Hs.
  cbn [rpc_id cor_id] in Hs. rewrite Hcb in Hs. specialize (Hs (call_callback c junk)).
  rewrite decode_marshal, bind_Ok_l in Hs; cycle 1.
  { apply (request_words_ok home j); [lia| |done..]. intros k. specialize (Hhome k). lia. }
  pose proof (serve_call_spec home w cor sv c row slot j junk Hok Hb Hj Hhome (proj1 Hj0) Hw Hput Hslot) as Hcall.
  unfold serve_next. cbn [to_server sy_core sy_srv].
  destruct (serve_call junk c sv (request_words home slot c)) as [[s' r]|e].
  2: { subst e. by rewrite Hs. }
  destruct Hs as (rm & Hrm & ->). rewrite bind_Ok_l. cbv beta iota.
  rewrite filter_cons_True, filter_nil by done. cbn [fmap list_fmap snd waiting to_client sy_cl run_queue].
  destruct Hcall as (Hok' & Hb' & Hlen & Hseeds & Hfine).
  exists cor, reqs', r. split; [done|].
  assert (Hperm : reqs' ++ (reps ++ [(cor, r)]).*1 ++ done.*1 ≡ₚ cor :: reqs' ++ reps.*1 ++ done.*1).
  { rewrite fmap_app, <-(assoc_L (++)). cbn [fmap list_fmap app fst].
    rewrite (assoc_L (++) reqs'), (assoc_L (++) reqs'). symmetry. apply Permutation_middle. }
  split; cbn [sy_cl waiting to_server sy_core sy_srv to_client run_queue]; try done.
  - rewrite (assoc_L (++)), foldl_app. cbn [foldl]. by rewrite Hse, Hseeds.
  - rewrite (assoc_L (++)). apply Forall_app. split; [done|]. by constructor.
  - by rewrite Hperm.
  - intros c'. rewrite Hperm. apply Hwh.
  - apply Forall2_snoc; [done|]. eexists. split; [exact Hrm|]. done.
  - intros c' Hc'. apply Hwt. cbn. rewrite fmap_app, !elem_of_app in Hc'. set_solver.
Qed.

Lemma poll_inv j home s reqs reps done : sys_inv j home s reqs reps done -> to_client s <> [] ->
  exists s' p reps', poll_next sid after s = Ok s' /\ reps = p :: reps' /\
    sys_inv j home s' reqs reps' (done ++ [p]).
Proof.
  intros Hinv Hne. pose proof Hinv as
    [Hq Hj Hh Hok Hb Hcon Hse Hfi Hnd Hwh Hra Hro Hrq Hrp Hrun Hdo Hwt Hid].
  destruct s as [cl w q0 core sv tc rq]. cbn [sy_cl waiting to_server sy_core sy_srv to_client run_queue] in *.
  destruct Hrp as [|[cor r] m reps' q (h & Hrm & Hh') Hrp]; [done|]. cbn [fst snd] in Hrm, Hh'.
  assert (Hwait : is_Some (w !! cor)) by (apply Hwh; cbn; set_solver).
  assert (Hcor : is_word 7 cor) by (pose proof (Hra cor Hwait); unfold is_word; lia).
  assert (He : rd (reply_station (rpc cl)) cor = Ok (reply_entry (g_reply g)))
    by (apply Hwt; cbn; set_solver).
  destruct (reply_one sid g after Henv (rpc cl) cor h r m He Hh' Hcor Hrm) as (st & Hst & Hpoll).
  unfold poll_next. cbn [to_client sy_cl]. rewrite Hpoll, bind_Ok_l. cbv beta iota.
  eexists _, (cor, r), reps'. split; [reflexivity|]. split; [done|].
  assert (Hnotin : cor ∉ reqs ++ reps'.*1 ++ done.*1).
  { assert (Hperm : reqs ++ ((cor, r) :: reps').*1 ++ done.*1 ≡ₚ cor :: reqs ++ reps'.*1 ++ done.*1)
      by (cbn; symmetry; apply Permutation_middle).
    rewrite Hperm in Hnd. by apply NoDup_cons in Hnd as [? _]. }
  assert (Hst' : forall c', c' <> cor -> rd st c' = rd (reply_station (rpc cl)) c').
  { intros c' Hn. by apply (rd_wr_ne _ _ _ _ _ Hst). }
  assert (Happ : (done ++ [(cor, r)]) ++ reps' = done ++ (cor, r) :: reps') by (by rewrite <-(assoc_L (++))).
  assert (Hperm : reqs ++ reps'.*1 ++ (done ++ [(cor, r)]).*1 ≡ₚ
    reqs ++ ((cor, r) :: reps').*1 ++ done.*1).
  { rewrite fmap_app. cbn [fmap list_fmap fst]. apply Permutation_app_head.
    rewrite (assoc_L (++)). symmetry. cbn [app]. apply Permutation_cons_append. }
  split; cbn [sy_cl waiting to_server sy_core sy_srv to_client run_queue with_rpc lookup_unit rpc
    reply_station with_station]; try done.
  - by rewrite Happ.
  - by rewrite Happ.
  - by rewrite Hperm.
  - intros c'. rewrite Hperm. apply Hwh.
  - rewrite fmap_app, Hrun. done.
  - apply Forall_app. split; [|constructor; [|constructor]].
    + apply Forall_forall. intros p Hpin.
      destruct (proj1 (Forall_forall _ _) Hdo p Hpin) as (e & He' & Hrest). exists e. split; [|done].
      rewrite Hst'; [done|]. intros E. apply Hnotin. rewrite !elem_of_app. right; right.
      apply list_elem_of_fmap. eauto.
    + eexists. split; [apply (rd_wr_eq _ _ _ _ Hst)|]. split; [done|]. apply reply_of_bytes.
  - intros c' Hc'. rewrite Hst'; [apply Hwt; cbn; set_solver|]. intros ->. apply Hnotin. set_solver.
  - intros c' Hr Hn. destruct (Hid c' Hr Hn) as (Hr' & e & He' & Hpe). split; [done|]. exists e.
    rewrite Hst'; [done|]. intros ->. rewrite Hn in Hwait. by destruct Hwait.
Qed.

(** The resumed coroutine: its part after the pause does not fail, and a PUT's
    applies its seed update. *)
Lemma recv_call_ok j cl w cor c row r : quiet (lookup_unit cl) j -> w !! cor = Some (c, row) ->
  read_reply cl cor = Ok (wrap_reply r) -> reply_fine w (cor, r) ->
  (forall k v, c = PutCall k v -> 0 <= row < 2 ^ j) ->
  exists cl' res, recv_call cl cor c row = Ok (cl', res) /\ rpc cl' = rpc cl /\
    lookup_unit cl' =
      with_seeds (seed_update w (dp_buckets (lookup_unit cl)) (cor, r)) (lookup_unit cl).
Proof.
  intros Hq Hw Hr Hfine Hrow. unfold seed_update, reply_fine in *. cbn [fst snd] in *.
  rewrite Hw in Hfine |- *.
  destruct c as [k|k v|k v|k n]; cbn [recv_call].
  - unfold search_recv. rewrite Hr, !bind_Ok_l. eexists _, _. split; [reflexivity|].
    by rewrite with_seeds_same.
  - unfold put_recv. rewrite Hr, bind_Ok_l. unfold wrap_reply. cbn [status val].
    destruct Hfine as [-> Hval].
    destruct Hval as [Hval|(sd & Hval & Hsd)].
    + rewrite (land_small _ Hval). cbn [negb]. rewrite bind_Ok_l. eexists _, _. split; [reflexivity|].
      by rewrite with_seeds_same.
    + rewrite Hval. destruct (land_255 sd Hsd) as (-> & -> & -> & Hu). cbn [negb].
      unfold dp_updateSeed. rewrite Hu. specialize (Hrow k v eq_refl).
      pose proof Hq as ((_ & _ & Hb & _) & _).
      rewrite wr_in_range by (rewrite Hb; lia). rewrite !bind_Ok_l.
      eexists _, _. split; [reflexivity|]. done.
  - eexists _, _. split; [reflexivity|]. by rewrite with_seeds_same.
  - eexists _, _. split; [reflexivity|]. by rewrite with_seeds_same.
Qed.

Lemma resume_inv j home s reqs reps done : sys_inv j home s reqs reps done -> run_queue s <> [] ->
  exists s' res p done', resume_next s = Ok (s', res) /\ done = p :: done' /\
    sys_inv j home s' reqs reps done'.
Proof.
  intros Hinv Hne. pose proof Hinv as
    [Hq Hj Hh Hok Hb Hcon Hse Hfi Hnd Hwh Hra Hro Hrq Hrp Hrun Hdo Hwt Hid].
  pose proof (fun k => home_range j home _ _ _ _ k Hinv) as Hhome.
  destruct s as [cl w ts core sv tc rq]. cbn [sy_cl waiting to_server sy_core sy_srv to_client run_queue] in *.
  destruct done as [|[cor r] done']; [by destruct rq|].
  destruct rq as [|cor0 q]; [done|]. cbn [fmap list_fmap fst] in Hrun. injection Hrun as <- Hrun.
  assert (Hwait : is_Some (w !! cor)) by (apply Hwh; cbn; set_solver).
  destruct Hwait as [[c row] Hw].
  apply Forall_cons in Hdo as [(e & He & Hpe & Hre) Hdo]. cbn [fst snd] in *.
  cbn [app] in Hfi. apply Forall_cons in Hfi as [Hf1 Hfi].
  destruct (recv_call_ok j cl w cor c row r Hq Hw) as (cl' & res & Hrecv & Erpc & Elk);
    [unfold read_reply; by rewrite He, bind_Ok_l|done| |].
  { intros k v ->. rewrite (Hro cor k v row Hw). specialize (Hhome k). lia. }
  unfold resume_next. cbn [run_queue waiting sy_cl]. rewrite Hw, Hrecv, bind_Ok_l.
  eexists _, _, (cor, r), done'. split; [reflexivity|]. split; [done|].
  assert (Hperm : reqs ++ reps.*1 ++ ((cor, r) :: done').*1 ≡ₚ cor :: reqs ++ reps.*1 ++ done'.*1).
  { cbn. rewrite !(assoc_L (++)). symmetry. apply Permutation_middle. }
  rewrite Hperm in Hnd. apply NoDup_cons in Hnd as [Hnotin Hnd].
  assert (Hext : forall c', c' ∈ reqs ++ reps.*1 ++ done'.*1 -> delete cor w !! c' = w !! c').
  { intros c' Hc'. apply lookup_delete_ne. by intros ->. }
  pose proof Hq as ((_ & _ & Hlen & _) & _).
  set (l := seed_update w (dp_buckets (lookup_unit cl)) (cor, r)) in *.
  assert (Hl : length l = Z.to_nat (2 ^ j)) by (unfold l; rewrite seed_update_length; exact Hlen).
  assert (Hh' : forall k, row_of (lookup_unit cl') k = home k)
    by (intros k; rewrite Elk, <-Hh; apply (row_of_with_seeds _ j); [exact Hq|exact Hl]).
  split; cbn [sy_cl waiting to_server sy_core sy_srv to_client run_queue]; rewrite ?Erpc; try done.
  - rewrite Elk. by apply quiet_with_seeds.
  - rewrite Elk. cbn [dp_buckets with_seeds]. cbn [app foldl] in Hse. fold l in Hse. rewrite <-Hse.
    apply seed_updates_ext. intros c' Hc'. apply Hext. rewrite fmap_app in Hc'. set_solver.
  - eapply Forall_fine_ext; [|exact Hfi]. intros c' Hc'. apply Hext. rewrite fmap_app in Hc'. set_solver.
  - intros c'. destruct (decide (c' = cor)) as [->|Hn].
    + rewrite lookup_delete_eq. split; [by intros [? ?]|]. intros Hc'. by destruct Hnotin.
    + rewrite lookup_delete_ne by done. rewrite Hwh, Hperm, elem_of_cons. naive_solver.
  - intros c' Hc'. apply Hra. destruct Hc' as [x Hx]. apply lookup_delete_Some in Hx as [_ Hx]. eauto.
  - intros c' k v r0 Hx. apply lookup_delete_Some in Hx as [_ Hx]. eauto.
  - eapply (requests_ext home home); [done| |exact Hrq]. intros c' Hc'. apply Hext. set_solver.
  - intros c' Hr Hx. apply lookup_delete_None in Hx as [<-|Hx]; [|by apply Hid].
    split; [lia|]. eauto.
Qed.

Lemma start_inv w j : in_sync sid own g w j ->
  sys_inv j (home_of w) (MkSystem (cl w) ∅ [] (srv_rpc w) (srv w) [] []) [] [] [].
Proof.
  intros [Hq Hj Hs Ho Hb Hc Hi].
  split; cbn [sy_cl waiting to_server sy_core sy_srv to_client run_queue]; try done.
  - constructor.
  - intros c. rewrite lookup_empty. cbn. split; [by intros [? ?]|]. intros H. by apply not_elem_of_nil in H.
  - intros c. rewrite lookup_empty. by intros [? ?].
  - intros c Hc'. by apply not_elem_of_nil in Hc'.
  - intros c Hr _. by apply Hi.
Qed.

(** Every enabled step keeps the invariant, or ends the process. *)
Lemma sys_step_inv j home s reqs reps done e : sys_inv j home s reqs reps done ->
  enabled e s = true -> event_ok e ->
  match sys_step sid own g after e s with
  | Ok (s', r) => exists reqs' reps' done', sys_inv j home s' reqs' reps' done'
  | Err x => x = ProcessExit
  end.
Proof.
  intros Hinv Hen Hok. destruct e as [cor c| | |]; cbn [sys_step enabled event_ok] in *.
  - destruct Hok as [Hc Hcall]. destruct (waiting s !! cor) eqn:E; [done|].
    destruct (issue_inv j home s reqs reps done cor c Hinv E Hc Hcall) as (s' & -> & Hinv').
    rewrite bind_Ok_l. eauto.
  - assert (Hne : to_server s <> []) by (by destruct (to_server s)).
    pose proof (serve_inv j home s reqs reps done Hinv Hne) as H.
    destruct (serve_next sid own after s) as [s'|x]; [rewrite bind_Ok_l|done].
    destruct H as (cor & reqs' & r & _ & Hinv'). eauto.
  - assert (Hne : to_client s <> []) by (by destruct (to_client s)).
    destruct (poll_inv j home s reqs reps done Hinv Hne) as (s' & p & reps' & -> & _ & Hinv').
    rewrite bind_Ok_l. eauto.
  - assert (Hne : run_queue s <> []) by (by destruct (run_queue s)).
    destruct (resume_inv j home s reqs reps done Hinv Hne) as (s' & res & p & done' & -> & _ & Hinv').
    eauto.
Qed.

Lemma sys_run_inv j home s es rs s' : sys_run sid own g after s es rs s' ->
  forall reqs reps done, sys_inv j home s reqs reps done ->
  exists reqs' reps' done', sys_inv j home s' reqs' reps' done'.
Proof.
  induction 1 as [s|s e s1 r es rs s2 Hen Hok Hstep _ IH]; intros reqs reps done Hinv; [eauto|].
  pose proof (sys_step_inv j home s reqs reps done e Hinv Hen Hok) as H. rewrite Hstep in H.
  destruct H as (reqs' & reps' & done' & Hinv'). eauto.
Qed.

(** In the invariant every paused coroutine has one request, one reply or
    one place in the scheduler's chain. *)
Lemma inv_conserved j home s reqs reps done : sys_inv j home s reqs reps done ->
  size (waiting s) = (length (to_server s) + length (to_client s) + length (run_queue s))%nat.
Proof.
  intros [Hq Hj Hh Hok Hb Hcon Hse Hfi Hnd Hwh Hra Hro Hrq Hrp Hrun Hdo Hwt Hid].
  rewrite <-(Forall2_length _ _ _ Hrq), <-(Forall2_length _ _ _ Hrp), <-Hrun.
  rewrite <-size_dom.
  assert (dom (waiting s) = list_to_set (reqs ++ reps.*1 ++ done.*1)) as ->.
  { apply set_eq. intros c. rewrite elem_of_dom, elem_of_list_to_set. apply Hwh. }
  rewrite size_list_to_set by done. rewrite !length_app, !length_fmap. lia.
Qed.
End invariant.

Section theorems.
Context (sid : Z) (own : list Z) (g : garbage) (after : list Z) (Henv : env_ok g after).

(** No call under way. *)
Definition system_of (w : world) : system := MkSystem (cl w) ∅ [] (srv_rpc w) (srv w) [] [].

Definition world_of (s : system) : world := MkWorld (sy_cl s) (sy_core s) (sy_srv s).

Lemma inv_in_sync j home s reqs reps done : sys_inv sid own g j home s reqs reps done ->
  waiting s = ∅ -> in_sync sid own g (world_of s) j.
Proof.
  intros [Hq Hj Hh Hok Hb Hcon Hse Hfi Hnd Hwh Hra Hro Hrq Hrp Hrun Hdo Hwt Hid] Hw.
  assert (Hnil : reqs ++ reps.*1 ++ done.*1 = []).
  { apply elem_of_nil_inv. intros c. rewrite <-Hwh, Hw, lookup_empty. by intros [? ?]. }
  apply app_eq_nil in Hnil as [_ [Hr%fmap_nil_inv Hd%fmap_nil_inv]%app_eq_nil]. subst reps done.
  split; cbn [cl srv srv_rpc world_of]; try done.
  - apply (ok_state_ext home); [|done]. intros k. symmetry. apply Hh.
  - intros cor Hr. apply Hid; [done|]. by rewrite Hw.
Qed.

(** C6: Whatever the interleaving of the coroutines' calls, of requests and
    replies on their way and of the scheduler, the client's seeds converge: at
    any moment each paused coroutine has exactly one request on its way, one
    reply on its way or one place among the coroutines added back; every enabled
    step runs to its end or ends the server's process; and whenever no call is
    under way the client is in sync again. *)
Theorem seeds_converge w j es rs s : in_sync sid own g w j ->
  sys_run sid own g after (system_of w) es rs s ->
  size (waiting s) = (length (to_server s) + length (to_client s) + length (run_queue s))%nat /\
  (forall e, enabled e s = true -> event_ok e ->
     match sys_step sid own g after e s with Ok _ => True | Err x => x = ProcessExit end) /\
  (waiting s = ∅ -> in_sync sid own g (world_of s) j).
Proof.
  intros Hw Hrun.
  destruct (sys_run_inv sid own g after Henv j (home_of w) _ es rs s Hrun [] [] []
    (start_inv sid own g w j Hw)) as (reqs & reps & done & Hinv).
  split; [by eapply inv_conserved|]. split; [|by eapply inv_in_sync].
  intros e Hen Hok. pose proof (sys_step_inv sid own g after Henv j _ s reqs reps done e Hinv Hen Hok) as H.
  by destruct (sys_step sid own g after e s) as [[s' r]|x].
Qed.
End theorems.

(** ** Runs of given events *)

Section runs.
Context (sid : Z) (own : list Z) (g : garbage) (after : list Z).

Fixpoint run_events (s : system) (es : list event) : res (system * list (option (Z * option Z))) :=
  match es with
  | [] => Ok (s, [])
  | e :: es =>
      _ ← guard_ok (enabled e s) OutOfFuel;
      '(s1, r) ← sys_step sid own g after e s;
      '(s2, rs) ← run_events s1 es; Ok (s2, r :: rs)
  end.

Lemma run_events_run es s s' rs : Forall event_ok es -> run_events s es = Ok (s', rs) ->
  sys_run sid own g after s es rs s'.
Proof.
  intros Hes. revert s rs. induction Hes as [|e es He _ IH]; intros s rs H; cbn in H.
  - apply Ok_inj, pair_equal_spec in H as [<- <-]. constructor.
  - apply bind_Ok in H as (u & Hen & H). apply guard_ok_Ok in Hen.
    apply bind_Ok in H as ([s1 r] & Hs & H). apply bind_Ok in H as ([s2 rs'] & Hr & H).
    apply Ok_inj, pair_equal_spec in H as [<- <-]. econstructor; eauto.
Qed.
End runs.

(** ** A race *)

(** A PUT of 6; then a PUT of 1 that finds its cell taken by 6 and reseeds the
    row, and a search of 6 that is sent before the new seed arrives. *)
Definition demo_first : list event := [Issue 1 (PutCall 6 66); Serve; Poll; Resume].

Definition demo_second : list event :=
  [Issue 1 (PutCall 1 11); Serve; Issue 2 (Search 6); Serve; Poll; Poll; Resume; Resume].

Lemma demo_events_ok : Forall event_ok demo_first /\ Forall event_ok demo_second.
Proof.
  split; repeat (apply Forall_cons; split; [cbn; unfold is_word; lia|]); constructor.
Qed.

Definition demo_run (s : system) (es : list event) : res (system * list (option (Z * option Z))) :=
  run_events 1 demo_own demo_g demo_after s es.

Lemma demo_run_stored es s rs : Forall event_ok es -> demo_run (system_of demo_world) es = Ok (s, rs) ->
  lookup (fun _ => 0) (sy_srv s) 6 = Ok (Some 66) -> stored (sy_srv s) 6 66.
Proof.
  intros Hes E Hl. apply (run_events_run _ _ _ _ _ _ _ _ Hes) in E.
  destruct (sys_run_inv 1 demo_own demo_g demo_after demo_env 0 (home_of demo_world) _ _ rs s E
    [] [] [] (start_inv 1 demo_own demo_g demo_world 0 demo_in_sync)) as (? & ? & ? & Hinv).
  apply (lookup_stored (fun _ => 0)); [|done].
  apply (ok_state_ext (home_of demo_world)); [|by eapply si_ok].
  intros k. destruct (row_of_spec _ 0 k (is_quiet _ _ _ _ _ demo_in_sync)) as [Hr _].
  change (2 ^ 0) with 1 in Hr. unfold home_of. lia.
Qed.

Lemma run_events_app sid own g after s es1 es2 s1 rs1 s2 rs2 :
  run_events sid own g after s es1 = Ok (s1, rs1) -> run_events sid own g after s1 es2 = Ok (s2, rs2) ->
  run_events sid own g after s (es1 ++ es2) = Ok (s2, rs1 ++ rs2).
Proof.
  revert s rs1. induction es1 as [|e es1 IH]; intros s rs1 H1 H2; cbn in H1 |- *.
  - by apply Ok_inj, pair_equal_spec in H1 as [<- <-].
  - destruct (guard_ok (enabled e s) OutOfFuel); [|done]. rewrite bind_Ok_l in H1 |- *.
    destruct (sys_step sid own g after e s) as [[s0 r]|]; [|done]. rewrite bind_Ok_l in H1 |- *.
    apply bind_Ok in H1 as ([s3 rs3] & H3 & H1). apply Ok_inj, pair_equal_spec in H1 as [<- <-].
    by rewrite (IH s0 rs3 H3 H2), bind_Ok_l.
Qed.

(** A run in which a search that overlaps another coroutine's reseeding PUT
    returns another key's value, with one in-sync client thread, messages in
    order and no fault: key 6 is stored with the value 66 when the search of
    coroutine 2 is issued and when it ends, but the search returns 11, the value of the key that
    now has the slot that 6 had under the old seed. *)
Theorem overlapping_search_wrong : exists s1 rs1 s2 rs2,
  in_sync 1 demo_own demo_g demo_world 0 /\
  sys_run 1 demo_own demo_g demo_after (system_of demo_world) demo_first rs1 s1 /\
  stored (sy_srv s1) 6 66 /\
  sys_run 1 demo_own demo_g demo_after s1 demo_second rs2 s2 /\
  stored (sy_srv s2) 6 66 /\ last rs2 = Some (Some (2, Some 11)).
Proof.
  destruct demo_events_ok as [Ho1 Ho2]. pose proof (Forall_app_2 _ _ _ Ho1 Ho2) as Ho.
  assert (Hv : ('(s1, rs1) ← demo_run (system_of demo_world) demo_first;
    '(s2, rs2) ← demo_run s1 demo_second;
    v1 ← lookup (fun _ => 0) (sy_srv s1) 6; v2 ← lookup (fun _ => 0) (sy_srv s2) 6;
    Ok (v1, v2, last rs2)) = Ok (Some 66, Some 66, Some (Some (2, Some 11)))) by (vm_compute; reflexivity).
  apply bind_Ok in Hv as ([s1 rs1] & E1 & Hv). apply bind_Ok in Hv as ([s2 rs2] & E2 & Hv).
  apply bind_Ok in Hv as (v1 & L1 & Hv). apply bind_Ok in Hv as (v2 & L2 & Hv).
  apply Ok_inj, pair_equal_spec in Hv as [[-> ->]%pair_equal_spec Hl].
  exists s1, rs1, s2, rs2. split; [apply demo_in_sync|].
  split; [by apply run_events_run|]. split; [by apply (demo_run_stored demo_first s1 rs1)|].
  split; [by apply run_events_run|]. split; [|done].
  exact (demo_run_stored _ s2 _ Ho (run_events_app _ _ _ _ _ _ _ _ _ _ _ E1 E2) L2).
Qed.

Lemma seeds_converge_witness : exists rs s,
  sys_run 1 demo_own demo_g demo_after (system_of demo_world) demo_first rs s /\
  size (waiting s) = (length (to_server s) + length (to_client s) + length (run_queue s))%nat /\
  (forall e, enabled e s = true -> event_ok e ->
     match sys_step 1 demo_own demo_g demo_after e s with Ok _ => True | Err x => x = ProcessExit end) /\
  (waiting s = ∅ -> in_sync 1 demo_own demo_g (world_of s) 0).
Proof.
  assert (Hv : Prelude.is_ok (demo_run (system_of demo_world) demo_first) = true) by (vm_compute; reflexivity).
  destruct (demo_run (system_of demo_world) demo_first) as [[s rs]|] eqn:E; [|discriminate Hv].
  pose proof (run_events_run _ _ _ _ _ _ _ _ (proj1 demo_events_ok) E) as Hrun.
  exists rs, s. split; [exact Hrun|].
  exact (seeds_converge 1 demo_own demo_g demo_after demo_env demo_world 0 demo_first rs s demo_in_sync Hrun).
Defined.
