(* ===== verification/RdmaSetup.v ===== *)
(** * Starting the RDMA server and its client (benchs/outback/server.cc, client.cc)

    Both processes build the Ludo table from the same keys in the same order:
    the server with the addresses of the entries it loads, the client with the
    numbers of the keys, which are the same.  From the same answers of [rand()]
    they get the same seeds, so that the client is in step with the server from
    the start, without a message. *)

From Stdlib Require Import ZArith Lia.
From stdpp Require Import base numbers strings gmap list.
From S2P Require Import Prelude Words Hash PackedData LudoSlot LruCache ServerRdma ServerInv ServerProps.
From S2P Require Import OthelloMem LudoTable LudoInv LudoProps LudoLoad LudoDP OthelloCP OthelloInv OthelloBuild OthelloOps OthelloLocator OthelloProps.
From S2P Require Import ServerSetup Rpc ClientRdma RdmaCall RdmaProps.

#[local] Open Scope Z_scope.
#[local] Opaque Hash64WithSeed multiply_high_u32 FastHasher64.

Section setup.
Context {L : Type} `{LO : LocatorOk L} (to_dp : L -> DataPlaneOthello).

(** One round of the server's loop: [addr = packed_data->bulk_load_data(key,
    sizeof(V), i)], then [insert(key, addr)]. *)
Definition load_key (rnd : nat -> Z) (fuel : nat) (st : packed_data * region * ControlPlaneLudo L) (p : Z * Z)
    : res (packed_data * region * ControlPlaneLudo L) :=
  let '(w, m, cp) := st in
  '(w', m', addr) ← bulk_load_data w m (fst p) 8 (snd p);
  '(cp', _) ← insert rnd fuel cp (fst p) addr false;
  Ok (w', m', cp').

(** [setup_ludo_table] of the server; [junk] is what [new] leaves in the
    entries. *)
Definition server_setup (junk : packed_struct) (rnd : nat -> Z) (fuel : nat) (o : L) (keys : list Z)
    : res server :=
  let '(m, w) := new_packed_data junk (Z.to_nat (u64 (2 * Z.of_nat (length keys)))) in
  cp0 ← new_table o 1024;
  '(w', m', cp) ← foldM (load_key rnd fuel) (numbered keys) (w, m, cp0);
  let lookup_unit := DataPlaneLudo_of to_dp cp in
  '(_, ludo_buckets) ← DataPlaneLudo_with_buckets to_dp cp;
  Ok (MkServer (dp_buckets lookup_unit) ludo_buckets m' w' (new_cache 2048 10)).

(** [setup_ludo_table] of the client. *)
Definition client_setup (rnd : nat -> Z) (fuel : nat) (o : L) (keys : list Z) : res DataPlaneLudo :=
  cp0 ← new_table o 1024;
  cp ← insert_keys rnd fuel keys cp0;
  Ok (DataPlaneLudo_of to_dp cp).

(** ** The server's loop *)

Lemma load_key_run rnd fuel items w m cp cp' :
  (forall i p, items !! i = Some p -> snd p = num w + Z.of_nat i) -> 0 <= num w ->
  num w + Z.of_nat (length items) < 2 ^ 32 ->
  foldM (fun '(w, m) '(k, i) => '(w', m', _) ← bulk_load_data w m k 8 i; Ok (w', m')) items (w, m) = Ok cp' ->
  forall cp1, insert_all rnd fuel items cp = Ok cp1 -> foldM (load_key rnd fuel) items (w, m, cp) = Ok (cp', cp1).
Proof.
  revert w m cp. induction items as [|[k v] items IH]; intros w m cp Hnum H0 Hlt H cp1 H1; cbn [foldM insert_all] in *.
  - apply Ok_inj in H as <-. by apply Ok_inj in H1 as <-.
  - apply bind_Ok in H as ([w1 m1] & H & Hrest). apply bind_Ok in H as ([[w2 m2] addr] & Hb & H).
    apply Ok_inj, pair_equal_spec in H as [-> ->]. unfold insert_all in H1. cbn [foldM] in H1.
    apply bind_Ok in H1 as (cp2 & Hi & H1). apply bind_Ok in Hi as ([cp3 u] & Hi & E). apply Ok_inj in E as ->.
    pose proof (Hnum 0%nat _ eq_refl) as Ev. cbn in Ev. cbn [length] in Hlt. unfold load_key at 2. cbn [fst snd].
    unfold bulk_load_data in Hb |- *. destruct (numElements w <=? num w); [done|].
    apply bind_Ok in Hb as (m3 & Hw & Hb). rewrite Hw, bind_Ok_l. apply Ok_inj in Hb. injection Hb as <- <- <-.
    assert (Ea : u32 (num w) = v) by (rewrite wrap_id; [lia|unfold is_word; lia]).
    assert (En : u64 (num w + 1) = num w + 1) by (apply wrap_id; unfold is_word; lia).
    rewrite bind_Ok_l, Ea, Hi, !bind_Ok_l. apply IH; [|cbn [num]; rewrite En; lia..|exact Hrest|exact H1].
    intros i p Hp. cbn [num]. rewrite En. specialize (Hnum (S i) p Hp). lia.
Qed.
End setup.

(** ** Results that are known to be there *)

Definition ok_or {A} (d : A) (m : res A) : A := match m with Ok a => a | Err _ => d end.

Lemma ok_or_Ok {A} d (m : res A) : Prelude.is_ok m = true -> m = Ok (ok_or d m).
Proof. by destruct m. Qed.

(** ** The state of both sides *)

Lemma numbered_inv keys k v : (k, v) ∈ numbered keys -> exists i, keys !! i = Some k /\ v = Z.of_nat i.
Proof.
  intros [i Hi]%list_elem_of_lookup. apply lookup_zip_Some in Hi as [Hk Hv]. exists i. split; [done|].
  apply lookup_seqZ in Hv as [-> _]. lia.
Qed.

Notation data_plane := (DataPlaneLudo_of othello_to_dp).

(** The client's structure has no writer. *)
Lemma built_quiet cp j : wf_table cp j -> quiet (data_plane cp) j.
Proof.
  intros Hwf. pose proof (wt_shape cp j Hwf) as Hs. pose proof (ts_loc cp j Hs) as Ho. cbn in Ho.
  pose proof (oi_sized _ Ho) as Hsz. destruct (ts_j cp j Hs).
  assert (He : Forall even (replicate (Z.to_nat 8192) 0)) by (by apply Forall_replicate).
  split; [|split; exact He]. split; [lia|]. split; [apply (ts_size cp j Hs)|]. split; [|split; [|apply length_replicate]].
  - cbn. rewrite length_fmap, take_ge by (by rewrite (ts_size cp j Hs), (ts_len cp j Hs)). apply (ts_len cp j Hs).
  - destruct (sz_mem _ Hsz) as (Hw & Hlt & Hfit). split; [exact Hw|]. split; [apply length_replicate|].
    split; [apply (sz_ma _ Hsz)|]. split; [apply (sz_mb _ Hsz)|]. by split.
Qed.

Section state.
Context (cp : ControlPlaneLudo ControlPlaneOthello) (j : Z) (keys : list Z).
Context (Hwf : wf_table cp j) (Hholds : forall k v, holds cp k v <-> (k, v) ∈ numbered keys).
Context (Hn : Z.of_nat (length keys) < 2 ^ 30).
Context (cells : list ludo_bucket) (m : region) (w : packed_data).
Context (Hbuild : DataPlaneLudo_with_buckets othello_to_dp cp = Ok (data_plane cp, cells)).
Context (Hnum : num w = Z.of_nat (length keys)) (Hcap : numElements w = 2 * Z.of_nat (length keys)).
Context (Hm : length m = (2 * length keys)%nat).
Context (Hent : forall i k, keys !! i = Some k -> m !! i = Some (PackedStruct k 8 (Z.of_nat i))).

Definition started : server := MkServer (dp_buckets (data_plane cp)) cells m w (new_cache 2048 10).

Lemma built_cells : length cells = Z.to_nat (2 ^ j) /\ wf_buckets cells /\
  forall row slot c, rd2 cells row slot = Ok c -> c = 0 \/
    exists s k v b, rd (buckets_ cp) row = Ok b /\ LudoInv.item b s k v /\ slot = slot_of (b_seed b) k /\ c = u64 (v + bulk_length).
Proof.
  destruct (bulk_cells othello_to_dp cp j Hwf) as (cells' & E & H). rewrite Hbuild in E.
  by apply Ok_inj, pair_equal_spec in E as [_ <-].
Qed.

(** A cell that is not empty leads to the entry of its key. *)
Lemma started_cell row slot c : rd2 cells row slot = Ok c -> c = 0 \/
  exists i k b, keys !! i = Some k /\ rd (buckets_ cp) row = Ok b /\ slot = slot_of (b_seed b) k /\
    toAddr c = Z.of_nat i /\ toLength c = 16384 /\ row_of (data_plane cp) k = row.
Proof.
  intros H. destruct built_cells as (_ & _ & Hcell). destruct (Hcell row slot c H) as [?|(s & k & v & b & Hb & Hi & -> & ->)]; [by left|right].
  assert (Hp : at_pos cp row s k v) by (by exists b).
  destruct (numbered_inv keys k v) as (i & Hk & ->); [apply Hholds; by exists row, s|].
  exists i, k, b. pose proof (lookup_lt_Some _ _ _ Hk).
  destruct (bulk_cell (Z.of_nat i)) as (Ha & _ & Hl & _); [lia|].
  do 4 (split; [done|]). split; [done|]. pose proof (wt_shape cp j Hwf) as Hs.
  destruct (wt_home cp j Hwf _ _ _ _ Hp) as (bit & Hw & ->).
  unfold row_of. by rewrite (lookup_slot_home othello_to_dp cp j k bit b Hs (othello_synced _ (ts_loc cp j Hs)) Hw Hb).
Qed.

Lemma started_wf : wf (row_of (data_plane cp)) started.
Proof.
  pose proof (wt_shape cp j Hwf) as Hs. destruct built_cells as (Hcells & Hrows & _). constructor; cbn [seeds bks mem pd lru started].
  - cbn. rewrite length_fmap, take_ge by (by rewrite (ts_size cp j Hs), (ts_len cp j Hs)). by rewrite (ts_len cp j Hs).
  - done.
  - rewrite Hnum, Hcap. lia.
  - rewrite Hcap, Hm. lia.
  - rewrite Hcap. lia.
  - intros row seed slot c Hsd Hc Hne.
    destruct (started_cell row slot c Hc) as [->|(i & k & b & Hk & Hb & -> & Ha & _ & Hrow)]; [by destruct Hne|].
    rewrite (seed_at othello_to_dp cp j row b Hs Hb) in Hsd. apply Ok_inj in Hsd as <-. unfold good_cell. rewrite Ha. cbn.
    pose proof (lookup_lt_Some _ _ _ Hk). split; [lia|]. exists (PackedStruct k 8 (Z.of_nat i)).
    split; [|by split]. apply rd_Ok. split; [lia|]. rewrite Nat2Z.id. by apply Hent.
  - by apply new_cache_inv.
Qed.

Lemma started_stored i k : keys !! i = Some k -> stored started k (Z.of_nat i).
Proof.
  intros Hk. assert (Hh : holds cp k (Z.of_nat i)) by (apply Hholds, numbered_elem, Hk).
  pose proof (lookup_lt_Some _ _ _ Hk).
  destruct (bulk_load_main othello_to_dp cp j Hwf) as (d & cells' & E & _ & _ & Hit);
    [apply othello_synced, (wt_shape cp j Hwf)|].
  rewrite Hbuild in E. apply Ok_inj, pair_equal_spec in E as [_ <-].
  destruct (Hit k (Z.of_nat i) Hh ltac:(lia)) as (row & slot & c & _ & Hc & Ha & Hl & _).
  unfold read_addr in Ha. rewrite Hc, bind_Ok_l in Ha. apply Ok_inj in Ha.
  unfold rd2 in Hc. apply bind_Ok in Hc as (r & Hr & Hc). exists row, r. split; [done|].
  exists slot, c, (PackedStruct k 8 (Z.of_nat i)).
  split; [done|]. split; [unfold nonempty; by rewrite Hl|]. split; [|done]. rewrite Ha. apply rd_Ok.
  split; [lia|]. rewrite Nat2Z.id. by apply Hent.
Qed.
End state.

(** ** Both setups *)

Lemma setups_agree rnd fuel (o : ControlPlaneOthello) keys cp0 cp junk : othello_inv o -> NoDup keys ->
  new_table o 1024 = Ok cp0 -> insert_keys rnd fuel keys cp0 = Ok cp -> loaded_clean cp ->
  Z.of_nat (length keys) < 2 ^ 30 ->
  exists j s, client_setup othello_to_dp rnd fuel o keys = Ok (data_plane cp) /\
    server_setup othello_to_dp junk rnd fuel o keys = Ok s /\
    seeds s = dp_buckets (data_plane cp) /\ quiet (data_plane cp) j /\ j < 30 /\
    wf (row_of (data_plane cp)) s /\ forall i k, keys !! i = Some k -> stored s k (Z.of_nat i).
Proof.
  intros Ho Hnd H0 H [Hr Hs] Hn.
  destruct (@load_main _ _ othello_locator_ok o 1024 rnd fuel (numbered keys) cp0 cp Ho) as (j & Hwf & Hh);
    [lia|by rewrite numbered_keys|done|exact H|done|done|].
  destruct (bulk_cells othello_to_dp cp j Hwf) as (cells & Hb & _).
  set (n2 := Z.to_nat (u64 (2 * Z.of_nat (length keys)))).
  assert (En : n2 = (2 * length keys)%nat) by (unfold n2; rewrite wrap_id; unfold is_word; lia).
  destruct (load_packed_spec keys (PackedData 0 (Z.of_nat n2)) (replicate n2 junk))
    as (w & m & El & Hlm & Hnum & HN & Hent); [done|by rewrite length_replicate|rewrite length_replicate; lia..|].
  rewrite length_replicate in Hlm.
  assert (Hlen : length (numbered keys) = length keys) by (unfold numbered; rewrite length_zip, length_seqZ; lia).
  exists j, (started cp cells m w). split; [|split; [|split; [done|split; [by apply built_quiet|split; [apply (ts_j cp j Hwf)|split]]]]].
  - unfold client_setup. by rewrite H0, bind_Ok_l, H, bind_Ok_l.
  - unfold server_setup, new_packed_data. fold n2. rewrite H0, bind_Ok_l.
    assert (Erun : foldM (load_key rnd fuel) (numbered keys) (PackedData 0 (Z.of_nat n2), replicate n2 junk, cp0)
      = Ok (w, m, cp)).
    { apply load_key_run; [|done|cbn [num]; rewrite Hlen; lia|exact El|exact H].
      intros i [k v] Hi. apply lookup_zip_Some in Hi as [_ Hi]. by apply lookup_seqZ in Hi as [-> _]. }
    by rewrite Erun, bind_Ok_l, Hb, bind_Ok_l.
  - apply (started_wf cp j keys Hwf Hh Hn cells m w Hb Hnum); [rewrite HN; cbn; lia|lia|done].
  - intros i k Hi. apply (started_stored cp j keys Hwf Hh Hn cells m w Hb); [lia|done|done].
Qed.

Section searches.
Context (sid : Z) (own : list Z) (g : garbage) (after : list Z) (Henv : env_ok g after).
Context (d : DataPlaneLudo) (s : server) (j : Z) (Hq : quiet d j) (Hj : j < 30).
Context (Hseeds : seeds s = dp_buckets d) (Hwf : wf (row_of d) s).

(** A connected client over the state of the start. *)
Record at_start (w : world) : Prop := {
  as_lookup : lookup_unit (cl w) = d;
  as_srv : srv w = s;
  as_con : connected sid own g (srv_rpc w);
  as_idle : forall cor, 0 <= cor < 12 -> idle (reply_station (rpc (cl w))) cor;
}.

Lemma search_at_start w cor k v : at_start w -> 0 <= cor < 12 -> is_word 64 k -> is_word 64 v -> stored s k v ->
  exists w', remote_search sid own g after w cor k = Ok (w', Some v) /\ at_start w'.
Proof.
  intros [Hl Hs Hc Hi] Hcor Hk Hv Hst. destruct (row_of_spec d j k Hq) as [Hrow _].
  destruct (rd_in_range (dp_buckets d) (row_of d k)) as [seed Hsd].
  { destruct Hq as ((_ & _ & Hb & _) & _). rewrite Hb. lia. }
  pose proof (remote_search_at sid own g after Henv w j cor k seed) as Hat. unfold home_of in Hat. rewrite Hl, Hs in Hat.
  destruct Hq as (((Hj0 & _) & _) & _).
  destruct (num_of_spec j (row_of d k) (slot_of seed k)) as (_ & Hdiv & Hmod & _); [lia|done|apply slot_of_range|].
  rewrite (get_stored (row_of d) s _ k v Hwf Hst Hdiv) in Hat by (by rewrite Hseeds, Hsd, bind_Ok_l, Hmod).
  destruct Hat as (w' & Es & [Hr El _ Hi'] & Hcall); [done|lia|done|done|by apply Hi|done|].
  exists w'. cbn [status val] in Hcall. rewrite wrap_id in Hcall by done. split; [done|].
  split; [by rewrite El|done|by rewrite Hr|auto].
Qed.

Lemma searches_at_start keys qs w : at_start w -> Forall (is_word 64) keys -> Z.of_nat (length keys) < 2 ^ 30 ->
  (forall i k, keys !! i = Some k -> stored s k (Z.of_nat i)) ->
  Forall (fun q : Z * Z => 0 <= q.1 < 12 /\ q.2 ∈ keys) qs ->
  exists w' rs, run_calls sid own g after w ((fun q => (q.1, Search q.2)) <$> qs) = Ok (w', rs) /\
    Forall2 (fun (q : Z * Z) r => exists i, keys !! i = Some q.2 /\ r = Some (Z.of_nat i)) qs rs.
Proof.
  intros Hw Hkeys Hn Hst Hqs. revert w Hw. induction Hqs as [|[cor k] qs [Hcor Hk] _ IH]; intros w Hw.
  - exists w, []. by split; [|constructor].
  - apply list_elem_of_lookup in Hk as [i Hi]. cbn [fst snd] in *. pose proof (lookup_lt_Some _ _ _ Hi).
    destruct (search_at_start w cor k (Z.of_nat i) Hw Hcor) as (w1 & E & Hw1);
      [exact (Forall_lookup_1 _ _ _ _ Hkeys Hi)|unfold is_word; lia|by apply Hst|].
    destruct (IH w1 Hw1) as (w2 & rs & E2 & Hrs). exists w2, (Some (Z.of_nat i) :: rs).
    cbn [fmap list_fmap run_calls run_call fst snd]. rewrite E, bind_Ok_l, E2, bind_Ok_l. split; [done|].
    constructor; [by exists i|done].
Qed.
End searches.

(** C2: From the loading to the answers.  When server and client are started on
    the same different keys with the same answers of [rand()], and the loading
    only moved items and grew the table, both starts succeed, the client's
    seeds are the server's without any message, and after the Connect message
    any sequence of searches for loaded keys, by any coroutines, through the
    whole RPC path, returns each key's number. *)
Theorem rdma_start_serves sid own g after r0 r1 rands_ o rnd fuel keys cp0 cp junk rjunk buf :
  env_ok g after -> sz own = sizeof_QPAttr -> 68 <= sz buf ->
  new_othello (r0 :: r1 :: rands_) = Ok o -> new_table o 1024 = Ok cp0 ->
  insert_keys rnd fuel keys cp0 = Ok cp -> loaded_clean cp ->
  NoDup keys -> Forall (is_word 64) keys -> Z.of_nat (length keys) < 2 ^ 30 ->
  exists d s core w, client_setup othello_to_dp rnd fuel o keys = Ok d /\
    server_setup othello_to_dp junk rnd fuel o keys = Ok s /\ dp_buckets d = seeds s /\
    server_rpc g rjunk = Ok core /\
    connect sid own g after buf (MkWorld (MkClient d (new_core 12)) core s) = Ok w /\
    forall qs, Forall (fun q : Z * Z => 0 <= q.1 < 12 /\ q.2 ∈ keys) qs ->
      exists w' rs, run_calls sid own g after w ((fun q => (q.1, Search q.2)) <$> qs) = Ok (w', rs) /\
        Forall2 (fun (q : Z * Z) r => exists i, keys !! i = Some q.2 /\ r = Some (Z.of_nat i)) qs rs.
Proof.
  intros Henv Hown Hbuf Ho H0 H Hclean Hnd Hkeys Hn.
  destruct (new_othello_spec r0 r1 rands_) as (o' & E & Hinv & _). rewrite Ho in E. apply Ok_inj in E as <-.
  destruct (setups_agree rnd fuel o keys cp0 cp junk Hinv Hnd H0 H Hclean Hn)
    as (j & s & Ec & Es & Hseeds & Hq & Hj & Hwf & Hst).
  destruct (server_rpc_ok g rjunk) as (core & Er & Hcb & Hses).
  destruct (connect_ok sid own g after Henv buf (MkWorld (MkClient (data_plane cp) (new_core 12)) core s) rjunk Hown Hbuf Hcb)
    as (w & Ew & Ecl & Esrv & Hcon); [cbn; by rewrite Hses|].
  assert (Hw : at_start sid own g (data_plane cp) s w).
  { split; [by rewrite Ecl|by rewrite Esrv|exact Hcon|]. intros cor Hcor. rewrite Ecl. apply idle_new_station; lia. }
  exists (data_plane cp), s, core, w. split; [exact Ec|]. split; [exact Es|]. split; [by rewrite Hseeds|].
  split; [exact Er|]. split; [exact Ew|]. intros qs Hqs.
  exact (searches_at_start sid own g after Henv (data_plane cp) s j Hq Hj Hseeds Hwf keys qs w Hw Hkeys Hn Hst Hqs).
Qed.

(** Three keys, [rand()] always 0. *)
Definition first_keys : list Z := [5; 9; 30].
Definition fresh_othello : ControlPlaneOthello := ok_or demo_cpo (new_othello [1; 2]).
Definition first_table0 : ControlPlaneLudo ControlPlaneOthello := ok_or othello_table (new_table fresh_othello 1024).
Definition first_table : ControlPlaneLudo ControlPlaneOthello :=
  ok_or othello_table (insert_keys (fun _ => 0) 1 first_keys first_table0).

Lemma fresh_othello_ok : new_othello [1; 2] = Ok fresh_othello.
Proof. destruct (new_othello_spec 1 2 []) as (o & E & _). by apply ok_or_Ok; rewrite E. Qed.

Lemma first_table0_ok : new_table fresh_othello 1024 = Ok first_table0.
Proof. apply ok_or_Ok. vm_compute. reflexivity. Qed.

Lemma first_table_ok : insert_keys (fun _ => 0) 1 first_keys first_table0 = Ok first_table.
Proof. apply ok_or_Ok. vm_compute. reflexivity. Qed.

Lemma first_table_clean : loaded_clean first_table.
Proof. vm_compute. auto. Qed.

Lemma rdma_start_serves_witness :
  exists d s core w, client_setup othello_to_dp (fun _ => 0) 1 fresh_othello first_keys = Ok d /\
    server_setup othello_to_dp (PackedStruct 0 0 0) (fun _ => 0) 1 fresh_othello first_keys = Ok s /\
    dp_buckets d = seeds s /\ server_rpc demo_g (MkReply false 0) = Ok core /\
    connect 1 demo_own demo_g demo_after demo_buf (MkWorld (MkClient d (new_core 12)) core s) = Ok w /\
    forall qs, Forall (fun q : Z * Z => 0 <= q.1 < 12 /\ q.2 ∈ first_keys) qs ->
      exists w' rs, run_calls 1 demo_own demo_g demo_after w ((fun q => (q.1, Search q.2)) <$> qs) = Ok (w', rs) /\
        Forall2 (fun (q : Z * Z) r => exists i, first_keys !! i = Some q.2 /\ r = Some (Z.of_nat i)) qs rs.
Proof.
  apply (rdma_start_serves 1 demo_own demo_g demo_after 1 2 [] fresh_othello (fun _ => 0) 1 first_keys
    first_table0 first_table (PackedStruct 0 0 0) (MkReply false 0) demo_buf).
  - exact demo_env.
  - reflexivity.
  - unfold demo_buf, sz. rewrite length_replicate. lia.
  - exact fresh_othello_ok.
  - exact first_table0_ok.
  - exact first_table_ok.
  - exact first_table_clean.
  - apply (bool_decide_unpack _). vm_compute. exact I.
  - unfold first_keys. repeat constructor; unfold is_word; lia.
  - reflexivity.
Defined.
