(* ===== verification/AtomicRW.v ===== *)
(** * Consistent reads of versioned objects (xcomm/src/atomic_rw)

    [WrappedType] puts a version before and after an object; a reader copies the
    whole and accepts the copy when the versions agree.  Memory is a list of
    32-bit words: word 0 is [seq], words 1 to [n] the payload, word [n + 1]
    [seq_check], and padding follows up to 64 bytes.  The object's type has a
    size of [4 * n] bytes.  [OrderedRWOp] loads eight bytes, two words, at a
    time, from the front; the writer makes one store at a time in between. *)

From Stdlib Require Import ZArith Lia.
From stdpp Require Import base numbers gmap list relations.
From S2P Require Import Prelude Words Rpc.

#[local] Open Scope Z_scope.

Definition kInvalidSeq : Z := 0.

(** ** The operations that copy *)

(** [LocalRWOp::read_impl]; [None]: the sizes do not match.  It copies as many
    words as the destination has. *)
Definition local_read (src dest : list Z) : res (option (list Z)) :=
  if sz dest <? sz src then Ok None
  else m ← read_bytes src 0 (sz dest); Ok (Some m).

(** [ReadWriteTrait::write] reads the other way round. *)
Definition local_write (src dest : list Z) : res (option (list Z)) := local_read dest src.

(** [OrderedRWOp::read_impl]: the [i]-th load of eight bytes sees the memory
    [r i]; [words] are still to be copied. *)
Fixpoint ordered_read (r : nat -> list Z) (i : nat) (words : nat) : res (list Z) :=
  match words with
  | O => Ok []
  | 1%nat => Err AssertFailed
  | S (S words) =>
      lo ← rd (r i) (2 * Z.of_nat i); hi ← rd (r i) (2 * Z.of_nat i + 1);
      rest ← ordered_read r (S i) words; Ok (lo :: hi :: rest)
  end.

Section wrapped.
Context (n : nat).

Definition seq_at : Z := 0.
Definition check_at : Z := Z.of_nat n + 1.

(** [sizeof(WrappedType<T>)] in words: a multiple of sixteen. *)
Definition sizeof_wrapped : nat := 16 * ((n + 2 + 15) / 16).

Definition wrapped_init (m : list Z) : res (list Z) :=
  m ← wr m seq_at (u32 (kInvalidSeq + 1)); s ← rd m seq_at; wr m check_at s.

Definition wrapped_reset (m : list Z) (payload : list Z) : res (list Z) :=
  m ← wrapped_init m; write_bytes m 1 payload.

Definition meta_sz : Z := 4 + 4.

Definition consistent (m : list Z) : res bool :=
  s ← rd m seq_at; c ← rd m check_at; Ok ((s =? c) && negb (s =? kInvalidSeq)).

Definition begin_write (m : list Z) : res (list Z * Z) :=
  ret ← rd m check_at;
  m ← wr m check_at kInvalidSeq; m ← wr m seq_at kInvalidSeq; Ok (m, ret).

Definition done_write (m : list Z) (seq : Z) : res (list Z) :=
  m ← wr m seq_at (u32 (seq + 1)); s ← rd m seq_at; wr m check_at s.

(** [AtomicRW::atomic_read]: [op k] is what the [k]-th attempt copies, [words]
    the size of the buffer.  The count of retries is set to 0 again by every
    attempt. *)
Fixpoint attempts (op : nat -> res (option (list Z))) (fuel k : nat) : res (option (list Z)) :=
  match fuel with
  | O => Err OutOfFuel
  | S fuel =>
      let retry_cnt := 0 in
      r ← op k;
      match r with
      | None => Ok None
      | Some m =>
          ok ← consistent m;
          if ok : bool then Ok (Some m)
          else
            let retry_cnt := retry_cnt + 1 in
            _ ← guard_ok (negb (1000000 <? retry_cnt)) AssertFailed;
            attempts op fuel (S k)
      end
  end.

Definition atomic_read (op : nat -> res (option (list Z))) (words : Z) (fuel : nat)
    : res (option (list Z)) :=
  _ ← guard_ok (Z.of_nat sizeof_wrapped <=? words) AssertFailed; attempts op fuel 0.

(** ** Reads that overlap a write *)

(** Where the writer is: between its stores to [seq_check] and [seq] in
    [begin_write], writing, between them in [done_write]. *)
Inductive writer := WIdle | WCleared (ret : Z) | WWriting (ret : Z) | WPublishing.

Definition wconfig : Type := list Z * writer.

Inductive store_step : wconfig -> wconfig -> Prop :=
  | StoreClear m ret m' : rd m check_at = Ok ret -> wr m check_at kInvalidSeq = Ok m' ->
      store_step (m, WIdle) (m', WCleared ret)
  | StoreInvalid m ret m' : wr m seq_at kInvalidSeq = Ok m' ->
      store_step (m, WCleared ret) (m', WWriting ret)
  | StorePayload m ret i v m' : 1 <= i <= Z.of_nat n -> wr m i v = Ok m' ->
      store_step (m, WWriting ret) (m', WWriting ret)
  | StoreSeq m ret m' : wr m seq_at (u32 (ret + 1)) = Ok m' ->
      store_step (m, WWriting ret) (m', WPublishing)
  | StoreCheck m s m' : rd m seq_at = Ok s -> wr m check_at s = Ok m' ->
      store_step (m, WPublishing) (m', WIdle).

(** [begin_write] and [done_write] are these stores in a row. *)
Lemma begin_write_steps m m' ret : begin_write m = Ok (m', ret) ->
  nsteps store_step 2 (m, WIdle) (m', WWriting ret).
Proof.
  unfold begin_write. intros H. apply bind_Ok in H as (r & Hr & H).
  apply bind_Ok in H as (m1 & H1 & H). apply bind_Ok in H as (m2 & H2 & H).
  apply Ok_inj, pair_equal_spec in H as [<- <-].
  eapply nsteps_l; [by constructor|]. apply nsteps_once. by constructor.
Qed.

Lemma done_write_steps m m' ret : done_write m ret = Ok m' ->
  nsteps store_step 2 (m, WWriting ret) (m', WIdle).
Proof.
  unfold done_write. intros H. apply bind_Ok in H as (m1 & H1 & H).
  apply bind_Ok in H as (s & Hs & H).
  eapply nsteps_l; [by constructor|]. apply nsteps_once. by econstructor.
Qed.

(** *** The progress of the writer

    [at_stage s0 c p]: since the version was [s0] and the writer idle, it has
    made [p] stores to the versions, four for each write. *)
Definition at_stage (s0 : Z) (c : wconfig) (p : Z) : Prop :=
  length c.1 = sizeof_wrapped /\ 0 <= p /\
  let b := p / 4 in
  match c.2 with
  | WIdle => p mod 4 = 0 /\ rd c.1 seq_at = Ok (u32 (s0 + b)) /\ rd c.1 check_at = Ok (u32 (s0 + b))
  | WCleared ret => p mod 4 = 1 /\ ret = u32 (s0 + b) /\ rd c.1 seq_at = Ok ret /\ rd c.1 check_at = Ok 0
  | WWriting ret => p mod 4 = 2 /\ ret = u32 (s0 + b) /\ rd c.1 seq_at = Ok 0 /\ rd c.1 check_at = Ok 0
  | WPublishing => p mod 4 = 3 /\ rd c.1 seq_at = Ok (u32 (s0 + b + 1)) /\ rd c.1 check_at = Ok 0
  end.

Definition same_payload (m m' : list Z) : Prop :=
  forall i, 1 <= i <= Z.of_nat n -> rd m' i = rd m i.

Lemma stage_step p : 0 <= p ->
  (p mod 4 = 0 -> (p + 1) mod 4 = 1 /\ (p + 1) / 4 = p / 4) /\
  (p mod 4 = 1 -> (p + 1) mod 4 = 2 /\ (p + 1) / 4 = p / 4) /\
  (p mod 4 = 2 -> (p + 1) mod 4 = 3 /\ (p + 1) / 4 = p / 4) /\
  (p mod 4 = 3 -> (p + 1) mod 4 = 0 /\ (p + 1) / 4 = p / 4 + 1).
Proof. intros Hp. Z.div_mod_to_equations. lia. Qed.

Lemma store_step_stage s0 c c' p : at_stage s0 c p -> store_step c c' ->
  exists p', p <= p' <= p + 1 /\ at_stage s0 c' p' /\
    (p mod 4 <> 2 -> same_payload c.1 c'.1).
Proof.
  intros (Hl & Hp & Hst) Hs. destruct (stage_step p Hp) as (H0 & H1 & H2 & H3).
  assert (Hne : seq_at <> check_at) by (unfold seq_at, check_at; lia).
  assert (Hout : forall m j x m', wr m j x = Ok m' -> j = seq_at \/ j = check_at -> same_payload m m').
  { intros m j x m' Hw Hj i Hi. eapply rd_wr_ne; [exact Hw|]. unfold seq_at, check_at in *. lia. }
  destruct Hs as [m ret m' Hr Hw|m ret m' Hw|m ret i v m' Hi Hw|m ret m' Hw|m s m' Hr Hw];
    cbn [fst snd] in *; (pose proof (wr_length _ _ _ _ Hw) as Hlen).
  - destruct Hst as (Hm & Hseq & Hck). destruct (H0 Hm) as [E1 E2]. exists (p + 1).
    split; [lia|]. split; [|intros _; eapply Hout; eauto].
    split; [cbn [fst]; congruence|]. split; [lia|]. cbn [fst snd]. cbv zeta. rewrite E2. split; [done|].
    split; [congruence|]. rewrite (rd_wr_ne _ _ _ _ _ Hw) by done. split; [congruence|].
    by apply (rd_wr_eq _ _ _ _ Hw).
  - destruct Hst as (Hm & Hret & Hseq & Hck). destruct (H1 Hm) as [E1 E2]. exists (p + 1).
    split; [lia|]. split; [|intros _; eapply Hout; eauto].
    split; [cbn [fst]; congruence|]. split; [lia|]. cbn [fst snd]. cbv zeta. rewrite E2. split; [done|]. split; [done|].
    rewrite (rd_wr_eq _ _ _ _ Hw), (rd_wr_ne _ _ _ _ _ Hw) by done. done.
  - destruct Hst as (Hm & Hret & Hseq & Hck). exists p. split; [lia|]. split; [|intros; done].
    split; [cbn [fst]; congruence|]. split; [lia|]. cbn [fst snd]. cbv zeta. split; [done|]. split; [done|].
    rewrite !(rd_wr_ne _ _ _ _ _ Hw) by (unfold seq_at, check_at; lia). done.
  - destruct Hst as (Hm & Hret & Hseq & Hck). destruct (H2 Hm) as [E1 E2]. exists (p + 1).
    split; [lia|]. split; [|intros; done].
    split; [cbn [fst]; congruence|]. split; [lia|]. cbn [fst snd]. cbv zeta. rewrite E2. split; [done|].
    rewrite (rd_wr_eq _ _ _ _ Hw), (rd_wr_ne _ _ _ _ _ Hw) by done. split; [|done].
    by rewrite Hret, wrap_add_l.
  - destruct Hst as (Hm & Hseq & Hck). destruct (H3 Hm) as [E1 E2]. exists (p + 1).
    split; [lia|]. split; [|intros _; eapply Hout; eauto].
    split; [cbn [fst]; congruence|]. split; [lia|]. cbn [fst snd]. cbv zeta. rewrite E2. split; [done|].
    rewrite (rd_wr_eq _ _ _ _ Hw), (rd_wr_ne _ _ _ _ _ Hw) by done.
    assert (s = u32 (s0 + p / 4 + 1)) as -> by congruence. rewrite Hseq.
    by replace (s0 + (p / 4 + 1)) with (s0 + p / 4 + 1) by lia.
Qed.

Lemma store_steps_stage s0 k c c' p : nsteps store_step k c c' -> at_stage s0 c p ->
  exists p', p <= p' <= p + Z.of_nat k /\ at_stage s0 c' p' /\
    ((forall x, p <= x <= p' -> x mod 4 <> 2) -> same_payload c.1 c'.1).
Proof.
  intros Hs. revert p. induction Hs as [c|k c1 c2 c3 Hstep Hs IH]; intros p Hp.
  - exists p. split; [lia|]. split; [done|]. by intros _ i _.
  - destruct (store_step_stage s0 c1 c2 p Hp Hstep) as (p2 & Hr2 & Hp2 & Hs2).
    destruct (IH p2 Hp2) as (p3 & Hr3 & Hp3 & Hs3).
    exists p3. split; [lia|]. split; [done|]. intros Hx i Hi.
    rewrite (Hs3 ltac:(intros x ?; apply Hx; lia) i Hi). apply Hs2; [apply Hx; lia|done].
Qed.

Lemma u32_inj a b : u32 a = u32 b -> 0 <= b - a < 2 ^ 32 -> a = b.
Proof.
  intros E H. unfold wrap in E. assert ((b - a) mod 2 ^ 32 = 0) as E0.
  { rewrite Zminus_mod, E, Z.sub_diag. done. }
  rewrite Z.mod_small in E0 by done. lia.
Qed.

(** The version read before and the check read after agree: no write was
    between its first and its last store in between. *)
Lemma stages_agree s0 c c' p p' s : at_stage s0 c p -> at_stage s0 c' p' -> p <= p' < p + 2 ^ 32 ->
  rd c.1 seq_at = Ok s -> rd c'.1 check_at = Ok s -> s <> 0 ->
  (forall x, p <= x <= p' -> x mod 4 <> 2) /\ forall ret, c.2 <> WWriting ret.
Proof.
  intros (Hl & Hp & Hc) (Hl' & Hp' & Hc') Hr Hs Hk Hne. cbv zeta in Hc, Hc'.
  destruct c' as [m' [|ret'|ret'|]]; cbn [fst snd] in *;
    [|destruct Hc' as (_ & _ & _ & E); congruence|destruct Hc' as (_ & _ & _ & E); congruence
     |destruct Hc' as (_ & _ & E); congruence].
  destruct Hc' as (Hm' & _ & Hck). assert (Es : s = u32 (s0 + p' / 4)) by congruence.
  destruct c as [m [|ret|ret|]]; cbn [fst snd] in *.
  - destruct Hc as (Hm & Hsq & _). assert (E : u32 (s0 + p / 4) = u32 (s0 + p' / 4)) by congruence.
    apply u32_inj in E; [|Z.div_mod_to_equations; lia]. split; [|done].
    intros x Hx. assert (x = p) as -> by (Z.div_mod_to_equations; lia). lia.
  - destruct Hc as (Hm & -> & Hsq & _). assert (E : u32 (s0 + p / 4) = u32 (s0 + p' / 4)) by congruence.
    apply u32_inj in E; [|Z.div_mod_to_equations; lia]. exfalso. Z.div_mod_to_equations. lia.
  - destruct Hc as (_ & _ & Hsq & _). congruence.
  - destruct Hc as (Hm & Hsq & _).
    assert (E : u32 (s0 + p / 4 + 1) = u32 (s0 + p' / 4)) by congruence.
    apply u32_inj in E; [|Z.div_mod_to_equations; lia]. split; [|done].
    intros x Hx. Z.div_mod_to_equations. lia.
Qed.

(** *** The copy *)

Lemma rd_cons {A} (x : A) l i : rd (x :: l) (Z.of_nat (S i)) = rd l (Z.of_nat i).
Proof.
  unfold rd, in_range. rewrite !Nat2Z.id. cbn [lookup list_lookup length].
  destruct (Z.ltb_spec (Z.of_nat i) (Z.of_nat (length l)));
    destruct (Z.ltb_spec (Z.of_nat (S i)) (Z.of_nat (S (length l))));
    rewrite !(proj2 (Z.leb_le 0 _)) by lia; try done; lia.
Qed.

Lemma ordered_read_spec r i words l : ordered_read r i words = Ok l ->
  length l = words /\ forall x, (x < words)%nat ->
    rd l (Z.of_nat x) = rd (r (i + x / 2)%nat) (2 * Z.of_nat i + Z.of_nat x).
Proof.
  revert i l. induction words as [[|[|words]] IH] using lt_wf_ind; intros i l H;
    cbn [ordered_read] in H.
  - apply Ok_inj in H as <-. split; [done|]. lia.
  - done.
  - apply bind_Ok in H as (lo & Hlo & H). apply bind_Ok in H as (hi & Hhi & H).
    apply bind_Ok in H as (rest & Hrest & H). apply Ok_inj in H as <-.
    destruct (IH words ltac:(lia) (S i) rest Hrest) as [Hlen Hx]. split; [cbn; lia|].
    intros x Hlt. destruct x as [|[|x]].
    + change (0 / 2)%nat with 0%nat. rewrite Nat.add_0_r, Z.add_0_r, Hlo. done.
    + change (1 / 2)%nat with 0%nat. rewrite Nat.add_0_r, rd_cons.
      change (2 * Z.of_nat i + Z.of_nat 1) with (2 * Z.of_nat i + 1). by rewrite Hhi.
    + rewrite !rd_cons, Hx by lia. f_equal; [|lia]. f_equal.
      replace (S (S x)) with (x + 1 * 2)%nat by lia. rewrite Nat.div_add by lia. lia.
Qed.

Lemma steps_chain (c : nat -> wconfig) (k : nat -> nat) i d :
  (forall j, (j < i + d)%nat -> nsteps store_step (k j) (c j) (c (S j))) ->
  nsteps store_step (sum_list (k <$> seq i d)) (c i) (c (i + d)%nat).
Proof.
  revert i. induction d as [|d IH]; intros i H; cbn [seq fmap list_fmap sum_list_with].
  - rewrite Nat.add_0_r. constructor.
  - eapply nsteps_trans; [apply H; lia|]. replace (i + S d)%nat with (S i + d)%nat by lia.
    apply IH. intros j Hj. apply H. lia.
Qed.

Lemma sum_list_split (k : nat -> nat) i d1 d2 :
  sum_list (k <$> seq i (d1 + d2)) = (sum_list (k <$> seq i d1) + sum_list (k <$> seq (i + d1) d2))%nat.
Proof. by rewrite seq_app, fmap_app, sum_list_with_app. Qed.

(** C40: The versions make ordered reads atomic.  [OrderedRWOp] copies a wrapped
    object with its loads in the memories [c 0], [c 1], ..., between which the
    writer makes any of its stores, fewer than 2^32 altogether.  If the copy is
    consistent, its version and payload are those the object had at the first
    load, when the writer was not writing the payload. *)
Theorem ordered_read_atomic s0 p (c : nat -> wconfig) (k : nat -> nat) l : at_stage s0 (c 0%nat) p ->
  (forall i, (i < sizeof_wrapped / 2)%nat -> nsteps store_step (k i) (c i) (c (S i))) ->
  Z.of_nat (sum_list (k <$> seq 0 (sizeof_wrapped / 2))) < 2 ^ 32 ->
  ordered_read (fun i => (c i).1) 0 sizeof_wrapped = Ok l -> consistent l = Ok true ->
  rd l seq_at = rd (c 0%nat).1 seq_at /\ same_payload (c 0%nat).1 l /\
  forall ret, (c 0%nat).2 <> WWriting ret.
Proof.
  intros Hst Hsteps Hsum Hread Hcons.
  destruct (ordered_read_spec _ _ _ _ Hread) as [Hlen Hl].
  assert (Hsize : (n + 2 <= sizeof_wrapped)%nat).
  { unfold sizeof_wrapped. pose proof (Nat.div_mod_eq (n + 2 + 15) 16).
    pose proof (Nat.mod_upper_bound (n + 2 + 15) 16). lia. }
  assert (Hat : forall x, (x < sizeof_wrapped)%nat -> rd l (Z.of_nat x) = rd (c (x / 2)%nat).1 (Z.of_nat x)).
  { intros x Hx. by rewrite Hl by done. }
  unfold consistent in Hcons. apply bind_Ok in Hcons as (s & Hs & Hcons).
  apply bind_Ok in Hcons as (ck & Hck & Hcons). apply Ok_inj, andb_true_iff in Hcons as [E Hne].
  apply Z.eqb_eq in E as <-. apply negb_true_iff, Z.eqb_neq in Hne.
  pose proof (Hat 0%nat ltac:(lia)) as H0. change (0 / 2)%nat with 0%nat in H0. change (Z.of_nat 0) with seq_at in H0.
  set (e := ((n + 1) / 2)%nat).
  assert (He : (e <= sizeof_wrapped / 2)%nat) by (apply Nat.Div0.div_le_mono; lia).
  pose proof (Hat (n + 1)%nat ltac:(lia)) as Hc. replace (Z.of_nat (n + 1)) with check_at in Hc
    by (unfold check_at; lia). fold e in Hc.
  assert (Hpart : forall i d, (i + d <= e)%nat -> nsteps store_step (sum_list (k <$> seq i d)) (c i) (c (i + d)%nat)).
  { intros i d Hid. apply steps_chain. intros j Hj. apply Hsteps. lia. }
  assert (Hbound : forall i, (i <= e)%nat ->
    Z.of_nat (sum_list (k <$> seq 0 i)) + Z.of_nat (sum_list (k <$> seq i (e - i))) < 2 ^ 32).
  { intros i Hi. pose proof (sum_list_split k 0 i (e - i)) as E. replace (i + (e - i))%nat with e in E by lia.
    pose proof (sum_list_split k 0 e (sizeof_wrapped / 2 - e)) as E2.
    replace (e + (sizeof_wrapped / 2 - e))%nat with (sizeof_wrapped / 2)%nat in E2 by lia.
    cbn [Nat.add] in E. lia. }
  assert (Hmain : forall i, (i <= e)%nat -> same_payload (c 0%nat).1 (c i).1 /\ forall ret, (c 0%nat).2 <> WWriting ret).
  { intros i Hi. destruct (store_steps_stage s0 _ _ _ p (Hpart 0%nat i ltac:(lia)) Hst)
      as (pi & Hpi & Hsi & Hsame).
    pose proof (Hpart i (e - i)%nat ltac:(lia)) as Hrest. replace (i + (e - i))%nat with e in Hrest by lia.
    destruct (store_steps_stage s0 _ _ _ pi Hrest Hsi) as (pe & Hpe & Hse & _).
    specialize (Hbound i Hi).
    destruct (stages_agree s0 (c 0%nat) (c e) p pe s Hst Hse) as [Hno Hnw];
      [lia|congruence|congruence|done|].
    split; [|done]. apply Hsame. intros x Hx. apply Hno. lia. }
  split; [congruence|]. split; [|apply (Hmain 0%nat); lia].
  intros i Hi. replace i with (Z.of_nat (Z.to_nat i)) by lia.
  rewrite Hat by lia. apply Hmain; [|lia]. unfold e. apply Nat.Div0.div_le_mono. lia.
Qed.

(** A destination larger than the source: the copy reads past the source. *)
Lemma local_read_over src dest : (length src < length dest)%nat ->
  local_read src dest = Err OutOfBounds.
Proof.
  intros H. unfold local_read, read_bytes, sz. rewrite Z.add_0_l.
  destruct (Z.ltb_spec (Z.of_nat (length dest)) (Z.of_nat (length src))); [lia|].
  destruct (Z.leb_spec (Z.of_nat (length dest)) (Z.of_nat (length src))); [lia|].
  by rewrite andb_false_r.
Qed.

(** The limit on retries is never reached: an object that stays inconsistent
    keeps [atomic_read] in its loop for ever. *)
Lemma atomic_read_never_gives_up op words fuel : Z.of_nat sizeof_wrapped <= words ->
  (forall k, exists m, op k = Ok (Some m) /\ consistent m = Ok false) ->
  atomic_read op words fuel = Err OutOfFuel.
Proof.
  intros Hw Hop. unfold atomic_read. rewrite (proj2 (Z.leb_le _ _) Hw). cbn [guard_ok].
  rewrite bind_Ok_l. generalize 0%nat as j. induction fuel as [|fuel IH]; intros j; [done|].
  cbn [attempts]. destruct (Hop j) as (m & -> & Hm). rewrite bind_Ok_l, Hm, bind_Ok_l.
  change (1000000 <? 0 + 1) with false. cbn [negb guard_ok]. by rewrite bind_Ok_l.
Qed.

(** The 2^32-th version is the invalid one: after the write no copy is
    consistent, though nobody is writing. *)
Lemma version_wraps m m1 m2 : rd m check_at = Ok (2 ^ 32 - 1) ->
  begin_write m = Ok (m1, 2 ^ 32 - 1) -> done_write m1 (2 ^ 32 - 1) = Ok m2 ->
  consistent m2 = Ok false.
Proof.
  intros _ _ H. unfold done_write in H. apply bind_Ok in H as (m3 & H3 & H).
  apply bind_Ok in H as (s & Hs & H). rewrite (rd_wr_eq _ _ _ _ H3) in Hs. apply Ok_inj in Hs as <-.
  unfold consistent. assert (Hne : check_at <> seq_at) by (unfold seq_at, check_at; lia).
  rewrite (rd_wr_ne _ _ _ _ _ H Hne), (rd_wr_eq _ _ _ _ H3), bind_Ok_l, (rd_wr_eq _ _ _ _ H).
  done.
Qed.
End wrapped.

(** A write to a two-word object has stored [seq] but not [seq_check] when the
    reader makes its first load, and is over at the second. *)
Definition demo_obj (check : Z) : list Z := [2; 10; 20; check] ++ replicate 12 0.

Definition demo_run (i : nat) : wconfig :=
  match i with O => (demo_obj 0, WPublishing) | S _ => (demo_obj 2, WIdle) end.

Lemma ordered_read_atomic_witness : exists l,
  ordered_read (fun i => (demo_run i).1) 0 (sizeof_wrapped 2) = Ok l /\
  rd l seq_at = Ok 2 /\ same_payload 2 (demo_obj 0) l /\
  forall ret, WPublishing <> WWriting ret.
Proof.
  exists (demo_obj 2). split; [reflexivity|].
  apply (ordered_read_atomic 2 1 3 demo_run (fun i => match i with O => 1%nat | _ => 0%nat end) (demo_obj 2)).
  - split; [reflexivity|]. split; [lia|]. cbv zeta. split; [reflexivity|]. split; reflexivity.
  - intros [|i] _; [|constructor]. eapply nsteps_once, (StoreCheck 2 _ 2); reflexivity.
  - vm_compute. reflexivity.
  - reflexivity.
  - reflexivity.
Defined.
